(* ===== verification/_CoqProject ===== *)
-Q . S2P
Prelude.v
Schedules.v
Words.v
Allocator.v
AllocatorInv.v
AllocatorMark.v
AllocatorScan.v
Extents.v
AllocatorOps.v
AllocatorSpec.v
AllocatorThms.v
Bytes.v
Moss.v
MossBitmap.v
MossJSON.v
MossThms.v
SpaceBitmap.v
SpaceBitmapSpec.v
Pebble.v
WriteBatch.v
BatchPebble.v
BatchThms.v
BlockDevice.v
BlockDeviceSpec.v
BlockDeviceThms.v
FileMetaCodec.v
AioChannel.v
Crc32.v
Upload.v
UploadInv.v
UploadThms.v
RSocket.v
RSocketThms.v
GoAio.v
GoAioThms.v
ChannelIO.v
ChannelThms.v
GoStrings.v
DeviceScan.v
DeviceScanThms.v
Lifecycle.v
LifecycleThms.v
Client.v
ClientThms.v
ServerRuntime.v
ServerRuntimeThms.v
ClientRun.v
ClientRunThms.v
Bench.v
BenchThms.v
GoText.v
Dump.v
DumpThms.v
AlignedPool.v
IoBench.v
DeviceFile.v
AioStack.v
Concurrent.v
ConcurrentThms.v
ConcurrentSim.v
Durability.v
Startup.v
Stats.v
CommandText.v
