(* ===== verification/Prelude.v ===== *)
(** * Corgi: verification of the object-storage server's core

    Corgi stores objects on raw block devices.  A client uploads a file over an
    RSocket channel; the upload handler collects the data, allocates blocks,
    writes them with Linux AIO and commits metadata, space bitmap and counters
    in one Pebble batch.  The development models the parts of this path that
    carry the program's own logic and proves them correct, from the bitmap
    words of the allocator up to whole upload sessions.

    ** Components, files and correspondence

    - [internal/fs/allocator_v3.go]: the three-level bitmap allocator.
      [Allocator] has its state (record [AllocatorV3]: L0 bits, L1 and L2
      two-bit summaries, [available], [lastPos]) and one definition per
      function; loops over words and entries are [for_range] and
      [search_range].  [AllocatorInv], [AllocatorMark], [AllocatorScan],
      [AllocatorOps] have the invariant (every summary entry is exact) and the
      lemmas per operation; [Extents] the extent algebra; [AllocatorSpec] the
      abstract free map and the refinement; [AllocatorThms] the theorems
      (C3-C7).
    - [internal/database/pebble/ms_pebble.go]: the value merger.  [Moss] models
      it, [MossBitmap] and [MossJSON] its two non-trivial branches, [MossThms]
      the theorems that hold for every order in which Pebble may evaluate the
      merges (C9-C11); a bracketing is a tree over the operands.
    - Pebble itself is third-party code: [Pebble] has it as a class of
      operations ([PebbleOps]) with its documented behaviour as laws
      ([PebbleLaws]), and an in-memory store that satisfies them.
    - [WriteBatch.go] and [batch_pebble.go]: [WriteBatch] (reads and writes with
      the delete-marker convention) and [BatchPebble] (request handlers,
      [flush], and the processor goroutine with concurrent clients as the step
      relation [sys_step]); theorems in [BatchThms] (C12-C15).
    - [internal/fs/block_device.go]: [SpaceBitmap] (bitmap operands),
      [BlockDevice] (allocation, rollback, release, formatting, loading),
      [SpaceBitmapSpec] and [BlockDeviceSpec] (what they do to the stored
      bitmap), [BlockDeviceThms] (C16).  The device uses the allocator
      through the class [ExtentAllocator] with its laws; [AllocatorV3] is an
      instance.
    - [internal/ec/server/file_meta_codec.go]: [FileMetaCodec] (C17).
    - [internal/fs/aio_channel.go]: [AioChannel], the write path over a disk
      given by the class [AioDisk] (C18); [ChannelIO], whole writes and
      reads with the pool of read buffers as arrays in a heap, and the code of
      [cmd/aio_channel_bench] that splits extents and reads them back;
      theorems in [ChannelThms] (C32, C33).
    - [internal/ec/server/aio_upload_server_handler.go],
      [internal/message/pb/object.go], [meta_reader.go]: [Crc32], [Upload],
      with the invariant of an upload in [UploadInv] and the theorems in
      [UploadThms] (C20-C22, C26).
    - The same handler with any number of uploads on one device: [Concurrent]
      has an event per shared action (a call of the allocator, an [io_submit],
      a write of the kernel, a flush of the batch writer, the end of a
      context); [ConcurrentThms] shows that uploads do not disturb each other,
      that all can be answered with nothing left in flight, both as long as no
      context ends during a kernel write, and what a context that does breaks
      (C2, C23, C25); [ConcurrentSim] that the sequential model is one
      of the schedules; [Durability] adds crashes and restarts and shows that
      a stored file is not lost under the same condition (C1).
    - The write statistics of the handler and the goroutine of [main.go] that
      prints them: [Stats], one step per atomic operation (C29).
    - [internal/network/rsocket]: [RSocket], the session loop and the payload
      decoding, with the theorems in [RSocketThms] (C27, C28); [ServerRuntime],
      the stream that joins the wire to a session, as the step relation
      [flux_step] of the library and three goroutines over shared channels,
      with the theorems in [ServerRuntimeThms] (C30, C31).
    - [cmd/aio_upload_client]: [Client], the payloads of an upload, its names and
      data, the errors of the connection and the check of the answers, with the
      wire format of [rsocket/payload.go]; [ClientThms] composes client and
      server and shows what the client's verdict is worth (C8);
      [ClientRun], the pool of workers as the step relation [pool_step], with
      the verdict of a run in [ClientRunThms] (C40).
    - [cmd/aio_channel_bench]: [Bench], the cases, the verification and the
      pipeline of writers and readers as the step relation [bench_step];
      [BenchThms] shows that it terminates without waiting for its context,
      reads back what it wrote and gives every block back (C39).
    - [internal/fs/aligned_pool.go]: [AlignedPool], the pools of aligned buffers
      with any number of goroutines as the step relation [apool_step];
      [DeviceFile], the synchronous access of [block_device.go].
    - [tool/peppledump.go]: [Dump], the scan and the printers, over [GoText]
      (UTF-8, quoting, hexadecimal) and classes for Pebble's iterator and for
      [protowire]; [DumpThms] shows that the scan prints exactly the keys asked
      for and that the protobuf printer ends on every input.
    - [cmd/io_uring_test]: [IoBench], the arguments, the prepared file and the
      workers of a phase as the step relation [iob_step].
    - Sizes with a unit in the arguments of both commands, and the process times
      of [/proc/self/stat]: [CommandText], with doubles as [SpecFloat] has them.
    - [Schedules] has what the step relations share: termination by a measure
      and replacing one goroutine in a list.
    - [internal/fs/block_device_scan.go]: [GoStrings] (the string, number and
      path functions of the standard library it uses) and [DeviceScan]: the
      mount table, partitions and candidates over the class [OS] of system
      calls; theorems in [DeviceScanThms] (C36, C37).
    - Opening and closing, over [block_device.go], [ms_pebble.go],
      [batch_pebble.go] and [block_device_scan.go]: [Lifecycle], with a process
      state that counts open databases, processors, files and AIO contexts;
      theorem in [LifecycleThms] (C34).
    - [main.go], [StartRSocketServer] and the device choice of
      [cmd/aio_channel_bench]: [Startup] (C35).
    - [internal/third_party/goaio]: [GoAio], the slots, the token semaphore,
      submission and completion; [GoAioThms] has the interleavings of writers,
      kernel and completion loop as the step relation [aio_step] (C24, C38).
      [AioStack] puts the channel's [submitAndWait] and [completionLoop] on top
      of it, over a kernel given by the class [AioKernel], with a wait that ends
      with the completion or with the context, and shows that this implements
      [AioDisk] and what a context that ends leaves in flight (C19).

    ** Conventions

    Machine integers are [Z] with [u64] and [i64] where the code can wrap;
    slices are lists indexed by [Z]; a run-time panic is [None]; an error
    result is the left side of a sum, by its message.  A mutex-protected method
    is one step.  Bytes are [Z] below 256 ([byte_ok]).

    ** Failing commits

    The laws of [PebbleLaws] let a commit that reports an error have applied
    the whole batch or nothing.  [BatchThms], [UploadThms], [RSocketThms] and
    [ClientThms] take both into account and say which of their conclusions
    depend on it; the theorems about many uploads and about crashes assume
    [cleanFailure], that a failed commit changed nothing, because the handler
    frees the blocks of such an upload.

    ** Fuel

    Loops that Go writes with a condition run on fuel that the theorems show to
    be enough: [extendRun] has one unit per remaining word, [allocLoop] one per
    wanted block (every iteration takes at least one), [persistExtent] one per
    block, [deleteFuel] two (a marker key is not a digit key),
    [splitOne] one per byte.  Where a loop waits for the kernel, the list of its
    answers bounds the loop.  The theorems
    state that a result is returned, not only what it is if there is one.

    ** Not modelled

    System calls themselves, Pebble's own code and options, the
    configuration of the RSocket library, generated protobuf code, the
    profiling handlers of [main.go], and the rates and memory statistics the
    commands print.  In [Upload] the flush goroutine of an
    upload is run to its end inside the operation that waits for its response,
    which is the only order a session allows; [Concurrent] has the orders of
    several sessions.  The laws of [AioDisk] describe what a write that returned
    has done; a request that a cancelled context leaves with the kernel is in
    [AioStack], and its effect on other uploads in [Concurrent].  In [Bench]
    one write or read of a record is one step.
    [Init] is run by one goroutine, as the program does, so its [LoadOrStore]
    never finds a device. *)

From stdpp Require Import base decidable list numbers option.
From Stdlib Require Import ZArith Lia.

Declare Scope go_scope.
Delimit Scope go_scope with go.
Open Scope go_scope.
#[global] Open Scope Z_scope.

(** ** Automation *)

(** [dlia] is [lia] with division and remainder by constants unfolded into
    their defining equations. *)
Ltac dlia := Z.to_euclidean_division_equations; lia.

(** [bool_norm] turns boolean comparisons on [Z] in the context into
    propositions. *)
Ltac bool_norm :=
  repeat match goal with
  | H : (_ <? _) = true |- _ => apply Z.ltb_lt in H
  | H : (_ <? _) = false |- _ => apply Z.ltb_ge in H
  | H : (_ <=? _) = true |- _ => apply Z.leb_le in H
  | H : (_ <=? _) = false |- _ => apply Z.leb_gt in H
  | H : (_ =? _) = true |- _ => apply Z.eqb_eq in H
  | H : (_ =? _) = false |- _ => apply Z.eqb_neq in H
  | H : (_ || _)%bool = false |- _ => apply orb_false_iff in H as [? ?]
  | H : (_ && _)%bool = true |- _ => apply andb_true_iff in H as [? ?]
  | H : (_ || _)%bool = true |- _ => apply orb_true_iff in H
  | H : (_ && _)%bool = false |- _ => apply andb_false_iff in H
  | H : negb _ = true |- _ => apply negb_true_iff in H
  | H : negb _ = false |- _ => apply negb_false_iff in H
  end.

(** [case_bool] splits on the first boolean guard of the goal and normalises
    what the two branches learn. *)
Ltac case_bool :=
  match goal with
  | |- context [if ?b then _ else _] =>
      lazymatch type of b with bool => destruct b eqn:? end
  end; bool_norm.

(** [go_step] runs the next bind of a Go function without unfolding anything
    else. *)
Ltac go_step := cbn [mbind option_bind].

(** Facts about Go slices and loops that [auto] may use. *)
Create HintDb go.
Create Rewrite HintDb go.

(** ** Go slices

    A slice is a list.  Reading or writing outside the slice is a run-time
    panic, which the development writes [None]: a function of result type
    [option A] is a Go function that may panic, and a theorem that it equals
    [Some _] says that it does not. *)

Definition zlen {A} (l : list A) : Z := Z.of_nat (length l).

Definition zget {A} (l : list A) (i : Z) : option A :=
  if 0 <=? i then l !! Z.to_nat i else None.

Definition zset {A} (l : list A) (i : Z) (x : A) : option (list A) :=
  if (0 <=? i) && (i <? zlen l) then Some (<[Z.to_nat i := x]> l) else None.

Notation "l .[ i ]" := (zget l i) (at level 1, format "l .[ i ]") : go_scope.
Notation "l .[ i <- x ]" := (zset l i x) (at level 1, format "l .[ i <- x ]") : go_scope.

(** [n] copies of [z], the contents of a fresh slice of length [n]. *)
Definition zmake {A} (n : Z) (z : A) : list A := replicate (Z.to_nat n) z.

(** [make([]T, n)]: panics on a negative length. *)
Definition makeSlice {A} (n : Z) (z : A) : option (list A) :=
  if n <? 0 then None else Some (zmake n z).

Section slices.
Context {A : Type}.
Implicit Types (l : list A) (x y : A) (i j : Z).

Lemma zlen_nonneg l : 0 <= zlen l.
Proof. unfold zlen. lia. Qed.

Lemma zget_some l i : 0 <= i < zlen l -> exists x, l.[i] = Some x.
Proof.
  intros H. unfold zget, zlen in *. rewrite (proj2 (Z.leb_le 0 i)) by lia.
  apply lookup_lt_is_Some_2. lia.
Qed.

Lemma zget_bound l i x : l.[i] = Some x -> 0 <= i < zlen l.
Proof.
  unfold zget, zlen. intros H. case_match; bool_norm; [|done].
  apply lookup_lt_Some in H. lia.
Qed.

Lemma zget_none l i : i < 0 \/ zlen l <= i -> l.[i] = None.
Proof.
  unfold zget, zlen. intros H. case_match; bool_norm; [|done].
  apply lookup_ge_None. lia.
Qed.

Lemma zset_some l i x : 0 <= i < zlen l -> l.[i <- x] = Some (<[Z.to_nat i := x]> l).
Proof. intros H. unfold zset. by rewrite (proj2 (Z.leb_le 0 i)), (proj2 (Z.ltb_lt i _)) by lia. Qed.

Lemma zlen_insert l n x : zlen (<[n := x]> l) = zlen l.
Proof. unfold zlen. by rewrite length_insert. Qed.

Lemma zget_insert l i j x :
  0 <= i < zlen l -> (<[Z.to_nat i := x]> l).[j] = if i =? j then Some x else l.[j].
Proof.
  intros H. unfold zget, zlen in *. destruct (i =? j) eqn:E; bool_norm.
  - subst. rewrite (proj2 (Z.leb_le 0 j)) by lia. apply list_lookup_insert_eq. lia.
  - case_match; bool_norm; [|done]. apply list_lookup_insert_ne. lia.
Qed.

Lemma zlen_make n z : 0 <= n -> zlen (zmake n z : list A) = n.
Proof. intros. unfold zlen, zmake. rewrite length_replicate. lia. Qed.

Lemma zget_make n i z : 0 <= i < n -> (zmake n z : list A).[i] = Some z.
Proof.
  intros H. unfold zget, zmake. rewrite (proj2 (Z.leb_le 0 i)) by lia.
  apply lookup_replicate_2. lia.
Qed.

Lemma makeSlice_some n z : 0 <= n -> makeSlice n z = Some (zmake n z : list A).
Proof. intros. unfold makeSlice. by rewrite (proj2 (Z.ltb_ge n 0)). Qed.

Lemma zget_cons x l i : (x :: l).[i] = if i =? 0 then Some x else l.[i - 1].
Proof.
  unfold zget. destruct (i =? 0) eqn:E; bool_norm; [by subst|].
  destruct (0 <=? i) eqn:E1, (0 <=? i - 1) eqn:E2; bool_norm; try lia; [|done].
  by replace (Z.to_nat i) with (S (Z.to_nat (i - 1))) by lia.
Qed.

(** Two slices with the same elements at every index are equal. *)
Lemma zget_ext l1 l2 :
  zlen l1 = zlen l2 -> (forall i, 0 <= i < zlen l1 -> l1.[i] = l2.[i]) -> l1 = l2.
Proof.
  intros Hl H. apply list_eq. intros i. unfold zlen in *.
  destruct (decide (i < length l1)%nat) as [Hi|Hi].
  - specialize (H (Z.of_nat i) ltac:(lia)). unfold zget in H.
    rewrite (proj2 (Z.leb_le 0 _)), Nat2Z.id in H by lia. done.
  - rewrite !(proj2 (lookup_ge_None _ _)) by lia. done.
Qed.
End slices.

#[export] Hint Resolve zlen_nonneg zget_bound : go.
#[export] Hint Rewrite @zlen_insert : go.

(** ** Go loops *)

Section loops.
Context {S R : Type}.

(** [for i := i0; i < i0+n; i++ { body }] over a loop state; [None] is a
    panic in the body. *)
Fixpoint for_loop (n : nat) (i : Z) (body : Z -> S -> option S) (s : S) : option S :=
  match n with
  | O => Some s
  | Datatypes.S n => s' ← body i s; for_loop n (i + 1) body s'
  end.

Definition for_range (lo hi : Z) (body : Z -> S -> option S) (s : S) : option S :=
  for_loop (Z.to_nat (hi - lo)) lo body s.

(** [for i := i0; i < i0+n; i++ { ... return r ... }]: the body either
    returns from the enclosing function ([Some (Some r)]), goes on to the
    next iteration ([Some None]) or panics ([None]). *)
Fixpoint search_loop (n : nat) (i : Z) (body : Z -> option (option R)) : option (option R) :=
  match n with
  | O => Some None
  | Datatypes.S n =>
      r ← body i;
      match r with Some r => Some (Some r) | None => search_loop n (i + 1) body end
  end.

Definition search_range (lo hi : Z) (body : Z -> option (option R)) : option (option R) :=
  search_loop (Z.to_nat (hi - lo)) lo body.

Lemma for_range_empty lo hi body s : hi <= lo -> for_range lo hi body s = Some s.
Proof. intros. unfold for_range. by replace (Z.to_nat (hi - lo)) with O by lia. Qed.

Lemma search_range_empty lo hi body : hi <= lo -> search_range lo hi body = Some None.
Proof. intros. unfold search_range. by replace (Z.to_nat (hi - lo)) with O by lia. Qed.

(** Total-correctness rule of the counting loop: an invariant the body
    keeps, without a panic, holds at the end. *)
Lemma for_range_ind (P : Z -> S -> Prop) lo hi body s :
  lo <= hi -> P lo s ->
  (forall i s, lo <= i < hi -> P i s -> exists s', body i s = Some s' /\ P (i + 1) s') ->
  exists s', for_range lo hi body s = Some s' /\ P hi s'.
Proof.
  intros Hle Hlo Hstep. unfold for_range.
  remember (Z.to_nat (hi - lo)) as n eqn:Hn.
  revert lo s Hle Hlo Hstep Hn. induction n as [|n IH]; intros lo s Hle Hlo Hstep Hn; simpl.
  - exists s. split; [done|]. by replace hi with lo by lia.
  - destruct (Hstep lo s) as (s' & -> & Hs'); [lia|done|]. simpl.
    apply IH; [lia|done| |lia]. intros i t Hi. apply Hstep. lia.
Qed.

(** [for i := hi; i >= lo; i-- { body }] *)
Definition for_down (hi lo : Z) (body : Z -> S -> option S) (s : S) : option S :=
  for_range 0 (hi - lo + 1) (fun t => body (hi - t)) s.

(** Total-correctness rule of the downward loop: [P i] holds before the
    iteration for [i], [P (lo - 1)] at the end. *)
Lemma for_down_ind (P : Z -> S -> Prop) hi lo body s :
  lo - 1 <= hi -> P hi s ->
  (forall i s, lo <= i <= hi -> P i s -> exists s', body i s = Some s' /\ P (i - 1) s') ->
  exists s', for_down hi lo body s = Some s' /\ P (lo - 1) s'.
Proof.
  intros Hle Hhi Hstep. unfold for_down.
  destruct (for_range_ind (fun t => P (hi - t)) 0 (hi - lo + 1) (fun t => body (hi - t)) s)
    as (s' & E & H); [lia|by rewrite Z.sub_0_r| |].
  - intros t u Ht Hu. destruct (Hstep (hi - t) u) as (u' & E & H); [lia|done|].
    exists u'. split; [done|]. by replace (hi - (t + 1)) with (hi - t - 1) by lia.
  - exists s'. split; [done|]. by replace (hi - (hi - lo + 1)) with (lo - 1) in H by lia.
Qed.

(** The same for a search loop: it either runs to the end, keeping the
    invariant, or returns a result that meets the postcondition. *)
Lemma search_range_ind (P : Z -> Prop) (Q : R -> Prop) lo hi body :
  lo <= hi -> P lo ->
  (forall i, lo <= i < hi -> P i ->
     (body i = Some None /\ P (i + 1)) \/ (exists r, body i = Some (Some r) /\ Q r)) ->
  (search_range lo hi body = Some None /\ P hi) \/
  (exists r, search_range lo hi body = Some (Some r) /\ Q r).
Proof.
  intros Hle Hlo Hstep. unfold search_range.
  remember (Z.to_nat (hi - lo)) as n eqn:Hn.
  revert lo Hle Hlo Hstep Hn. induction n as [|n IH]; intros lo Hle Hlo Hstep Hn; simpl.
  - left. split; [done|]. by replace hi with lo by lia.
  - destruct (Hstep lo) as [[-> Hs]|(r & -> & Hr)]; [lia|done| |]; simpl; [|eauto].
    apply IH; [lia|done| |lia]. intros i Hi. apply Hstep. lia.
Qed.
End loops.

(** ** Counting over a range of integers *)

Fixpoint count_from (f : Z -> bool) (lo : Z) (n : nat) : Z :=
  match n with
  | O => 0
  | S n => (if f lo then 1 else 0) + count_from f (lo + 1) n
  end.

(** The number of [b] with [lo <= b < hi] and [f b]. *)
Definition count (f : Z -> bool) (lo hi : Z) : Z := count_from f lo (Z.to_nat (hi - lo)).

Section counting.
Implicit Types (f g : Z -> bool) (lo mid hi : Z).

Lemma count_from_app f lo n m :
  count_from f lo (n + m) = count_from f lo n + count_from f (lo + Z.of_nat n) m.
Proof.
  revert lo. induction n as [|n IH]; intros lo; simpl count_from.
  - by rewrite Z.add_0_r.
  - simpl. rewrite IH. replace (lo + Z.of_nat (S n)) with (lo + 1 + Z.of_nat n) by lia. lia.
Qed.

Lemma count_split f lo mid hi :
  lo <= mid <= hi -> count f lo hi = count f lo mid + count f mid hi.
Proof.
  intros H. unfold count.
  replace (Z.to_nat (hi - lo)) with (Z.to_nat (mid - lo) + Z.to_nat (hi - mid))%nat by lia.
  rewrite count_from_app. do 3 f_equal. lia.
Qed.

Lemma count_empty f lo hi : hi <= lo -> count f lo hi = 0.
Proof. intros. unfold count. by replace (Z.to_nat (hi - lo)) with O by lia. Qed.

Lemma count_one f lo : count f lo (lo + 1) = if f lo then 1 else 0.
Proof. unfold count. replace (Z.to_nat (lo + 1 - lo)) with 1%nat by lia. simpl. lia. Qed.

Lemma count_from_ext f g lo lo' n :
  (forall k, 0 <= k < Z.of_nat n -> f (lo + k) = g (lo' + k)) ->
  count_from f lo n = count_from g lo' n.
Proof.
  revert lo lo'. induction n as [|n IH]; intros lo lo' H; simpl; [done|].
  pose proof (H 0 ltac:(lia)) as H0. rewrite !Z.add_0_r in H0. rewrite H0.
  rewrite (IH (lo + 1) (lo' + 1)); [done|]. intros k Hk.
  pose proof (H (k + 1) ltac:(lia)) as H1.
  replace (lo + 1 + k) with (lo + (k + 1)) by lia.
  replace (lo' + 1 + k) with (lo' + (k + 1)) by lia. done.
Qed.

Lemma count_ext f g lo hi :
  (forall b, lo <= b < hi -> f b = g b) -> count f lo hi = count g lo hi.
Proof. intros H. apply count_from_ext. intros k Hk. apply H. lia. Qed.

(** Counting is invariant under translation. *)
Lemma count_shift f g lo hi d :
  (forall b, lo <= b < hi -> f b = g (b + d)) -> count f lo hi = count g (lo + d) (hi + d).
Proof.
  intros H. unfold count. replace (hi + d - (lo + d)) with (hi - lo) by lia.
  apply count_from_ext. intros k Hk. rewrite H by lia. f_equal. lia.
Qed.

Lemma count_from_bounds f lo n : 0 <= count_from f lo n <= Z.of_nat n.
Proof.
  revert lo. induction n as [|n IH]; intros lo; simpl count_from; [lia|].
  pose proof (IH (lo + 1)). destruct (f lo); lia.
Qed.

Lemma count_bounds f lo hi : 0 <= count f lo hi <= Z.max 0 (hi - lo).
Proof. unfold count. pose proof (count_from_bounds f lo (Z.to_nat (hi - lo))). lia. Qed.

Lemma count_all f lo hi :
  lo <= hi -> (forall b, lo <= b < hi -> f b = true) -> count f lo hi = hi - lo.
Proof.
  intros Hle H. unfold count. remember (Z.to_nat (hi - lo)) as n eqn:Hn.
  revert lo Hle H Hn. induction n as [|n IH]; intros lo Hle H Hn; simpl; [lia|].
  rewrite H by lia. rewrite IH; [lia|lia| |lia]. intros b Hb. apply H. lia.
Qed.

Lemma count_none f lo hi :
  (forall b, lo <= b < hi -> f b = false) -> count f lo hi = 0.
Proof.
  intros H. unfold count. remember (Z.to_nat (hi - lo)) as n eqn:Hn.
  revert lo H Hn. induction n as [|n IH]; intros lo H Hn; simpl; [lia|].
  rewrite H by lia. rewrite IH; [lia| |lia]. intros b Hb. apply H. lia.
Qed.

Lemma count_pos f lo hi b : lo <= b < hi -> f b = true -> 0 < count f lo hi.
Proof.
  intros Hb Hf. rewrite (count_split f lo b hi), (count_split f b (b + 1) hi) by lia.
  rewrite count_one, Hf. pose proof (count_bounds f lo b). pose proof (count_bounds f (b + 1) hi). lia.
Qed.

(** Splitting a count by a second predicate. *)
Lemma count_partition f g lo hi :
  count f lo hi = count (fun b => f b && g b) lo hi + count (fun b => f b && negb (g b)) lo hi.
Proof.
  unfold count. generalize (Z.to_nat (hi - lo)) as n. intros n. revert lo.
  induction n as [|n IH]; intros lo; simpl; [done|]. rewrite IH.
  destruct (f lo), (g lo); simpl; lia.
Qed.

(** The first [b] in a range with [f b], if there is one. *)
Lemma count_first f lo hi :
  (forall b, lo <= b < hi -> f b = false) \/
  (exists b, lo <= b < hi /\ f b = true /\ forall c, lo <= c < b -> f c = false).
Proof.
  remember (Z.to_nat (hi - lo)) as n eqn:Hn. revert lo Hn.
  induction n as [|n IH]; intros lo Hn; [left; lia|].
  destruct (f lo) eqn:E; [right; exists lo; repeat split; [lia..|done|lia]|].
  destruct (IH (lo + 1)) as [H|(b & Hb & Hf & Hc)]; [lia| |].
  - left. intros b Hb. destruct (decide (b = lo)); [by subst|apply H; lia].
  - right. exists b. repeat split; [lia..|done|]. intros c Hcb.
    destruct (decide (c = lo)); [by subst|apply Hc; lia].
Qed.
End counting.
