(* ===== verification/Schedules.v ===== *)
(** * Schedules

    What the step relations of concurrent parts share: termination by a
    measure, and the effect of one goroutine's step on a list of goroutines. *)

From stdpp Require Import base decidable list numbers option relations.
From Stdlib Require Import ZArith Lia.
From S2P Require Import Prelude.

(** ** Termination *)

(** If the steps inside an invariant lower a measure, no run that starts in it
    is infinite. *)
Lemma Acc_measure_inv {A} (R : relation A) (P : A -> Prop) (f : A -> nat) :
  (forall x y, P x -> R x y -> P y /\ (f y < f x)%nat) -> forall x, P x -> Acc (flip R) x.
Proof.
  intros H x Hx. assert (Hn : forall n y, P y -> (f y < n)%nat -> Acc (flip R) y); [|by eapply (Hn (S (f x))), Nat.lt_succ_diag_r].
  induction n as [|n IH]; intros y Hy Hlt; [lia|]. constructor. intros z Hz. destruct (H y z Hy Hz). apply IH; [done|lia].
Qed.

(** A relation whose steps lower a measure has no infinite run. *)
Lemma Acc_measure {A} (R : relation A) (f : A -> nat) : (forall x y, R x y -> (f y < f x)%nat) -> forall x, Acc (flip R) x.
Proof. intros H x. by apply (Acc_measure_inv R (fun _ => True) f); [split; [done|by apply H]|]. Qed.

(** ** Replacing one element *)

Lemma concat_insert_Permutation {A B} (f : A -> list B) (l : list A) k x y :
  l !! k = Some x -> f y ++ concat (map f l) ≡ₚ f x ++ concat (map f (<[k := y]> l)).
Proof.
  revert k. induction l as [|a l IH]; intros [|k] E; try done; simpl in *.
  - injection E as ->. rewrite !app_assoc. apply Permutation_app_tail, Permutation_app_comm.
  - specialize (IH k E). rewrite !(Permutation_app_swap_app _ (f a)). by rewrite IH.
Qed.

Lemma omap_insert_Permutation {A B} (f : A -> option B) (l : list A) k x y :
  l !! k = Some x -> option_list (f y) ++ omap f l ≡ₚ option_list (f x) ++ omap f (<[k := y]> l).
Proof.
  revert k. induction l as [|a l IH]; intros [|k] E; try done; simpl in *.
  - injection E as ->. destruct (f x), (f y); simpl; try done. apply Permutation_swap.
  - specialize (IH k E). destruct (f a); [|done]. by rewrite <- !Permutation_middle, IH.
Qed.

Lemma sum_list_insert {A} (f : A -> nat) (l : list A) k x y :
  l !! k = Some x -> (sum_list_with f (<[k := y]> l) + f x = sum_list_with f l + f y)%nat.
Proof.
  revert k. induction l as [|a l IH]; intros [|k] E; try done; simpl in *.
  - injection E as ->. lia.
  - specialize (IH k E). lia.
Qed.

Lemma Forall_insert_back {A} (P : A -> Prop) l k x y : Forall P (<[k := y]> l) -> l !! k = Some x -> P x -> Forall P l.
Proof.
  intros HF E Hx. apply Forall_lookup. intros j z Hz. destruct (decide (j = k)) as [->|Hne]; [by simplify_eq|].
  eapply Forall_lookup_1; [exact HF|]. by rewrite list_lookup_insert_ne.
Qed.

(** Either all goroutines are in a state, or one is not. *)
Lemma all_or_not {A} `{EqDecision A} (v : A) (l : list A) : Forall (eq v) l \/ exists k x, l !! k = Some x /\ x <> v.
Proof.
  destruct (decide (Exists (fun x => x <> v) l)) as [HE|HE].
  - right. apply Exists_exists in HE as (x & Hx & Hd). apply list_elem_of_lookup in Hx as [k Hk]. eauto.
  - left. apply Forall_Exists_neg in HE. eapply Forall_impl; [exact HE|]. intros x Hx. simpl in Hx. by destruct (decide (x = v)).
Qed.
