(* ===== verification/Words.v ===== *)
(** * Machine integers of the Go program

    [uint64] words are integers in [[0, 2^64)], [int64] values integers in
    [[-2^63, 2^63)].  Operations that can leave the range wrap explicitly with
    [u64] or [i64].  The file also models the functions of [math/bits] and
    [encoding/binary] that the program calls. *)

From stdpp Require Import base decidable list numbers option.
From Stdlib Require Import ZArith Lia.
From S2P Require Import Prelude.

Definition u64 (x : Z) : Z := x mod 2 ^ 64.
Definition i64 (x : Z) : Z := (x + 2 ^ 63) mod 2 ^ 64 - 2 ^ 63.

Definition is_u64 (x : Z) : Prop := 0 <= x < 2 ^ 64.
Definition is_i64 (x : Z) : Prop := - 2 ^ 63 <= x < 2 ^ 63.

(** [^uint64(0)] *)
Definition ones64 : Z := 2 ^ 64 - 1.
(** [^w] on a [uint64] *)
Definition not64 (w : Z) : Z := Z.lxor w ones64.
(** [w << n] on a [uint64]; a shift by 64 or more gives 0, as in Go *)
Definition shl64 (w n : Z) : Z := u64 (Z.shiftl w n).

(** [bits.TrailingZeros64]: 64 for the word 0. *)
Fixpoint tz_from (n : nat) (i w : Z) : Z :=
  match n with
  | O => i
  | S n => if Z.testbit w i then i else tz_from n (i + 1) w
  end.
Definition TrailingZeros64 (w : Z) : Z := tz_from 64 0 w.

(** [bits.OnesCount64] *)
Definition OnesCount64 (w : Z) : Z := count (Z.testbit w) 0 64.

(** ** Ranges *)

Lemma u64_range x : is_u64 (u64 x).
Proof. unfold is_u64, u64. apply Z.mod_pos_bound. lia. Qed.

Lemma u64_small x : is_u64 x -> u64 x = x.
Proof. intros. apply Z.mod_small. done. Qed.

Lemma i64_range x : is_i64 (i64 x).
Proof. unfold is_i64, i64. pose proof (Z.mod_pos_bound (x + 2 ^ 63) (2 ^ 64)). lia. Qed.

Lemma i64_small x : is_i64 x -> i64 x = x.
Proof. unfold is_i64, i64. intros. rewrite Z.mod_small; lia. Qed.

(** Reinterpreting an [int64] as a [uint64] and back. *)
Lemma i64_u64 x : is_i64 x -> i64 (u64 x) = x.
Proof.
  unfold is_i64, i64, u64. intros H.
  rewrite Z.add_mod_idemp_l by lia. rewrite Z.mod_small; lia.
Qed.

Lemma u64_i64 x : is_u64 x -> u64 (i64 x) = x.
Proof.
  unfold is_u64, u64, i64. intros H. rewrite Zminus_mod_idemp_l.
  replace (x + 2 ^ 63 - 2 ^ 63) with x by lia. apply Z.mod_small. lia.
Qed.

(** ** Bits of words *)

Lemma testbit_high n w i : 0 <= w < 2 ^ n -> 0 <= n <= i -> Z.testbit w i = false.
Proof.
  intros Hw Hi. rewrite <- (Z.mod_small w (2 ^ n)) by done.
  apply Z.mod_pow2_bits_high. lia.
Qed.

Lemma is_u64_testbit w i : is_u64 w -> 64 <= i -> Z.testbit w i = false.
Proof. intros. apply (testbit_high 64); [done|lia]. Qed.

(** A non-negative integer without bits from [n] on is below [2^n]. *)
Lemma bits_bound n w :
  0 <= n -> 0 <= w -> (forall i, n <= i -> Z.testbit w i = false) -> 0 <= w < 2 ^ n.
Proof.
  intros Hn Hw H. split; [done|].
  assert (w = w mod 2 ^ n) as ->; [|apply Z.mod_pos_bound; lia].
  apply Z.bits_inj'. intros i Hi. destruct (decide (i < n)).
  - by rewrite Z.mod_pow2_bits_low.
  - rewrite Z.mod_pow2_bits_high by lia. apply H. lia.
Qed.

Lemma u64_ext a b :
  is_u64 a -> is_u64 b ->
  (forall i, 0 <= i < 64 -> Z.testbit a i = Z.testbit b i) -> a = b.
Proof.
  intros Ha Hb H. apply Z.bits_inj'. intros i Hi.
  destruct (decide (i < 64)); [apply H; lia|]. by rewrite !is_u64_testbit by (done || lia).
Qed.

Lemma testbit_ones64 i : 0 <= i < 64 -> Z.testbit ones64 i = true.
Proof. intros. change ones64 with (Z.ones 64). rewrite Z.ones_spec_low; [done|lia]. Qed.

Lemma is_u64_ones64 : is_u64 ones64.
Proof. unfold is_u64, ones64. lia. Qed.

Lemma is_u64_0 : is_u64 0.
Proof. unfold is_u64. lia. Qed.

Lemma testbit_not64 w i : 0 <= i < 64 -> Z.testbit (not64 w) i = negb (Z.testbit w i).
Proof. intros. unfold not64. rewrite Z.lxor_spec, testbit_ones64 by done. by destruct (Z.testbit w i). Qed.

Lemma testbit_shl64 w n i :
  0 <= n -> 0 <= i < 64 -> Z.testbit (shl64 w n) i = Z.testbit w (i - n).
Proof.
  intros. unfold shl64, u64. rewrite Z.mod_pow2_bits_low by lia. apply Z.shiftl_spec. lia.
Qed.

Lemma is_u64_land a b : is_u64 a -> is_u64 (Z.land a b).
Proof.
  intros H. apply bits_bound; [lia|apply Z.land_nonneg; unfold is_u64 in H; lia|].
  intros i Hi. by rewrite Z.land_spec, is_u64_testbit.
Qed.

Lemma is_u64_lor a b : is_u64 a -> is_u64 b -> is_u64 (Z.lor a b).
Proof.
  intros Ha Hb. apply bits_bound; [lia|apply Z.lor_nonneg; unfold is_u64 in *; lia|].
  intros i Hi. by rewrite Z.lor_spec, !is_u64_testbit.
Qed.

Lemma is_u64_ldiff a b : is_u64 a -> is_u64 (Z.ldiff a b).
Proof.
  intros H. apply bits_bound; [lia|apply Z.ldiff_nonneg; unfold is_u64 in H; lia|].
  intros i Hi. by rewrite Z.ldiff_spec, is_u64_testbit.
Qed.

Lemma is_u64_shiftr a n : is_u64 a -> 0 <= n -> is_u64 (Z.shiftr a n).
Proof.
  intros H Hn. apply bits_bound; [lia|apply Z.shiftr_nonneg; unfold is_u64 in H; lia|].
  intros i Hi. rewrite Z.shiftr_spec by lia. apply is_u64_testbit; [done|lia].
Qed.

#[export] Hint Resolve u64_range is_u64_ones64 is_u64_0 is_u64_land is_u64_lor is_u64_ldiff
  is_u64_shiftr : go.

Lemma is_u64_shl64 w n : is_u64 (shl64 w n).
Proof. apply u64_range. Qed.
#[export] Hint Resolve is_u64_shl64 : go.

(** A [uint64] is non-zero iff one of its bits is set. *)
Lemma u64_zero_iff w : is_u64 w -> (w = 0 <-> forall i, 0 <= i < 64 -> Z.testbit w i = false).
Proof.
  intros Hw. split; [intros -> i _; apply Z.bits_0|]. intros H.
  apply u64_ext; [done|apply is_u64_0|]. intros i Hi. rewrite Z.bits_0. auto.
Qed.

Lemma u64_ones_iff w : is_u64 w -> (w = ones64 <-> forall i, 0 <= i < 64 -> Z.testbit w i = true).
Proof.
  intros Hw. split; [intros ->; apply testbit_ones64|]. intros H.
  apply u64_ext; [done|apply is_u64_ones64|]. intros i Hi. rewrite testbit_ones64 by done. auto.
Qed.

(** ** [math/bits] *)

Lemma tz_from_spec n i w :
  i <= tz_from n i w <= i + Z.of_nat n /\
  (forall j, i <= j < tz_from n i w -> Z.testbit w j = false) /\
  (tz_from n i w < i + Z.of_nat n -> Z.testbit w (tz_from n i w) = true).
Proof.
  revert i. induction n as [|n IH]; intros i; simpl tz_from.
  - repeat split; lia.
  - destruct (Z.testbit w i) eqn:E; [repeat split; [lia..|done]|].
    destruct (IH (i + 1)) as (Hb & Hl & Ht). repeat split; [lia..| |].
    + intros j Hj. destruct (decide (j = i)); [by subst|]. apply Hl. lia.
    + intros Hlt. apply Ht. lia.
Qed.

Lemma TrailingZeros64_spec w :
  0 <= TrailingZeros64 w <= 64 /\
  (forall j, 0 <= j < TrailingZeros64 w -> Z.testbit w j = false) /\
  (TrailingZeros64 w < 64 -> Z.testbit w (TrailingZeros64 w) = true).
Proof. apply (tz_from_spec 64 0 w). Qed.

Lemma TrailingZeros64_lt w : is_u64 w -> w <> 0 -> TrailingZeros64 w < 64.
Proof.
  intros Hw Hnz. destruct (TrailingZeros64_spec w) as (Hb & Hl & _).
  destruct (decide (TrailingZeros64 w = 64)) as [E|]; [|lia]. destruct Hnz.
  apply u64_zero_iff; [done|]. intros i Hi. apply Hl. lia.
Qed.

(** ** [encoding/binary], little endian *)

Definition byte_ok (b : Z) : Prop := 0 <= b < 256.

(** [binary.LittleEndian.PutUint64] and its relatives: [n] bytes of [x]. *)
Fixpoint le_bytes (n : nat) (x : Z) : list Z :=
  match n with
  | O => []
  | S n => x mod 256 :: le_bytes n (x / 256)
  end.

(** [binary.LittleEndian.Uint64] and its relatives. *)
Fixpoint le_value (bs : list Z) : Z :=
  match bs with
  | [] => 0
  | b :: bs => b + 256 * le_value bs
  end.

Lemma le_bytes_length n x : length (le_bytes n x) = n.
Proof. revert x. induction n as [|n IH]; intros x; simpl; [done|]. by rewrite IH. Qed.

Lemma le_bytes_ok n x : Forall byte_ok (le_bytes n x).
Proof.
  revert x. induction n as [|n IH]; intros x; simpl; constructor; [|done].
  unfold byte_ok. apply Z.mod_pos_bound. lia.
Qed.

Lemma le_value_bytes n x : le_value (le_bytes n x) = x mod 2 ^ (8 * Z.of_nat n).
Proof.
  revert x. induction n as [|n IH]; intros x; cbn [le_bytes le_value].
  - by rewrite Z.mod_1_r.
  - rewrite IH. replace (8 * Z.of_nat (S n)) with (8 + 8 * Z.of_nat n) by lia.
    rewrite Z.pow_add_r by lia. change (2 ^ 8) with 256.
    rewrite Z.rem_mul_r by lia. done.
Qed.

Lemma le_value_bound bs : Forall byte_ok bs -> 0 <= le_value bs < 2 ^ (8 * zlen bs).
Proof.
  induction 1 as [|b bs Hb _ IH]; [done|]. cbn [le_value]. unfold zlen in *. simpl length.
  replace (8 * Z.of_nat (S (length bs))) with (8 + 8 * Z.of_nat (length bs)) by lia.
  rewrite Z.pow_add_r by lia. change (2 ^ 8) with 256. unfold byte_ok in Hb. lia.
Qed.

Lemma le_bytes_value bs : Forall byte_ok bs -> le_bytes (length bs) (le_value bs) = bs.
Proof.
  induction 1 as [|b bs Hb _ IH]; [done|]. cbn [le_value le_bytes length].
  unfold byte_ok in Hb.
  replace ((b + 256 * le_value bs) mod 256) with b by dlia.
  replace ((b + 256 * le_value bs) / 256) with (le_value bs) by dlia. by rewrite IH.
Qed.
