(* ===== verification/Allocator.v ===== *)
(** * The three-level bitmap allocator: definitions

    Model of [internal/fs/allocator_v3.go].  L0 has one bit per block (1 is
    free), L1 a two-bit summary per slotset of eight L0 words (512 blocks), L2
    a two-bit summary per slotset of eight L1 words.  Every method runs under
    the allocator's mutex, so a method is one state transformer.  Go's integer
    division truncates; all operands of [/] and [mod] below are non-negative,
    where it agrees with the division of [Z]. *)

From stdpp Require Import base decidable list numbers option strings.
From Stdlib Require Import ZArith Lia.
From S2P Require Import Prelude Words.

(** ** Data *)

Definition v3BitsPerSlot : Z := 64.
Definition v3SlotsPerSlotset : Z := 8.
Definition v3L1EntryWidth : Z := 2.
Definition v3L1EntryMask : Z := 3.
Definition v3L1EntryFull : Z := 0.
Definition v3L1EntryPartial : Z := 1.
Definition v3L1EntryFree : Z := 3.
Definition v3L1EntriesPerSlot : Z := 32.
Definition v3BitsPerSlotset : Z := 512.
Definition v3BitsPerL1Slotset : Z := 131072.

(** An extent: [{Offset, Size}], in blocks or in bytes depending on the
    function. *)
Record Result := mkResult { Offset : Z; Size : Z }.

#[export] Instance Result_eq_dec : EqDecision Result.
Proof. solve_decision. Defined.

Record AllocatorV3 := mkAllocatorV3 {
  total : Z;
  available : Z;
  l0 : list Z;
  l1 : list Z;
  l2 : list Z;
  l0Slots : Z;
  lastPos : Z;
}.

Definition set_available (a : AllocatorV3) (v : Z) : AllocatorV3 :=
  mkAllocatorV3 (total a) v (l0 a) (l1 a) (l2 a) (l0Slots a) (lastPos a).
Definition set_l0 (a : AllocatorV3) (v : list Z) : AllocatorV3 :=
  mkAllocatorV3 (total a) (available a) v (l1 a) (l2 a) (l0Slots a) (lastPos a).
Definition set_l1 (a : AllocatorV3) (v : list Z) : AllocatorV3 :=
  mkAllocatorV3 (total a) (available a) (l0 a) v (l2 a) (l0Slots a) (lastPos a).
Definition set_l2 (a : AllocatorV3) (v : list Z) : AllocatorV3 :=
  mkAllocatorV3 (total a) (available a) (l0 a) (l1 a) v (l0Slots a) (lastPos a).
Definition set_lastPos (a : AllocatorV3) (v : Z) : AllocatorV3 :=
  mkAllocatorV3 (total a) (available a) (l0 a) (l1 a) (l2 a) (l0Slots a) v.

(** The errors the methods return, one constructor per [fmt.Errorf]. *)
Inductive alloc_error :=
  | ErrNilAllocator
  | ErrInvalidAllocateSize (want : Z)
  | ErrNotEnoughSpace (want avail : Z)
  | ErrBitmapInconsistent (want left_ avail : Z)
  | ErrInvalidExtent (op : string) (offset size tot : Z)
  | ErrNotFullyAllocated (offset size : Z)
  | ErrExtentsOverlap (r1 r2 : Result)
  | ErrAvailableBelowZero
  | ErrAvailableExceedsTotal.

(** A method call: [None] is a panic; otherwise the new state and either an
    error or the returned value. *)
Definition outcome (A : Type) : Type := option (AllocatorV3 * (alloc_error + A)).

(** ** Arithmetic helpers *)

Definition minInt64 (a b : Z) : Z := if a <? b then a else b.
Definition maxInt64 (a b : Z) : Z := if b <? a then a else b.

Definition alignUp (v align : Z) : Z :=
  if align <=? 0 then v else i64 (Z.quot (i64 (i64 (v + align) - 1)) align * align).

(** The conversions [uint(e - start)] and [uint(start - wordStart)] wrap. *)
Definition v3RangeMask (offset end_ wordIndex : Z) : Z :=
  let wordStart := wordIndex * v3BitsPerSlot in
  let wordEnd := wordStart + v3BitsPerSlot in
  let start := maxInt64 offset wordStart in
  let e := minInt64 end_ wordEnd in
  let width := u64 (e - start) in
  let shift := u64 (start - wordStart) in
  if width =? 0 then 0
  else if v3BitsPerSlot <=? width then ones64
  else shl64 (shl64 1 width - 1) shift.

Definition v3ValidWordMask (a : AllocatorV3) (index : Z) : Z :=
  if index <? zlen (l0 a) - 1 then ones64
  else
    let rem := total a mod v3BitsPerSlot in
    if rem =? 0 then ones64 else shl64 1 rem - 1.

Definition appendResult (results : list Result) (r : Result) : list Result :=
  if Size r <=? 0 then results
  else
    match last results with
    | Some p =>
        if Offset p + Size p =? Offset r
        then take (length results - 1) results ++ [mkResult (Offset p) (Size p + Size r)]
        else results ++ [r]
    | None => results ++ [r]
    end.

Definition extentsOverlap (a b : Result) : bool :=
  (Offset a <? Offset b + Size b) && (Offset b <? Offset a + Size a).

(** ** Summary maintenance *)

(** Loop bodies of the two update functions: the flags [allFree, allAlloc]
    after one more word. *)
Definition l0WordFlags (a : AllocatorV3) (k : Z) (s : bool * bool) : option (bool * bool) :=
  w ← (l0 a).[k];
  let mask := v3ValidWordMask a k in
  Some (if Z.land w mask =? mask then s.1 else false, if Z.land w mask =? 0 then s.2 else false).

Definition l1WordFlags (a : AllocatorV3) (k : Z) (s : bool * bool) : option (bool * bool) :=
  w ← (l1 a).[k];
  Some (if w =? ones64 then s.1 else false, if w =? 0 then s.2 else false).

Definition updateL1ForL0Slot (a : AllocatorV3) (l0SlotIdx : Z) : option AllocatorV3 :=
  let slotsetIdx := l0SlotIdx / v3SlotsPerSlotset in
  let l1SlotIdx := slotsetIdx / v3L1EntriesPerSlot in
  let l1BitPos := slotsetIdx mod v3L1EntriesPerSlot in
  if zlen (l1 a) <=? l1SlotIdx then Some a
  else
    let ssStart := slotsetIdx * v3SlotsPerSlotset in
    let ssEnd := minInt64 (ssStart + v3SlotsPerSlotset) (zlen (l0 a)) in
    '(allFree, allAlloc) ← for_range ssStart ssEnd (l0WordFlags a) (true, true);
    let entry := if (allFree : bool) then v3L1EntryFree
                 else if (allAlloc : bool) then v3L1EntryFull else v3L1EntryPartial in
    let shift := l1BitPos * v3L1EntryWidth in
    w ← (l1 a).[l1SlotIdx];
    l1' ← (l1 a).[l1SlotIdx <-
             Z.lor (Z.ldiff w (shl64 v3L1EntryMask shift)) (shl64 entry shift)];
    Some (set_l1 a l1').

Definition updateL2ForL1Slot (a : AllocatorV3) (l1SlotIdx : Z) : option AllocatorV3 :=
  if zlen (l2 a) =? 0 then Some a
  else
    let l1SlotsetIdx := l1SlotIdx / v3SlotsPerSlotset in
    let l2SlotIdx := l1SlotsetIdx / v3L1EntriesPerSlot in
    let l2BitPos := l1SlotsetIdx mod v3L1EntriesPerSlot in
    if zlen (l2 a) <=? l2SlotIdx then Some a
    else
      let ssStart := l1SlotsetIdx * v3SlotsPerSlotset in
      let ssEnd := minInt64 (ssStart + v3SlotsPerSlotset) (zlen (l1 a)) in
      '(allFree, allAlloc) ← for_range ssStart ssEnd (l1WordFlags a) (true, true);
      let entry := if (allFree : bool) then v3L1EntryFree
                   else if (allAlloc : bool) then v3L1EntryFull else v3L1EntryPartial in
      let shift := l2BitPos * v3L1EntryWidth in
      w ← (l2 a).[l2SlotIdx];
      l2' ← (l2 a).[l2SlotIdx <-
               Z.lor (Z.ldiff w (shl64 v3L1EntryMask shift)) (shl64 entry shift)];
      Some (set_l2 a l2').

(** ** Marking a range *)

(** First step of [markRangeLocked]: one L0 word. *)
Definition markWord (offset end_ : Z) (free : bool) (i : Z) (s : AllocatorV3 * Z)
    : option (AllocatorV3 * Z) :=
  let '(a, changed) := s in
  let mask := Z.land (v3RangeMask offset end_ i) (v3ValidWordMask a i) in
  old ← (l0 a).[i];
  let '(changed', next) :=
    if free then (changed + OnesCount64 (Z.land (not64 old) mask), Z.lor old mask)
    else (changed + OnesCount64 (Z.land old mask), Z.ldiff old mask) in
  l0' ← (l0 a).[i <- next];
  Some (set_l0 a l0', changed').

Definition markRangeLocked (a : AllocatorV3) (offset size : Z) (free : bool)
    : option (AllocatorV3 * Z) :=
  if size <=? 0 then Some (a, 0)
  else
    let end_ := offset + size in
    let startWord := offset / v3BitsPerSlot in
    let endWord := (end_ - 1) / v3BitsPerSlot in
    '(a, changed) ←
      for_range startWord (minInt64 (endWord + 1) (zlen (l0 a))) (markWord offset end_ free) (a, 0);
    let startSlotset := startWord / v3SlotsPerSlotset in
    let endSlotset := endWord / v3SlotsPerSlotset in
    a ← for_range startSlotset (endSlotset + 1)
          (fun ss a => updateL1ForL0Slot a (ss * v3SlotsPerSlotset)) a;
    let startL1Slot := startSlotset / v3L1EntriesPerSlot in
    let endL1Slot := endSlotset / v3L1EntriesPerSlot in
    let startL1Slotset := startL1Slot / v3SlotsPerSlotset in
    let endL1Slotset := endL1Slot / v3SlotsPerSlotset in
    (* the loop breaks when the first L1 slot of the slotset is out of range *)
    a ← for_range startL1Slotset (endL1Slotset + 1)
          (fun l1Set a =>
             let li := l1Set * v3SlotsPerSlotset in
             if zlen (l1 a) <=? li then Some a else updateL2ForL1Slot a li) a;
    Some (a, changed).

Definition rangeFullyAllocatedLocked (a : AllocatorV3) (offset size : Z) : option bool :=
  let end_ := offset + size in
  let startWord := offset / v3BitsPerSlot in
  let endWord := (end_ - 1) / v3BitsPerSlot in
  r ← search_range startWord (minInt64 (endWord + 1) (zlen (l0 a)))
        (fun i =>
           let mask := Z.land (v3RangeMask offset end_ i) (v3ValidWordMask a i) in
           w ← (l0 a).[i];
           if Z.land w mask =? 0 then Some None else Some (Some false));
  Some (match r with Some b => b | None => true end).

(** ** Construction *)

Definition NewAllocatorV3 (blocks : Z) : option AllocatorV3 :=
  let a := mkAllocatorV3 blocks 0 [] [] [] 0 0 in
  if blocks <=? 0 then Some a
  else
    let l0SlotCount := Z.quot (i64 (i64 (blocks + v3BitsPerSlot) - 1)) v3BitsPerSlot in
    w0 ← makeSlice l0SlotCount ones64;
    let rem := blocks mod v3BitsPerSlot in
    w0 ← (if rem =? 0 then Some w0 else w0.[l0SlotCount - 1 <- shl64 1 rem - 1]);
    let l0Slotsets := (l0SlotCount + v3SlotsPerSlotset - 1) / v3SlotsPerSlotset in
    let l1SlotCount := maxInt64 1 ((l0Slotsets + v3L1EntriesPerSlot - 1) / v3L1EntriesPerSlot) in
    w1 ← makeSlice l1SlotCount 0;
    let l1Slotsets := (zlen w1 + v3SlotsPerSlotset - 1) / v3SlotsPerSlotset in
    let l2SlotCount := maxInt64 1 ((l1Slotsets + v3L1EntriesPerSlot - 1) / v3L1EntriesPerSlot) in
    w2 ← makeSlice l2SlotCount 0;
    let a := mkAllocatorV3 blocks 0 w0 w1 w2 l0SlotCount 0 in
    a ← for_range 0 l0SlotCount (fun i a => updateL1ForL0Slot a i) a;
    a ← for_range 0 (zlen (l1 a)) (fun li a => updateL2ForL1Slot a li) a;
    Some (set_available a blocks).

(** ** Searching for a free run *)

(** First step of [scanL0ForFreeRunLimited]: the first free bit at or after
    [fromBit], looking at words up to the one of [toBit - 1]; -1 for none. *)
Definition findFirstFree (a : AllocatorV3) (fromBit toBit : Z) : option Z :=
  let startWord := fromBit / v3BitsPerSlot in
  let bitOff := fromBit mod v3BitsPerSlot in
  w0 ← (l0 a).[startWord];
  let word := Z.shiftr w0 bitOff in
  if negb (word =? 0) then Some (startWord * v3BitsPerSlot + bitOff + TrailingZeros64 word)
  else
    let endWord := (toBit - 1) / v3BitsPerSlot in
    r ← search_range (startWord + 1) (endWord + 1)
          (fun w =>
             x ← (l0 a).[w];
             if negb (x =? 0) then Some (Some (w * v3BitsPerSlot + TrailingZeros64 x))
             else Some None);
    Some (match r with Some b => b | None => -1 end).

(** Second step: extend the run from bit [b] of word [w]; returns [runEnd].
    [n] counts the words left, [len(a.l0) - w]. *)
Fixpoint extendRun (n : nat) (a : AllocatorV3) (w b runEnd cap : Z) : option Z :=
  match n with
  | O => Some runEnd
  | S n =>
      if negb (0 <? cap) then Some runEnd
      else
        x ← (l0 a).[w];
        let shifted := Z.shiftr x b in
        let avail := v3BitsPerSlot - b in
        let k := minInt64 (minInt64 (TrailingZeros64 (not64 shifted)) avail) cap in
        let runEnd := runEnd + k in
        let cap := cap - k in
        if (k <? avail) || (cap =? 0) then Some runEnd
        else extendRun n a (w + 1) 0 runEnd cap
  end.

Definition scanL0ForFreeRunLimited (a : AllocatorV3) (fromBit toBit limit : Z) : option (Z * Z) :=
  if (toBit <=? fromBit) || (total a <=? fromBit) || (limit <=? 0) then Some (0, 0)
  else
    let toBit := minInt64 toBit (total a) in
    firstBit ← findFirstFree a fromBit toBit;
    if (firstBit <? 0) || (toBit <=? firstBit) || (total a <=? firstBit) then Some (0, 0)
    else
      let w := firstBit / v3BitsPerSlot in
      runEnd ← extendRun (Z.to_nat (zlen (l0 a) - w)) a w (firstBit mod v3BitsPerSlot) firstBit limit;
      let runEnd := minInt64 runEnd (total a) in
      let sz := runEnd - firstBit in
      if sz <=? 0 then Some (0, 0) else Some (firstBit, sz).

Definition scanL0ForFullFreeRun (a : AllocatorV3) (fromBit toBit : Z) : option (Z * Z) :=
  scanL0ForFreeRunLimited a fromBit toBit (total a).

(** The two-bit entry at position [pos] of a summary word. *)
Definition summaryEntry (word pos : Z) : Z :=
  Z.land (Z.shiftr word (pos * v3L1EntryWidth)) v3L1EntryMask.

(** The fast path of a FREE entry that covers the blocks [lo, hi). *)
Definition freeEntryRun (from limit lo hi : Z) : option (Z * Z) :=
  let actualStart := if lo <? from then from else lo in
  let sz := minInt64 limit (hi - actualStart) in
  if 0 <? sz then Some (actualStart, sz) else None.

(** Body of the innermost loop: L1 entry [bitPos] of L1 word [li]. *)
Definition searchL1Entry (a : AllocatorV3) (from limit li l1Word bitPos : Z) : option (option (Z * Z)) :=
  let l1Entry := summaryEntry l1Word bitPos in
  if l1Entry =? v3L1EntryFull then Some None
  else
    let l0SetGlobal := li * v3L1EntriesPerSlot + bitPos in
    let l0SlotStart := l0SetGlobal * v3SlotsPerSlotset in
    let slotStartBlock := l0SlotStart * v3BitsPerSlot in
    let slotEndBlock := minInt64 (slotStartBlock + v3BitsPerSlotset) (total a) in
    if l1Entry =? v3L1EntryFree then Some (freeEntryRun from limit slotStartBlock slotEndBlock)
    else
      let l0SlotEnd := minInt64 (l0SlotStart + v3SlotsPerSlotset) (zlen (l0 a)) in
      let bFrom := if from <? slotStartBlock then slotStartBlock else from in
      '(off, sz) ← scanL0ForFreeRunLimited a bFrom (l0SlotEnd * v3BitsPerSlot) limit;
      if 0 <? sz then Some (Some (off, sz)) else Some None.

(** Loop over the L1 words [startL1Slot, l1SlotEnd), the first of them from
    entry [initL1Bit] on. *)
Definition searchL1Slots (a : AllocatorV3) (from limit startL1Slot initL1Bit l1SlotEnd : Z)
    : option (option (Z * Z)) :=
  search_range startL1Slot l1SlotEnd (fun li =>
    l1Word ← (l1 a).[li];
    let startL1Bit := if li =? startL1Slot then initL1Bit else 0 in
    search_range startL1Bit v3L1EntriesPerSlot (searchL1Entry a from limit li l1Word)).

(** Body of the loop over the entries of L2 word [curL2Slot]; [isStart] holds
    for the entry the search begins in. *)
Definition searchL2Entry (a : AllocatorV3) (from limit curL2Slot l2Word : Z) (isStart : bool)
    (curL2Bit : Z) : option (option (Z * Z)) :=
  let l2Entry := summaryEntry l2Word curL2Bit in
  if l2Entry =? v3L1EntryFull then Some None
  else
    let l1SetGlobal := curL2Slot * v3L1EntriesPerSlot + curL2Bit in
    let l2EntryStart := l1SetGlobal * v3BitsPerL1Slotset in
    let l2EntryEnd := minInt64 (l2EntryStart + v3BitsPerL1Slotset) (total a) in
    if l2Entry =? v3L1EntryFree then Some (freeEntryRun from limit l2EntryStart l2EntryEnd)
    else
      let l1SlotStart := l1SetGlobal * v3SlotsPerSlotset in
      let l1SlotEnd := minInt64 (l1SlotStart + v3SlotsPerSlotset) (zlen (l1 a)) in
      let l0SetIdx := from / v3BitsPerSlot / v3SlotsPerSlotset in
      let startL1Slot := if isStart then l0SetIdx / v3L1EntriesPerSlot else l1SlotStart in
      let initL1Bit := if isStart then l0SetIdx mod v3L1EntriesPerSlot else 0 in
      searchL1Slots a from limit startL1Slot initL1Bit l1SlotEnd.

Definition nextFreeRunFromLocked (a : AllocatorV3) (from limit : Z) : option (Z * Z) :=
  if (total a <=? from) || (zlen (l0 a) =? 0) then Some (0, 0)
  else
    let l0SlotIdx := from / v3BitsPerSlot in
    let l0SetIdx := l0SlotIdx / v3SlotsPerSlotset in
    let l1SlotIdx := l0SetIdx / v3L1EntriesPerSlot in
    let l1SetIdx := l1SlotIdx / v3SlotsPerSlotset in
    let l2SlotIdx := l1SetIdx / v3L1EntriesPerSlot in
    let initL2Bit := l1SetIdx mod v3L1EntriesPerSlot in
    r ← search_range l2SlotIdx (zlen (l2 a)) (fun curL2Slot =>
          l2Word ← (l2 a).[curL2Slot];
          let startL2Bit := if curL2Slot =? l2SlotIdx then initL2Bit else 0 in
          search_range startL2Bit v3L1EntriesPerSlot (fun curL2Bit =>
            searchL2Entry a from limit curL2Slot l2Word
              ((curL2Slot =? l2SlotIdx) && (curL2Bit =? initL2Bit)) curL2Bit));
    Some (match r with Some p => p | None => (0, 0) end).

(** ** Public operations *)

(** The inner loop of [Allocate] in one pass.  Every iteration that goes on
    takes at least one block, so [left] iterations are enough. *)
Fixpoint allocLoop (fuel : nat) (pass1 : bool) (a : AllocatorV3) (from left_ : Z)
    (results : list Result) : option (AllocatorV3 * Z * list Result) :=
  match fuel with
  | O => Some (a, left_, results)
  | S fuel =>
      if negb (0 <? left_) then Some (a, left_, results)
      else
        '(offset, size) ← nextFreeRunFromLocked a from left_;
        if size =? 0 then Some (a, left_, results)
        else if pass1 && (lastPos a <=? offset) then Some (a, left_, results)
        else
          let tk := minInt64 size left_ in
          '(a, _) ← markRangeLocked a offset tk false;
          allocLoop fuel pass1 a (offset + tk) (left_ - tk)
            (appendResult results (mkResult offset tk))
  end.

(** [for _, r := range results { markRangeLocked(r.Offset, r.Size, free) }],
    accumulating the changed bits. *)
Fixpoint markAll (a : AllocatorV3) (results : list Result) (free : bool) (acc : Z)
    : option (AllocatorV3 * Z) :=
  match results with
  | [] => Some (a, acc)
  | r :: rs =>
      '(a, n) ← markRangeLocked a (Offset r) (Size r) free;
      markAll a rs free (acc + n)
  end.

Definition Allocate (p : option AllocatorV3) (want : Z) : option (option AllocatorV3 * (alloc_error + list Result)) :=
  match p with
  | None => Some (None, inl ErrNilAllocator)
  | Some a =>
      if want <=? 0 then Some (Some a, inl (ErrInvalidAllocateSize want))
      else if available a <? want then
        Some (Some a, inl (ErrNotEnoughSpace want (available a)))
      else
        '(a, left_, results) ← allocLoop (Z.to_nat want) false a (lastPos a) want [];
        '(a, left_, results) ← allocLoop (Z.to_nat left_) true a 0 left_ results;
        if 0 <? left_ then
          '(a, _) ← markAll a results true 0;
          Some (Some a, inl (ErrBitmapInconsistent want left_ (available a)))
        else
          let a := set_available a (available a - want) in
          let a :=
            match last results with
            | Some r =>
                let pos := Offset r + Size r in
                set_lastPos a (if total a <=? pos then 0 else pos)
            | None => a
            end in
          Some (Some a, inr results)
  end.

Definition validateRangeV3 (a : AllocatorV3) (offset size : Z) (op : string) : option alloc_error :=
  let end_ := i64 (offset + size) in
  if (offset <? 0) || (size <=? 0) || (end_ <? offset) || (total a <? end_)
  then Some (ErrInvalidExtent op offset size (total a))
  else None.

(** The first loop of [Release]: every extent valid and fully allocated. *)
Fixpoint checkExtents (a : AllocatorV3) (results : list Result) : option (option alloc_error) :=
  match results with
  | [] => Some None
  | r :: rs =>
      match validateRangeV3 a (Offset r) (Size r) "release" with
      | Some e => Some (Some e)
      | None =>
          full ← rangeFullyAllocatedLocked a (Offset r) (Size r);
          if (full : bool) then checkExtents a rs
          else Some (Some (ErrNotFullyAllocated (Offset r) (Size r)))
      end
  end.

(** The second loop of [Release]: the first pair [i < j] that overlaps. *)
Fixpoint findOverlap (results : list Result) : option (Result * Result) :=
  match results with
  | [] => None
  | r :: rs =>
      match list_find (fun q => extentsOverlap r q = true) rs with
      | Some (_, q) => Some (r, q)
      | None => findOverlap rs
      end
  end.

Definition Release (p : option AllocatorV3) (results : list Result)
    : option (option AllocatorV3 * option alloc_error) :=
  match p with
  | None => Some (None, Some ErrNilAllocator)
  | Some a =>
      match results with
      | [] => Some (Some a, None)
      | _ =>
          chk ← checkExtents a results;
          match chk with
          | Some e => Some (Some a, Some e)
          | None =>
              match findOverlap results with
              | Some (r1, r2) => Some (Some a, Some (ErrExtentsOverlap r1 r2))
              | None =>
                  '(a, released) ← markAll a results true 0;
                  Some (Some (set_available a (available a + released)), None)
              end
          end
      end
  end.

Definition InitAllocated (p : option AllocatorV3) (offset size : Z)
    : option (option AllocatorV3 * option alloc_error) :=
  match p with
  | None => Some (None, Some ErrNilAllocator)
  | Some a =>
      if size <=? 0 then Some (Some a, None)
      else
        match validateRangeV3 a offset size "InitAllocated" with
        | Some e => Some (Some a, Some e)
        | None =>
            '(a, changed) ← markRangeLocked a offset size false;
            let a := set_available a (available a - changed) in
            Some (Some a, if available a <? 0 then Some ErrAvailableBelowZero else None)
        end
  end.

Definition InitFree (p : option AllocatorV3) (offset size : Z)
    : option (option AllocatorV3 * option alloc_error) :=
  match p with
  | None => Some (None, Some ErrNilAllocator)
  | Some a =>
      if size <=? 0 then Some (Some a, None)
      else
        match validateRangeV3 a offset size "InitFree" with
        | Some e => Some (Some a, Some e)
        | None =>
            '(a, changed) ← markRangeLocked a offset size true;
            let a := set_available a (available a + changed) in
            Some (Some a, if total a <? available a then Some ErrAvailableExceedsTotal else None)
        end
  end.

Definition Available (p : option AllocatorV3) : Z :=
  match p with None => 0 | Some a => available a end.
Definition Total (p : option AllocatorV3) : Z :=
  match p with None => 0 | Some a => total a end.
Definition FreeBlocks (p : option AllocatorV3) : Z := Available p.

#[global] Arguments Allocate : simpl never.
#[global] Arguments Release : simpl never.
#[global] Arguments InitAllocated : simpl never.
#[global] Arguments InitFree : simpl never.
#[global] Arguments markRangeLocked : simpl never.
#[global] Arguments nextFreeRunFromLocked : simpl never.
#[global] Arguments NewAllocatorV3 : simpl never.
