(* ===== verification/AllocatorInv.v ===== *)
(** * The allocator's invariant and the summary levels

    The abstraction of an allocator state is the predicate [freeb a], one
    boolean per block.  [inv] says that the three levels agree: L0 has no free
    bit past [total], every L1 entry summarises its 512 blocks, every L2 entry
    summarises its eight L1 words, and [available] counts the free blocks. *)

From stdpp Require Import base decidable list numbers option strings.
From Stdlib Require Import ZArith Lia.
From S2P Require Import Prelude Words Allocator.

Ltac unfold_v3 :=
  unfold v3BitsPerSlot, v3SlotsPerSlotset, v3L1EntryWidth, v3L1EntryMask, v3L1EntryFull,
    v3L1EntryPartial, v3L1EntryFree, v3L1EntriesPerSlot, v3BitsPerSlotset, v3BitsPerL1Slotset in *.

(** ** Abstraction *)

(** Block [b] is free. *)
Definition freeb (a : AllocatorV3) (b : Z) : bool :=
  match (l0 a).[b / 64] with Some w => Z.testbit w (b mod 64) | None => false end.

(** Entry [j] of a summary level. *)
Definition entry_at (ws : list Z) (j : Z) : Z :=
  match ws.[j / 32] with Some w => summaryEntry w (j mod 32) | None => 0 end.

(** Word [k] of a level is [v]. *)
Definition word_is (ws : list Z) (v k : Z) : bool :=
  match ws.[k] with Some w => w =? v | None => false end.

(** [summarises p q lo hi e]: entry [e] describes the items [lo, hi), of which
    [p] tells the wholly free ones and [q] the wholly allocated ones. *)
Inductive summarises (p q : Z -> bool) (lo hi : Z) : Z -> Prop :=
  | sum_free : lo < hi -> (forall k, lo <= k < hi -> p k = true) -> summarises p q lo hi v3L1EntryFree
  | sum_full : (forall k, lo <= k < hi -> q k = true) -> summarises p q lo hi v3L1EntryFull
  | sum_partial x y : lo <= x < hi -> p x = false -> lo <= y < hi -> q y = false ->
      summarises p q lo hi v3L1EntryPartial.

Definition sums1 (f : Z -> bool) (tot : Z) (w1 : list Z) (j : Z) : Prop :=
  summarises f (fun b => negb (f b)) (512 * j) (Z.min (512 * j + 512) tot) (entry_at w1 j).

Definition sums2 (w1 w2 : list Z) (k : Z) : Prop :=
  summarises (word_is w1 ones64) (word_is w1 0) (8 * k) (Z.min (8 * k + 8) (zlen w1)) (entry_at w2 k).

(** ** Invariant *)

Record shape (a : AllocatorV3) : Prop := mk_shape {
  shape_total : 0 < total a <= 2 ^ 62;
  shape_l0 : zlen (l0 a) = (total a + 63) / 64;
  shape_l1 : zlen (l1 a) = ((zlen (l0 a) + 7) / 8 + 31) / 32;
  shape_l2 : zlen (l2 a) = ((zlen (l1 a) + 7) / 8 + 31) / 32;
  shape_u0 : Forall is_u64 (l0 a);
  shape_u1 : Forall is_u64 (l1 a);
  shape_u2 : Forall is_u64 (l2 a);
  shape_slots : l0Slots a = zlen (l0 a);
  shape_tail : forall b, total a <= b -> freeb a b = false;
}.

(** The three levels are consistent with each other. *)
Record levels (a : AllocatorV3) : Prop := mk_levels {
  levels_shape : shape a;
  levels_l1 : forall j, 0 <= j < 32 * zlen (l1 a) -> sums1 (freeb a) (total a) (l1 a) j;
  levels_l2 : forall k, 0 <= k < 32 * zlen (l2 a) -> sums2 (l1 a) (l2 a) k;
}.

Record inv (a : AllocatorV3) : Prop := mk_inv {
  inv_levels : levels a;
  inv_available : available a = count (freeb a) 0 (total a);
  inv_lastPos : 0 <= lastPos a < total a;
}.

#[export] Hint Resolve inv_levels levels_shape levels_l1 levels_l2 shape_u0 shape_u1 shape_u2 : go.

(** ** Summaries *)

Lemma summarises_ext p q p' q' lo hi e :
  (forall k, lo <= k < hi -> p k = p' k) -> (forall k, lo <= k < hi -> q k = q' k) ->
  summarises p q lo hi e -> summarises p' q' lo hi e.
Proof.
  intros Hp Hq [H|H|x y Hx Hpx Hy Hqy]; [| |].
  - constructor; [done|]. intros k Hk. rewrite <- Hp; auto.
  - constructor. intros k Hk. rewrite <- Hq; auto.
  - apply (sum_partial _ _ _ _ x y); [done|by rewrite <- Hp|done|by rewrite <- Hq].
Qed.

Lemma summarises_cases p q lo hi e :
  summarises p q lo hi e ->
  (e = 0 /\ forall k, lo <= k < hi -> q k = true) \/
  (e = 3 /\ lo < hi /\ forall k, lo <= k < hi -> p k = true) \/
  e = 1.
Proof. intros []; auto. Qed.

(** [decides x f lo hi]: [x] is the conjunction of [f] over [lo, hi). *)
Definition decides (x : bool) (f : Z -> bool) (lo hi : Z) : Prop :=
  if x then forall k, lo <= k < hi -> f k = true else exists k, lo <= k < hi /\ f k = false.

Lemma decides_nil f lo hi : hi <= lo -> decides true f lo hi.
Proof. intros H k Hk. lia. Qed.

Lemma decides_snoc x y f lo mid hi :
  lo <= mid <= hi -> decides x f lo mid -> decides y f mid hi ->
  decides (if y then x else false) f lo hi.
Proof.
  intros Hm Hx Hy. destruct y; [destruct x|]; simpl in *.
  - intros k Hk. destruct (decide (k < mid)); [apply Hx|apply Hy]; lia.
  - destruct Hx as (k & Hk & E). exists k. split; [lia|done].
  - destruct Hy as (k & Hk & E). exists k. split; [lia|done].
Qed.

(** The entry the update functions compute from their two flags. *)
Lemma summarises_entry p q lo hi x y :
  lo < hi -> decides x p lo hi -> decides y q lo hi ->
  summarises p q lo hi
    (if x then v3L1EntryFree else if y then v3L1EntryFull else v3L1EntryPartial).
Proof.
  intros Hlt Hx Hy. destruct x; [by constructor|]. destruct y; [by constructor|].
  destruct Hx as (x & ? & ?), Hy as (y & ? & ?). by apply (sum_partial _ _ _ _ x y).
Qed.

(** ** Entries of summary words *)

Lemma testbit_summaryEntry w p i :
  0 <= p -> 0 <= i -> Z.testbit (summaryEntry w p) i = (i <? 2) && Z.testbit w (2 * p + i).
Proof.
  intros Hp Hi. unfold summaryEntry. unfold_v3. change 3 with (Z.ones 2).
  rewrite Z.land_ones by lia.
  destruct (i <? 2) eqn:E; bool_norm; simpl.
  - rewrite Z.mod_pow2_bits_low, Z.shiftr_spec by lia. f_equal. lia.
  - by rewrite Z.mod_pow2_bits_high by lia.
Qed.

(** The word after [word &^ (mask << shift) | entry << shift]. *)
Definition putEntry (w p e : Z) : Z :=
  Z.lor (Z.ldiff w (shl64 v3L1EntryMask (p * v3L1EntryWidth))) (shl64 e (p * v3L1EntryWidth)).

Lemma is_u64_putEntry w p e : is_u64 w -> is_u64 (putEntry w p e).
Proof. intros. unfold putEntry. auto with go. Qed.

Lemma summaryEntry_put w p q e :
  0 <= p < 32 -> 0 <= q < 32 -> 0 <= e <= 3 ->
  summaryEntry (putEntry w p e) q = if p =? q then e else summaryEntry w q.
Proof.
  intros Hp Hq He. assert (Hbit : forall n, 2 <= n -> Z.testbit e n = false).
  { intros n Hn. apply (testbit_high 2); lia. }
  apply Z.bits_inj'. intros i Hi. rewrite testbit_summaryEntry by lia.
  destruct (i <? 2) eqn:Ei; bool_norm; simpl; cycle 1.
  { destruct (p =? q); [by rewrite Hbit|].
    rewrite testbit_summaryEntry by lia. by rewrite (proj2 (Z.ltb_ge i 2)). }
  unfold putEntry. unfold_v3. rewrite Z.lor_spec, Z.ldiff_spec, !testbit_shl64 by lia.
  destruct (p =? q) eqn:E; bool_norm.
  - subst q. replace (2 * p + i - p * 2) with i by lia.
    replace (Z.testbit 3 i) with true; [by rewrite andb_false_r|].
    assert (i = 0 \/ i = 1) as [->| ->] by lia; done.
  - rewrite testbit_summaryEntry by lia. rewrite (proj2 (Z.ltb_lt i 2)) by lia. simpl.
    assert (Z.testbit e (2 * q + i - p * 2) = false) as ->.
    { destruct (decide (q < p)); [apply Z.testbit_neg_r; lia|apply Hbit; lia]. }
    assert (Z.testbit 3 (2 * q + i - p * 2) = false) as ->.
    { destruct (decide (q < p)); [apply Z.testbit_neg_r; lia|apply (testbit_high 2); lia]. }
    by rewrite andb_true_r, orb_false_r.
Qed.

Lemma summaryEntry_0 p : summaryEntry 0 p = 0.
Proof. unfold summaryEntry. by rewrite Z.shiftr_0_l. Qed.

(** Writing one entry of a level. *)
Lemma entry_at_put ws s p e w :
  0 <= p < 32 -> 0 <= e <= 3 -> ws.[s] = Some w ->
  forall j, 0 <= j ->
    entry_at (<[Z.to_nat s := putEntry w p e]> ws) j =
    if j =? 32 * s + p then e else entry_at ws j.
Proof.
  intros Hp He Hw j Hj. pose proof (zget_bound _ _ _ Hw) as Hs. unfold entry_at.
  rewrite zget_insert by done.
  destruct (s =? j / 32) eqn:E; bool_norm.
  - subst s. rewrite Hw, summaryEntry_put by dlia.
    destruct (p =? j mod 32) eqn:E1, (j =? 32 * (j / 32) + p) eqn:E2; bool_norm; try done; dlia.
  - destruct (j =? 32 * s + p) eqn:E2; bool_norm; [dlia|done].
Qed.

(** A summary word is all ones (all zero) iff all its entries are. *)
Lemma word_ones_entries w :
  is_u64 w -> w = ones64 -> forall p, 0 <= p < 32 -> summaryEntry w p = 3.
Proof.
  intros Hw -> p Hp. apply Z.bits_inj'. intros i Hi. rewrite testbit_summaryEntry by lia.
  destruct (i <? 2) eqn:E; bool_norm; simpl.
  - rewrite testbit_ones64 by lia. assert (i = 0 \/ i = 1) as [->| ->] by lia; done.
  - symmetry. apply (testbit_high 2); lia.
Qed.

(** ** L0 masks *)

Lemma shl64_1_pred n : 0 <= n < 64 -> shl64 1 n - 1 = Z.ones n.
Proof.
  intros H. unfold shl64. rewrite Z.shiftl_1_l, u64_small, Z.ones_equiv; [lia|].
  unfold is_u64. pose proof (Z.pow_lt_mono_r 2 n 64). lia.
Qed.

Lemma testbit_ones n i : 0 <= n -> 0 <= i -> Z.testbit (Z.ones n) i = (i <? n).
Proof.
  intros. destruct (i <? n) eqn:E; bool_norm; [apply Z.ones_spec_low|apply Z.ones_spec_high]; lia.
Qed.

Lemma minInt64_min x y : minInt64 x y = Z.min x y.
Proof. unfold minInt64. case_bool; lia. Qed.

Lemma maxInt64_max x y : maxInt64 x y = Z.max x y.
Proof. unfold maxInt64. case_bool; lia. Qed.

Lemma v3RangeMask_spec offset end_ i j :
  0 <= offset -> offset < 64 * i + 64 -> 64 * i < end_ -> offset < end_ -> 0 <= i -> 0 <= j < 64 ->
  Z.testbit (v3RangeMask offset end_ i) j = (offset <=? 64 * i + j) && (64 * i + j <? end_).
Proof.
  intros Ho H1 H2 H3 Hi Hj. unfold v3RangeMask. rewrite minInt64_min, maxInt64_max. unfold_v3.
  set (s := Z.max offset (i * 64)). set (e := Z.min end_ (i * 64 + 64)).
  assert (Hse : 0 < e - s <= 64) by lia.
  rewrite !u64_small by (unfold is_u64; lia).
  assert (E : (offset <=? 64 * i + j) && (64 * i + j <? end_) = (s <=? 64 * i + j) && (64 * i + j <? e)).
  { apply eq_true_iff_eq. rewrite !andb_true_iff, !Z.leb_le, !Z.ltb_lt. lia. }
  rewrite E. clear E. rewrite (proj2 (Z.eqb_neq _ 0)) by lia.
  destruct (64 <=? e - s) eqn:W; bool_norm.
  - rewrite testbit_ones64 by lia. symmetry. apply andb_true_iff. split; [apply Z.leb_le|apply Z.ltb_lt]; lia.
  - rewrite shl64_1_pred, testbit_shl64 by lia.
    destruct (decide (64 * i + j < s)) as [L|L].
    + rewrite Z.testbit_neg_r by lia. by rewrite (proj2 (Z.leb_gt s _)) by lia.
    + rewrite testbit_ones by lia. rewrite (proj2 (Z.leb_le s _)) by lia. simpl.
      apply eq_true_iff_eq. rewrite !Z.ltb_lt. lia.
Qed.

Lemma v3ValidWordMask_spec a i j :
  shape a -> 0 <= i < zlen (l0 a) -> 0 <= j < 64 ->
  Z.testbit (v3ValidWordMask a i) j = (64 * i + j <? total a).
Proof.
  intros Ha Hi Hj. pose proof (shape_total _ Ha) as Ht. pose proof (shape_l0 _ Ha) as Hl.
  unfold v3ValidWordMask. unfold_v3. destruct (i <? zlen (l0 a) - 1) eqn:E; bool_norm.
  - rewrite testbit_ones64 by done. symmetry. apply Z.ltb_lt. dlia.
  - assert (i = zlen (l0 a) - 1) by lia. destruct (total a mod 64 =? 0) eqn:R; bool_norm.
    + rewrite testbit_ones64 by done. symmetry. apply Z.ltb_lt. dlia.
    + rewrite shl64_1_pred, testbit_ones by dlia.
      apply eq_true_iff_eq. rewrite !Z.ltb_lt. dlia.
Qed.

Lemma is_u64_v3ValidWordMask a i : is_u64 (v3ValidWordMask a i).
Proof.
  unfold v3ValidWordMask. unfold_v3. repeat case_bool; auto with go.
  rewrite shl64_1_pred by dlia. rewrite Z.ones_equiv. unfold is_u64.
  pose proof (Z.pow_lt_mono_r 2 (total a mod 64) 64 ltac:(lia) ltac:(dlia) ltac:(dlia)).
  pose proof (Z.pow_pos_nonneg 2 (total a mod 64) ltac:(lia) ltac:(dlia)). lia.
Qed.
#[export] Hint Resolve is_u64_v3ValidWordMask is_u64_putEntry : go.

Lemma zget_is_u64 ws i w : Forall is_u64 ws -> ws.[i] = Some w -> is_u64 w.
Proof.
  unfold zget. intros H E. case_match; [|done].
  rewrite Forall_lookup in H. eauto.
Qed.

Lemma Forall_u64_insert ws n w : Forall is_u64 ws -> is_u64 w -> Forall is_u64 (<[n := w]> ws).
Proof. intros. by apply Forall_insert. Qed.
#[export] Hint Resolve zget_is_u64 Forall_u64_insert : go.

(** The bits of word [i] are the blocks [64 i, 64 i + 64). *)
Lemma freeb_word a i w j : (l0 a).[i] = Some w -> 0 <= j < 64 -> freeb a (64 * i + j) = Z.testbit w j.
Proof.
  intros Hw Hj. unfold freeb. replace ((64 * i + j) / 64) with i by dlia.
  replace ((64 * i + j) mod 64) with j by dlia. by rewrite Hw.
Qed.

Lemma freeb_ext a a' b : l0 a = l0 a' -> freeb a b = freeb a' b.
Proof. unfold freeb. by intros ->. Qed.

(** The two tests of [updateL1ForL0Slot] on one word, in terms of blocks. *)
Lemma word_all_free a k w :
  shape a -> (l0 a).[k] = Some w ->
  decides (Z.land w (v3ValidWordMask a k) =? v3ValidWordMask a k) (freeb a)
    (64 * k) (Z.min (64 * k + 64) (total a)).
Proof.
  intros Ha Hw. pose proof (zget_bound _ _ _ Hw) as Hk. unfold decides. case_bool.
  - intros b Hb. replace b with (64 * k + b mod 64) by dlia. rewrite (freeb_word a k w) by (done || dlia).
    assert (Z.testbit (Z.land w (v3ValidWordMask a k)) (b mod 64) = true) as T.
    { rewrite Heqb, v3ValidWordMask_spec by (done || dlia). apply Z.ltb_lt. dlia. }
    rewrite Z.land_spec, andb_true_iff in T. tauto.
  - destruct (count_first (fun b => negb (freeb a b)) (64 * k) (Z.min (64 * k + 64) (total a)))
      as [H|(b & Hb & Hf & _)]; [|exists b; split; [done|by apply negb_true_iff]].
    destruct Heqb. apply u64_ext; [|auto with go|]; [apply is_u64_land; eauto with go|].
    intros j Hj. rewrite Z.land_spec, v3ValidWordMask_spec by done.
    destruct (64 * k + j <? total a) eqn:E; bool_norm; [|by rewrite andb_false_r].
    rewrite <- (freeb_word a k w) by done. specialize (H (64 * k + j) ltac:(lia)).
    apply negb_false_iff in H. by rewrite H.
Qed.

Lemma word_all_alloc a k w :
  shape a -> (l0 a).[k] = Some w ->
  decides (Z.land w (v3ValidWordMask a k) =? 0) (fun b => negb (freeb a b))
    (64 * k) (Z.min (64 * k + 64) (total a)).
Proof.
  intros Ha Hw. pose proof (zget_bound _ _ _ Hw) as Hk. unfold decides. case_bool.
  - intros b Hb. replace b with (64 * k + b mod 64) by dlia. rewrite (freeb_word a k w) by (done || dlia).
    assert (Z.testbit (Z.land w (v3ValidWordMask a k)) (b mod 64) = false) as T
      by (rewrite Heqb; apply Z.bits_0).
    rewrite Z.land_spec, v3ValidWordMask_spec in T by (done || dlia).
    rewrite (proj2 (Z.ltb_lt _ (total a))), andb_true_r in T by dlia. by rewrite T.
  - destruct (count_first (freeb a) (64 * k) (Z.min (64 * k + 64) (total a)))
      as [H|(b & Hb & Hf & _)]; [|exists b; split; [done|by rewrite Hf]].
    destruct Heqb. apply u64_zero_iff; [apply is_u64_land; eauto with go|].
    intros j Hj. rewrite Z.land_spec, v3ValidWordMask_spec by done.
    destruct (64 * k + j <? total a) eqn:E; bool_norm; [|by rewrite andb_false_r].
    rewrite <- (freeb_word a k w) by done. rewrite (H (64 * k + j)) by lia. done.
Qed.
