(* ===== verification/AllocatorMark.v ===== *)
(** * Construction and range marking

    [updateL1ForL0Slot] and [updateL2ForL1Slot] recompute one entry;
    [NewAllocatorV3] establishes the invariant and [markRangeLocked] changes
    exactly the blocks of its range, counts the changed ones and leaves both
    summary levels exact. *)

From stdpp Require Import base decidable list numbers option strings.
From Stdlib Require Import ZArith Lia.
From S2P Require Import Prelude Words Allocator AllocatorInv.

(** ** Recomputing one summary entry *)

(** What both update functions do to their level: entry [j] becomes [e], the
    other entries and the other words stay. *)
Record put_entry (ws : list Z) (j e : Z) (ws' : list Z) : Prop := {
  pe_len : zlen ws' = zlen ws;
  pe_u64 : Forall is_u64 ws -> Forall is_u64 ws';
  pe_new : entry_at ws' j = e;
  pe_old : forall i, 0 <= i -> i <> j -> entry_at ws' i = entry_at ws i;
  pe_word : forall s, s <> j / 32 -> ws'.[s] = ws.[s];
}.

Lemma put_entry_insert ws j e w :
  0 <= j -> 0 <= e <= 3 -> ws.[j / 32] = Some w ->
  put_entry ws j e (<[Z.to_nat (j / 32) := putEntry w (j mod 32) e]> ws).
Proof.
  intros Hj He Hw. pose proof (zget_bound _ _ _ Hw). split.
  - apply zlen_insert.
  - intros Hu. apply Forall_u64_insert; [done|]. eauto with go.
  - rewrite (entry_at_put _ _ _ _ w) by (done || dlia).
    by rewrite (proj2 (Z.eqb_eq j _)) by dlia.
  - intros i Hi Hne. rewrite (entry_at_put _ _ _ _ w) by (done || dlia).
    by rewrite (proj2 (Z.eqb_neq i _)) by dlia.
  - intros s Hs. rewrite zget_insert by done. by rewrite (proj2 (Z.eqb_neq _ s)) by lia.
Qed.

Lemma entry_range x y :
  0 <= (if x : bool then v3L1EntryFree else if y : bool then v3L1EntryFull else v3L1EntryPartial) <= 3.
Proof. unfold_v3. destruct x, y; lia. Qed.

(** The scanning loop of [updateL1ForL0Slot]. *)
Lemma updateL1_flags a lo hi :
  shape a -> 0 <= lo <= hi -> hi <= zlen (l0 a) ->
  exists x y,
    for_range lo hi (l0WordFlags a) (true, true) = Some (x, y) /\
    decides x (freeb a) (64 * lo) (Z.min (64 * hi) (total a)) /\
    decides y (fun b => negb (freeb a b)) (64 * lo) (Z.min (64 * hi) (total a)).
Proof.
  intros Ha Hlo Hhi. pose proof (shape_l0 _ Ha) as Hl.
  destruct (for_range_ind (fun k '(x, y) =>
      decides x (freeb a) (64 * lo) (Z.min (64 * k) (total a)) /\
      decides y (fun b => negb (freeb a b)) (64 * lo) (Z.min (64 * k) (total a)))
    lo hi (l0WordFlags a) (true, true)) as ([x y] & -> & Hx & Hy); [lia| | |by exists x, y].
  - split; apply decides_nil; lia.
  - intros k [x y] Hk [Hx Hy]. destruct (zget_some (l0 a) k) as [w Hw]; [lia|].
    unfold l0WordFlags. rewrite Hw. simpl. eexists (_, _). split; [done|].
    assert (Hm : 64 * lo <= Z.min (64 * k) (total a) <= Z.min (64 * (k + 1)) (total a)) by dlia.
    replace (64 * (k + 1)) with (64 * k + 64) in * by lia.
    replace (Z.min (64 * k) (total a)) with (64 * k) in * by dlia.
    split; (eapply decides_snoc; [exact Hm|eassumption|]);
      [by apply word_all_free|by apply word_all_alloc].
Qed.

Lemma updateL1ForL0Slot_spec a s :
  shape a -> 0 <= s < zlen (l0 a) ->
  exists w1 e, updateL1ForL0Slot a s = Some (set_l1 a w1) /\
    put_entry (l1 a) (s / 8) e w1 /\
    summarises (freeb a) (fun b => negb (freeb a b)) (512 * (s / 8))
      (Z.min (512 * (s / 8) + 512) (total a)) e.
Proof.
  intros Ha Hs. pose proof (shape_total _ Ha). pose proof (shape_l0 _ Ha) as Hl0.
  pose proof (shape_l1 _ Ha) as Hl1.
  unfold updateL1ForL0Slot. rewrite minInt64_min. unfold_v3.
  assert (Hs1 : s / 8 / 32 < zlen (l1 a)) by dlia.
  rewrite (proj2 (Z.leb_gt _ _)) by done.
  destruct (updateL1_flags a (s / 8 * 8) (Z.min (s / 8 * 8 + 8) (zlen (l0 a))))
    as (x & y & -> & Hx & Hy); [done|dlia|lia|].
  destruct (zget_some (l1 a) (s / 8 / 32)) as [w Hw]; [dlia|].
  simpl. rewrite Hw. simpl. rewrite zset_some by dlia. simpl.
  eexists _, _. split; [reflexivity|]. split.
  - apply (put_entry_insert (l1 a) (s / 8) _ w); [dlia|apply entry_range|done].
  - replace (64 * (s / 8 * 8)) with (512 * (s / 8)) in * by lia.
    replace (Z.min (64 * Z.min (s / 8 * 8 + 8) (zlen (l0 a))) (total a))
      with (Z.min (512 * (s / 8) + 512) (total a)) in * by dlia.
    apply summarises_entry; [dlia|done|done].
Qed.

(** The scanning loop of [updateL2ForL1Slot]. *)
Lemma updateL2_flags a lo hi :
  0 <= lo <= hi -> hi <= zlen (l1 a) ->
  exists x y,
    for_range lo hi (l1WordFlags a) (true, true) = Some (x, y) /\
    decides x (word_is (l1 a) ones64) lo hi /\ decides y (word_is (l1 a) 0) lo hi.
Proof.
  intros Hlo Hhi.
  destruct (for_range_ind (fun k '(x, y) =>
      decides x (word_is (l1 a) ones64) lo k /\ decides y (word_is (l1 a) 0) lo k)
    lo hi (l1WordFlags a) (true, true)) as ([x y] & -> & Hx & Hy); [lia| | |by exists x, y].
  - split; apply decides_nil; lia.
  - intros k [x y] Hk [Hx Hy]. destruct (zget_some (l1 a) k) as [w Hw]; [lia|].
    unfold l1WordFlags. rewrite Hw. simpl. eexists (_, _). split; [done|].
    assert (Hone : forall v, decides (w =? v) (word_is (l1 a) v) k (k + 1)).
    { intros v. unfold decides. destruct (w =? v) eqn:E.
      - intros k' Hk'. unfold word_is. replace k' with k by lia. by rewrite Hw.
      - exists k. split; [lia|]. unfold word_is. by rewrite Hw. }
    split; (eapply decides_snoc; [|eassumption|apply Hone]; lia).
Qed.

Lemma updateL2ForL1Slot_spec a s :
  shape a -> 0 <= s < zlen (l1 a) ->
  exists w2 e, updateL2ForL1Slot a s = Some (set_l2 a w2) /\
    put_entry (l2 a) (s / 8) e w2 /\
    summarises (word_is (l1 a) ones64) (word_is (l1 a) 0) (8 * (s / 8))
      (Z.min (8 * (s / 8) + 8) (zlen (l1 a))) e.
Proof.
  intros Ha Hs. pose proof (shape_l2 _ Ha) as Hl2.
  unfold updateL2ForL1Slot. rewrite minInt64_min. unfold_v3.
  assert (Hs1 : s / 8 / 32 < zlen (l2 a)) by dlia.
  rewrite (proj2 (Z.eqb_neq _ 0)), (proj2 (Z.leb_gt _ _)) by dlia.
  destruct (updateL2_flags a (s / 8 * 8) (Z.min (s / 8 * 8 + 8) (zlen (l1 a))))
    as (x & y & -> & Hx & Hy); [dlia|lia|].
  destruct (zget_some (l2 a) (s / 8 / 32)) as [w Hw]; [dlia|].
  simpl. rewrite Hw. simpl. rewrite zset_some by dlia. simpl.
  eexists _, _. split; [reflexivity|]. split.
  - apply (put_entry_insert (l2 a) (s / 8) _ w); [dlia|apply entry_range|done].
  - replace (s / 8 * 8) with (8 * (s / 8)) in * by lia.
    apply summarises_entry; [dlia|done|done].
Qed.

(** ** Recomputing a range of entries *)

(** [levels a a']: the states differ at most in the summary levels. *)
Definition same_l0 (a a' : AllocatorV3) : Prop :=
  exists w1 w2, a' = set_l2 (set_l1 a w1) w2 /\ zlen w1 = zlen (l1 a) /\ zlen w2 = zlen (l2 a) /\
    (Forall is_u64 (l1 a) -> Forall is_u64 w1) /\ (Forall is_u64 (l2 a) -> Forall is_u64 w2).

Lemma same_l0_refl a : same_l0 a a.
Proof. exists (l1 a), (l2 a). destruct a. done. Qed.

Lemma same_l0_trans a b c : same_l0 a b -> same_l0 b c -> same_l0 a c.
Proof.
  intros (w1 & w2 & -> & L1 & L2 & U1 & U2) (v1 & v2 & -> & M1 & M2 & V1 & V2).
  exists v1, v2. simpl in *. repeat split; [lia..|auto|auto].
Qed.

Lemma same_l0_shape a a' : same_l0 a a' -> shape a -> shape a'.
Proof.
  intros (w1 & w2 & -> & L1 & L2 & U1 & U2) [].
  split; simpl; rewrite ?L1, ?L2; auto.
Qed.

Lemma same_l0_freeb a a' : same_l0 a a' -> freeb a' = freeb a.
Proof. intros (w1 & w2 & -> & _). done. Qed.

Lemma same_l0_l0 a a' : same_l0 a a' ->
  l0 a' = l0 a /\ total a' = total a /\ available a' = available a /\ lastPos a' = lastPos a /\
  l0Slots a' = l0Slots a /\ zlen (l1 a') = zlen (l1 a) /\ zlen (l2 a') = zlen (l2 a).
Proof. intros (w1 & w2 & -> & L1 & L2 & _). simpl. by split_and!. Qed.

Lemma set_l1_same a w1 j e : put_entry (l1 a) j e w1 -> same_l0 a (set_l1 a w1).
Proof. intros []. exists w1, (l2 a). repeat split; auto. Qed.

Lemma set_l2_same a w2 j e : put_entry (l2 a) j e w2 -> same_l0 a (set_l2 a w2).
Proof. intros []. exists (l1 a), w2. destruct a. repeat split; auto. Qed.

(** The L1 refresh loop of [markRangeLocked] over the slotsets [lo, hi). *)
Lemma refreshL1_spec a lo hi :
  shape a -> 0 <= lo <= hi -> 8 * hi < zlen (l0 a) + 8 ->
  exists a', for_range lo hi (fun ss a => updateL1ForL0Slot a (ss * v3SlotsPerSlotset)) a = Some a' /\
    same_l0 a a' /\ l2 a' = l2 a /\
    (forall j, lo <= j < hi -> sums1 (freeb a) (total a) (l1 a') j) /\
    (forall j, 0 <= j -> ~ (lo <= j < hi) -> entry_at (l1 a') j = entry_at (l1 a) j) /\
    (forall s, 32 * s + 32 <= lo \/ hi <= 32 * s -> (l1 a').[s] = (l1 a).[s]).
Proof.
  intros Ha Hlo Hhi. apply (for_range_ind (fun i a' =>
    same_l0 a a' /\ l2 a' = l2 a /\
    (forall j, lo <= j < i -> sums1 (freeb a) (total a) (l1 a') j) /\
    (forall j, 0 <= j -> ~ (lo <= j < i) -> entry_at (l1 a') j = entry_at (l1 a) j) /\
    (forall s, 32 * s + 32 <= lo \/ hi <= 32 * s -> (l1 a').[s] = (l1 a).[s]))); [lia| |].
  - split; [apply same_l0_refl|]. repeat split; [lia|done..].
  - intros i a' Hi (HS & Hl2 & Hnew & Hold & Hw). unfold_v3.
    pose proof (same_l0_l0 _ _ HS) as (El0 & Et & _). pose proof (same_l0_freeb _ _ HS) as Ef.
    destruct (updateL1ForL0Slot_spec a' (i * 8)) as (w1 & e & -> & HP & Hsum);
      [by eapply same_l0_shape|rewrite El0; lia|].
    replace (i * 8 / 8) with i in * by dlia. pose proof HP as HP'. destruct HP as [PL PU PN PO PW].
    eexists. split; [reflexivity|]. simpl. split_and!.
    + eapply same_l0_trans; [exact HS|]. by eapply set_l1_same.
    + done.
    + intros j Hj. destruct (decide (j = i)) as [->|].
      * unfold sums1. rewrite PN, <- Ef, <- Et. done.
      * unfold sums1. rewrite PO by lia. apply Hnew. lia.
    + intros j Hj Hnj. rewrite PO by lia. apply Hold; lia.
    + intros s Hs. rewrite PW by dlia. by apply Hw.
Qed.

(** The L2 refresh loop over the L1 slotsets [lo, hi). *)
Lemma refreshL2_spec a lo hi :
  shape a -> 0 <= lo <= hi -> 8 * hi < zlen (l1 a) + 8 ->
  exists a', for_range lo hi
      (fun l1Set a =>
         let li := l1Set * v3SlotsPerSlotset in
         if zlen (l1 a) <=? li then Some a else updateL2ForL1Slot a li) a = Some a' /\
    same_l0 a a' /\ l1 a' = l1 a /\
    (forall k, lo <= k < hi -> sums2 (l1 a) (l2 a') k) /\
    (forall k, 0 <= k -> ~ (lo <= k < hi) -> entry_at (l2 a') k = entry_at (l2 a) k).
Proof.
  intros Ha Hlo Hhi. apply (for_range_ind (fun i a' =>
    same_l0 a a' /\ l1 a' = l1 a /\
    (forall k, lo <= k < i -> sums2 (l1 a) (l2 a') k) /\
    (forall k, 0 <= k -> ~ (lo <= k < i) -> entry_at (l2 a') k = entry_at (l2 a) k))); [lia| |].
  - split; [apply same_l0_refl|]. repeat split; [lia|done..].
  - intros i a' Hi (HS & El1 & Hnew & Hold). unfold_v3.
    rewrite El1, (proj2 (Z.leb_gt _ _)) by lia.
    destruct (updateL2ForL1Slot_spec a' (i * 8)) as (w2 & e & -> & HP & Hsum);
      [by eapply same_l0_shape|rewrite El1; lia|].
    replace (i * 8 / 8) with i in * by dlia. pose proof HP as HP'. destruct HP as [PL PU PN PO PW].
    eexists. split; [reflexivity|]. simpl. split_and!.
    + eapply same_l0_trans; [exact HS|]. by eapply set_l2_same.
    + done.
    + intros k Hk. destruct (decide (k = i)) as [->|].
      * unfold sums2. rewrite PN, <- El1. done.
      * unfold sums2. rewrite PO by lia. apply Hnew. lia.
    + intros k Hk Hnk. rewrite PO by lia. apply Hold; lia.
Qed.

(** ** Marking the L0 words *)

(** Block [b] lies in the extent [offset, offset+size). *)
Definition in_extent (offset size b : Z) : bool := (offset <=? b) && (b <? offset + size).

Lemma in_extent_true offset size b : in_extent offset size b = true <-> offset <= b < offset + size.
Proof. unfold in_extent. rewrite andb_true_iff, Z.leb_le, Z.ltb_lt. done. Qed.

Lemma in_extent_false offset size b : in_extent offset size b = false <-> ~ (offset <= b < offset + size).
Proof. rewrite <- in_extent_true. by destruct (in_extent offset size b). Qed.

Lemma freeb_set_l0 a i x w b :
  (l0 a).[i] = Some w ->
  freeb (set_l0 a (<[Z.to_nat i := x]> (l0 a))) b =
  if i =? b / 64 then Z.testbit x (b mod 64) else freeb a b.
Proof.
  intros Hw. pose proof (zget_bound _ _ _ Hw). unfold freeb. simpl.
  rewrite zget_insert by done. by destruct (i =? b / 64).
Qed.

(** One word: its blocks in the extent get the value [free]; the result counts
    those that had the other value. *)
Lemma markWord_spec a c offset size free i :
  shape a -> 0 <= offset -> 0 < size -> offset + size <= total a ->
  offset / 64 <= i <= (offset + size - 1) / 64 ->
  exists w0,
    markWord offset (offset + size) free i (a, c) =
      Some (set_l0 a w0,
            c + count (fun b => in_extent offset size b && xorb (freeb a b) free) (64 * i) (64 * i + 64)) /\
    zlen w0 = zlen (l0 a) /\ Forall is_u64 w0 /\
    forall b, freeb (set_l0 a w0) b =
      if in_extent offset size b && (i =? b / 64) then free else freeb a b.
Proof.
  intros Ha Ho Hs Ht Hi. pose proof (shape_l0 _ Ha) as Hl.
  destruct (zget_some (l0 a) i) as [w Hw]; [dlia|]. pose proof (zget_bound _ _ _ Hw) as Hib.
  assert (Hu : is_u64 w) by (eauto using zget_is_u64, shape_u0).
  set (mask := Z.land (v3RangeMask offset (offset + size) i) (v3ValidWordMask a i)).
  assert (Hmask : forall j, 0 <= j < 64 -> Z.testbit mask j = in_extent offset size (64 * i + j)).
  { intros j Hj. unfold mask. rewrite Z.land_spec, v3RangeMask_spec, v3ValidWordMask_spec by (done || dlia).
    apply eq_true_iff_eq. rewrite in_extent_true, !andb_true_iff, Z.leb_le, !Z.ltb_lt. lia. }
  assert (Hmu : is_u64 mask).
  { unfold mask. rewrite Z.land_comm. auto with go. }
  set (next := if free then Z.lor w mask else Z.ldiff w mask).
  assert (Hn : is_u64 next) by (unfold next; destruct free; auto with go).
  assert (Hnext : forall j, 0 <= j < 64 ->
            Z.testbit next j = if in_extent offset size (64 * i + j) then free else Z.testbit w j).
  { intros j Hj. unfold next. destruct free; rewrite ?Z.lor_spec, ?Z.ldiff_spec, Hmask by done;
      destruct (in_extent _ _ _), (Z.testbit w j); done. }
  exists (<[Z.to_nat i := next]> (l0 a)). split; [|split_and!].
  - unfold markWord. fold mask. rewrite Hw. simpl.
    assert (Hcnt : forall v, (forall j, 0 <= j < 64 -> Z.testbit v j = xorb (Z.testbit w j) free) ->
       OnesCount64 (Z.land v mask) =
       count (fun b => in_extent offset size b && xorb (freeb a b) free) (64 * i) (64 * i + 64)).
    { intros v Hv. unfold OnesCount64.
      rewrite (count_shift _ (fun b => in_extent offset size b && xorb (freeb a b) free) 0 64 (64 * i)).
      - f_equal; lia.
      - intros j Hj. rewrite Z.land_spec, Hmask, Hv by done.
        rewrite (Z.add_comm j), (freeb_word a i w) by done. apply andb_comm. }
    rewrite <- (Hcnt (if free then not64 w else w)).
    + unfold next. destruct free; simpl; by rewrite zset_some.
    + intros j Hj. destruct free; [rewrite testbit_not64 by done|];
        by destruct (Z.testbit w j).
  - apply zlen_insert.
  - apply Forall_insert; [by apply shape_u0|done].
  - intros b. rewrite (freeb_set_l0 a i next w) by done.
    destruct (i =? b / 64) eqn:E; bool_norm; [|by rewrite andb_false_r].
    subst i. rewrite andb_true_r, Hnext by dlia. replace (64 * (b / 64) + b mod 64) with b by dlia.
    destruct (in_extent offset size b); [done|]. unfold freeb. by rewrite Hw.
Qed.

Lemma shape_set_l0 a w0 :
  shape a -> zlen w0 = zlen (l0 a) -> Forall is_u64 w0 ->
  (forall b, total a <= b -> freeb (set_l0 a w0) b = false) -> shape (set_l0 a w0).
Proof. intros [] HL HU HT. split; simpl; rewrite ?HL; auto. Qed.

Lemma markWords_spec a offset size free :
  shape a -> 0 <= offset -> 0 < size -> offset + size <= total a ->
  exists w0,
    for_range (offset / 64) ((offset + size - 1) / 64 + 1) (markWord offset (offset + size) free) (a, 0) =
      Some (set_l0 a w0, count (fun b => xorb (freeb a b) free) offset (offset + size)) /\
    shape (set_l0 a w0) /\
    forall b, freeb (set_l0 a w0) b = if in_extent offset size b then free else freeb a b.
Proof.
  intros Ha Ho Hs Ht.
  set (f b := in_extent offset size b && xorb (freeb a b) free).
  destruct (for_range_ind (fun i '(a', c) =>
      shape a' /\ c = count f (64 * (offset / 64)) (64 * i) /\ (exists w0, a' = set_l0 a w0) /\
      forall b, freeb a' b = if in_extent offset size b && (b <? 64 * i) then free else freeb a b)
    (offset / 64) ((offset + size - 1) / 64 + 1) (markWord offset (offset + size) free) (a, 0))
    as ([a' c] & -> & Ha' & -> & [w0 ->] & Hf); [dlia| | |].
  - split_and!; [done|by rewrite count_empty by lia|exists (l0 a); by destruct a|].
    intros b. destruct (in_extent offset size b) eqn:E; [|done]. apply in_extent_true in E.
    by rewrite (proj2 (Z.ltb_ge b _)) by dlia.
  - intros i [a' c] Hi (Ha' & -> & [w0 ->] & Hf).
    destruct (markWord_spec (set_l0 a w0) (count f (64 * (offset / 64)) (64 * i)) offset size free i)
      as (v0 & -> & HL & HU & Hv); [done|done|done|done|lia|].
    eexists (_, _). split; [reflexivity|].
    assert (Hfree : forall b, freeb (set_l0 a v0) b =
        if in_extent offset size b && (b <? 64 * (i + 1)) then free else freeb a b).
    { intros b. change (set_l0 a v0) with (set_l0 (set_l0 a w0) v0). rewrite Hv, Hf.
      destruct (in_extent offset size b) eqn:E; simpl; [|done]. apply in_extent_true in E.
      destruct (i =? b / 64) eqn:E1, (b <? 64 * i) eqn:E2, (b <? 64 * (i + 1)) eqn:E3; bool_norm; try done; dlia. }
    split_and!.
    + apply shape_set_l0; [done|done|done|]. intros b Hb.
      change (set_l0 (set_l0 a w0) v0) with (set_l0 a v0). rewrite Hfree.
      rewrite (proj2 (in_extent_false _ _ _)) by (simpl in Hb; lia). by apply shape_tail.
    + rewrite (count_split f _ (64 * i) (64 * (i + 1))) by lia. f_equal.
      replace (64 * (i + 1)) with (64 * i + 64) by lia. apply count_ext. intros b Hb. unfold f.
      rewrite Hf. rewrite (proj2 (Z.ltb_ge b _)) by lia. by rewrite andb_false_r.
    + by exists v0.
    + intros b. apply Hfree.
  - exists w0. split; [|split; [done|]].
    + f_equal. f_equal. rewrite (count_split f _ offset), (count_split f offset (offset + size)) by dlia.
      rewrite (count_none f _ offset), (count_none f (offset + size)).
      * rewrite Z.add_0_r. apply count_ext. intros b Hb. unfold f.
        by rewrite (proj2 (in_extent_true _ _ _)) by lia.
      * intros b Hb. unfold f. by rewrite (proj2 (in_extent_false _ _ _)) by lia.
      * intros b Hb. unfold f. by rewrite (proj2 (in_extent_false _ _ _)) by lia.
    + intros b. rewrite Hf. destruct (in_extent offset size b) eqn:E; [|done].
      apply in_extent_true in E. by rewrite (proj2 (Z.ltb_lt b _)) by dlia.
Qed.

(** ** [markRangeLocked] *)

(** [marked a offset size free a']: exactly the blocks of the extent became
    [free]; nothing but the bitmap levels changed. *)
Record marked (a : AllocatorV3) (offset size : Z) (free : bool) (a' : AllocatorV3) : Prop := {
  mk_free : forall b, freeb a' b = if in_extent offset size b then free else freeb a b;
  mk_total : total a' = total a;
  mk_available : available a' = available a;
  mk_lastPos : lastPos a' = lastPos a;
}.

Lemma word_is_ext ws ws' v k : ws.[k] = ws'.[k] -> word_is ws v k = word_is ws' v k.
Proof. unfold word_is. by intros ->. Qed.

(** Refreshing the entries above a changed extent restores consistency. *)
Lemma refresh_levels a a1 a2 a3 offset size free ss0 ss1 :
  levels a -> shape a1 -> (exists w0, a1 = set_l0 a w0) ->
  (forall b, freeb a1 b = if in_extent offset size b then free else freeb a b) ->
  0 <= offset -> 0 < size ->
  ss0 = offset / 64 / 8 -> ss1 = (offset + size - 1) / 64 / 8 ->
  same_l0 a1 a2 -> l2 a2 = l2 a1 ->
  (forall j, ss0 <= j < ss1 + 1 -> sums1 (freeb a1) (total a1) (l1 a2) j) ->
  (forall j, 0 <= j -> ~ (ss0 <= j < ss1 + 1) -> entry_at (l1 a2) j = entry_at (l1 a1) j) ->
  (forall s, 32 * s + 32 <= ss0 \/ ss1 + 1 <= 32 * s -> (l1 a2).[s] = (l1 a1).[s]) ->
  same_l0 a2 a3 -> l1 a3 = l1 a2 ->
  (forall k, ss0 / 32 / 8 <= k < ss1 / 32 / 8 + 1 -> sums2 (l1 a2) (l2 a3) k) ->
  (forall k, 0 <= k -> ~ (ss0 / 32 / 8 <= k < ss1 / 32 / 8 + 1) ->
     entry_at (l2 a3) k = entry_at (l2 a2) k) ->
  levels a3.
Proof.
  intros Ha Hs1 [w0 E1] Hf Ho Hsz -> -> HS12 Hl2 Hnew1 Hold1 Hw1 HS23 Hl1 Hnew2 Hold2.
  pose proof (same_l0_trans _ _ _ HS12 HS23) as HS.
  pose proof (same_l0_l0 _ _ HS) as (El0 & Et & _ & _ & _ & Ell1 & Ell2).
  pose proof (same_l0_l0 _ _ HS12) as (_ & _ & _ & _ & _ & Ell1' & _).
  assert (Et' : total a1 = total a) by by subst.
  assert (El1' : l1 a1 = l1 a) by by subst.
  assert (El2' : l2 a1 = l2 a) by by subst.
  split; [by eapply same_l0_shape| |].
  - intros j Hj. rewrite (same_l0_freeb _ _ HS), Et, Hl1.
    destruct (decide (offset / 64 / 8 <= j < (offset + size - 1) / 64 / 8 + 1)) as [Hin|Hin]; [by apply Hnew1|].
    unfold sums1. rewrite Hold1, El1', Et' by lia.
    assert (Hout : forall b, 512 * j <= b < 512 * j + 512 -> freeb a1 b = freeb a b).
    { intros b Hb. rewrite Hf, (proj2 (in_extent_false _ _ _)); [done|]. dlia. }
    eapply summarises_ext; [| |apply (levels_l1 _ Ha); rewrite <- El1', <- Ell1; done];
      intros b Hb; simpl; rewrite Hout by lia; done.
  - intros k Hk. rewrite Hl1.
    destruct (decide (offset / 64 / 8 / 32 / 8 <= k < (offset + size - 1) / 64 / 8 / 32 / 8 + 1)) as [Hin|Hin];
      [by apply Hnew2|].
    unfold sums2. rewrite Hold2, Hl2, El2', Ell1', El1' by lia.
    assert (Hout : forall s, 8 * k <= s < 8 * k + 8 -> (l1 a2).[s] = (l1 a).[s]).
    { intros s Hs. rewrite <- El1'. apply Hw1. dlia. }
    eapply summarises_ext; [| |apply (levels_l2 _ Ha); rewrite <- El2', <- Ell2; done];
      intros s Hs; simpl; apply word_is_ext; rewrite Hout by lia; done.
Qed.

Lemma markRangeLocked_spec a offset size free :
  levels a -> 0 <= offset -> 0 < size -> offset + size <= total a ->
  exists a', markRangeLocked a offset size free =
      Some (a', count (fun b => xorb (freeb a b) free) offset (offset + size)) /\
    levels a' /\ marked a offset size free a'.
Proof.
  intros Ha Ho Hs Ht. pose proof (levels_shape _ Ha) as Hsh.
  pose proof (shape_l0 _ Hsh) as Hl0. pose proof (shape_l1 _ Hsh) as Hl1.
  unfold markRangeLocked. rewrite minInt64_min. unfold_v3. rewrite (proj2 (Z.leb_gt size 0)) by lia.
  replace (Z.min ((offset + size - 1) / 64 + 1) (zlen (l0 a))) with ((offset + size - 1) / 64 + 1) by dlia.
  destruct (markWords_spec a offset size free) as (w0 & -> & Hs1 & Hf); [done..|].
  simpl. set (a1 := set_l0 a w0) in *.
  assert (zlen (l0 a1) = zlen (l0 a)) as Hz1
    by (rewrite (shape_l0 _ Hs1); unfold a1; simpl; lia).
  destruct (refreshL1_spec a1 (offset / 64 / 8) ((offset + size - 1) / 64 / 8 + 1))
    as (a2 & E2 & HS12 & Hl2 & Hnew1 & Hold1 & Hw1); [done|dlia|rewrite Hz1; dlia|].
  unfold_v3. rewrite E2. simpl. pose proof (same_l0_shape _ _ HS12 Hs1) as Hs2.
  pose proof (same_l0_l0 _ _ HS12) as (_ & Et2 & Ea2 & Ep2 & _ & Ez2 & _).
  destruct (refreshL2_spec a2 (offset / 64 / 8 / 32 / 8) ((offset + size - 1) / 64 / 8 / 32 / 8 + 1))
    as (a3 & E3 & HS23 & Hl1' & Hnew2 & Hold2); [done|dlia|rewrite Ez2; unfold a1; simpl; dlia|].
  unfold_v3. rewrite E3. simpl.
  pose proof (same_l0_l0 _ _ HS23) as (_ & Et3 & Ea3 & Ep3 & _ & Ez3 & _).
  exists a3. split; [done|]. split.
  - eapply (refresh_levels a a1 a2 a3 offset size free); eauto.
  - split; [|by rewrite ?Et3, ?Et2|by rewrite ?Ea3, ?Ea2|by rewrite ?Ep3, ?Ep2].
    intros b. rewrite (same_l0_freeb _ _ HS23), (same_l0_freeb _ _ HS12). apply Hf.
Qed.

(** The effect of marking on the number of free blocks. *)
Lemma marked_count a offset size free a' :
  0 <= offset -> 0 <= size -> offset + size <= total a -> marked a offset size free a' ->
  count (freeb a') 0 (total a) =
  count (freeb a) 0 (total a) +
  (if free then 1 else -1) * count (fun b => xorb (freeb a b) free) offset (offset + size).
Proof.
  intros Ho Hs Ht Hm. pose proof (mk_free _ _ _ _ _ Hm) as Hf.
  rewrite !(count_split _ 0 offset (total a)), !(count_split _ offset (offset + size) (total a)) by lia.
  rewrite (count_ext (freeb a') (freeb a) 0 offset); cycle 1.
  { intros b Hb. by rewrite Hf, (proj2 (in_extent_false _ _ _)) by lia. }
  rewrite (count_ext (freeb a') (freeb a) (offset + size)); cycle 1.
  { intros b Hb. by rewrite Hf, (proj2 (in_extent_false _ _ _)) by lia. }
  rewrite (count_ext (freeb a') (fun _ => free) offset (offset + size)); cycle 1.
  { intros b Hb. by rewrite Hf, (proj2 (in_extent_true _ _ _)) by lia. }
  destruct free.
  - rewrite (count_all (fun _ => true)) by (done || lia).
    pose proof (count_partition (fun _ => true) (freeb a) offset (offset + size)) as HP. simpl in HP.
    rewrite (count_all (fun _ => true)) in HP by (done || lia).
    rewrite (count_ext (fun b => xorb (freeb a b) true) (fun b => negb (freeb a b)))
      by (intros; by rewrite xorb_true_r). change (fun b => freeb a b) with (freeb a) in HP. lia.
  - rewrite (count_none (fun _ => false)) by done.
    rewrite (count_ext (fun b => xorb (freeb a b) false) (freeb a))
      by (intros; by rewrite xorb_false_r). lia.
Qed.

(** ** [rangeFullyAllocatedLocked] *)

Lemma rangeFullyAllocatedLocked_spec a offset size :
  shape a -> 0 <= offset -> 0 < size -> offset + size <= total a ->
  exists r, rangeFullyAllocatedLocked a offset size = Some r /\
    (r = true <-> forall b, offset <= b < offset + size -> freeb a b = false).
Proof.
  intros Ha Ho Hs Ht. pose proof (shape_l0 _ Ha) as Hl0.
  unfold rangeFullyAllocatedLocked. rewrite minInt64_min. unfold_v3.
  replace (Z.min ((offset + size - 1) / 64 + 1) (zlen (l0 a))) with ((offset + size - 1) / 64 + 1) by dlia.
  edestruct (search_range_ind
      (fun i => forall b, offset <= b < offset + size -> b < 64 * i -> freeb a b = false)
      (fun r : bool => r = false /\ exists b, offset <= b < offset + size /\ freeb a b = true)
      (offset / 64) ((offset + size - 1) / 64 + 1))
    as [[E H]|(r & E & -> & H)]; [dlia|intros; dlia| | |].
  3: { rewrite E. simpl. eexists. split; [done|]. split; [done|].
       destruct H as (b & Hb & Hf). intros Hall. rewrite Hall in Hf; done. }
  2: { rewrite E. simpl. eexists. split; [done|]. split; [|done]. intros _ b Hb. apply H; [done|dlia]. }
  intros i Hi HI. destruct (zget_some (l0 a) i) as [w Hw]; [dlia|]. pose proof (zget_bound _ _ _ Hw) as Hib.
  cbv beta zeta. rewrite Hw. simpl.
  set (mask := Z.land (v3RangeMask offset (offset + size) i) (v3ValidWordMask a i)).
  assert (Hmask : forall j, 0 <= j < 64 ->
     Z.testbit (Z.land w mask) j = in_extent offset size (64 * i + j) && freeb a (64 * i + j)).
  { intros j Hj. unfold mask.
    rewrite !Z.land_spec, v3RangeMask_spec, v3ValidWordMask_spec, (freeb_word a i w) by (done || dlia).
    apply eq_true_iff_eq. rewrite !andb_true_iff, in_extent_true, Z.leb_le, !Z.ltb_lt. intuition lia. }
  assert (Hu : is_u64 (Z.land w mask)) by (apply is_u64_land; eauto using zget_is_u64, shape_u0).
  destruct (Z.land w mask =? 0) eqn:E; bool_norm.
  - left. split; [done|]. intros b Hb Hlt. destruct (decide (b < 64 * i)); [by apply HI|].
    rewrite u64_zero_iff in E by done. specialize (E (b mod 64) ltac:(dlia)).
    rewrite Hmask in E by dlia. replace (64 * i + b mod 64) with b in E by dlia.
    by rewrite (proj2 (in_extent_true _ _ _)) in E.
  - right. exists false. split; [done|]. split; [done|].
    destruct (count_first (fun b => in_extent offset size b && freeb a b) (64 * i) (64 * i + 64))
      as [Hn|(b & Hb & Hf & _)].
    + destruct E. apply u64_zero_iff; [done|]. intros j Hj. rewrite Hmask by done. apply Hn. lia.
    + apply andb_true_iff in Hf as [Hin Hfb]. apply in_extent_true in Hin. eauto.
Qed.

(** ** [NewAllocatorV3] *)

Lemma entry_at_zmake n j : entry_at (zmake n 0) j = 0.
Proof.
  unfold entry_at. destruct ((zmake n 0).[j / 32]) eqn:E; [|done].
  unfold zget, zmake in E. case_match; [|done].
  apply lookup_replicate_1 in E as [-> _]. apply summaryEntry_0.
Qed.

(** The loop over all L0 words in [NewAllocatorV3]. *)
Lemma buildL1_spec a :
  shape a -> l1 a = zmake (zlen (l1 a)) 0 ->
  exists a', for_range 0 (zlen (l0 a)) (fun i a => updateL1ForL0Slot a i) a = Some a' /\
    same_l0 a a' /\ l2 a' = l2 a /\
    forall j, 0 <= j -> sums1 (freeb a) (total a) (l1 a') j.
Proof.
  intros Ha Hz. pose proof (shape_l0 _ Ha) as Hl0.
  destruct (for_range_ind (fun i a' =>
      same_l0 a a' /\ l2 a' = l2 a /\
      (forall j, 0 <= j -> 8 * j < i -> sums1 (freeb a) (total a) (l1 a') j) /\
      (forall j, 0 <= j -> i <= 8 * j -> entry_at (l1 a') j = 0))
    0 (zlen (l0 a)) (fun i a => updateL1ForL0Slot a i) a) as (a' & E & HS & Hl2 & Hdone & Htodo);
    [apply zlen_nonneg| | |].
  - split; [apply same_l0_refl|]. split_and!; [done|lia|].
    intros j _ _. rewrite Hz. apply entry_at_zmake.
  - intros i a' Hi (HS & Hl2 & Hdone & Htodo).
    pose proof (same_l0_l0 _ _ HS) as (El0 & Et & _). pose proof (same_l0_freeb _ _ HS) as Ef.
    destruct (updateL1ForL0Slot_spec a' i) as (w1 & e & -> & HP & Hsum);
      [by eapply same_l0_shape|by rewrite El0|].
    pose proof HP as HP'. destruct HP as [PL PU PN PO PW].
    eexists. split; [reflexivity|]. simpl. split_and!.
    + eapply same_l0_trans; [exact HS|]. by eapply set_l1_same.
    + done.
    + intros j Hj Hlt. destruct (decide (j = i / 8)) as [->|].
      * unfold sums1. rewrite PN, <- Ef, <- Et. done.
      * unfold sums1. rewrite PO by dlia. apply Hdone; dlia.
    + intros j Hj Hge. rewrite PO by dlia. apply Htodo; lia.
  - exists a'. split_and!; [done..|]. intros j Hj.
    destruct (decide (8 * j < zlen (l0 a))); [by apply Hdone|].
    unfold sums1. rewrite Htodo by lia. constructor. intros k Hk. dlia.
Qed.

Lemma buildL2_spec a :
  shape a -> l2 a = zmake (zlen (l2 a)) 0 ->
  exists a', for_range 0 (zlen (l1 a)) (fun li a => updateL2ForL1Slot a li) a = Some a' /\
    same_l0 a a' /\ l1 a' = l1 a /\
    forall k, 0 <= k -> sums2 (l1 a) (l2 a') k.
Proof.
  intros Ha Hz.
  destruct (for_range_ind (fun i a' =>
      same_l0 a a' /\ l1 a' = l1 a /\
      (forall k, 0 <= k -> 8 * k < i -> sums2 (l1 a) (l2 a') k) /\
      (forall k, 0 <= k -> i <= 8 * k -> entry_at (l2 a') k = 0))
    0 (zlen (l1 a)) (fun li a => updateL2ForL1Slot a li) a) as (a' & E & HS & Hl1 & Hdone & Htodo);
    [apply zlen_nonneg| | |].
  - split; [apply same_l0_refl|]. split_and!; [done|lia|].
    intros k _ _. rewrite Hz. apply entry_at_zmake.
  - intros i a' Hi (HS & El1 & Hdone & Htodo).
    destruct (updateL2ForL1Slot_spec a' i) as (w2 & e & -> & HP & Hsum);
      [by eapply same_l0_shape|by rewrite El1|].
    pose proof HP as HP'. destruct HP as [PL PU PN PO PW].
    eexists. split; [reflexivity|]. simpl. split_and!.
    + eapply same_l0_trans; [exact HS|]. by eapply set_l2_same.
    + done.
    + intros k Hk Hlt. destruct (decide (k = i / 8)) as [->|].
      * unfold sums2. rewrite PN, <- El1. done.
      * unfold sums2. rewrite PO by dlia. apply Hdone; dlia.
    + intros k Hk Hge. rewrite PO by dlia. apply Htodo; lia.
  - exists a'. split_and!; [done..|]. intros k Hk.
    destruct (decide (8 * k < zlen (l1 a))); [by apply Hdone|].
    unfold sums2. rewrite Htodo by lia. constructor. intros s Hs. lia.
Qed.

Lemma Forall_zmake n w : is_u64 w -> Forall is_u64 (zmake n w).
Proof. intros. unfold zmake. by apply Forall_replicate. Qed.

(** The L0 level of a fresh allocator. *)
Definition freshL0 (blocks : Z) : list Z :=
  let n := (blocks + 63) / 64 in
  if blocks mod 64 =? 0 then zmake n ones64
  else <[Z.to_nat (n - 1) := Z.ones (blocks mod 64)]> (zmake n ones64).

Lemma zlen_freshL0 blocks : 0 < blocks -> zlen (freshL0 blocks) = (blocks + 63) / 64.
Proof.
  intros. unfold freshL0. cbv zeta. case_bool; rewrite ?zlen_insert; apply zlen_make; dlia.
Qed.

Lemma Forall_freshL0 blocks : 0 < blocks -> Forall is_u64 (freshL0 blocks).
Proof.
  intros. unfold freshL0. cbv zeta. case_bool; [apply Forall_zmake; auto with go|].
  apply Forall_insert; [apply Forall_zmake; auto with go|].
  rewrite Z.ones_equiv. unfold is_u64.
  pose proof (Z.pow_lt_mono_r 2 (blocks mod 64) 64 ltac:(lia) ltac:(dlia) ltac:(dlia)).
  pose proof (Z.pow_pos_nonneg 2 (blocks mod 64) ltac:(lia) ltac:(dlia)). lia.
Qed.

Lemma freeb_fresh blocks av w1 w2 n pos b :
  0 < blocks ->
  freeb (mkAllocatorV3 blocks av (freshL0 blocks) w1 w2 n pos) b = (0 <=? b) && (b <? blocks).
Proof.
  intros Hb. unfold freeb. simpl. destruct (decide (0 <= b / 64 < (blocks + 63) / 64)) as [Hi|Hi].
  - unfold freshL0. cbv zeta. case_bool.
    + rewrite zget_make, testbit_ones64 by dlia. symmetry.
      apply andb_true_iff. rewrite Z.leb_le, Z.ltb_lt. dlia.
    + rewrite zget_insert by (rewrite zlen_make; dlia). case_bool.
      * rewrite testbit_ones by dlia. apply eq_true_iff_eq. rewrite andb_true_iff, Z.leb_le, !Z.ltb_lt. dlia.
      * rewrite zget_make, testbit_ones64 by dlia. symmetry.
        apply andb_true_iff. rewrite Z.leb_le, Z.ltb_lt. dlia.
  - rewrite zget_none by (rewrite zlen_freshL0 by done; dlia).
    symmetry. apply andb_false_iff. rewrite Z.leb_gt, Z.ltb_ge. dlia.
Qed.

Lemma NewAllocatorV3_spec blocks :
  0 < blocks <= 2 ^ 62 ->
  exists a, NewAllocatorV3 blocks = Some a /\ inv a /\ total a = blocks /\ lastPos a = 0 /\
    forall b, freeb a b = (0 <=? b) && (b <? blocks).
Proof.
  intros Hb. unfold NewAllocatorV3. rewrite maxInt64_max. unfold_v3.
  rewrite (proj2 (Z.leb_gt blocks 0)), !i64_small by (unfold is_i64; rewrite ?i64_small; unfold is_i64; lia).
  replace (blocks + 64 - 1) with (blocks + 63) by lia. rewrite Z.quot_div_nonneg by lia.
  set (n0 := (blocks + 63) / 64). rewrite (makeSlice_some n0 ones64) by (unfold n0; dlia). go_step.
  assert ((if blocks mod 64 =? 0 then Some (zmake n0 ones64)
           else (zmake n0 ones64).[n0 - 1 <- shl64 1 (blocks mod 64) - 1]) = Some (freshL0 blocks)) as ->.
  { unfold freshL0. fold n0. cbv zeta. case_bool; [done|].
    rewrite zset_some by (rewrite zlen_make; unfold n0; dlia). by rewrite shl64_1_pred by dlia. }
  go_step. replace (n0 + 8 - 1) with (n0 + 7) by lia. replace ((n0 + 7) / 8 + 32 - 1) with ((n0 + 7) / 8 + 31) by lia.
  set (n1 := ((n0 + 7) / 8 + 31) / 32).
  assert (Hn0 : 0 < n0) by (unfold n0; dlia). assert (Hn1 : 0 < n1) by (unfold n1; dlia).
  replace (Z.max 1 n1) with n1 by lia. rewrite (makeSlice_some n1 0) by lia. go_step. rewrite zlen_make, maxInt64_max by lia.
  replace (n1 + 8 - 1) with (n1 + 7) by lia. replace ((n1 + 7) / 8 + 32 - 1) with ((n1 + 7) / 8 + 31) by lia.
  set (n2 := ((n1 + 7) / 8 + 31) / 32). assert (Hn2 : 0 < n2) by (unfold n2; dlia).
  replace (Z.max 1 n2) with n2 by lia. rewrite (makeSlice_some n2 0) by lia. go_step.
  set (a0 := mkAllocatorV3 blocks 0 (freshL0 blocks) (zmake n1 0) (zmake n2 0) n0 0).
  assert (Hsh : shape a0).
  { split; simpl; rewrite ?zlen_freshL0, ?zlen_make by lia; try done.
    - apply Forall_freshL0; lia.
    - apply Forall_zmake; auto with go.
    - apply Forall_zmake; auto with go.
    - intros b Hbt. unfold a0. rewrite freeb_fresh by lia. apply andb_false_iff. rewrite Z.ltb_ge. lia. }
  replace n0 with (zlen (l0 a0)) by (simpl; by rewrite zlen_freshL0 by lia).
  destruct (buildL1_spec a0) as (a1 & -> & HS1 & Hl2 & Hsum1); [done|simpl; by rewrite zlen_make by lia|].
  go_step. pose proof (same_l0_l0 _ _ HS1) as (_ & Et1 & _ & Ep1 & _ & _ & Ez1).
  destruct (buildL2_spec a1) as (a2 & -> & HS2 & Hl1 & Hsum2);
    [by eapply same_l0_shape|rewrite Hl2; simpl; by rewrite zlen_make by lia|].
  go_step. pose proof (same_l0_trans _ _ _ HS1 HS2) as HS.
  pose proof (same_l0_l0 _ _ HS) as (_ & Et & _ & Ep & _ & _ & _).
  pose proof (same_l0_shape _ _ HS Hsh) as Hsh2. pose proof (same_l0_freeb _ _ HS) as Ef.
  assert (Hfb : forall b, freeb a2 b = (0 <=? b) && (b <? blocks)).
  { intros b. rewrite Ef. apply freeb_fresh. lia. }
  exists (set_available a2 blocks). split; [done|]. simpl. rewrite Et, Ep. split_and!; [|done|done|done].
  split; [split| |]; simpl.
  - destruct Hsh2. split; done.
  - intros j Hj. unfold sums1. change (freeb (set_available a2 blocks)) with (freeb a2).
    rewrite Ef, Et, Hl1. apply Hsum1. lia.
  - intros k Hk. rewrite Hl1. apply Hsum2. lia.
  - change (freeb (set_available a2 blocks)) with (freeb a2). rewrite Et. simpl.
    rewrite (count_all (freeb a2)); [lia|lia|]. intros b Hbb. rewrite Hfb.
    apply andb_true_iff. rewrite Z.leb_le, Z.ltb_lt. lia.
  - rewrite Ep, Et. simpl. lia.
Qed.
