(* ===== verification/AllocatorScan.v ===== *)
(** * Searching for free runs

    The search of [nextFreeRunFromLocked] through L2, L1 and L0 returns the
    first free block at or after its start, although it skips and short-cuts
    whole summary entries. *)

From stdpp Require Import base decidable list numbers option strings.
From Stdlib Require Import ZArith Lia.
From S2P Require Import Prelude Words Allocator AllocatorInv AllocatorMark.

(** No block of [lo, hi) is free. *)
Definition nofree (a : AllocatorV3) (lo hi : Z) : Prop := forall b, lo <= b < hi -> freeb a b = false.

(** [off, off+sz) is a run of free blocks, at most [limit] long, that starts
    at the first free block from [from] on. *)
Record is_run (a : AllocatorV3) (from limit off sz : Z) : Prop := {
  run_from : from <= off;
  run_first : nofree a from off;
  run_size : 0 < sz <= limit;
  run_free : forall b, off <= b < off + sz -> freeb a b = true;
}.

Lemma nofree_app a lo mid hi : nofree a lo mid -> nofree a mid hi -> nofree a lo hi.
Proof. intros H1 H2 b Hb. destruct (decide (b < mid)); [apply H1|apply H2]; lia. Qed.

Lemma nofree_nil a lo hi : hi <= lo -> nofree a lo hi.
Proof. intros H b Hb. lia. Qed.

Lemma nofree_sub a lo hi lo' hi' : nofree a lo hi -> lo <= lo' -> hi' <= hi -> nofree a lo' hi'.
Proof. intros H ? ? b Hb. apply H. lia. Qed.

Lemma nofree_tail a lo hi : shape a -> total a <= lo -> nofree a lo hi.
Proof. intros Ha H b Hb. apply (shape_tail _ Ha). lia. Qed.

Lemma is_run_weaken a from from' limit off sz :
  nofree a from from' -> from <= from' -> is_run a from' limit off sz -> is_run a from limit off sz.
Proof. intros Hn Hle []. split; [lia|by eapply nofree_app|done|done]. Qed.

Lemma freeb_bounds a b : shape a -> freeb a b = true -> 0 <= b < total a.
Proof.
  intros Ha Hf. destruct (decide (total a <= b)) as [H|H];
    [by rewrite (shape_tail _ Ha b H) in Hf|]. split; [|lia].
  destruct (decide (0 <= b)); [done|]. unfold freeb in Hf. rewrite zget_none in Hf; [done|]. dlia.
Qed.

(** ** Scanning L0 *)

(** First set bit of word [i], seen from bit [k] on. *)
Lemma word_first a i w k :
  shape a -> (l0 a).[i] = Some w -> 0 <= k < 64 -> Z.shiftr w k <> 0 ->
  let r := 64 * i + k + TrailingZeros64 (Z.shiftr w k) in
  64 * i + k <= r /\ freeb a r = true /\ nofree a (64 * i + k) r.
Proof.
  intros Ha Hw Hk Hnz r.
  assert (Hu : is_u64 w) by (eauto using zget_is_u64, shape_u0).
  assert (Hus : is_u64 (Z.shiftr w k)) by (apply is_u64_shiftr; [done|lia]).
  pose proof (TrailingZeros64_lt _ Hus Hnz) as Hlt.
  destruct (TrailingZeros64_spec (Z.shiftr w k)) as (Hb & Hlow & Htop).
  set (t := TrailingZeros64 (Z.shiftr w k)) in *. specialize (Htop Hlt).
  rewrite Z.shiftr_spec in Htop by lia.
  assert (t + k < 64).
  { destruct (decide (64 <= t + k)); [|lia]. rewrite is_u64_testbit in Htop; done || lia. }
  split; [lia|]. split.
  - unfold r. rewrite <- Z.add_assoc, (freeb_word a i w) by (done || lia).
    rewrite Z.add_comm. done.
  - intros b Hbb. replace b with (64 * i + (b - 64 * i)) by lia.
    rewrite (freeb_word a i w) by (done || lia).
    specialize (Hlow (b - 64 * i - k) ltac:(lia)). rewrite Z.shiftr_spec in Hlow by lia.
    rewrite <- Hlow. f_equal. lia.
Qed.

Lemma word_none a i w k :
  shape a -> (l0 a).[i] = Some w -> 0 <= k < 64 -> Z.shiftr w k = 0 ->
  nofree a (64 * i + k) (64 * i + 64).
Proof.
  intros Ha Hw Hk Hz b Hb. replace b with (64 * i + (b - 64 * i)) by lia.
  rewrite (freeb_word a i w) by (done || lia).
  replace (b - 64 * i) with ((b - 64 * i - k) + k) by lia.
  rewrite <- Z.shiftr_spec by lia. rewrite Hz. apply Z.bits_0.
Qed.

Lemma findFirstFree_spec a from to :
  shape a -> 0 <= from < to -> to <= total a ->
  exists r, findFirstFree a from to = Some r /\
    ((r = -1 /\ nofree a from to) \/ (from <= r /\ freeb a r = true /\ nofree a from r)).
Proof.
  intros Ha Hft Hto. pose proof (shape_l0 _ Ha) as Hl0. unfold findFirstFree. unfold_v3.
  destruct (zget_some (l0 a) (from / 64)) as [w Hw]; [dlia|]. rewrite Hw. go_step.
  assert (Hfrom : 64 * (from / 64) + from mod 64 = from) by dlia.
  destruct (Z.shiftr w (from mod 64) =? 0) eqn:E; bool_norm; cbn [negb].
  - pose proof (word_none a _ w (from mod 64) Ha Hw ltac:(dlia) E) as Hn. rewrite Hfrom in Hn.
    edestruct (search_range_ind (fun i => nofree a from (64 * i))
      (fun r => from <= r /\ freeb a r = true /\ nofree a from r)
      (from / 64 + 1) ((to - 1) / 64 + 1)) as [[-> H]|(r & -> & H)]; [dlia| | | |].
    + eapply nofree_sub; [exact Hn|lia|dlia].
    + intros i Hi HI. destruct (zget_some (l0 a) i) as [x Hx]; [dlia|]. cbv beta. rewrite Hx. go_step.
      destruct (x =? 0) eqn:E1; bool_norm; cbn [negb].
      * left. split; [done|]. eapply nofree_app; [exact HI|].
        pose proof (word_none a i x 0 Ha Hx ltac:(lia)) as H0. rewrite Z.shiftr_0_r, Z.add_0_r in H0.
        replace (64 * (i + 1)) with (64 * i + 64) by lia. by apply H0.
      * right. eexists. split; [done|].
        pose proof (word_first a i x 0 Ha Hx ltac:(lia)) as H0. rewrite Z.shiftr_0_r, Z.add_0_r in H0.
        destruct (H0 E1) as (P1 & P2 & P3). replace (i * 64) with (64 * i) by lia.
        split; [dlia|]. split; [done|]. by eapply nofree_app.
    + go_step. eexists. split; [done|]. left. split; [done|]. eapply nofree_sub; [exact H|lia|dlia].
    + go_step. eexists. split; [done|]. by right.
  - eexists. split; [done|]. right.
    pose proof (word_first a _ w (from mod 64) Ha Hw ltac:(dlia) E) as (P1 & P2 & P3).
    replace (from / 64 * 64 + from mod 64) with from by lia. rewrite Hfrom in *. done.
Qed.

(** The number of free blocks of word [w] from bit [b] on, as the loop of
    [scanL0ForFreeRunLimited] computes it. *)
Lemma word_run a w x b :
  shape a -> (l0 a).[w] = Some x -> 0 <= b < 64 ->
  let k := Z.min (TrailingZeros64 (not64 (Z.shiftr x b))) (64 - b) in
  0 <= k <= 64 - b /\ (forall c, 64 * w + b <= c < 64 * w + b + k -> freeb a c = true) /\
  (k = 64 - b \/ freeb a (64 * w + b + k) = false).
Proof.
  intros Ha Hx Hb k. destruct (TrailingZeros64_spec (not64 (Z.shiftr x b))) as (Ht & Hlow & Htop).
  set (t := TrailingZeros64 (not64 (Z.shiftr x b))) in *. unfold k. split; [lia|]. split.
  - intros c Hc. replace c with (64 * w + (c - 64 * w)) by lia.
    rewrite (freeb_word a w x) by (done || lia).
    specialize (Hlow (c - 64 * w - b) ltac:(lia)). rewrite testbit_not64, Z.shiftr_spec in Hlow by lia.
    apply negb_false_iff in Hlow. rewrite <- Hlow. f_equal. lia.
  - destruct (decide (64 - b <= t)); [left; lia|]. right. rewrite Z.min_l by lia.
    rewrite <- Z.add_assoc, (freeb_word a w x) by (done || lia).
    specialize (Htop ltac:(lia)). rewrite testbit_not64, Z.shiftr_spec in Htop by lia.
    apply negb_true_iff in Htop. rewrite <- Htop. f_equal. lia.
Qed.

Lemma extendRun_spec a n : forall w b cap,
  shape a -> Z.of_nat n = zlen (l0 a) - w -> 0 <= w -> 0 <= b < 64 -> 0 <= cap ->
  exists r, extendRun n a w b (64 * w + b) cap = Some r /\
    64 * w + b <= r <= 64 * w + b + cap /\
    (forall c, 64 * w + b <= c < r -> freeb a c = true) /\
    (r = 64 * w + b + cap \/ freeb a r = false).
Proof.
  induction n as [|n IH]; intros w b cap Ha Hn Hw Hb Hc; cbn [extendRun].
  { exists (64 * w + b). split_and!; [done|lia..|]. right.
    unfold freeb. rewrite zget_none; [done|]. dlia. }
  destruct (0 <? cap) eqn:E; bool_norm; cbn [negb];
    [|exists (64 * w + b); split_and!; [done|lia..|left; lia]].
  destruct (zget_some (l0 a) w) as [x Hx]; [lia|]. rewrite Hx. go_step. rewrite !minInt64_min. unfold_v3.
  destruct (word_run a w x b Ha Hx Hb) as (Hk & Hfree & Hstop).
  set (k := Z.min (TrailingZeros64 (not64 (Z.shiftr x b))) (64 - b)) in *.
  destruct ((Z.min k cap <? 64 - b) || (cap - Z.min k cap =? 0)) eqn:E1.
  - exists (64 * w + b + Z.min k cap). split_and!; [done|lia|lia| |].
    + intros c Hcc. apply Hfree. lia.
    + destruct (decide (cap <= k)); [left; lia|]. right. rewrite Z.min_l by lia.
      destruct Hstop as [Hs|Hs]; [|done]. bool_norm. destruct E1; bool_norm; lia.
  - bool_norm. assert (Hk64 : Z.min k cap = 64 - b) by lia. rewrite Hk64.
    replace (64 * w + b + (64 - b)) with (64 * (w + 1) + 0) by lia.
    destruct (IH (w + 1) 0 (cap - (64 - b))) as (r & -> & Hr & Hf & Hend); [done|lia..|].
    exists r. split_and!; [done|lia|lia| |].
    + intros c Hcc. destruct (decide (c < 64 * w + 64)); [apply Hfree; lia|apply Hf; lia].
    + destruct Hend as [->|]; [left; lia|by right].
Qed.

(** [scanL0ForFreeRunLimited]: the maximal run, up to [limit], that starts at
    the first free block of [from, to). *)
Lemma scanL0ForFreeRunLimited_spec a from to limit :
  shape a -> 0 <= from < to -> from < total a -> 0 < limit ->
  (scanL0ForFreeRunLimited a from to limit = Some (0, 0) /\ nofree a from (Z.min to (total a))) \/
  (exists off sz, scanL0ForFreeRunLimited a from to limit = Some (off, sz) /\
     is_run a from limit off sz /\ off < to /\ (sz = limit \/ freeb a (off + sz) = false)).
Proof.
  intros Ha Hft Hfrom Hlim. pose proof (shape_l0 _ Ha) as Hl0. unfold scanL0ForFreeRunLimited.
  rewrite (proj2 (Z.leb_gt to from)), (proj2 (Z.leb_gt (total a) from)), (proj2 (Z.leb_gt limit 0)) by lia.
  cbn [orb]. rewrite !minInt64_min.
  destruct (findFirstFree_spec a from (Z.min to (total a)) Ha) as (r & -> & Hr); [lia|lia|]. go_step.
  destruct ((r <? 0) || (Z.min to (total a) <=? r) || (total a <=? r)) eqn:E.
  { left. split; [done|]. destruct Hr as [[-> Hr]|(Hfr & Hf & Hn)]; [done|].
    pose proof (freeb_bounds _ _ Ha Hf). eapply nofree_sub; [exact Hn|lia|].
    bool_norm. destruct E as [E|E]; [|bool_norm; lia]. bool_norm. destruct E; bool_norm; lia. }
  bool_norm. destruct Hr as [[-> Hr]|(Hfr & Hf & Hn)]; [lia|]. right. unfold_v3.
  destruct (extendRun_spec a (Z.to_nat (zlen (l0 a) - r / 64)) (r / 64) (r mod 64) limit Ha)
    as (e & He & Hrng & Hfree & Hend); [dlia..|].
  replace (64 * (r / 64) + r mod 64) with r in * by dlia. rewrite He. go_step. rewrite ?minInt64_min.
  assert (r < e).
  { destruct Hend as [->|Hend]; [lia|]. destruct (decide (e = r)); [congruence|lia]. }
  pose proof (freeb_bounds _ _ Ha (Hfree (e - 1) ltac:(lia))).
  rewrite (Z.min_l e) by lia. rewrite (proj2 (Z.leb_gt (e - r) 0)) by lia.
  exists r, (e - r). split; [done|]. split; [|split; [lia|]].
  - split; [lia|done|lia|]. intros b Hb. apply Hfree. lia.
  - replace (r + (e - r)) with e by lia. destruct Hend as [->|]; [left; lia|by right].
Qed.

(** ** Searching L1 and L2 *)

(** What one step of a search may do when the blocks of [from, lo) are known
    to be allocated: go on, knowing it of [from, hi), or return a run. *)
Definition search_step (a : AllocatorV3) (from limit hi : Z) (r : option (option (Z * Z))) : Prop :=
  (r = Some None /\ nofree a from hi) \/
  (exists p, r = Some (Some p) /\ is_run a from limit p.1 p.2).

(** A FREE entry over [lo, hi). *)
Lemma freeEntryRun_spec a from limit lo hi :
  nofree a from lo -> from < hi -> lo < hi -> 0 < limit ->
  (forall b, lo <= b < hi -> freeb a b = true) ->
  exists p, freeEntryRun from limit lo hi = Some p /\ is_run a from limit p.1 p.2.
Proof.
  intros Hn Hfh Hlh Hlim Hall. unfold freeEntryRun. rewrite minInt64_min.
  replace (if lo <? from then from else lo) with (Z.max from lo) by (case_bool; lia).
  rewrite (proj2 (Z.ltb_lt 0 _)) by lia. eexists. split; [done|]. simpl. split; [lia| |lia|].
  - intros b Hb. apply Hn. lia.
  - intros b Hb. apply Hall. lia.
Qed.

Lemma entry_at_word ws li w j :
  ws.[li] = Some w -> 32 * li <= j < 32 * li + 32 -> entry_at ws j = summaryEntry w (j - 32 * li).
Proof.
  intros Hw Hp. unfold entry_at. replace (j / 32) with li by dlia.
  replace (j mod 32) with (j - 32 * li) by dlia. by rewrite Hw.
Qed.

Lemma searchL1Entry_spec a from limit li l1Word bitPos :
  levels a -> 0 <= from < total a -> 0 < limit -> (l1 a).[li] = Some l1Word -> 0 <= bitPos < 32 ->
  from < 512 * (32 * li + bitPos) + 512 -> nofree a from (512 * (32 * li + bitPos)) ->
  search_step a from limit (512 * (32 * li + (bitPos + 1))) (searchL1Entry a from limit li l1Word bitPos).
Proof.
  intros Ha Hfrom Hlim Hw Hp Hlo Hn. pose proof (levels_shape _ Ha) as Hsh.
  pose proof (shape_l0 _ Hsh) as Hl0. pose proof (zget_bound _ _ _ Hw) as Hli.
  set (j := 32 * li + bitPos) in *. replace (512 * (32 * li + (bitPos + 1))) with (512 * j + 512) by lia.
  assert (Hsum : summarises (freeb a) (fun b => negb (freeb a b)) (512 * j)
                   (Z.min (512 * j + 512) (total a)) (summaryEntry l1Word bitPos)).
  { replace bitPos with (j - 32 * li) by lia. rewrite <- (entry_at_word (l1 a) li) by (done || lia).
    apply (levels_l1 _ Ha). lia. }
  unfold searchL1Entry. rewrite !minInt64_min. unfold_v3.
  replace ((li * 32 + bitPos) * 8) with (8 * j) by lia. replace (8 * j * 64) with (512 * j) by lia.
  destruct Hsum as [Hlt Hall|Hnone|x y Hx _ Hy _]; unfold_v3; cbn [Z.eqb Pos.eqb].
  - right. destruct (freeEntryRun_spec a from limit (512 * j) (Z.min (512 * j + 512) (total a)))
      as (p & -> & Hrun); [done|lia..|done|]. by exists p.
  - left. split; [done|]. eapply nofree_app; [exact Hn|]. intros b Hb.
    destruct (decide (total a <= b)); [by apply (shape_tail _ Hsh)|].
    apply negb_true_iff, Hnone. lia.
  - replace (if from <? 512 * j then 512 * j else from) with (Z.max from (512 * j)) by (case_bool; lia).
    assert (Hn' : nofree a from (Z.max from (512 * j))) by (intros b Hb; apply Hn; lia).
    destruct (scanL0ForFreeRunLimited_spec a (Z.max from (512 * j)) (Z.min (8 * j + 8) (zlen (l0 a)) * 64) limit Hsh)
      as [[-> Hnf]|(off & sz & -> & Hrun & _)]; [dlia|lia|done| |]; go_step.
    + left. split; [done|]. eapply nofree_app; [exact Hn'|]. intros b Hb.
      destruct (decide (total a <= b)); [by apply (shape_tail _ Hsh)|]. apply Hnf. dlia.
    + right. pose proof (run_size _ _ _ _ _ Hrun). rewrite (proj2 (Z.ltb_lt 0 sz)) by lia.
      exists (off, sz). split; [done|]. eapply is_run_weaken; [exact Hn'|lia|done].
Qed.

Lemma searchL1Slots_spec a from limit start init fin :
  levels a -> 0 <= from < total a -> 0 < limit ->
  0 <= start < fin -> fin <= zlen (l1 a) -> 0 <= init < 32 ->
  from < 512 * (32 * start + init) + 512 -> nofree a from (512 * (32 * start + init)) ->
  search_step a from limit (512 * (32 * fin)) (searchL1Slots a from limit start init fin).
Proof.
  intros Ha Hfrom Hlim Hst Hfin Hinit Hlo Hn. unfold searchL1Slots.
  set (ofs li := if li =? start then init else 0).
  edestruct (search_range_ind (fun li => nofree a from (512 * (32 * li + ofs li)))
    (fun p => is_run a from limit p.1 p.2) start fin) as [[-> H]|H]; [lia| | | |right; exact H].
  - unfold ofs. by rewrite Z.eqb_refl.
  - intros li Hli HI. destruct (zget_some (l1 a) li) as [w Hw]; [lia|]. cbv beta. rewrite Hw. go_step.
    fold (ofs li). unfold_v3. assert (Hofs : 0 <= ofs li < 32) by (unfold ofs; case_bool; lia).
    edestruct (search_range_ind (fun p => nofree a from (512 * (32 * li + p)))
      (fun p => is_run a from limit p.1 p.2) (ofs li) 32 (searchL1Entry a from limit li w))
      as [[-> H]|H]; [lia|done| | |right; exact H].
    + intros p Hp Hnp. apply (searchL1Entry_spec a from limit li w p); try done; [lia|].
      unfold ofs in Hp. destruct (li =? start) eqn:E; bool_norm; lia.
    + left. split; [done|]. unfold ofs. rewrite (proj2 (Z.eqb_neq (li + 1) start)) by lia.
      by replace (512 * (32 * (li + 1) + 0)) with (512 * (32 * li + 32)) by lia.
  - left. split; [done|]. unfold ofs in H. rewrite (proj2 (Z.eqb_neq fin start)), Z.add_0_r in H by lia. done.
Qed.

(** All blocks below an L1 word of zeros (ones) are allocated (free). *)
Lemma l1_word_zero a li b :
  levels a -> word_is (l1 a) 0 li = true -> 16384 * li <= b < 16384 * li + 16384 -> freeb a b = false.
Proof.
  intros Ha Hz Hb. pose proof (levels_shape _ Ha) as Hsh. unfold word_is in Hz.
  destruct ((l1 a).[li]) as [w|] eqn:Hw; [|done]. bool_norm. subst w. pose proof (zget_bound _ _ _ Hw) as Hli.
  destruct (decide (total a <= b)); [by apply (shape_tail _ Hsh)|].
  assert (Hj : 32 * li <= b / 512 < 32 * li + 32) by dlia.
  pose proof (levels_l1 _ Ha (b / 512) ltac:(lia)) as Hs. unfold sums1 in Hs.
  rewrite (entry_at_word _ _ _ _ Hw), summaryEntry_0 in Hs by lia.
  apply summarises_cases in Hs as [[_ H]|[[? _]|?]]; [|done..].
  apply negb_true_iff, H. dlia.
Qed.

Lemma l1_word_ones a li b :
  levels a -> word_is (l1 a) ones64 li = true ->
  16384 * li <= b < 16384 * li + 16384 -> b < total a -> freeb a b = true.
Proof.
  intros Ha Hz Hb Ht. pose proof (levels_shape _ Ha) as Hsh. unfold word_is in Hz.
  destruct ((l1 a).[li]) as [w|] eqn:Hw; [|done]. bool_norm. pose proof (zget_bound _ _ _ Hw) as Hli.
  assert (Hj : 32 * li <= b / 512 < 32 * li + 32) by dlia.
  pose proof (levels_l1 _ Ha (b / 512) ltac:(lia)) as Hs. unfold sums1 in Hs.
  rewrite (entry_at_word _ _ _ _ Hw), word_ones_entries in Hs
    by (lia || eauto using zget_is_u64, shape_u1).
  apply summarises_cases in Hs as [[? _]|[(_ & _ & H)|?]]; [done| |done].
  apply H. dlia.
Qed.

Lemma searchL2Entry_spec a from limit slot l2Word isStart bit :
  levels a -> 0 <= from < total a -> 0 < limit -> (l2 a).[slot] = Some l2Word -> 0 <= bit < 32 ->
  (if isStart : bool then from / 131072 = 32 * slot + bit else from < 131072 * (32 * slot + bit)) ->
  nofree a from (131072 * (32 * slot + bit)) ->
  search_step a from limit (131072 * (32 * slot + (bit + 1)))
    (searchL2Entry a from limit slot l2Word isStart bit).
Proof.
  intros Ha Hfrom Hlim Hw Hp Hstart Hn. pose proof (levels_shape _ Ha) as Hsh.
  pose proof (shape_l0 _ Hsh) as Hl0. pose proof (shape_l1 _ Hsh) as Hl1. pose proof (zget_bound _ _ _ Hw) as Hsl.
  set (k := 32 * slot + bit) in *.
  replace (131072 * (32 * slot + (bit + 1))) with (131072 * k + 131072) by lia.
  assert (Hlo : from < 131072 * k + 131072) by (destruct isStart; dlia).
  assert (Hsum : sums2 (l1 a) (l2 a) k) by (apply (levels_l2 _ Ha); lia).
  unfold sums2 in Hsum. rewrite (entry_at_word _ _ _ _ Hw) in Hsum by lia.
  replace (k - 32 * slot) with bit in Hsum by lia.
  unfold searchL2Entry. rewrite !minInt64_min. unfold_v3.
  replace (slot * 32 + bit) with k by lia. replace (k * 131072) with (131072 * k) by lia.
  replace (k * 8) with (8 * k) by lia.
  destruct Hsum as [Hlt Hall|Hnone|x y Hx _ Hy _]; unfold_v3; cbn [Z.eqb Pos.eqb].
  - right. destruct (freeEntryRun_spec a from limit (131072 * k) (Z.min (131072 * k + 131072) (total a)))
      as (p & -> & Hrun); [done|lia|dlia|done| |by exists p].
    intros b Hb. apply (l1_word_ones a (b / 16384)); [done| |dlia|lia]. apply Hall. dlia.
  - left. split; [done|]. eapply nofree_app; [exact Hn|]. intros b Hb.
    destruct (decide (total a <= b)); [by apply (shape_tail _ Hsh)|].
    apply (l1_word_zero a (b / 16384)); [done| |dlia]. apply Hnone. dlia.
  - assert (Hres : search_step a from limit (512 * (32 * Z.min (8 * k + 8) (zlen (l1 a))))
      (searchL1Slots a from limit (if isStart then from / 64 / 8 / 32 else 8 * k)
        (if isStart then (from / 64 / 8) mod 32 else 0) (Z.min (8 * k + 8) (zlen (l1 a))))).
    { destruct isStart.
      - apply searchL1Slots_spec; try done; [dlia|lia|dlia|dlia|]. apply nofree_nil. dlia.
      - apply searchL1Slots_spec; try done; [lia|lia|lia|]. eapply nofree_sub; [exact Hn|lia|lia]. }
    destruct Hres as [[-> H]|H]; [left; split; [done|]|by right].
    eapply nofree_app; [exact H|]. intros b Hb. apply (shape_tail _ Hsh). dlia.
Qed.

(** The whole search: the first free block from [from] on, or none. *)
Lemma nextFreeRunFromLocked_spec a from limit :
  levels a -> 0 <= from -> 0 < limit ->
  (nextFreeRunFromLocked a from limit = Some (0, 0) /\ nofree a from (total a)) \/
  (exists off sz, nextFreeRunFromLocked a from limit = Some (off, sz) /\ is_run a from limit off sz).
Proof.
  intros Ha Hfrom Hlim. pose proof (levels_shape _ Ha) as Hsh. pose proof (shape_l0 _ Hsh) as Hl0.
  pose proof (shape_l1 _ Hsh) as Hl1. pose proof (shape_l2 _ Hsh) as Hl2.
  unfold nextFreeRunFromLocked. unfold_v3.
  destruct (total a <=? from) eqn:E; bool_norm; cbn [orb]; [left; split; [done|apply nofree_nil; lia]|].
  rewrite (proj2 (Z.eqb_neq (zlen (l0 a)) 0)) by dlia.
  assert (Hk : from / 64 / 8 / 32 / 8 = from / 131072) by dlia. rewrite Hk.
  set (k0 := from / 131072) in *.
  set (ofs s := if s =? k0 / 32 then k0 mod 32 else 0).
  assert (Hk0 : 131072 * k0 <= from < 131072 * k0 + 131072) by (unfold k0; dlia).
  edestruct (search_range_ind (fun s => nofree a from (131072 * (32 * s + ofs s)))
    (fun p => is_run a from limit p.1 p.2) (k0 / 32) (zlen (l2 a))) as [[-> H]|(p & -> & H)]; [dlia| | | |].
  - unfold ofs. rewrite Z.eqb_refl. apply nofree_nil. dlia.
  - intros s Hs HI. destruct (zget_some (l2 a) s) as [w Hw]; [dlia|]. cbv beta. rewrite Hw. go_step.
    fold (ofs s). assert (Hofs : 0 <= ofs s < 32) by (unfold ofs; case_bool; dlia).
    edestruct (search_range_ind (fun p => nofree a from (131072 * (32 * s + p)))
      (fun p => is_run a from limit p.1 p.2) (ofs s) 32) as [[-> H]|H]; [lia|done| | |right; exact H].
    + intros p Hp Hnp. apply (searchL2Entry_spec a from limit s w); try done; [lia|].
      unfold ofs in Hp. destruct (s =? k0 / 32) eqn:E1; bool_norm; cbn [andb];
        [destruct (p =? k0 mod 32) eqn:E2; bool_norm|]; dlia.
    + left. split; [done|]. unfold ofs. rewrite (proj2 (Z.eqb_neq (s + 1) _)) by lia.
      by replace (131072 * (32 * (s + 1) + 0)) with (131072 * (32 * s + 32)) by lia.
  - left. split; [done|]. eapply nofree_sub; [exact H|lia|].
    unfold ofs. case_bool; dlia.
  - right. destruct p as [off sz]. exists off, sz. done.
Qed.
