(* ===== verification/Extents.v ===== *)
(** * Extents and lists of extents

    What a list of [Result]s covers, its total size and disjointness, and how
    [appendResult] (allocator), [mergeResults] (block device) and the overlap
    test of [Release] act on them. *)

From stdpp Require Import base decidable list numbers option strings.
From Stdlib Require Import ZArith Lia.
From S2P Require Import Prelude Words Allocator AllocatorInv AllocatorMark.

Definition in_result (r : Result) (b : Z) : bool := in_extent (Offset r) (Size r) b.

(** Some extent of the list contains block [b]. *)
Definition covers (rs : list Result) (b : Z) : bool := existsb (fun r => in_result r b) rs.

(** Sum of the sizes. *)
Definition sizes (rs : list Result) : Z := foldr (fun r n => Size r + n) 0 rs.

(** A non-empty extent inside [0, tot). *)
Definition extent_in (tot : Z) (r : Result) : Prop :=
  0 <= Offset r /\ 0 < Size r /\ Offset r + Size r <= tot.

Fixpoint disjoint_extents (rs : list Result) : Prop :=
  match rs with
  | [] => True
  | r :: rs => Forall (fun q => extentsOverlap r q = false) rs /\ disjoint_extents rs
  end.

Lemma in_result_true r b : in_result r b = true <-> Offset r <= b < Offset r + Size r.
Proof. apply in_extent_true. Qed.

Lemma covers_true rs b : covers rs b = true <-> exists r, r ∈ rs /\ in_result r b = true.
Proof.
  unfold covers. rewrite existsb_exists. setoid_rewrite list_elem_of_In. done.
Qed.

Lemma covers_false rs b : covers rs b = false <-> forall r, r ∈ rs -> in_result r b = false.
Proof.
  rewrite <- not_true_iff_false, covers_true. split.
  - intros H r Hr. apply not_true_iff_false. eauto.
  - intros H (r & Hr & Hb). rewrite H in Hb; done.
Qed.

Lemma covers_cons r rs b : covers (r :: rs) b = in_result r b || covers rs b.
Proof. done. Qed.

Lemma covers_app rs rs' b : covers (rs ++ rs') b = covers rs b || covers rs' b.
Proof. apply existsb_app. Qed.

Lemma covers_one r b : covers [r] b = in_result r b.
Proof. simpl. apply orb_false_r. Qed.

Lemma sizes_app rs rs' : sizes (rs ++ rs') = sizes rs + sizes rs'.
Proof. unfold sizes. induction rs as [|r rs IH]; simpl; lia. Qed.

Lemma sizes_nonneg tot rs : Forall (extent_in tot) rs -> 0 <= sizes rs.
Proof. unfold sizes. induction 1 as [|r rs (_ & H & _) _ IH]; simpl; lia. Qed.

Lemma extent_in_covers tot rs b : Forall (extent_in tot) rs -> covers rs b = true -> 0 <= b < tot.
Proof.
  intros HF Hc. apply covers_true in Hc as (r & Hr & Hb). apply in_result_true in Hb.
  rewrite Forall_forall in HF. destruct (HF r Hr) as (? & ? & ?). lia.
Qed.

(** ** Overlap *)

Lemma overlap_sym r q : extentsOverlap r q = extentsOverlap q r.
Proof. unfold extentsOverlap. apply andb_comm. Qed.

(** Two non-empty extents overlap iff they share a block. *)
Lemma overlap_true_iff r q :
  0 < Size r -> 0 < Size q ->
  (extentsOverlap r q = true <-> exists b, in_result r b = true /\ in_result q b = true).
Proof.
  intros Hr Hq. unfold extentsOverlap. rewrite andb_true_iff, !Z.ltb_lt.
  setoid_rewrite in_result_true. split.
  - intros H. exists (Z.max (Offset r) (Offset q)). lia.
  - intros (b & ? & ?). lia.
Qed.

Lemma overlap_false_iff r q :
  0 < Size r -> 0 < Size q ->
  (extentsOverlap r q = false <-> forall b, in_result r b = true -> in_result q b = false).
Proof.
  intros Hr Hq. rewrite <- not_true_iff_false, overlap_true_iff by done. split.
  - intros H b Hb. apply not_true_iff_false. eauto.
  - intros H (b & Hb & Hb'). rewrite H in Hb'; done.
Qed.

Lemma disjoint_app rs rs' :
  disjoint_extents (rs ++ rs') <->
  disjoint_extents rs /\ disjoint_extents rs' /\
  Forall (fun r => Forall (fun q => extentsOverlap r q = false) rs') rs.
Proof.
  induction rs as [|r rs IH]; simpl; [by intuition|].
  rewrite IH, Forall_app, Forall_cons. tauto.
Qed.

(** An extent none of whose blocks is covered is disjoint from the list. *)
Lemma disjoint_fresh tot rs r :
  Forall (extent_in tot) rs -> 0 < Size r ->
  (forall b, in_result r b = true -> covers rs b = false) ->
  Forall (fun q => extentsOverlap q r = false) rs.
Proof.
  intros HF Hs H. rewrite Forall_forall in *. intros q Hq. destruct (HF q Hq) as (_ & ? & _).
  rewrite overlap_sym. apply overlap_false_iff; [done..|]. intros b Hb.
  specialize (H b Hb). rewrite covers_false in H. auto.
Qed.

Lemma disjoint_covers tot r rs b :
  extent_in tot r -> Forall (extent_in tot) rs -> disjoint_extents (r :: rs) ->
  in_result r b = true -> covers rs b = false.
Proof.
  intros (_ & Hr & _) HF [HD _] Hb. apply covers_false. intros q Hq.
  rewrite Forall_forall in HF, HD. destruct (HF q Hq) as (_ & ? & _).
  eapply overlap_false_iff; [| |apply HD|]; done.
Qed.

(** Two lists of disjoint extents are disjoint iff they share no block. *)
Lemma disjoint_app_covers tot rs rs' :
  Forall (extent_in tot) (rs ++ rs') ->
  (disjoint_extents (rs ++ rs') <->
   disjoint_extents rs /\ disjoint_extents rs' /\ forall b, covers rs b = true -> covers rs' b = false).
Proof.
  intros HF. apply Forall_app in HF as [HF HF']. rewrite disjoint_app. rewrite Forall_forall in HF, HF'.
  split; intros (H1 & H2 & H3); (split; [done|]; split; [done|]).
  - intros b Hb. apply covers_true in Hb as (r & Hr & Hrb). apply covers_false. intros q Hq.
    rewrite Forall_forall in H3. specialize (H3 r Hr). rewrite Forall_forall in H3.
    destruct (HF r Hr) as (_ & ? & _), (HF' q Hq) as (_ & ? & _). eapply overlap_false_iff; [| |by apply H3|]; done.
  - rewrite Forall_forall. intros r Hr. rewrite Forall_forall. intros q Hq.
    destruct (HF r Hr) as (_ & ? & _), (HF' q Hq) as (_ & ? & _). apply overlap_false_iff; [done..|]. intros b Hb.
    assert (Hc : covers rs b = true) by (apply covers_true; eauto). apply H3 in Hc. rewrite covers_false in Hc. auto.
Qed.

(** The pairwise test of [Release]. *)
Lemma findOverlap_none rs : findOverlap rs = None <-> disjoint_extents rs.
Proof.
  induction rs as [|r rs IH]; cbn [findOverlap disjoint_extents]; [done|].
  destruct (list_find _ rs) as [[i q]|] eqn:E.
  - split; [done|]. intros [HF _]. apply list_find_Some in E as (Hq & Ho & _).
    rewrite Forall_lookup in HF. specialize (HF _ _ Hq). congruence.
  - rewrite IH. apply list_find_None in E. split; [|tauto]. intros H. split; [|done].
    eapply Forall_impl; [exact E|]. intros q Hq. by apply not_true_iff_false.
Qed.

(** For disjoint extents the total size is the number of covered blocks. *)
Lemma sizes_count tot rs :
  Forall (extent_in tot) rs -> disjoint_extents rs -> sizes rs = count (covers rs) 0 tot.
Proof.
  induction rs as [|r rs IH]; intros HF HD; [by rewrite count_none|].
  pose proof HF as HF'. apply Forall_cons in HF' as [(H1 & H2 & H3) HF'].
  rewrite (count_partition _ (in_result r)). rewrite (count_ext _ (in_result r)); cycle 1.
  { intros b Hb. rewrite covers_cons. by destruct (in_result r b), (covers rs b). }
  rewrite (count_ext (fun b => covers (r :: rs) b && negb (in_result r b)) (covers rs)); cycle 1.
  { intros b Hb. rewrite covers_cons. destruct (in_result r b) eqn:E; simpl; [|by destruct (covers rs b)].
    symmetry. apply (disjoint_covers tot r rs b); [done|done|done|done]. }
  rewrite <- IH; [|done|by destruct HD].
  rewrite (count_split _ 0 (Offset r)), (count_split _ (Offset r) (Offset r + Size r)) by lia.
  rewrite (count_none _ 0), (count_none _ (Offset r + Size r)), count_all.
  - change (sizes (r :: rs)) with (Size r + sizes rs). lia.
  - lia.
  - intros b Hb. apply in_result_true. lia.
  - intros b Hb. apply not_true_iff_false. rewrite in_result_true. lia.
  - intros b Hb. apply not_true_iff_false. rewrite in_result_true. lia.
Qed.

(** ** [appendResult] *)

Lemma last_take_snoc (rs : list Result) p :
  last rs = Some p -> rs = take (length rs - 1) rs ++ [p].
Proof.
  intros H. apply last_Some in H as [l ->]. rewrite length_app. simpl.
  replace (length l + 1 - 1)%nat with (length l) by lia. by rewrite take_app_length.
Qed.

Lemma appendResult_spec tot rs r :
  Forall (extent_in tot) rs -> disjoint_extents rs -> extent_in tot r ->
  (forall b, in_result r b = true -> covers rs b = false) ->
  Forall (extent_in tot) (appendResult rs r) /\ disjoint_extents (appendResult rs r) /\
  sizes (appendResult rs r) = sizes rs + Size r /\
  (forall b, covers (appendResult rs r) b = covers rs b || in_result r b) /\
  (exists q, last (appendResult rs r) = Some q /\ Offset q + Size q = Offset r + Size r).
Proof.
  intros HF HD (H1 & H2 & H3) Hfresh.
  pose proof (disjoint_fresh tot rs r HF H2 Hfresh) as Hnew.
  assert (Happ : Forall (extent_in tot) (rs ++ [r]) /\ disjoint_extents (rs ++ [r]) /\
     sizes (rs ++ [r]) = sizes rs + Size r /\
     (forall b, covers (rs ++ [r]) b = covers rs b || in_result r b) /\
     (exists q, last (rs ++ [r]) = Some q /\ Offset q + Size q = Offset r + Size r)).
  { split_and!.
    - apply Forall_app. split; [done|]. by constructor.
    - apply disjoint_app. split_and!; [done|by repeat constructor|].
      eapply Forall_impl; [exact Hnew|]. intros q Hq. by repeat constructor.
    - rewrite sizes_app. simpl. lia.
    - intros b. by rewrite covers_app, covers_one.
    - exists r. by rewrite last_snoc. }
  unfold appendResult. rewrite (proj2 (Z.leb_gt (Size r) 0)) by lia.
  destruct (last rs) as [p|] eqn:El; [|done].
  destruct (Offset p + Size p =? Offset r) eqn:E; [|done]. bool_norm.
  pose proof (last_take_snoc _ _ El) as Ers. set (l := take (length rs - 1) rs) in *. clearbody l.
  rewrite Ers in *. apply Forall_app in HF as [HFl HFp]. apply Forall_cons in HFp as [(P1 & P2 & P3) _].
  apply disjoint_app in HD as (HDl & _ & HDp). apply Forall_app in Hnew as [Hnl _].
  assert (Hin : forall b, in_result (mkResult (Offset p) (Size p + Size r)) b = in_result p b || in_result r b).
  { intros b. apply eq_true_iff_eq. rewrite orb_true_iff, !in_result_true. simpl. lia. }
  split_and!.
  - apply Forall_app. split; [done|]. constructor; [|done]. split; simpl; lia.
  - apply disjoint_app. split_and!; [done|by repeat constructor|].
    rewrite Forall_forall in *. intros q Hq. constructor; [|done].
    destruct (HFl q Hq) as (_ & ? & _). specialize (HDp q Hq). apply Forall_cons in HDp as [HDp _].
    apply overlap_false_iff; [done|simpl; lia|]. intros b Hb. rewrite Hin, orb_false_iff. split.
    + eapply overlap_false_iff; [| |exact HDp|]; done.
    + eapply (overlap_false_iff q r); [done..|by apply Hnl|done].
  - rewrite !sizes_app. simpl. lia.
  - intros b. rewrite !covers_app, !covers_one, Hin. by rewrite orb_assoc.
  - eexists. rewrite last_snoc. split; [done|]. simpl. lia.
Qed.
