(* ===== verification/AllocatorOps.v ===== *)
(** * Allocate, Release and recovery

    The public operations of the allocator: what each returns on every branch,
    that none of them panics, and that all of them keep [inv]. *)

From stdpp Require Import base decidable list numbers option strings.
From Stdlib Require Import ZArith Lia.
From S2P Require Import Prelude Words Allocator AllocatorInv AllocatorMark AllocatorScan Extents.

(** ** Allocate *)

(** [taken a rs a']: the extents [rs] are disjoint, were free in [a], and are
    what [a'] has less than [a]. *)
Record taken (a : AllocatorV3) (rs : list Result) (a' : AllocatorV3) : Prop := {
  tk_in : Forall (extent_in (total a)) rs;
  tk_disjoint : disjoint_extents rs;
  tk_was_free : forall b, covers rs b = true -> freeb a b = true;
  tk_frame : forall b, freeb a' b = freeb a b && negb (covers rs b);
  tk_total : total a' = total a;
}.

Lemma taken_nil a : taken a [] a.
Proof. split; try done. intros b. by rewrite andb_true_r. Qed.

(** Taking one more run. *)
Lemma taken_step a rs a1 off tk a2 :
  taken a rs a1 -> shape a1 -> 0 < tk -> (forall b, off <= b < off + tk -> freeb a1 b = true) ->
  marked a1 off tk false a2 -> taken a (appendResult rs (mkResult off tk)) a2.
Proof.
  intros [Hin Hd Hwas Hfr Ht] Hsh Htk Hrun Hm.
  assert (Hext : extent_in (total a) (mkResult off tk)).
  { pose proof (freeb_bounds _ _ Hsh (Hrun off ltac:(lia))).
    pose proof (freeb_bounds _ _ Hsh (Hrun (off + tk - 1) ltac:(lia))). split; simpl; lia. }
  assert (Hfresh : forall b, in_result (mkResult off tk) b = true -> covers rs b = false).
  { intros b Hb. apply in_result_true in Hb. simpl in Hb. specialize (Hrun b Hb).
    rewrite Hfr, andb_true_iff, negb_true_iff in Hrun. tauto. }
  destruct (appendResult_spec _ _ _ Hin Hd Hext Hfresh) as (P1 & P2 & P3 & P4 & _).
  split; [done|done| | |].
  - intros b. rewrite P4, orb_true_iff. intros [Hc|Hb]; [auto|].
    apply in_result_true in Hb. simpl in Hb. specialize (Hrun b Hb).
    rewrite Hfr, andb_true_iff in Hrun. tauto.
  - intros b. rewrite (mk_free _ _ _ _ _ Hm), P4, negb_orb, andb_assoc, <- Hfr.
    change (in_result (mkResult off tk) b) with (in_extent off tk b).
    destruct (in_extent off tk b); by rewrite ?andb_false_r, ?andb_true_r.
  - by rewrite (mk_total _ _ _ _ _ Hm).
Qed.

(** One pass of the allocation loop. [from0] is where the pass started. *)
Lemma allocLoop_spec a0 from0 fuel pass1 : forall a from left_ rs,
  levels a -> taken a0 rs a -> 0 <= from0 <= from -> 0 <= left_ <= Z.of_nat fuel ->
  nofree a from0 from ->
  exists a' left' rs',
    allocLoop fuel pass1 a from left_ rs = Some (a', left', rs') /\
    levels a' /\ taken a0 rs' a' /\ lastPos a' = lastPos a /\ available a' = available a /\
    0 <= left' <= left_ /\ sizes rs' + left' = sizes rs + left_ /\
    (forall b, freeb a b = false -> freeb a' b = false) /\
    (left' = 0 \/ nofree a' from0 (if pass1 : bool then lastPos a' else total a')).
Proof.
  induction fuel as [|fuel IH]; intros a from left_ rs Ha Htk Hfrom Hleft Hn; cbn [allocLoop].
  { exists a, left_, rs. split_and!; try done; [lia|]. left. lia. }
  destruct (0 <? left_) eqn:E; bool_norm; cbn [negb].
  2: { exists a, left_, rs. split_and!; try done; [lia|]. left. lia. }
  destruct (nextFreeRunFromLocked_spec a from left_ Ha) as [[-> Hnf]|(off & sz & -> & Hrun)]; [lia|lia| |]; go_step.
  { exists a, left_, rs. split_and!; try done; [lia|]. right.
    assert (nofree a from0 (total a)) by (by eapply nofree_app).
    destruct pass1; [|done]. intros b Hb. destruct (decide (total a <= b));
      [by apply (shape_tail _ (levels_shape _ Ha))|]. apply H. lia. }
  destruct Hrun as [R1 R2 R3 R4]. rewrite (proj2 (Z.eqb_neq sz 0)) by lia.
  destruct (pass1 && (lastPos a <=? off)) eqn:Eb; bool_norm.
  { destruct pass1; [|done]. exists a, left_, rs. split_and!; try done; [lia|]. right.
    eapply nofree_sub; [eapply nofree_app; [exact Hn|exact R2]|lia|lia]. }
  rewrite minInt64_min, Z.min_l by lia. pose proof (levels_shape _ Ha) as Hsh.
  pose proof (freeb_bounds _ _ Hsh (R4 off ltac:(lia))).
  pose proof (freeb_bounds _ _ Hsh (R4 (off + sz - 1) ltac:(lia))).
  destruct (markRangeLocked_spec a off sz false) as (a1 & -> & Ha1 & Hm); [done|lia..|]. go_step.
  pose proof (taken_step _ _ _ off sz _ Htk Hsh ltac:(lia) R4 Hm) as Htk1.
  assert (Hmono : forall b, freeb a b = false -> freeb a1 b = false).
  { intros b Hb. rewrite (mk_free _ _ _ _ _ Hm). by destruct (in_extent off sz b). }
  destruct (IH a1 (off + sz) (left_ - sz) (appendResult rs (mkResult off sz)))
    as (a' & left' & rs' & -> & G1 & G2 & G3 & G4 & G5 & G6 & G7 & G8); [done|done|lia|lia| |].
  { intros b Hb. rewrite (mk_free _ _ _ _ _ Hm). destruct (in_extent off sz b) eqn:Ein; [done|].
    apply in_extent_false in Ein. destruct (decide (b < from)); [apply Hn|apply R2]; lia. }
  assert (Hsz : sizes (appendResult rs (mkResult off sz)) = sizes rs + sz).
  { unfold appendResult. simpl. rewrite (proj2 (Z.leb_gt sz 0)) by lia.
    destruct (last rs) eqn:El; [|rewrite sizes_app; simpl; lia].
    case_bool; [|rewrite sizes_app; simpl; lia].
    rewrite (last_take_snoc _ _ El) at 3. rewrite !sizes_app. simpl. lia. }
  exists a', left', rs'. split_and!; try done; try lia.
  - rewrite G3. apply (mk_lastPos _ _ _ _ _ Hm).
  - rewrite G4. apply (mk_available _ _ _ _ _ Hm).
  - intros b Hb. auto.
Qed.

Lemma taken_count a rs a' :
  taken a rs a' -> count (freeb a') 0 (total a) = count (freeb a) 0 (total a) - sizes rs.
Proof.
  intros [Hin Hd Hwas Hfr Ht]. rewrite (sizes_count _ _ Hin Hd).
  rewrite (count_partition (freeb a) (covers rs) 0 (total a)).
  rewrite (count_ext (fun b => freeb a b && covers rs b) (covers rs)); cycle 1.
  { intros b Hb. destruct (covers rs b) eqn:E; [by rewrite Hwas|]. by rewrite andb_false_r. }
  rewrite (count_ext (freeb a') (fun b => freeb a b && negb (covers rs b))) by auto. lia.
Qed.

Lemma set_available_levels a v : levels a -> levels (set_available a v).
Proof. intros [[]]. by split. Qed.

Lemma set_lastPos_levels a v : levels a -> levels (set_lastPos a v).
Proof. intros [[]]. by split. Qed.

Lemma sizes_pos_last tot rs :
  Forall (extent_in tot) rs -> 0 < sizes rs -> exists q, last rs = Some q /\ extent_in tot q.
Proof.
  intros HF Hs. destruct (last rs) as [q|] eqn:E.
  - exists q. split; [done|]. apply last_Some in E as [l ->]. apply Forall_app in HF as [_ HF].
    by apply Forall_cons in HF as [? _].
  - apply last_None in E as ->. done.
Qed.

(** Allocation of at most [available] blocks succeeds: the fall-back branch
    for an inconsistent bitmap is never taken. *)
Lemma Allocate_ok a want :
  inv a -> 0 < want <= available a ->
  exists a' rs, Allocate (Some a) want = Some (Some a', inr rs) /\ inv a' /\
    taken a rs a' /\ sizes rs = want /\ available a' = available a - want.
Proof.
  intros Hi Hw. pose proof (inv_levels _ Hi) as Ha. pose proof (inv_lastPos _ Hi) as Hpos.
  pose proof (inv_available _ Hi) as Hav. unfold Allocate.
  rewrite (proj2 (Z.leb_gt want 0)), (proj2 (Z.ltb_ge (available a) want)) by lia.
  destruct (allocLoop_spec a (lastPos a) (Z.to_nat want) false a (lastPos a) want [])
    as (a1 & left1 & rs1 & -> & L1 & T1 & P1 & V1 & B1 & S1 & M1 & F1);
    [done|apply taken_nil|lia|lia|by apply nofree_nil|]. go_step. cbn in S1.
  destruct (allocLoop_spec a 0 (Z.to_nat left1) true a1 0 left1 rs1)
    as (a2 & left2 & rs2 & -> & L2 & T2 & P2 & V2 & B2 & S2 & M2 & F2);
    [done|done|lia|lia|by apply nofree_nil|]. go_step.
  pose proof (taken_count _ _ _ T2) as Hcnt. pose proof (tk_total _ _ _ T2) as Et2.
  pose proof (tk_total _ _ _ T1) as Et1.
  assert (left2 = 0) as ->.
  { destruct F2 as [|F2]; [done|]. destruct F1 as [|F1]; [lia|]. rewrite P2, P1 in F2.
    rewrite Et1 in F1. rewrite (count_none (freeb a2)) in Hcnt; [lia|]. intros b Hb.
    destruct (decide (b < lastPos a)); [apply F2; lia|]. apply M2, F1. lia. }
  cbn [Z.ltb Z.compare]. destruct (sizes_pos_last _ _ (tk_in _ _ _ T2)) as (q & Hq & Q1 & Q2 & Q3); [lia|].
  rewrite Hq. eexists _, rs2. split; [reflexivity|].
  split; [|split_and!; [|lia|simpl; lia]].
  - split; simpl.
    + by apply set_lastPos_levels, set_available_levels.
    + change (freeb (set_lastPos _ _)) with (freeb a2). rewrite Et2. lia.
    + rewrite Et2. case_bool; lia.
  - destruct T2. by split.
Qed.

Lemma Allocate_err a want :
  ~ (0 < want <= available a) ->
  Allocate (Some a) want = Some (Some a, inl
    (if want <=? 0 then ErrInvalidAllocateSize want else ErrNotEnoughSpace want (available a))).
Proof.
  intros H. unfold Allocate. destruct (want <=? 0) eqn:E; bool_norm; [done|].
  by rewrite (proj2 (Z.ltb_lt (available a) want)) by lia.
Qed.

(** ** Release *)

(** An argument extent of [int64] fields. *)
Definition result_i64 (r : Result) : Prop := is_i64 (Offset r) /\ is_i64 (Size r).

(** [validateRangeV3] accepts exactly the non-empty extents inside the device,
    also when [offset + size] overflows. *)
Lemma validateRangeV3_spec a offset size op :
  0 < total a <= 2 ^ 62 -> is_i64 offset -> is_i64 size ->
  (validateRangeV3 a offset size op = None <-> extent_in (total a) (mkResult offset size)).
Proof.
  unfold is_i64, validateRangeV3, extent_in. simpl. intros Ht Ho Hs.
  assert (Hi : i64 (offset + size) = offset + size \/
               (2 ^ 63 <= offset + size /\ i64 (offset + size) = offset + size - 2 ^ 64) \/
               (offset + size < - 2 ^ 63)).
  { destruct (decide (- 2 ^ 63 <= offset + size < 2 ^ 63)); [left; by apply i64_small|].
    destruct (decide (offset + size < - 2 ^ 63)); [by right; right|]. right. left. split; [lia|].
    unfold i64. rewrite <- (Z.mod_unique (offset + size + 2 ^ 63) (2 ^ 64) 1 (offset + size - 2 ^ 63)); lia. }
  case_bool.
  - split; [done|]. intros ?. bool_norm. destruct Heqb as [Hb|Hb]; bool_norm; [|lia].
    destruct Hb as [Hb|Hb]; bool_norm; [|lia]. destruct Hb as [Hb|Hb]; bool_norm; lia.
  - split; [|done]. intros _. bool_norm. lia.
Qed.

Lemma validateRangeV3_some a offset size op e :
  validateRangeV3 a offset size op = Some e -> e = ErrInvalidExtent op offset size (total a).
Proof. unfold validateRangeV3. case_bool; congruence. Qed.

(** An extent that [Release] accepts in state [a]. *)
Definition releasable (a : AllocatorV3) (r : Result) : Prop :=
  extent_in (total a) r /\ nofree a (Offset r) (Offset r + Size r).

Lemma checkExtents_spec a rs :
  shape a -> Forall result_i64 rs ->
  exists o, checkExtents a rs = Some o /\ (o = None <-> Forall (releasable a) rs).
Proof.
  intros Ha HF. induction HF as [|r rs [H1 H2] HF IH]; cbn [checkExtents]; [by exists None|].
  pose proof (validateRangeV3_spec a (Offset r) (Size r) "release" (shape_total _ Ha) H1 H2) as Hv.
  assert (Er : mkResult (Offset r) (Size r) = r) by by destruct r. rewrite Er in Hv.
  destruct (validateRangeV3 a (Offset r) (Size r) "release") as [e|].
  - exists (Some e). split; [done|]. split; [done|]. intros HF'. apply Forall_cons in HF' as [[Hin _] _].
    destruct Hv as [_ Hv]. by specialize (Hv Hin).
  - destruct Hv as [Hv _]. specialize (Hv eq_refl). pose proof Hv as (V1 & V2 & V3).
    destruct (rangeFullyAllocatedLocked_spec a (Offset r) (Size r) Ha V1 V2 V3) as (b & -> & Hb). go_step.
    destruct b.
    + destruct IH as (o & -> & Ho). exists o. split; [done|]. rewrite Ho, Forall_cons.
      split; [|tauto]. intros. split; [|done]. split; [done|]. exact (proj1 Hb eq_refl).
    + eexists. split; [done|]. split; [done|]. intros HF'. apply Forall_cons in HF' as [[_ Hn] _].
      destruct Hb as [_ Hb]. specialize (Hb Hn). done.
Qed.

(** Marking a list of disjoint extents free that are all allocated. *)
Lemma markAll_free_spec rs : forall a acc,
  levels a -> Forall (releasable a) rs -> disjoint_extents rs ->
  exists a', markAll a rs true acc = Some (a', acc + sizes rs) /\ levels a' /\
    (forall b, freeb a' b = freeb a b || covers rs b) /\
    total a' = total a /\ available a' = available a /\ lastPos a' = lastPos a.
Proof.
  induction rs as [|r rs IH]; intros a acc Ha HF HD; cbn [markAll].
  { exists a. split_and!; try done; [by rewrite Z.add_0_r|]. intros b. by rewrite orb_false_r. }
  apply Forall_cons in HF as [[(R1 & R2 & R3) Rn] HF]. destruct HD as [HDr HD].
  destruct (markRangeLocked_spec a (Offset r) (Size r) true) as (a1 & -> & Ha1 & Hm); [done..|]. go_step.
  pose proof (mk_total _ _ _ _ _ Hm) as Et.
  destruct (IH a1 (acc + count (fun b => xorb (freeb a b) true) (Offset r) (Offset r + Size r)))
    as (a' & -> & L' & F' & T' & V' & P'); [done| |done|].
  { rewrite Forall_forall in *. intros q Hq. destruct (HF q Hq) as [Hin Hn]. split; [by rewrite Et|].
    intros b Hb. rewrite (mk_free _ _ _ _ _ Hm).
    assert (in_result q b = true) as Hqb by by apply in_result_true.
    specialize (HDr q Hq). rewrite overlap_sym in HDr. destruct Hin as (_ & ? & _).
    rewrite overlap_false_iff in HDr by done. specialize (HDr b Hqb).
    change (in_extent (Offset r) (Size r) b) with (in_result r b). rewrite HDr. by apply Hn. }
  rewrite count_all; [|lia|intros b Hb; by rewrite Rn].
  exists a'. split_and!; try done.
  - f_equal. f_equal. change (sizes (r :: rs)) with (Size r + sizes rs). lia.
  - intros b. rewrite F', (mk_free _ _ _ _ _ Hm), covers_cons.
    change (in_extent (Offset r) (Size r) b) with (in_result r b).
    destruct (in_result r b), (freeb a b); done.
  - by rewrite T', Et.
  - by rewrite V', (mk_available _ _ _ _ _ Hm).
  - by rewrite P', (mk_lastPos _ _ _ _ _ Hm).
Qed.

Lemma freed_count tot f g h :
  (forall b, f b = g b || h b) -> (forall b, h b = true -> g b = false) ->
  count f 0 tot = count g 0 tot + count h 0 tot.
Proof.
  intros Hf Hh. rewrite (count_partition f h 0 tot), Z.add_comm. f_equal; apply count_ext; intros b _.
  - rewrite Hf. destruct (h b) eqn:E; [by rewrite (Hh b E)|]. by destruct (g b).
  - rewrite Hf. destruct (h b), (g b); done.
Qed.

(** [Release] succeeds exactly on disjoint allocated extents inside the
    device; otherwise it reports an error and changes nothing. *)
Lemma Release_cases a rs :
  inv a -> Forall result_i64 rs ->
  (exists a', Release (Some a) rs = Some (Some a', None) /\ inv a' /\
     Forall (releasable a) rs /\ disjoint_extents rs /\
     (forall b, freeb a' b = freeb a b || covers rs b) /\
     total a' = total a /\ lastPos a' = lastPos a /\ available a' = available a + sizes rs) \/
  (exists e, Release (Some a) rs = Some (Some a, Some e) /\
     ~ (Forall (releasable a) rs /\ disjoint_extents rs)).
Proof.
  intros Hi HF. pose proof (inv_levels _ Hi) as Ha. pose proof (levels_shape _ Ha) as Hsh.
  destruct (checkExtents_spec a rs Hsh HF) as (o & Ho & Hiff).
  unfold Release. destruct rs as [|r0 rs0] eqn:Ers.
  { left. exists a. split_and!; try done; [intros b; by rewrite orb_false_r|simpl; lia]. }
  rewrite <- Ers in *. clear Ers. rewrite Ho. go_step. destruct o as [e|].
  { right. exists e. split; [done|]. intros [H _]. apply Hiff in H. done. }
  destruct Hiff as [Hrel _]. specialize (Hrel eq_refl).
  pose proof (findOverlap_none rs) as Hov. destruct (findOverlap rs) as [[r1 r2]|] eqn:Ef.
  { right. eexists. split; [done|]. intros [_ H]. apply Hov in H. done. }
  destruct Hov as [Hd _]. specialize (Hd eq_refl). left.
  destruct (markAll_free_spec rs a 0 Ha Hrel Hd) as (a' & -> & L' & F' & T' & V' & P'). go_step.
  assert (Hin : Forall (extent_in (total a)) rs) by (eapply Forall_impl; [exact Hrel|by intros r []]).
  eexists. split; [reflexivity|]. split; [|split_and!; try done; simpl; lia].
  split; simpl; [by apply set_available_levels| |by rewrite P', T'; apply inv_lastPos].
  change (freeb (set_available _ _)) with (freeb a'). rewrite T', V', (inv_available _ Hi).
  rewrite (freed_count _ (freeb a') (freeb a) (covers rs)), (sizes_count _ _ Hin Hd); [lia|done|].
  intros b Hb. apply covers_true in Hb as (r & Hr & Hb). rewrite Forall_forall in Hrel.
  destruct (Hrel r Hr) as [_ Hn]. apply Hn. by apply in_result_true.
Qed.

(** ** Recovery *)

Lemma InitAllocated_cases a offset size :
  inv a -> is_i64 offset -> is_i64 size ->
  (size <= 0 /\ InitAllocated (Some a) offset size = Some (Some a, None)) \/
  (0 < size /\ ~ extent_in (total a) (mkResult offset size) /\
     InitAllocated (Some a) offset size =
       Some (Some a, Some (ErrInvalidExtent "InitAllocated" offset size (total a)))) \/
  (extent_in (total a) (mkResult offset size) /\
   exists a', InitAllocated (Some a) offset size = Some (Some a', None) /\ inv a' /\
     (forall b, freeb a' b = freeb a b && negb (in_extent offset size b)) /\
     total a' = total a /\ lastPos a' = lastPos a).
Proof.
  intros Hi Ho Hs. pose proof (inv_levels _ Hi) as Ha. pose proof (shape_total _ (levels_shape _ Ha)) as Ht.
  unfold InitAllocated. destruct (size <=? 0) eqn:E; bool_norm; [by left|right].
  pose proof (validateRangeV3_spec a offset size "InitAllocated" Ht Ho Hs) as Hv.
  destruct (validateRangeV3 a offset size "InitAllocated") as [e|] eqn:Ev.
  { left. split_and!; [lia| |by apply validateRangeV3_some in Ev as ->].
    intros Hin. apply Hv in Hin. done. }
  right. destruct Hv as [Hv _]. specialize (Hv eq_refl). split; [done|]. destruct Hv as (V1 & V2 & V3). simpl in *.
  destruct (markRangeLocked_spec a offset size false Ha V1 V2 V3) as (a1 & -> & Ha1 & Hm). go_step. cbn [available set_available].
  pose proof (marked_count a offset size false a1 V1 ltac:(lia) V3 Hm) as Hc. cbv iota in Hc.
  pose proof (inv_available _ Hi) as Hav. rewrite (mk_available _ _ _ _ _ Hm).
  pose proof (count_bounds (freeb a1) 0 (total a)).
  rewrite (proj2 (Z.ltb_ge _ 0)) by lia. eexists. split; [done|]. split; [|split_and!].
  - split; simpl; [by apply set_available_levels| |].
    + change (freeb (set_available _ _)) with (freeb a1). rewrite (mk_total _ _ _ _ _ Hm). lia.
    + rewrite (mk_lastPos _ _ _ _ _ Hm), (mk_total _ _ _ _ _ Hm). by apply inv_lastPos.
  - intros b. change (freeb (set_available _ _)) with (freeb a1). rewrite (mk_free _ _ _ _ _ Hm).
    by destruct (in_extent offset size b), (freeb a b).
  - apply (mk_total _ _ _ _ _ Hm).
  - apply (mk_lastPos _ _ _ _ _ Hm).
Qed.

Lemma InitFree_cases a offset size :
  inv a -> is_i64 offset -> is_i64 size ->
  (size <= 0 /\ InitFree (Some a) offset size = Some (Some a, None)) \/
  (0 < size /\ ~ extent_in (total a) (mkResult offset size) /\
     InitFree (Some a) offset size =
       Some (Some a, Some (ErrInvalidExtent "InitFree" offset size (total a)))) \/
  (extent_in (total a) (mkResult offset size) /\
   exists a', InitFree (Some a) offset size = Some (Some a', None) /\ inv a' /\
     (forall b, freeb a' b = freeb a b || in_extent offset size b) /\
     total a' = total a /\ lastPos a' = lastPos a).
Proof.
  intros Hi Ho Hs. pose proof (inv_levels _ Hi) as Ha. pose proof (shape_total _ (levels_shape _ Ha)) as Ht.
  unfold InitFree. destruct (size <=? 0) eqn:E; bool_norm; [by left|right].
  pose proof (validateRangeV3_spec a offset size "InitFree" Ht Ho Hs) as Hv.
  destruct (validateRangeV3 a offset size "InitFree") as [e|] eqn:Ev.
  { left. split_and!; [lia| |by apply validateRangeV3_some in Ev as ->].
    intros Hin. apply Hv in Hin. done. }
  right. destruct Hv as [Hv _]. specialize (Hv eq_refl). split; [done|]. destruct Hv as (V1 & V2 & V3). simpl in *.
  destruct (markRangeLocked_spec a offset size true Ha V1 V2 V3) as (a1 & -> & Ha1 & Hm). go_step. cbn [available total set_available].
  pose proof (marked_count a offset size true a1 V1 ltac:(lia) V3 Hm) as Hc. cbv iota in Hc.
  pose proof (inv_available _ Hi) as Hav. rewrite (mk_available _ _ _ _ _ Hm), (mk_total _ _ _ _ _ Hm).
  pose proof (count_bounds (freeb a1) 0 (total a)).
  rewrite (proj2 (Z.ltb_ge (total a) _)) by lia. eexists. split; [done|]. split; [|split_and!].
  - split; simpl; [by apply set_available_levels| |].
    + change (freeb (set_available _ _)) with (freeb a1). rewrite (mk_total _ _ _ _ _ Hm). lia.
    + rewrite (mk_lastPos _ _ _ _ _ Hm), (mk_total _ _ _ _ _ Hm). by apply inv_lastPos.
  - intros b. change (freeb (set_available _ _)) with (freeb a1). rewrite (mk_free _ _ _ _ _ Hm).
    by destruct (in_extent offset size b), (freeb a b).
  - apply (mk_total _ _ _ _ _ Hm).
  - apply (mk_lastPos _ _ _ _ _ Hm).
Qed.

(** ** The representation is canonical *)

Lemma summarises_det p q lo hi e e' :
  (forall k, p k = true -> q k = false) ->
  summarises p q lo hi e -> summarises p q lo hi e' -> e = e'.
Proof.
  intros Hex [Hlt H|H|x y Hx Hpx Hy Hqy] [Hlt' H'|H'|x' y' Hx' Hpx' Hy' Hqy']; try done.
  - specialize (H lo ltac:(lia)). specialize (H' lo ltac:(lia)). rewrite (Hex _ H) in H'. done.
  - by rewrite H in Hpx'.
  - specialize (H lo ltac:(lia)). specialize (H' lo ltac:(lia)). rewrite (Hex _ H') in H. done.
  - by rewrite H in Hqy'.
  - by rewrite H' in Hpx.
  - by rewrite H' in Hqy.
Qed.

(** Two summary levels with the same entries are equal. *)
Lemma entries_ext ws ws' :
  Forall is_u64 ws -> Forall is_u64 ws' -> zlen ws = zlen ws' ->
  (forall j, 0 <= j < 32 * zlen ws -> entry_at ws j = entry_at ws' j) -> ws = ws'.
Proof.
  intros Hu Hu' Hl H. apply zget_ext; [done|]. intros i Hi.
  destruct (zget_some ws i) as [w Hw]; [done|]. destruct (zget_some ws' i) as [w' Hw']; [lia|].
  rewrite Hw, Hw'. f_equal. apply u64_ext; [eauto with go..|]. intros b Hb.
  pose proof (H (32 * i + b / 2) ltac:(dlia)) as He.
  rewrite (entry_at_word _ _ _ _ Hw), (entry_at_word _ _ _ _ Hw') in He by dlia.
  replace (32 * i + b / 2 - 32 * i) with (b / 2) in He by lia.
  apply (f_equal (fun e => Z.testbit e (b mod 2))) in He.
  rewrite !testbit_summaryEntry in He by dlia. rewrite (proj2 (Z.ltb_lt (b mod 2) 2)) in He by dlia.
  replace (2 * (b / 2) + b mod 2) with b in He by dlia. done.
Qed.

Lemma levels_canonical a a' :
  levels a -> levels a' -> total a = total a' -> (forall b, freeb a b = freeb a' b) ->
  l0 a = l0 a' /\ l1 a = l1 a' /\ l2 a = l2 a' /\ l0Slots a = l0Slots a'.
Proof.
  intros Ha Ha' Ht Hf. pose proof (levels_shape _ Ha) as S. pose proof (levels_shape _ Ha') as S'.
  assert (E0 : l0 a = l0 a').
  { apply zget_ext; [by rewrite (shape_l0 _ S), (shape_l0 _ S'), Ht|]. intros i Hi.
    destruct (zget_some (l0 a) i) as [w Hw]; [done|].
    destruct (zget_some (l0 a') i) as [w' Hw']; [by rewrite (shape_l0 _ S'), <- Ht, <- (shape_l0 _ S)|].
    rewrite Hw, Hw'. f_equal. apply u64_ext; [eauto using zget_is_u64, shape_u0..|]. intros j Hj.
    rewrite <- (freeb_word a i w), <- (freeb_word a' i w') by done. apply Hf. }
  assert (E1 : l1 a = l1 a').
  { apply entries_ext; [by apply shape_u1|by apply shape_u1|rewrite (shape_l1 _ S), (shape_l1 _ S'), E0; done|].
    intros j Hj. eapply summarises_det; [|by apply (levels_l1 _ Ha)|].
    - intros k Hk. simpl. by rewrite Hk.
    - eapply summarises_ext; [| |rewrite Ht; apply (levels_l1 _ Ha')];
        [intros k _; simpl; by rewrite Hf..|by rewrite (shape_l1 _ S'), <- E0, <- (shape_l1 _ S)]. }
  assert (E2 : l2 a = l2 a').
  { apply entries_ext; [by apply shape_u2|by apply shape_u2|rewrite (shape_l2 _ S), (shape_l2 _ S'), E1; done|].
    intros k Hk. eapply summarises_det; [|by apply (levels_l2 _ Ha)|].
    - intros s. unfold word_is. destruct (_ .[ _ ]); [|done]. intros Hs. bool_norm. subst. done.
    - rewrite E1. apply (levels_l2 _ Ha'). by rewrite (shape_l2 _ S'), <- E1, <- (shape_l2 _ S). }
  split_and!; [done..|]. by rewrite (shape_slots _ S), (shape_slots _ S'), E0.
Qed.
