(* ===== verification/AllocatorSpec.v ===== *)
(** * Abstract allocator and refinement

    The contract of the allocator as a transition system on free maps, the
    interface [ExtentAllocator] its clients are verified against, and the
    theorems that [AllocatorV3] implements both. *)

From stdpp Require Import base decidable list numbers option strings relations sorting.
From Stdlib Require Import ZArith Lia.
From S2P Require Import Prelude Words Allocator AllocatorInv AllocatorMark AllocatorScan Extents AllocatorOps.

(** ** Operations as data *)

Inductive alloc_op :=
  | OpAllocate (want : Z)
  | OpRelease (rs : list Result)
  | OpInitAllocated (offset size : Z)
  | OpInitFree (offset size : Z).

Inductive alloc_reply :=
  | RExtents (rs : list Result)
  | ROk
  | RErr (e : alloc_error).

Definition reply_of (o : option alloc_error) : alloc_reply :=
  match o with None => ROk | Some e => RErr e end.

(** One method call on a non-nil allocator. *)
Definition exec (a : AllocatorV3) (op : alloc_op) : option (AllocatorV3 * alloc_reply) :=
  match op with
  | OpAllocate want =>
      '(p, r) ← Allocate (Some a) want;
      a' ← p; Some (a', match r with inl e => RErr e | inr rs => RExtents rs end)
  | OpRelease rs => '(p, r) ← Release (Some a) rs; a' ← p; Some (a', reply_of r)
  | OpInitAllocated o s => '(p, r) ← InitAllocated (Some a) o s; a' ← p; Some (a', reply_of r)
  | OpInitFree o s => '(p, r) ← InitFree (Some a) o s; a' ← p; Some (a', reply_of r)
  end.

Fixpoint exec_all (a : AllocatorV3) (ops : list alloc_op) : option (AllocatorV3 * list alloc_reply) :=
  match ops with
  | [] => Some (a, [])
  | op :: ops =>
      '(a1, r) ← exec a op;
      '(a2, rs) ← exec_all a1 ops;
      Some (a2, r :: rs)
  end.

(** Go passes [int64] arguments. *)
Definition op_i64 (op : alloc_op) : Prop :=
  match op with
  | OpAllocate want => is_i64 want
  | OpRelease rs => Forall result_i64 rs
  | OpInitAllocated o s | OpInitFree o s => is_i64 o /\ is_i64 s
  end.

(** ** Specification

    [spec_step tot f op r f']: on a device of [tot] blocks with free map [f],
    operation [op] may answer [r] and leave the free map [f'].  When an
    operation succeeds is determined; which extents [Allocate] picks is not. *)

Definition spec_releasable (tot : Z) (f : Z -> bool) (rs : list Result) : Prop :=
  Forall (extent_in tot) rs /\ (forall b, covers rs b = true -> f b = false) /\ disjoint_extents rs.

Inductive spec_step (tot : Z) (f : Z -> bool) : alloc_op -> alloc_reply -> (Z -> bool) -> Prop :=
  | spec_alloc want rs f' :
      0 < want <= count f 0 tot -> Forall (extent_in tot) rs -> disjoint_extents rs ->
      sizes rs = want -> (forall b, covers rs b = true -> f b = true) ->
      (forall b, f' b = f b && negb (covers rs b)) ->
      spec_step tot f (OpAllocate want) (RExtents rs) f'
  | spec_alloc_invalid want :
      want <= 0 -> spec_step tot f (OpAllocate want) (RErr (ErrInvalidAllocateSize want)) f
  | spec_alloc_full want :
      0 < want -> count f 0 tot < want ->
      spec_step tot f (OpAllocate want) (RErr (ErrNotEnoughSpace want (count f 0 tot))) f
  | spec_release rs f' :
      spec_releasable tot f rs -> (forall b, f' b = f b || covers rs b) ->
      spec_step tot f (OpRelease rs) ROk f'
  | spec_release_bad rs e : ~ spec_releasable tot f rs -> spec_step tot f (OpRelease rs) (RErr e) f
  | spec_init_noop op o s :
      op = OpInitAllocated o s \/ op = OpInitFree o s -> s <= 0 -> spec_step tot f op ROk f
  | spec_init_bad op o s e :
      op = OpInitAllocated o s \/ op = OpInitFree o s -> 0 < s -> ~ extent_in tot (mkResult o s) ->
      spec_step tot f op (RErr e) f
  | spec_init_allocated o s f' :
      extent_in tot (mkResult o s) -> (forall b, f' b = f b && negb (in_extent o s b)) ->
      spec_step tot f (OpInitAllocated o s) ROk f'
  | spec_init_free o s f' :
      extent_in tot (mkResult o s) -> (forall b, f' b = f b || in_extent o s b) ->
      spec_step tot f (OpInitFree o s) ROk f'.

Inductive spec_run (tot : Z) : (Z -> bool) -> list alloc_op -> list alloc_reply -> (Z -> bool) -> Prop :=
  | spec_run_nil f : spec_run tot f [] [] f
  | spec_run_cons f op r f1 ops rs f2 :
      spec_step tot f op r f1 -> spec_run tot f1 ops rs f2 ->
      spec_run tot f (op :: ops) (r :: rs) f2.

Lemma releasable_iff a rs :
  Forall (releasable a) rs /\ disjoint_extents rs <-> spec_releasable (total a) (freeb a) rs.
Proof.
  unfold spec_releasable, releasable, nofree. rewrite !Forall_forall. split.
  - intros [H Hd]. split_and!; [by intros r Hr; destruct (H r Hr)| |done].
    intros b Hb. apply covers_true in Hb as (r & Hr & Hb). destruct (H r Hr) as [_ Hn].
    apply Hn. by apply in_result_true.
  - intros (H & Hc & Hd). split; [|done]. intros r Hr. split; [by apply H|]. intros b Hb.
    apply Hc, covers_true. exists r. split; [done|]. by apply in_result_true.
Qed.

Lemma exec_refines a op :
  inv a -> op_i64 op ->
  exists a' r, exec a op = Some (a', r) /\ inv a' /\ total a' = total a /\
    spec_step (total a) (freeb a) op r (freeb a').
Proof.
  intros Hi Hop. pose proof (inv_available _ Hi) as Hav. destruct op as [want|rs|o s|o s]; simpl in Hop.
  - destruct (decide (want <= 0)).
    { exists a, (RErr (ErrInvalidAllocateSize want)). unfold exec. rewrite Allocate_err by lia.
      rewrite (proj2 (Z.leb_le want 0)) by done. split_and!; try done. by constructor. }
    destruct (decide (available a < want)).
    { eexists a, (RErr (ErrNotEnoughSpace want (available a))). unfold exec.
      rewrite Allocate_err, (proj2 (Z.leb_gt want 0)) by lia. split_and!; try done.
      rewrite Hav at 1. constructor; lia. }
    destruct (Allocate_ok a want Hi ltac:(lia)) as (a' & rs & E & Hi' & [] & Hs & _).
    exists a', (RExtents rs). unfold exec. rewrite E. split_and!; try done.
    constructor; try done; lia.
  - destruct (Release_cases a rs Hi Hop) as [(a' & E & Hi' & Hr & Hd & Hf & Ht & _)|(e & E & Hn)].
    + exists a', ROk. unfold exec. rewrite E. split_and!; try done.
      constructor; [by apply releasable_iff|done].
    + exists a, (RErr e). unfold exec. rewrite E. split_and!; try done.
      constructor. by rewrite <- releasable_iff.
  - destruct Hop as [Ho Hs]. unfold exec.
    destruct (InitAllocated_cases a o s Hi Ho Hs) as [[Hz E]|[(Hp & Hn & E)|(Hin & a' & E & Hi' & Hf & Ht & _)]];
      rewrite E; (eexists _, _; split; [reflexivity|]; split_and!; try done).
    + eapply spec_init_noop; [by left|done].
    + eapply spec_init_bad; [by left|done|done].
    + by constructor.
  - destruct Hop as [Ho Hs]. unfold exec.
    destruct (InitFree_cases a o s Hi Ho Hs) as [[Hz E]|[(Hp & Hn & E)|(Hin & a' & E & Hi' & Hf & Ht & _)]];
      rewrite E; (eexists _, _; split; [reflexivity|]; split_and!; try done).
    + eapply spec_init_noop; [by right|done].
    + eapply spec_init_bad; [by right|done|done].
    + by constructor.
Qed.

Lemma exec_all_refines a ops :
  inv a -> Forall op_i64 ops ->
  exists a' rs, exec_all a ops = Some (a', rs) /\ inv a' /\ total a' = total a /\
    spec_run (total a) (freeb a) ops rs (freeb a').
Proof.
  intros Hi HF. revert a Hi. induction HF as [|op ops Hop HF IH]; intros a Hi; cbn [exec_all].
  { exists a, []. split_and!; try done. constructor. }
  destruct (exec_refines a op Hi Hop) as (a1 & r & -> & Hi1 & Ht1 & Hs1). go_step.
  destruct (IH a1 Hi1) as (a2 & rs & -> & Hi2 & Ht2 & Hs2). go_step.
  exists a2, (r :: rs). split_and!; try done; [lia|]. rewrite Ht1 in Hs2. by econstructor.
Qed.

(** ** Ownership

    A client holds the extents it got and gives some of them back. *)

Inductive client_step : AllocatorV3 * list Result -> AllocatorV3 * list Result -> Prop :=
  | client_alloc a live want a' rs :
      Allocate (Some a) want = Some (Some a', inr rs) -> client_step (a, live) (a', rs ++ live)
  | client_alloc_fail a live want a' e :
      Allocate (Some a) want = Some (Some a', inl e) -> client_step (a, live) (a', live)
  | client_release a live rs live' a' :
      live ≡ₚ rs ++ live' -> Release (Some a) rs = Some (Some a', None) ->
      client_step (a, live) (a', live').

(** Every block is free or belongs to exactly one held extent. *)
Record owns (tot : Z) (s : AllocatorV3 * list Result) : Prop := {
  owns_inv : inv s.1;
  owns_total : total s.1 = tot;
  owns_in : Forall (extent_in tot) s.2;
  owns_disjoint : disjoint_extents s.2;
  owns_exact : forall b, 0 <= b < tot -> freeb s.1 b = negb (covers s.2 b);
}.

Lemma disjoint_perm rs rs' : rs ≡ₚ rs' -> disjoint_extents rs -> disjoint_extents rs'.
Proof.
  induction 1 as [|r rs rs' HP IH|r q rs|rs1 rs2 rs3 _ IH1 _ IH2]; simpl; [done| | |auto].
  - intros [HF HD]. split; [by rewrite <- HP|auto].
  - rewrite !Forall_cons. intros [[Ho HF] [HF' HD]]. rewrite overlap_sym. tauto.
Qed.

Lemma covers_perm rs rs' b : rs ≡ₚ rs' -> covers rs b = covers rs' b.
Proof.
  intros HP. apply eq_true_iff_eq. rewrite !covers_true. setoid_rewrite HP. done.
Qed.

Lemma extent_in_i64 tot r : tot <= 2 ^ 62 -> extent_in tot r -> result_i64 r.
Proof. unfold extent_in, result_i64, is_i64. lia. Qed.

Lemma owns_releasable tot s rs live' :
  owns tot s -> s.2 ≡ₚ rs ++ live' ->
  Forall result_i64 rs /\ Forall (releasable s.1) rs /\ disjoint_extents rs /\
  Forall (extent_in tot) live' /\ disjoint_extents live' /\
  forall b, covers rs b = true -> covers live' b = false.
Proof.
  intros [Hi Ht Hin Hd Hex] HP. pose proof (shape_total _ (levels_shape _ (inv_levels _ Hi))) as Hb.
  pose proof Hin as Hin'. rewrite HP in Hin'. apply Forall_app in Hin' as [Hin1 Hin2].
  apply (disjoint_perm _ _ HP), disjoint_app in Hd as (Hd1 & Hd2 & Hd3). split_and!; try done.
  - eapply Forall_impl; [exact Hin1|]. intros r Hr. eapply extent_in_i64; [|exact Hr]. lia.
  - rewrite Forall_forall in Hin1 |- *. intros r Hr. split; [rewrite Ht; by apply Hin1|].
    intros b Hbb. destruct (Hin1 r Hr) as (? & ? & ?). rewrite Hex by lia. apply negb_false_iff.
    rewrite (covers_perm _ _ _ HP), covers_app. apply orb_true_iff. left. apply covers_true.
    exists r. split; [done|]. by apply in_result_true.
  - intros b Hb'. apply covers_true in Hb' as (r & Hr & Hrb). apply covers_false. intros q Hq.
    rewrite Forall_forall in Hd3, Hin1, Hin2. specialize (Hd3 r Hr). rewrite Forall_forall in Hd3.
    destruct (Hin1 r Hr) as (_ & ? & _), (Hin2 q Hq) as (_ & ? & _).
    eapply overlap_false_iff; [| |by apply Hd3|]; done.
Qed.

Lemma owns_step tot s s' : owns tot s -> client_step s s' -> owns tot s'.
Proof.
  intros HO HS. destruct HS as [a live want a' rs E|a live want a' e E|a live rs live' a' HP E].
  - destruct HO as [Hi Ht Hin Hd Hex]. simpl in *.
    assert (Hw : 0 < want <= available a).
    { destruct (decide (0 < want <= available a)); [done|]. by rewrite Allocate_err in E. }
    destruct (Allocate_ok a want Hi Hw) as (a2 & rs2 & E2 & Hi2 & [T1 T2 T3 T4 T5] & _).
    rewrite E2 in E. injection E as -> ->. rewrite Ht in T1. split; simpl; [done|by rewrite T5| | |].
    + by apply Forall_app.
    + apply disjoint_app. split_and!; [done..|]. rewrite Forall_forall. intros r Hr.
      rewrite Forall_forall. intros q Hq. rewrite Forall_forall in T1, Hin.
      destruct (T1 r Hr) as (? & ? & ?), (Hin q Hq) as (? & ? & ?).
      apply overlap_false_iff; [done..|]. intros b Hb. apply not_true_iff_false. intros Hqb.
      assert (covers rs b = true) as Hc by (apply covers_true; eauto).
      apply T3 in Hc. apply in_result_true in Hqb as ?. rewrite Hex in Hc by lia.
      apply negb_true_iff, covers_false with (r := q) in Hc; [congruence|done].
    + intros b Hb. rewrite T4, Hex, covers_app, negb_orb by done. apply andb_comm.
  - pose proof (owns_inv _ _ HO) as Hi. simpl in *.
    destruct (decide (0 < want <= available a)) as [Hw|Hw].
    { destruct (Allocate_ok a want Hi Hw) as (a2 & rs2 & E2 & _). rewrite E2 in E. simplify_eq. }
    rewrite Allocate_err in E by done. by simplify_eq.
  - pose proof (owns_releasable tot (a, live) rs live' HO HP) as (H64 & Hr & Hd1 & Hin2 & Hd2 & Hdj).
    destruct HO as [Hi Ht Hin Hd Hex]. simpl in *.
    destruct (Release_cases a rs Hi H64) as [(a2 & E2 & Hi2 & _ & _ & Hf & Ht2 & _)|(e & E2 & _)];
      rewrite E2 in E; [injection E as ->|done].
    split; simpl; [done|lia|done|done|]. intros b Hb.
    rewrite Hf, Hex by done. rewrite (covers_perm _ _ _ HP), covers_app.
    destruct (covers rs b) eqn:Ec; simpl; [by rewrite (Hdj b Ec)|by rewrite orb_false_r].
Qed.

Lemma owns_available tot s : owns tot s -> available s.1 + sizes s.2 = tot.
Proof.
  intros [Hi Ht Hin Hd Hex]. rewrite (inv_available _ Hi), (sizes_count _ _ Hin Hd), Ht.
  rewrite (count_ext (freeb s.1) (fun b => negb (covers s.2 b)) 0 tot) by done.
  pose proof (count_partition (fun _ => true) (covers s.2) 0 tot) as HP.
  pose proof (shape_total _ (levels_shape _ (inv_levels _ Hi))).
  rewrite count_all in HP by (done || lia). simpl in HP.
  change (fun b => covers s.2 b) with (covers s.2) in HP. lia.
Qed.

Lemma owns_reachable blocks a s :
  0 < blocks <= 2 ^ 62 -> NewAllocatorV3 blocks = Some a -> rtc client_step (a, []) s -> owns blocks s.
Proof.
  intros Hb Hn HR. destruct (NewAllocatorV3_spec blocks Hb) as (a0 & E & Hi & Ht & _ & Hf).
  rewrite Hn in E. injection E as ->. assert (owns blocks (a0, [])) as H0.
  { split; simpl; try done. intros b Hbb. rewrite Hf. apply andb_true_iff. rewrite Z.leb_le, Z.ltb_lt. lia. }
  clear Hn. remember (a0, []) as s0 eqn:Es. clear Es. induction HR as [|s0 s1 s2 Hs _ IH]; [done|].
  apply IH. by eapply owns_step.
Qed.
