(* ===== verification/AllocatorThms.v ===== *)
(** * Correctness theorems of the allocator

    The statements that make [internal/fs/allocator_v3.go] correct, each with
    a witness on a small allocator. *)

From stdpp Require Import base decidable list numbers option strings relations.
From Stdlib Require Import ZArith Lia.
From S2P Require Import Prelude Words Allocator AllocatorInv AllocatorMark AllocatorScan Extents AllocatorOps AllocatorSpec.

(** ** A concrete allocator for the witnesses *)

Definition demo : AllocatorV3 :=
  match NewAllocatorV3 200 with Some a => a | None => mkAllocatorV3 0 0 [] [] [] 0 0 end.

Lemma demo_new : NewAllocatorV3 200 = Some demo /\ inv demo /\ total demo = 200.
Proof.
  destruct (NewAllocatorV3_spec 200) as (a & E & Hi & Ht & _); [lia|].
  assert (Hd : demo = a) by (unfold demo; rewrite E; reflexivity).
  rewrite Hd. split; [exact E|]. split; [exact Hi|exact Ht].
Qed.

(** ** Search *)

(** Reference definition of the search: the first free block of [lo, lo+n),
    block by block. *)
Fixpoint firstFree (f : Z -> bool) (lo : Z) (n : nat) : option Z :=
  match n with
  | O => None
  | S n => if f lo then Some lo else firstFree f (lo + 1) n
  end.

Lemma firstFree_some f lo n b :
  lo <= b < lo + Z.of_nat n -> f b = true -> (forall c, lo <= c < b -> f c = false) ->
  firstFree f lo n = Some b.
Proof.
  revert lo. induction n as [|n IH]; intros lo Hb Hf Hc; simpl; [lia|].
  destruct (decide (lo = b)) as [->|]; [by rewrite Hf|].
  rewrite Hc by lia. apply IH; [lia|done|]. intros c Hcc. apply Hc. lia.
Qed.

Lemma firstFree_none f lo n :
  (forall c, lo <= c < lo + Z.of_nat n -> f c = false) -> firstFree f lo n = None.
Proof.
  revert lo. induction n as [|n IH]; intros lo Hc; simpl; [done|].
  rewrite Hc by lia. apply IH. intros c Hcc. apply Hc. lia.
Qed.

(** C3: The three-level search is equivalent to the block-by-block scan.  For
    every consistent state, start and positive limit, [nextFreeRunFromLocked]
    does not panic; it answers [(0, 0)] when the scan finds no free block from
    [from] on, and otherwise starts at the very block the scan finds and
    returns between 1 and [limit] blocks that are all free. *)
Theorem nextFreeRun_equiv_scan a from limit :
  levels a -> 0 <= from -> 0 < limit ->
  match firstFree (freeb a) from (Z.to_nat (total a - from)) with
  | None => nextFreeRunFromLocked a from limit = Some (0, 0)
  | Some off => exists sz, nextFreeRunFromLocked a from limit = Some (off, sz) /\
      0 < sz <= limit /\ off + sz <= total a /\ forall b, off <= b < off + sz -> freeb a b = true
  end.
Proof.
  intros Ha Hf Hl. destruct (nextFreeRunFromLocked_spec a from limit Ha Hf Hl)
    as [[-> Hn]|(off & sz & -> & [R1 R2 R3 R4])].
  - rewrite firstFree_none; [done|]. intros c Hc. apply Hn. lia.
  - pose proof (freeb_bounds _ _ (levels_shape _ Ha) (R4 off ltac:(lia))).
    pose proof (freeb_bounds _ _ (levels_shape _ Ha) (R4 (off + sz - 1) ltac:(lia))).
    rewrite (firstFree_some _ _ _ off); [|lia|apply R4; lia|done]. exists sz. split_and!; try done; lia.
Qed.

Lemma nextFreeRun_equiv_scan_witness :
  firstFree (freeb demo) 70 (Z.to_nat (total demo - 70)) = Some 70 /\
  exists sz, nextFreeRunFromLocked demo 70 5 = Some (70, sz) /\
    0 < sz <= 5 /\ 70 + sz <= total demo /\ forall b, 70 <= b < 70 + sz -> freeb demo b = true.
Proof.
  split; [vm_compute; reflexivity|].
  pose proof (nextFreeRun_equiv_scan demo 70 5 (inv_levels _ (proj1 (proj2 demo_new)))
                ltac:(lia) ltac:(lia)) as H.
  replace (firstFree (freeb demo) 70 (Z.to_nat (total demo - 70))) with (Some 70) in H
    by (vm_compute; reflexivity).
  exact H.
Defined.

(** ** Operations *)

(** C4: [Allocate] on every input.  A request of at most [available] blocks
    succeeds without a panic: the returned extents are non-empty, inside the
    device and pairwise disjoint, add up to exactly [want] blocks, and were all
    free; afterwards exactly they are allocated, [available] is smaller by
    [want], and the invariant still holds.  Any other request changes nothing
    and gets the error that says whether the size is invalid or the space does
    not suffice.  In particular the "bitmap inconsistent" error is never
    returned. *)
Theorem Allocate_correct a want :
  inv a ->
  (0 < want <= available a ->
   exists a' rs, Allocate (Some a) want = Some (Some a', inr rs) /\ inv a' /\
    Forall (extent_in (total a)) rs /\ disjoint_extents rs /\ sizes rs = want /\
    (forall b, covers rs b = true -> freeb a b = true) /\
    (forall b, freeb a' b = freeb a b && negb (covers rs b)) /\
    available a' = available a - want) /\
  (want <= 0 \/ available a < want ->
   Allocate (Some a) want =
     Some (Some a, inl (if want <=? 0 then ErrInvalidAllocateSize want else ErrNotEnoughSpace want (available a)))).
Proof.
  intros Hi. split; [|intros Hw; apply Allocate_err; lia]. intros Hw.
  destruct (Allocate_ok a want Hi Hw) as (a' & rs & E & Hi' & [] & Hs & Hav). exists a', rs. by split_and!.
Qed.

Lemma Allocate_correct_witness :
  (exists a' rs, Allocate (Some demo) 70 = Some (Some a', inr rs) /\ inv a' /\
    Forall (extent_in (total demo)) rs /\ disjoint_extents rs /\ sizes rs = 70 /\
    (forall b, covers rs b = true -> freeb demo b = true) /\
    (forall b, freeb a' b = freeb demo b && negb (covers rs b)) /\
    available a' = available demo - 70) /\
  Allocate (Some demo) 0 = Some (Some demo, inl (ErrInvalidAllocateSize 0)).
Proof.
  split.
  - apply (Allocate_correct demo 70 (proj1 (proj2 demo_new))). vm_compute. split; congruence.
  - apply (Allocate_correct demo 0 (proj1 (proj2 demo_new))). left. lia.
Defined.

(** C5: [Release] on [int64] extents never panics.  It succeeds exactly when
    all extents are inside the device, fully allocated and pairwise disjoint;
    then exactly their blocks become free and [available] grows by their total
    size.  Otherwise (double release, overlap, out of range, overflow) it
    returns an error and leaves the state as it was. *)
Theorem Release_correct a rs :
  inv a -> Forall result_i64 rs ->
  exists a' e, Release (Some a) rs = Some (Some a', e) /\ inv a' /\
    (e = None <-> spec_releasable (total a) (freeb a) rs) /\
    (e = None -> available a' = available a + sizes rs /\
                 forall b, freeb a' b = freeb a b || covers rs b) /\
    (e <> None -> a' = a).
Proof.
  intros Hi HF. destruct (Release_cases a rs Hi HF) as [(a' & -> & Hi' & Hr & Hd & Hf & _ & _ & Hav)|(e & -> & Hn)].
  - exists a', None. split_and!; try done. split; [|done]. intros _. by apply releasable_iff.
  - exists a, (Some e). split_and!; try done. split; [done|]. intros H. by apply releasable_iff in H.
Qed.

Lemma Release_correct_witness :
  exists a' e, Release (Some demo) [mkResult 3 4] = Some (Some a', e) /\ inv a' /\
    (e = None <-> spec_releasable (total demo) (freeb demo) [mkResult 3 4]) /\
    (e = None -> available a' = available demo + sizes [mkResult 3 4] /\
                 forall b, freeb a' b = freeb demo b || covers [mkResult 3 4] b) /\
    (e <> None -> a' = demo).
Proof.
  apply (Release_correct demo [mkResult 3 4]); [exact (proj1 (proj2 demo_new))|].
  constructor; [|constructor]. split; vm_compute; split; congruence.
Defined.

(** Releasing what [Allocate] returned restores the allocator: all three
    bitmap levels and [available] are word for word what they were, only the
    search position [lastPos] may differ. *)
Theorem Allocate_Release_roundtrip a want :
  inv a -> 0 < want <= available a ->
  exists a1 rs a2, Allocate (Some a) want = Some (Some a1, inr rs) /\
    Release (Some a1) rs = Some (Some a2, None) /\ a2 = set_lastPos a (lastPos a2).
Proof.
  intros Hi Hw. destruct (Allocate_ok a want Hi Hw) as (a1 & rs & E & Hi1 & [T1 T2 T3 T4 T5] & Hs & Hav).
  pose proof (shape_total _ (levels_shape _ (inv_levels _ Hi))) as Ht.
  assert (H64 : Forall result_i64 rs).
  { eapply Forall_impl; [exact T1|]. intros r. apply extent_in_i64. lia. }
  exists a1, rs. destruct (Release_cases a1 rs Hi1 H64) as [(a2 & E2 & Hi2 & _ & _ & Hf & Ht2 & _ & Hav2)|(e & _ & Hn)].
  - exists a2. split_and!; try done.
    destruct (levels_canonical a2 a) as (C0 & C1 & C2 & C3); [by apply inv_levels..|lia| |].
    { intros b. rewrite Hf, T4. destruct (covers rs b) eqn:Ec; [by rewrite (T3 b Ec)|].
      by rewrite andb_true_r, orb_false_r. }
    destruct a2, a; simpl in *; unfold set_lastPos; simpl. f_equal; lia || done.
  - destruct Hn. apply releasable_iff. rewrite T5. split_and!; try done.
    intros b Hb. rewrite T4, Hb. apply andb_false_r.
Qed.

Lemma Allocate_Release_roundtrip_witness :
  exists a1 rs a2, Allocate (Some demo) 130 = Some (Some a1, inr rs) /\
    Release (Some a1) rs = Some (Some a2, None) /\ a2 = set_lastPos demo (lastPos a2).
Proof.
  apply (Allocate_Release_roundtrip demo 130); [exact (proj1 (proj2 demo_new))|].
  vm_compute. split; congruence.
Defined.

(** Marking a range sets exactly its blocks, in either direction, returns
    the number of blocks whose state changed, and leaves every L1 and L2 entry
    an exact summary of the level below, although it refreshes only the
    entries above the range. *)
Theorem markRangeLocked_exact a offset size free :
  levels a -> 0 <= offset -> 0 < size -> offset + size <= total a ->
  exists a' changed, markRangeLocked a offset size free = Some (a', changed) /\ levels a' /\
    (forall b, freeb a' b = if in_extent offset size b then free else freeb a b) /\
    changed = count (fun b => negb (Bool.eqb (freeb a' b) (freeb a b))) 0 (total a) /\
    available a' = available a /\ lastPos a' = lastPos a.
Proof.
  intros Ha Ho Hs Ht. destruct (markRangeLocked_spec a offset size free Ha Ho Hs Ht) as (a' & -> & Ha' & [M1 M2 M3 M4]).
  eexists _, _. split; [done|]. split_and!; try done.
  rewrite (count_split _ 0 offset), (count_split _ offset (offset + size) (total a)) by lia.
  rewrite (count_none _ 0 offset), (count_none _ (offset + size)).
  - rewrite Z.add_0_r. apply count_ext. intros b Hb.
    rewrite M1, (proj2 (in_extent_true _ _ _)) by lia. by destruct free, (freeb a b).
  - intros b Hb. rewrite M1, (proj2 (in_extent_false _ _ _)) by lia. by destruct (freeb a b).
  - intros b Hb. rewrite M1, (proj2 (in_extent_false _ _ _)) by lia. by destruct (freeb a b).
Qed.

Lemma markRangeLocked_exact_witness :
  exists a' changed, markRangeLocked demo 60 70 false = Some (a', changed) /\ levels a' /\
    (forall b, freeb a' b = if in_extent 60 70 b then false else freeb demo b) /\
    changed = count (fun b => negb (Bool.eqb (freeb a' b) (freeb demo b))) 0 (total demo) /\
    available a' = available demo /\ lastPos a' = lastPos demo.
Proof.
  apply (markRangeLocked_exact demo 60 70 false); [exact (inv_levels _ (proj1 (proj2 demo_new)))| | |];
    vm_compute; congruence.
Defined.

(** ** Whole executions *)

(** C6: Any sequence of method calls with [int64] arguments on a fresh
    allocator runs without a panic, ends in a state that satisfies the
    invariant the repository's tests check, and its replies are a run of the
    abstract free-map specification that starts with all blocks free. *)
Theorem allocator_refines_spec blocks ops :
  0 < blocks <= 2 ^ 62 -> Forall op_i64 ops ->
  exists a0 a rs, NewAllocatorV3 blocks = Some a0 /\ exec_all a0 ops = Some (a, rs) /\ inv a /\
    (forall b, freeb a0 b = (0 <=? b) && (b <? blocks)) /\
    spec_run blocks (freeb a0) ops rs (freeb a).
Proof.
  intros Hb HF. destruct (NewAllocatorV3_spec blocks Hb) as (a0 & E & Hi & Ht & _ & Hf).
  destruct (exec_all_refines a0 ops Hi HF) as (a & rs & E2 & Hi2 & _ & Hr).
  exists a0, a, rs. split_and!; try done. by rewrite <- Ht at 1.
Qed.

Lemma allocator_refines_spec_witness :
  let ops := [OpAllocate 70; OpRelease [mkResult 10 5]; OpInitAllocated 12 1; OpAllocate 500] in
  exists a0 a rs, NewAllocatorV3 200 = Some a0 /\ exec_all a0 ops = Some (a, rs) /\ inv a /\
    (forall b, freeb a0 b = (0 <=? b) && (b <? 200)) /\
    spec_run 200 (freeb a0) ops rs (freeb a).
Proof.
  cbv zeta. apply (allocator_refines_spec 200); [vm_compute; split; congruence|].
  repeat constructor; vm_compute; congruence.
Defined.

(** C7: No block is ever owned twice and none is lost.  Whatever clients
    allocate and give back, in any order, the extents they hold are pairwise
    disjoint, a block is free exactly when nobody holds it, [available] plus
    the held blocks is the device size, and giving back any part of what is
    held always succeeds. *)
Theorem allocator_ownership blocks a0 a live :
  0 < blocks <= 2 ^ 62 -> NewAllocatorV3 blocks = Some a0 -> rtc client_step (a0, []) (a, live) ->
  disjoint_extents live /\ Forall (extent_in blocks) live /\
  (forall b, 0 <= b < blocks -> freeb a b = negb (covers live b)) /\
  available a + sizes live = blocks /\
  forall rs live', live ≡ₚ rs ++ live' -> exists a', Release (Some a) rs = Some (Some a', None).
Proof.
  intros Hb Hn HR. pose proof (owns_reachable blocks a0 (a, live) Hb Hn HR) as HO.
  pose proof (owns_available _ _ HO) as Hav. pose proof HO as [Hi Ht Hin Hd Hex]. split_and!; try done.
  intros rs live' HP. destruct (owns_releasable _ _ rs live' HO HP) as (H64 & Hr & Hdr & _).
  destruct (Release_cases a rs Hi H64) as [(a' & E & _)|(e & _ & Hno)]; [eauto|]. by destruct Hno.
Qed.

Lemma allocator_ownership_witness :
  exists a live, rtc client_step (demo, []) (a, live) /\ live = [mkResult 0 70] /\
    disjoint_extents live /\ Forall (extent_in 200) live /\
    (forall b, 0 <= b < 200 -> freeb a b = negb (covers live b)) /\
    available a + sizes live = 200 /\
    forall rs live', live ≡ₚ rs ++ live' -> exists a', Release (Some a) rs = Some (Some a', None).
Proof.
  assert (exists a, Allocate (Some demo) 70 = Some (Some a, inr [mkResult 0 70])) as [a E]
    by (eexists; vm_compute; reflexivity).
  assert (HR : rtc client_step (demo, []) (a, [mkResult 0 70])).
  { eapply rtc_l; [|apply rtc_refl]. eapply (client_alloc demo [] 70 a [mkResult 0 70]). exact E. }
  exists a, [mkResult 0 70]. split; [exact HR|]. split; [reflexivity|].
  apply (allocator_ownership 200 demo a [mkResult 0 70]);
    [vm_compute; split; congruence|exact (proj1 demo_new)|exact HR].
Defined.

(** [validateRangeV3], the guard of [Release], [InitAllocated] and
    [InitFree], accepts an [int64] pair exactly when it is a non-empty range
    inside [0, total), also for pairs whose sum overflows [int64]. *)
Theorem validateRange_exact a offset size op :
  inv a -> is_i64 offset -> is_i64 size ->
  validateRangeV3 a offset size op =
    if decide (0 <= offset /\ 0 < size /\ offset + size <= total a) then None
    else Some (ErrInvalidExtent op offset size (total a)).
Proof.
  intros Hi Ho Hs. pose proof (shape_total _ (levels_shape _ (inv_levels _ Hi))) as Ht.
  pose proof (validateRangeV3_spec a offset size op Ht Ho Hs) as Hv.
  destruct (validateRangeV3 a offset size op) as [e|] eqn:E.
  - apply validateRangeV3_some in E as ->. rewrite decide_False; [done|].
    intros H. apply Hv in H. done.
  - rewrite decide_True; [done|]. by apply Hv.
Qed.

Lemma validateRange_exact_witness :
  validateRangeV3 demo (2 ^ 63 - 1) (2 ^ 63 - 1) "release" =
    if decide (0 <= 2 ^ 63 - 1 /\ 0 < 2 ^ 63 - 1 /\ 2 ^ 63 - 1 + (2 ^ 63 - 1) <= total demo) then None
    else Some (ErrInvalidExtent "release" (2 ^ 63 - 1) (2 ^ 63 - 1) (total demo)).
Proof.
  apply (validateRange_exact demo (2 ^ 63 - 1) (2 ^ 63 - 1) "release");
    [exact (proj1 (proj2 demo_new))|unfold is_i64; lia|unfold is_i64; lia].
Defined.
