(* ===== verification/Bytes.v ===== *)
(** * Byte slices

    A [[]byte] is a list of integers in [0, 256).  The space bitmap reads such
    a slice as a sequence of bits, most significant bit of byte 0 first; [bit]
    is that view, and the lemmas here move between bytes and bits. *)

From stdpp Require Import base decidable list numbers option strings.
From Stdlib Require Import ZArith Lia Ascii String.
From S2P Require Import Prelude Words.

Abbreviation bytes := (list Z).

(** The bytes of an ASCII literal. *)
Definition bs (s : string) : bytes := map (fun c => Z.of_N (N_of_ascii c)) (list_ascii_of_string s).

(** The byte of the double quote, which literals cannot contain. *)
Definition dquote : Z := 34.

(** [i < len(s) && s[i] == c] *)
Definition byteIs (s : bytes) (i c : Z) : bool :=
  match s.[i] with Some b => b =? c | None => false end.

(** Bit [k] of a slice, counting from the most significant bit of byte 0. *)
Definition bit (v : bytes) (k : Z) : bool := Z.testbit (default 0 v.[k / 8]) (7 - k mod 8).

(** ** Bytes *)

Lemma byte_ok_bits b : 0 <= b -> (forall i, 8 <= i -> Z.testbit b i = false) -> byte_ok b.
Proof. intros. by apply (bits_bound 8). Qed.

Lemma byte_testbit b i : byte_ok b -> 8 <= i -> Z.testbit b i = false.
Proof. intros. apply (testbit_high 8); [done|lia]. Qed.

Lemma byte_ok_land a b : byte_ok a -> byte_ok (Z.land a b).
Proof.
  intros H. apply byte_ok_bits; [apply Z.land_nonneg; unfold byte_ok in H; lia|].
  intros i Hi. by rewrite Z.land_spec, byte_testbit.
Qed.

Lemma byte_ok_lor a b : byte_ok a -> byte_ok b -> byte_ok (Z.lor a b).
Proof.
  intros Ha Hb. apply byte_ok_bits; [apply Z.lor_nonneg; unfold byte_ok in *; lia|].
  intros i Hi. by rewrite Z.lor_spec, !byte_testbit.
Qed.

Lemma byte_ok_lxor a b : byte_ok a -> byte_ok b -> byte_ok (Z.lxor a b).
Proof.
  intros Ha Hb. apply byte_ok_bits; [apply Z.lxor_nonneg; unfold byte_ok in *; lia|].
  intros i Hi. by rewrite Z.lxor_spec, !byte_testbit.
Qed.

Lemma byte_ok_ldiff a b : byte_ok a -> byte_ok (Z.ldiff a b).
Proof.
  intros Ha. apply byte_ok_bits; [apply Z.ldiff_nonneg; unfold byte_ok in *; lia|].
  intros i Hi. by rewrite Z.ldiff_spec, byte_testbit.
Qed.

Lemma byte_ext a b :
  byte_ok a -> byte_ok b -> (forall i, 0 <= i < 8 -> Z.testbit a i = Z.testbit b i) -> a = b.
Proof.
  intros Ha Hb H. apply Z.bits_inj'. intros i Hi.
  destruct (decide (i < 8)); [apply H; lia|]. rewrite !byte_testbit by (done || lia). done.
Qed.

(** ** Slices of bytes *)

Lemma zget_ok v i b : Forall byte_ok v -> v.[i] = Some b -> byte_ok b.
Proof.
  intros HF H. unfold zget in H. destruct (0 <=? i); [|done].
  by eapply Forall_lookup_1.
Qed.

Lemma zget_some_ok v i : Forall byte_ok v -> 0 <= i < zlen v -> exists b, v.[i] = Some b /\ byte_ok b.
Proof. intros HF Hi. destruct (zget_some v i Hi) as [b E]. eauto using zget_ok. Qed.

Lemma insert_ok v n b : Forall byte_ok v -> byte_ok b -> Forall byte_ok (<[n := b]> v).
Proof. intros. by apply Forall_insert. Qed.

Lemma zmake_ok n b : byte_ok b -> Forall byte_ok (zmake n b).
Proof. intros H. apply Forall_replicate. done. Qed.

Lemma bit_get v k b : v.[k / 8] = Some b -> bit v k = Z.testbit b (7 - k mod 8).
Proof. unfold bit. by intros ->. Qed.

(** Bit [j] of byte [i]. *)
Lemma bit_at v i j b : v.[i] = Some b -> 0 <= j < 8 -> bit v (8 * i + j) = Z.testbit b (7 - j).
Proof.
  intros E Hj. rewrite (bit_get v (8 * i + j) b).
  - f_equal. dlia.
  - replace ((8 * i + j) / 8) with i by dlia. done.
Qed.

Lemma bit_out v k : k < 0 \/ 8 * zlen v <= k -> bit v k = false.
Proof. intros H. unfold bit. rewrite zget_none by dlia. apply Z.bits_0. Qed.

(** Replacing one byte. *)
Lemma bit_insert v i b k :
  0 <= i < zlen v ->
  bit (<[Z.to_nat i := b]> v) k = if k / 8 =? i then Z.testbit b (7 - k mod 8) else bit v k.
Proof.
  intros Hi. unfold bit. rewrite zget_insert by done. rewrite (Z.eqb_sym i).
  by destruct (k / 8 =? i).
Qed.

Lemma bit_zmake0 n k : bit (zmake n 0) k = false.
Proof.
  unfold bit, zget, zmake. destruct (0 <=? k / 8); [|apply Z.bits_0].
  destruct (replicate (Z.to_nat n) 0 !! Z.to_nat (k / 8)) as [b|] eqn:E; [|apply Z.bits_0].
  apply lookup_replicate in E as [-> _]. apply Z.bits_0.
Qed.

(** A slice of bytes is determined by its length and its bits. *)
Lemma bytes_ext v w :
  Forall byte_ok v -> Forall byte_ok w -> zlen v = zlen w ->
  (forall k, 0 <= k < 8 * zlen v -> bit v k = bit w k) -> v = w.
Proof.
  intros Hv Hw Hl H. apply zget_ext; [done|]. intros i Hi.
  destruct (zget_some_ok v i Hv Hi) as (a & Ea & Ha).
  destruct (zget_some_ok w i Hw ltac:(lia)) as (b & Eb & Hb).
  rewrite Ea, Eb. f_equal. apply byte_ext; [done..|]. intros j Hj.
  pose proof (H (8 * i + (7 - j)) ltac:(lia)) as E.
  rewrite (bit_at v i (7 - j) a), (bit_at w i (7 - j) b) in E by (done || lia).
  by replace (7 - (7 - j)) with j in E by lia.
Qed.
