(* ===== verification/Moss.v ===== *)
(** * The Moss merge operator

    [internal/database/pebble/ms_pebble.go]: the value merger Pebble calls for
    [Merge] operands, with its counter, space-bitmap and JSON branches. *)

From stdpp Require Import base decidable list numbers option strings.
From Stdlib Require Import ZArith Lia.
From S2P Require Import Prelude Words Bytes.

Definition RocksFileSystemPrefixOffset : bytes := bs ".1.".
Definition SpaceLen : Z := 512.

(** The errors [mossBitmapMerge] reports, with the length they mention. *)
Inductive moss_error :=
  | ErrIncomingLength (got : Z)
  | ErrExistingLength (got : Z).

(** ** Space bitmaps *)

(** [case SpaceLen]: one iteration of the loop over the bytes. *)
Definition mergeBase (existing incoming : bytes) (i : Z) (result : bytes) : option bytes :=
  e ← existing.[i]; lo ← incoming.[i]; hi ← incoming.[SpaceLen + i];
  result.[i <- Z.land (Z.lor e lo) hi].

(** [case 2 * SpaceLen]: one iteration. *)
Definition mergeComposed (existing incoming : bytes) (i : Z) (result : bytes) : option bytes :=
  let j := i + SpaceLen in
  ei ← existing.[i]; ii ← incoming.[i]; ej ← existing.[j]; ij ← incoming.[j];
  let ci := Z.lor ei ii in
  let cj := Z.land ej ij in
  result ← result.[i <- Z.land ci cj];
  result.[j <- Z.lor ci cj].

Definition mossBitmapMerge (existing incoming : bytes) : option (moss_error + bytes) :=
  if negb (zlen incoming =? 2 * SpaceLen) then Some (inl (ErrIncomingLength (zlen incoming)))
  else
    result ← makeSlice (zlen existing) 0;
    if zlen existing =? SpaceLen then
      result ← for_range 0 SpaceLen (mergeBase existing incoming) result;
      Some (inr result)
    else if zlen existing =? 2 * SpaceLen then
      result ← for_range 0 SpaceLen (mergeComposed existing incoming) result;
      Some (inr result)
    else Some (inl (ErrExistingLength (zlen existing))).

(** ** JSON helpers *)

(** The name matcher both helpers share: the index of the byte that completes
    the first match, [mt] bytes of the name being matched so far. *)
Fixpoint matchName (nb data : bytes) (mt i : Z) : option (option Z) :=
  match data with
  | [] => Some None
  | d :: data =>
      c ← nb.[mt];
      if d =? c then
        if mt + 1 =? zlen nb then Some (Some i) else matchName nb data (mt + 1) (i + 1)
      else matchName nb data 0 (i + 1)
  end.

(** The index of the first [','] or ['}'] from [i] on. *)
Fixpoint fieldEnd (data : bytes) (i : Z) : option Z :=
  match data with
  | [] => None
  | d :: data => if (d =? 44) || (d =? 125) then Some i else fieldEnd data (i + 1)
  end.

(** [data[lo:hi]] for [0 <= lo <= hi <= len(data)]; panics otherwise. *)
Definition slice {A} (data : list A) (lo hi : Z) : option (list A) :=
  if (0 <=? lo) && (lo <=? hi) && (hi <=? zlen data)
  then Some (take (Z.to_nat (hi - lo)) (drop (Z.to_nat lo) data)) else None.

(** [Some None] is the [nil] the code returns, [None] a panic. *)
Definition extractJSONField (data name : bytes) : option (option bytes) :=
  m ← matchName name data 0 0;
  match m with
  | None => Some None
  | Some start =>
      match fieldEnd (drop (Z.to_nat start) data) start with
      | None => Some None
      | Some end_ =>
          if end_ <=? start then Some None
          else
            q ← data.[end_ - 1];
            if negb (q =? dquote) || (end_ - 1 <=? start + 2) then Some None
            else r ← slice data (start + 2) (end_ - 1); Some (Some r)
      end
  end.

Definition hasJSONKey (data name : bytes) : option bool :=
  m ← matchName name data 0 0; Some (match m with Some _ => true | None => false end).

Definition countHyphen (s : bytes) : Z :=
  fold_left (fun n b => if b =? 45 then n + 1 else n) s 0.

(** The [for] loop of [compareVersion] and the length comparison after it. *)
Fixpoint compareBytes (v1 v2 : bytes) : Z :=
  match v1, v2 with
  | a :: v1, b :: v2 => if negb (b - a =? 0) then b - a else compareBytes v1 v2
  | [], [] => 0
  | [], _ :: _ => 1
  | _ :: _, [] => -1
  end.

Definition compareVersion (v1 v2 : option bytes) : Z :=
  match v1, v2 with
  | None, None => 0
  | None, Some _ => 1
  | Some _, None => -1
  | Some v1, Some v2 => compareBytes v1 v2
  end.

Definition compareSyncStamp (v1 v2 : option bytes) : Z :=
  match v1, v2 with
  | None, None => 0
  | None, Some _ => 1
  | Some _, None => -1
  | Some s1, Some s2 => if countHyphen s1 <? 2 then 1 else compareVersion v1 v2
  end.

(** ** JSON metadata *)

(** A JSON member name with its quotes and the colon. *)
Definition jsonName (s : string) : bytes := dquote :: bs s ++ [dquote; 58].

Definition syncStampName : bytes := jsonName "syncStamp".
Definition versionNumName : bytes := jsonName "versionNum".
Definition deleteMarkName : bytes := jsonName "deleteMark".

(** [countHyphen(s)] of a possibly [nil] slice. *)
Definition countHyphen' (s : option bytes) : Z := countHyphen (default [] s).

(** The "versionNum comparison" half of [mossJSONMerge]. *)
Definition mergeByVersion (existing incoming : bytes) : option bytes :=
  oldVersion ← extractJSONField existing versionNumName;
  newVersion ← extractJSONField incoming versionNumName;
  let cmp := compareVersion oldVersion newVersion in
  if cmp =? 0 then Some existing
  else if 0 <? cmp then Some incoming
  else
    d ← hasJSONKey existing deleteMarkName;
    Some (if (d : bool) then incoming else existing).

Definition mossJSONMerge (existing incoming : bytes) : option bytes :=
  newSyncStamp ← extractJSONField incoming syncStampName;
  if 2 <=? countHyphen' newSyncStamp then
    oldSyncStamp ← extractJSONField existing syncStampName;
    let cmp := compareSyncStamp oldSyncStamp newSyncStamp in
    if negb (cmp =? 0) then Some (if 0 <? cmp then incoming else existing)
    else mergeByVersion existing incoming
  else mergeByVersion existing incoming.

(** ** The operator *)

(** [key[0] >= '0' && key[0] <= '9'] with the length guard before it. *)
Definition digitKey (key : bytes) : bool :=
  match key with b :: _ => (48 <=? b) && (b <=? 57) | [] => false end.

Definition isBitmapKey (key : bytes) : bool :=
  (3 <? zlen key) && byteIs key 0 46 && byteIs key 1 49 && byteIs key 2 46.

Definition isJSONKey (key : bytes) : bool :=
  (1 <? zlen key) && (byteIs key 0 42 || byteIs key 0 45 || digitKey key).

Definition mossMergeValues (key existing incoming : bytes) : option (moss_error + bytes) :=
  if (zlen existing =? 8) && (zlen incoming =? 8) then
    let orig := le_value existing in
    let op := le_value incoming in
    Some (inr (le_bytes 8 (u64 (orig + op))))
  else if isBitmapKey key then mossBitmapMerge existing incoming
  else if isJSONKey key then r ← mossJSONMerge existing incoming; Some (inr r)
  else Some (inr incoming).

Record mossValueMerger := mkMossValueMerger { vm_key : bytes; vm_value : bytes }.

(** The [Merge] function of [newMossMerger]. *)
Definition newMossMerger (key value : bytes) : mossValueMerger := mkMossValueMerger key value.

Definition MergeNewer (vm : mossValueMerger) (value : bytes) : option (moss_error + mossValueMerger) :=
  r ← mossMergeValues (vm_key vm) (vm_value vm) value;
  Some (match r with inl e => inl e | inr merged => inr (mkMossValueMerger (vm_key vm) merged) end).

Definition MergeOlder (vm : mossValueMerger) (value : bytes) : option (moss_error + mossValueMerger) :=
  r ← mossMergeValues (vm_key vm) value (vm_value vm);
  Some (match r with inl e => inl e | inr merged => inr (mkMossValueMerger (vm_key vm) merged) end).

Definition Finish (vm : mossValueMerger) : bytes := vm_value vm.

#[global] Arguments mossBitmapMerge : simpl never.
#[global] Arguments mossMergeValues : simpl never.
#[global] Arguments mossJSONMerge : simpl never.
#[global] Arguments extractJSONField : simpl never.
#[global] Arguments hasJSONKey : simpl never.
