(* ===== verification/MossBitmap.v ===== *)
(** * Space bitmaps under the merge operator

    The byte loops of [mossBitmapMerge] read bit by bit, and what a sequence of
    allocate and release operands does to a stored bitmap, in whatever way
    Pebble brackets the merges. *)

From stdpp Require Import base decidable list numbers option strings.
From Stdlib Require Import ZArith Lia.
From S2P Require Import Prelude Words Bytes Moss.

(** Number of blocks one bitmap value describes. *)
Definition spaceBits : Z := 8 * SpaceLen.

(** The set bit and the keep bit an operand holds for block [k]. *)
Definition loBit (v : bytes) (k : Z) : bool := bit v k.
Definition hiBit (v : bytes) (k : Z) : bool := bit v (k + spaceBits).

(** A stored bitmap and a merge operand. *)
Definition space_value (v : bytes) : Prop := Forall byte_ok v /\ zlen v = SpaceLen.
Definition space_operand (v : bytes) : Prop := Forall byte_ok v /\ zlen v = 2 * SpaceLen.

Lemma hiBit_get v k b : v.[k / 8 + SpaceLen] = Some b -> hiBit v k = Z.testbit b (7 - k mod 8).
Proof.
  intros E. unfold hiBit. rewrite (bit_get v (k + spaceBits) b).
  - f_equal. unfold spaceBits, SpaceLen. dlia.
  - rewrite <- E. f_equal. unfold spaceBits, SpaceLen. dlia.
Qed.

Lemma hiBit_insert v i b k :
  0 <= i < zlen v ->
  hiBit (<[Z.to_nat i := b]> v) k =
    if k / 8 + SpaceLen =? i then Z.testbit b (7 - k mod 8) else hiBit v k.
Proof.
  intros Hi. unfold hiBit. rewrite bit_insert by done. unfold spaceBits, SpaceLen.
  replace ((k + 8 * 512) / 8) with (k / 8 + 512) by dlia.
  by replace ((k + 8 * 512) mod 8) with (k mod 8) by dlia.
Qed.

(** Operands are determined by their set and keep bits. *)
Lemma operand_ext v w :
  space_operand v -> space_operand w ->
  (forall k, 0 <= k < spaceBits -> loBit v k = loBit w k /\ hiBit v k = hiBit w k) -> v = w.
Proof.
  intros [Hv Lv] [Hw Lw] H. apply bytes_ext; [done..|lia|]. intros k Hk. unfold spaceBits in *.
  destruct (decide (k < 8 * SpaceLen)); [apply H; unfold spaceBits; lia|].
  destruct (H (k - 8 * SpaceLen)) as [_ E]; [unfold spaceBits; lia|].
  unfold hiBit, spaceBits in E. by replace (k - 8 * SpaceLen + 8 * SpaceLen) with k in E by lia.
Qed.

(** Merging an operand into a stored bitmap sets and then clears bits. *)
Lemma mossBitmapMerge_base e i :
  space_value e -> space_operand i ->
  exists r, mossBitmapMerge e i = Some (inr r) /\ space_value r /\
    forall k, 0 <= k < spaceBits -> bit r k = (bit e k || loBit i k) && hiBit i k.
Proof.
  intros [He Le] [Hi Li]. unfold mossBitmapMerge. rewrite Li, Le, !Z.eqb_refl. cbn [negb].
  rewrite makeSlice_some by done. go_step.
  destruct (for_range_ind (fun j r => space_value r /\
    forall k, 0 <= k < 8 * j -> bit r k = (bit e k || loBit i k) && hiBit i k)
    0 SpaceLen (mergeBase e i) (zmake SpaceLen 0)) as (r & -> & Hr & Hb).
  - done.
  - split; [split; [apply zmake_ok; done|by apply zlen_make]|lia].
  - intros j r Hj [[Hr Lr] Hb]. unfold mergeBase.
    destruct (zget_some_ok e j He) as (a & Ea & Ha); [lia|].
    destruct (zget_some_ok i j Hi) as (b & Eb & Hbk); [lia|].
    destruct (zget_some_ok i (SpaceLen + j) Hi) as (c & Ec & Hc); [lia|].
    rewrite Ea, Eb, Ec. go_step. rewrite zset_some by lia. eexists. split; [done|]. split.
    + split; [|by rewrite zlen_insert]. apply insert_ok; [done|].
      apply byte_ok_land, byte_ok_lor; done.
    + intros k Hk. rewrite bit_insert by lia. case_bool; [|apply Hb; dlia]. subst j.
      rewrite Z.land_spec, Z.lor_spec, (bit_get e k a) by done. unfold loBit.
      rewrite (bit_get i k b), (hiBit_get i k c) by (done || by rewrite Z.add_comm). done.
  - go_step. exists r. split; [done|]. done.
Qed.

(** Composing two operands. *)
Lemma mossBitmapMerge_composed e i :
  space_operand e -> space_operand i ->
  exists r, mossBitmapMerge e i = Some (inr r) /\ space_operand r /\
    forall k, 0 <= k < spaceBits ->
      loBit r k = (loBit e k || loBit i k) && (hiBit e k && hiBit i k) /\
      hiBit r k = (loBit e k || loBit i k) || (hiBit e k && hiBit i k).
Proof.
  intros [He Le] [Hi Li]. unfold mossBitmapMerge. rewrite Li, Le, Z.eqb_refl. cbn [negb].
  rewrite makeSlice_some by done. go_step.
  replace (2 * SpaceLen =? SpaceLen) with false by done.
  destruct (for_range_ind (fun j r => space_operand r /\
    forall k, 0 <= k < 8 * j ->
      loBit r k = (loBit e k || loBit i k) && (hiBit e k && hiBit i k) /\
      hiBit r k = (loBit e k || loBit i k) || (hiBit e k && hiBit i k))
    0 SpaceLen (mergeComposed e i) (zmake (2 * SpaceLen) 0)) as (r & -> & Hr & Hb).
  - done.
  - split; [split; [apply zmake_ok; done|by apply zlen_make]|lia].
  - intros j r Hj [[Hr Lr] Hb]. unfold mergeComposed.
    destruct (zget_some_ok e j He) as (a & Ea & Ha); [lia|].
    destruct (zget_some_ok i j Hi) as (b & Eb & Hbk); [lia|].
    destruct (zget_some_ok e (j + SpaceLen) He) as (a' & Ea' & Ha'); [lia|].
    destruct (zget_some_ok i (j + SpaceLen) Hi) as (c & Ec & Hc); [lia|].
    rewrite Ea, Eb, Ea', Ec. go_step. rewrite zset_some by lia. go_step.
    rewrite zset_some by (rewrite zlen_insert; lia). eexists. split; [done|]. split.
    + split; [|by rewrite !zlen_insert].
      repeat (apply insert_ok; auto using byte_ok_lor, byte_ok_land).
    + intros k Hk. unfold loBit at 1. rewrite hiBit_insert, !bit_insert, hiBit_insert
        by (rewrite ?zlen_insert; lia).
      replace (k / 8 =? j + SpaceLen) with false by (symmetry; apply Z.eqb_neq; unfold SpaceLen; dlia).
      replace (k / 8 + SpaceLen =? j) with false by (symmetry; apply Z.eqb_neq; unfold SpaceLen in *; dlia).
      destruct (k / 8 =? j) eqn:E; bool_norm.
      * subst j. rewrite Z.eqb_refl. unfold loBit.
        rewrite Z.land_spec, !Z.lor_spec, !Z.land_spec.
        by rewrite (bit_get e k a), (bit_get i k b), (hiBit_get e k a'), (hiBit_get i k c).
      * replace (k / 8 + SpaceLen =? j + SpaceLen) with false by (symmetry; apply Z.eqb_neq; lia).
        apply Hb. dlia.
  - go_step. exists r. split; [done|]. done.
Qed.

(** ** Histories of operands *)

(** What an operand does to block [k]: 1 allocates it, -1 releases it, 0
    leaves it alone. *)
Definition delta (op : bytes) (k : Z) : Z := Z.b2z (loBit op k) + Z.b2z (hiBit op k) - 1.

(** Operands never ask to set and to clear the same block. *)
Definition update_operand (op : bytes) : Prop :=
  space_operand op /\ forall k, 0 <= k < spaceBits -> loBit op k = true -> hiBit op k = true.

(** The states a history of operands leads through, as sets of allocated
    blocks: every operand allocates only free blocks and releases only
    allocated ones. *)
Inductive history : (Z -> bool) -> list bytes -> (Z -> bool) -> Prop :=
  | history_nil s s' :
      (forall k, 0 <= k < spaceBits -> s k = s' k) -> history s [] s'
  | history_cons s op s1 ops s2 :
      update_operand op ->
      (forall k, 0 <= k < spaceBits -> Z.b2z (s1 k) = Z.b2z (s k) + delta op k) ->
      history s1 ops s2 -> history s (op :: ops) s2.

Lemma history_app s ops1 ops2 s2 :
  history s (ops1 ++ ops2) s2 <-> exists s1, history s ops1 s1 /\ history s1 ops2 s2.
Proof.
  revert s. induction ops1 as [|op ops1 IH]; intros s; simpl.
  - split; [intros H; exists s; split; [by constructor|done]|].
    intros (s1 & H1 & H2). inversion H1 as [? ? E|]; subst.
    inversion H2 as [? ? E2|? ? s3 ? ? Hop Hd Hh]; subst.
    + constructor. intros k Hk. rewrite E by done. auto.
    + econstructor; [done| |done]. intros k Hk. rewrite Hd, E by done. done.
  - split.
    + inversion 1 as [|? ? s1 ? ? Hop Hd Hh]; subst. apply IH in Hh as (s3 & H1 & H2).
      exists s3. split; [by econstructor|done].
    + intros (s3 & H1 & H2). inversion H1 as [|? ? s1 ? ? Hop Hd Hh]; subst.
      econstructor; [done..|]. apply IH. eauto.
Qed.

(** Only the blocks of the bitmap matter in the final state. *)
Lemma history_ext s ops s1 s2 :
  (forall k, 0 <= k < spaceBits -> s1 k = s2 k) -> history s ops s1 -> history s ops s2.
Proof.
  intros H Hh. rewrite <- (app_nil_r ops). apply history_app. exists s1. split; [done|]. by constructor.
Qed.

(** Composition of two consecutive operands of a history adds their effects. *)
Lemma compose_delta s s1 s2 a b :
  update_operand a -> update_operand b ->
  (forall k, 0 <= k < spaceBits -> Z.b2z (s1 k) = Z.b2z (s k) + delta a k) ->
  (forall k, 0 <= k < spaceBits -> Z.b2z (s2 k) = Z.b2z (s1 k) + delta b k) ->
  exists r, mossBitmapMerge a b = Some (inr r) /\ update_operand r /\
    forall k, 0 <= k < spaceBits -> Z.b2z (s2 k) = Z.b2z (s k) + delta r k.
Proof.
  intros [Ha Wa] [Hb Wb] H1 H2. destruct (mossBitmapMerge_composed a b Ha Hb) as (r & E & Hr & Hbits).
  exists r. split; [done|]. split; [split; [done|]|]; intros k Hk; destruct (Hbits k Hk) as [L U].
  - rewrite L, U. specialize (Wa k Hk). specialize (Wb k Hk).
    destruct (loBit a k), (loBit b k), (hiBit a k), (hiBit b k); naive_solver.
  - specialize (H1 k Hk). specialize (H2 k Hk). specialize (Wa k Hk). specialize (Wb k Hk).
    unfold delta in *. rewrite L, U.
    destruct (s k), (s1 k), (s2 k), (loBit a k), (loBit b k), (hiBit a k), (hiBit b k);
      simpl in *; first [lia | naive_solver].
Qed.

(** Applying one operand of a history to the stored value. *)
Lemma base_delta s s1 v op :
  space_value v -> update_operand op -> (forall k, 0 <= k < spaceBits -> bit v k = s k) ->
  (forall k, 0 <= k < spaceBits -> Z.b2z (s1 k) = Z.b2z (s k) + delta op k) ->
  exists r, mossBitmapMerge v op = Some (inr r) /\ space_value r /\
    forall k, 0 <= k < spaceBits -> bit r k = s1 k.
Proof.
  intros Hv [Hop W] Hs H1. destruct (mossBitmapMerge_base v op Hv Hop) as (r & E & Hr & Hb).
  exists r. split; [done|]. split; [done|]. intros k Hk. rewrite Hb, Hs by done.
  specialize (H1 k Hk). specialize (W k Hk). unfold delta in H1.
  destruct (s k), (s1 k), (loBit op k), (hiBit op k); simpl in *; first [done | lia | naive_solver].
Qed.
