(* ===== verification/MossJSON.v ===== *)
(** * JSON metadata under the merge operator

    The hand-written member scanner of [ms_pebble.go], the version order and
    the choice [mossJSONMerge] makes. *)

From stdpp Require Import base decidable list numbers option strings.
From Stdlib Require Import ZArith Lia.
From S2P Require Import Prelude Words Bytes Moss.

(** ** The scanner *)

Lemma matchName_total nb data mt i :
  0 <= mt < zlen nb -> exists r, matchName nb data mt i = Some r.
Proof.
  revert mt i. induction data as [|d data IH]; intros mt i Hm; cbn [matchName]; [eauto|].
  destruct (zget_some nb mt Hm) as [c ->]. go_step. repeat case_bool; [eauto|apply IH; lia..].
Qed.

(** A reported match ends inside the data. *)
Lemma matchName_bound nb data mt i e :
  matchName nb data mt i = Some (Some e) -> i <= e < i + zlen data.
Proof.
  revert mt i. induction data as [|d data IH]; intros mt i; cbn [matchName]; [done|].
  destruct nb.[mt] as [c|]; go_step; [|done].
  assert (zlen (d :: data) = zlen data + 1) by (unfold zlen; simpl; lia).
  repeat case_bool; intros E; [injection E as <-|apply IH in E..]; pose proof (zlen_nonneg data); lia.
Qed.

(** A reported match is an occurrence of the name. *)
Lemma matchName_sound nb data mt i e :
  0 <= mt < zlen nb -> matchName nb data mt i = Some (Some e) ->
  exists l r, take (Z.to_nat mt) nb ++ data = l ++ nb ++ r.
Proof.
  revert mt i. induction data as [|d data IH]; intros mt i Hm; cbn [matchName]; [done|].
  destruct (zget_some nb mt Hm) as [c Ec]. rewrite Ec. go_step.
  assert (Hc : nb !! Z.to_nat mt = Some c).
  { unfold zget in Ec. by rewrite (proj2 (Z.leb_le 0 mt)) in Ec by lia. }
  assert (Ht : take (Z.to_nat (mt + 1)) nb = take (Z.to_nat mt) nb ++ [c]).
  { replace (Z.to_nat (mt + 1)) with (S (Z.to_nat mt)) by lia. by apply take_S_r. }
  repeat case_bool; intros E.
  - subst d. exists [], data. simpl. rewrite <- (take_drop (Z.to_nat mt) nb) at 2.
    rewrite <- app_assoc. f_equal. rewrite (drop_S _ _ _ Hc).
    rewrite drop_ge by (unfold zlen in *; lia). done.
  - subst d. apply IH in E as (l & r & E); [|lia]. rewrite Ht, <- app_assoc in E. eauto.
  - apply IH in E as (l & r & E); [|lia]. simpl in E.
    exists ((take (Z.to_nat mt) nb ++ [d]) ++ l), r. by rewrite <- !app_assoc, <- E.
Qed.

(** A byte that does not occur in the name resets the scanner. *)
Lemma matchName_reset nb pre c data mt i :
  0 <= mt < zlen nb -> c ∉ nb -> matchName nb (pre ++ [c]) mt i = Some None ->
  matchName nb (pre ++ c :: data) mt i = matchName nb data 0 (i + zlen pre + 1).
Proof.
  revert mt i. induction pre as [|d pre IH]; intros mt i Hm Hc; cbn [matchName app].
  - destruct (zget_some nb mt Hm) as [x Ex]. rewrite Ex. go_step. intros _.
    assert (c <> x).
    { intros ->. apply Hc. unfold zget in Ex. rewrite (proj2 (Z.leb_le 0 mt)) in Ex by lia.
      by eapply list_elem_of_lookup_2. }
    rewrite (proj2 (Z.eqb_neq c x)) by done. f_equal. unfold zlen. simpl. lia.
  - destruct (zget_some nb mt Hm) as [x ->]. go_step.
    assert (zlen (d :: pre) = zlen pre + 1) by (unfold zlen; simpl; lia).
    destruct (d =? x), (mt + 1 =? zlen nb) eqn:E; bool_norm; [done| | |]; intros H0;
      (etransitivity; [apply IH; [|exact Hc|exact H0]; lia|f_equal; lia]).
Qed.

(** From the start of an occurrence the scanner runs to its end. *)
Lemma matchName_run nb rest data i (mt : nat) :
  drop mt nb = rest -> rest <> [] ->
  matchName nb (rest ++ data) (Z.of_nat mt) i = Some (Some (i + zlen rest - 1)).
Proof.
  revert mt i. induction rest as [|c rest IH]; intros mt i Hd Hne; [done|].
  assert (Hc : nb !! mt = Some c) by (rewrite <- (Nat.add_0_r mt), <- lookup_drop, Hd; done).
  pose proof (lookup_lt_Some _ _ _ Hc) as Hlt.
  cbn [matchName app]. unfold zget. rewrite (proj2 (Z.leb_le 0 _)), Nat2Z.id, Hc by lia. go_step.
  rewrite Z.eqb_refl.
  assert (Hd' : drop (S mt) nb = rest) by (by rewrite (drop_S _ _ _ Hc) in Hd; injection Hd).
  assert (Hl : length rest = (length nb - S mt)%nat) by (by rewrite <- Hd', length_drop).
  case_bool.
  - do 2 f_equal. unfold zlen in *. simpl. lia.
  - replace (Z.of_nat mt + 1) with (Z.of_nat (S mt)) by lia. rewrite IH; [|done|].
    + do 2 f_equal. unfold zlen. simpl. lia.
    + intros ->. simpl in Hl. unfold zlen in *. lia.
Qed.

Lemma fieldEnd_run v e post i :
  44 ∉ v -> 125 ∉ v -> e = 44 \/ e = 125 -> fieldEnd (v ++ e :: post) i = Some (i + zlen v).
Proof.
  revert i. induction v as [|d v IH]; intros i H1 H2 He; cbn [fieldEnd app].
  - replace ((e =? 44) || (e =? 125)) with true by (destruct He; subst; done). f_equal. unfold zlen. simpl. lia.
  - apply not_elem_of_cons in H1 as [? H1], H2 as [? H2].
    rewrite (proj2 (Z.eqb_neq d 44)), (proj2 (Z.eqb_neq d 125)) by done. cbn [orb].
    rewrite IH by done. f_equal. unfold zlen. simpl. lia.
Qed.

Lemma fieldEnd_bound data i e : fieldEnd data i = Some e -> i <= e < i + zlen data.
Proof.
  revert i. induction data as [|d data IH]; intros i; cbn [fieldEnd]; [done|].
  assert (zlen (d :: data) = zlen data + 1) by (unfold zlen; simpl; lia).
  pose proof (zlen_nonneg data). case_bool; intros E; [injection E as <-; lia|].
  all: apply IH in E; lia.
Qed.

Lemma slice_app {A} (a b c : list A) : slice (a ++ b ++ c) (zlen a) (zlen a + zlen b) = Some b.
Proof.
  unfold slice, zlen. rewrite !length_app.
  rewrite (proj2 (Z.leb_le 0 _)), (proj2 (Z.leb_le _ (_ + _))), (proj2 (Z.leb_le _ (Z.of_nat _))) by lia.
  simpl. f_equal. rewrite Nat2Z.id, drop_app_length.
  replace (Z.to_nat _) with (length b) by lia. apply take_app_length.
Qed.

Lemma slice_some {A} (d : list A) lo hi : 0 <= lo <= hi -> hi <= zlen d -> exists r, slice d lo hi = Some r.
Proof.
  intros. unfold slice. rewrite (proj2 (Z.leb_le 0 _)), (proj2 (Z.leb_le lo hi)), (proj2 (Z.leb_le hi _)) by lia.
  eauto.
Qed.

(** The member scanner never panics. *)
Lemma extractJSONField_total data name :
  name <> [] -> exists r, extractJSONField data name = Some r.
Proof.
  intros Hn. unfold extractJSONField.
  assert (0 < zlen name) by (destruct name; [done|unfold zlen; simpl; lia]).
  destruct (matchName_total name data 0 0) as [[st|] E]; [lia| |rewrite E; go_step; eauto].
  rewrite E. go_step. apply matchName_bound in E.
  destruct (fieldEnd _ _) as [e|] eqn:Ef; [|eauto].
  apply fieldEnd_bound in Ef.
  assert (zlen (drop (Z.to_nat st) data) = zlen data - st) by (unfold zlen in *; rewrite length_drop; lia).
  case_bool; [eauto|]. destruct (zget_some data (e - 1)) as [q ->]; [lia|]. go_step.
  case_bool; [eauto|]. bool_norm. destruct (slice_some data (st + 2) (e - 1)) as [r ->]; [lia..|].
  go_step. eauto.
Qed.

Lemma hasJSONKey_total data name : name <> [] -> exists b, hasJSONKey data name = Some b.
Proof.
  intros Hn. unfold hasJSONKey.
  assert (0 < zlen name) by (destruct name; [done|unfold zlen; simpl; lia]).
  destruct (matchName_total name data 0 0) as [r ->]; [lia|]. go_step. eauto.
Qed.

(** ** Version order *)

Lemma compareBytes_antisym a b : Z.sgn (compareBytes a b) = - Z.sgn (compareBytes b a).
Proof.
  revert b. induction a as [|x a IH]; intros [|y b]; try done. cbn [compareBytes].
  destruct (decide (x = y)) as [->|]; [rewrite Z.sub_diag; simpl; apply IH|].
  rewrite (proj2 (Z.eqb_neq (y - x) 0)), (proj2 (Z.eqb_neq (x - y) 0)) by lia. simpl. lia.
Qed.

Lemma compareBytes_zero a b : compareBytes a b = 0 <-> a = b.
Proof.
  revert b. induction a as [|x a IH]; intros [|y b]; try done. cbn [compareBytes].
  destruct (decide (x = y)) as [->|].
  - rewrite Z.sub_diag. simpl. rewrite IH. naive_solver.
  - rewrite (proj2 (Z.eqb_neq (y - x) 0)) by lia. simpl. split; [lia|naive_solver].
Qed.

Lemma compareBytes_trans a b c : 0 < compareBytes a b -> 0 < compareBytes b c -> 0 < compareBytes a c.
Proof.
  revert b c. induction a as [|x a IH]; intros [|y b] [|z c]; try done. cbn [compareBytes].
  destruct (decide (x = y)) as [->|]; destruct (decide (y = z)) as [->|];
    rewrite ?Z.sub_diag; simpl; [apply IH| | |];
    repeat match goal with
    | |- context [?u - ?v =? 0] => destruct (u - v =? 0) eqn:?; bool_norm; simpl
    end; lia.
Qed.

Lemma compareVersion_antisym a b : Z.sgn (compareVersion a b) = - Z.sgn (compareVersion b a).
Proof. destruct a, b; try done. apply compareBytes_antisym. Qed.

Lemma compareVersion_zero a b : compareVersion a b = 0 <-> a = b.
Proof.
  destruct a, b; try done. cbn [compareVersion]. rewrite compareBytes_zero. naive_solver.
Qed.

Lemma compareVersion_trans a b c : 0 < compareVersion a b -> 0 < compareVersion b c -> 0 < compareVersion a c.
Proof. destruct a, b, c; simpl; try lia. apply compareBytes_trans. Qed.

(** ** The choice between two values *)

(** The member of a value, [None] for the [nil] the scanner returns. *)
Definition field (v name : bytes) : option bytes := default None (extractJSONField v name).

Definition syncStamp (v : bytes) : option bytes := field v syncStampName.
Definition versionNum (v : bytes) : option bytes := field v versionNumName.
Definition deleteMarked (v : bytes) : bool := default false (hasJSONKey v deleteMarkName).

(** A syncStamp in the dual-active format. *)
Definition newFormat (v : bytes) : bool := 2 <=? countHyphen' (syncStamp v).

Lemma extract_field v name : name <> [] -> extractJSONField v name = Some (field v name).
Proof. intros Hn. unfold field. by destruct (extractJSONField_total v name Hn) as [r ->]. Qed.

Lemma has_deleteMark v : hasJSONKey v deleteMarkName = Some (deleteMarked v).
Proof. unfold deleteMarked. by destruct (hasJSONKey_total v deleteMarkName) as [b ->]. Qed.

(** [mossJSONMerge] without the panic checks. *)
Lemma mossJSONMerge_eq e i :
  mossJSONMerge e i = Some (
    let c := compareSyncStamp (syncStamp e) (syncStamp i) in
    let cv := compareVersion (versionNum e) (versionNum i) in
    if newFormat i && negb (c =? 0) then if 0 <? c then i else e
    else if cv =? 0 then e else if 0 <? cv then i else if deleteMarked e then i else e).
Proof.
  assert (Hv : mergeByVersion e i = Some (
    let cv := compareVersion (versionNum e) (versionNum i) in
    if cv =? 0 then e else if 0 <? cv then i else if deleteMarked e then i else e)).
  { unfold mergeByVersion. rewrite !extract_field by done. go_step. rewrite has_deleteMark.
    go_step. cbv zeta. fold (versionNum e) (versionNum i). by repeat case_bool. }
  unfold mossJSONMerge. rewrite !extract_field by done. go_step.
  fold (syncStamp e) (syncStamp i) (newFormat i). rewrite Hv. cbv zeta.
  destruct (newFormat i); [|done]. cbn [andb]. by destruct (_ =? 0).
Qed.

(** Values of one class: no delete mark, not an 8-byte counter, and either all
    or none with a dual-active syncStamp. *)
Definition plain (dual : bool) (v : bytes) : Prop :=
  deleteMarked v = false /\ zlen v <> 8 /\ newFormat v = dual.

(** [a] is strictly older than [b]. *)
Definition older (dual : bool) (a b : bytes) : bool :=
  let c := compareVersion (syncStamp a) (syncStamp b) in
  if dual && negb (c =? 0) then 0 <? c
  else 0 <? compareVersion (versionNum a) (versionNum b).

(** The first of the newest values, reading from oldest to newest operand. *)
Definition newest (dual : bool) (v : bytes) (vs : list bytes) : bytes :=
  fold_left (fun e i => if older dual e i then i else e) vs v.

Lemma newFormat_compare a b :
  newFormat a = true -> newFormat b = true ->
  compareSyncStamp (syncStamp a) (syncStamp b) = compareVersion (syncStamp a) (syncStamp b).
Proof.
  unfold newFormat, countHyphen'. intros Ha Hb. bool_norm.
  destruct (syncStamp a) as [x|], (syncStamp b) as [y|]; try done. cbn [compareSyncStamp default] in *.
  simpl in Ha. by rewrite (proj2 (Z.ltb_ge _ _)) by lia.
Qed.

Lemma mossJSONMerge_plain dual e i :
  plain dual e -> plain dual i -> mossJSONMerge e i = Some (if older dual e i then i else e).
Proof.
  intros (De & _ & Fe) (_ & _ & Fi). rewrite mossJSONMerge_eq, Fi, De. f_equal. unfold older.
  cbv zeta. destruct dual; cbn [andb].
  - rewrite newFormat_compare by done. repeat case_bool; done || lia.
  - repeat case_bool; done || lia.
Qed.

Lemma older_trans dual a b c : older dual a b = true -> older dual b c = true -> older dual a c = true.
Proof.
  unfold older. destruct dual; cbn [andb].
  - pose proof (compareVersion_zero (syncStamp a) (syncStamp b)) as Zab.
    pose proof (compareVersion_zero (syncStamp b) (syncStamp c)) as Zbc.
    pose proof (compareVersion_zero (syncStamp a) (syncStamp c)) as Zac.
    pose proof (compareVersion_antisym (syncStamp a) (syncStamp c)) as As.
    destruct (compareVersion (syncStamp a) (syncStamp b) =? 0) eqn:E1; bool_norm; cbn [negb].
    + apply Zab in E1. rewrite E1. destruct (_ =? 0); [|done]. cbn [negb]. intros. bool_norm.
      apply Z.ltb_lt. by eapply compareVersion_trans.
    + destruct (compareVersion (syncStamp b) (syncStamp c) =? 0) eqn:E2; bool_norm; cbn [negb].
      * apply Zbc in E2. rewrite <- E2, (proj2 (Z.eqb_neq _ 0) E1). done.
      * intros. bool_norm. pose proof (compareVersion_trans (syncStamp a) _ (syncStamp c) H H0).
        rewrite (proj2 (Z.eqb_neq _ 0)) by lia. cbn [negb]. by apply Z.ltb_lt.
  - intros. bool_norm. apply Z.ltb_lt. by eapply compareVersion_trans.
Qed.

Lemma older_negtrans dual a b c :
  older dual a b = false -> older dual b c = false -> older dual a c = false.
Proof.
  assert (Hv : forall x y z, ~ 0 < compareVersion x y -> ~ 0 < compareVersion y z -> ~ 0 < compareVersion x z).
  { intros x y z H1 H2 H3. pose proof (compareVersion_antisym x y). pose proof (compareVersion_antisym y z).
    destruct (decide (compareVersion x y = 0)) as [E|]; [apply compareVersion_zero in E; subst; lia|].
    pose proof (compareVersion_trans y x z ltac:(lia) H3). lia. }
  pose proof (compareVersion_zero (syncStamp a) (syncStamp b)) as Zab.
  pose proof (compareVersion_zero (syncStamp b) (syncStamp c)) as Zbc.
  pose proof (compareVersion_antisym (syncStamp a) (syncStamp b)) as Sab.
  pose proof (compareVersion_antisym (syncStamp b) (syncStamp c)) as Sbc.
  pose proof (compareVersion_antisym (syncStamp a) (syncStamp c)) as Sac.
  unfold older. destruct dual; cbn [andb].
  - destruct (compareVersion (syncStamp a) (syncStamp b) =? 0) eqn:E1; bool_norm; cbn [negb].
    + apply Zab in E1. rewrite E1. destruct (_ =? 0); [|done]. cbn [negb]. intros. bool_norm.
      apply Z.ltb_ge. pose proof (Hv (versionNum a) (versionNum b) (versionNum c)). lia.
    + destruct (compareVersion (syncStamp b) (syncStamp c) =? 0) eqn:E2; bool_norm; cbn [negb].
      * apply Zbc in E2. rewrite <- E2, (proj2 (Z.eqb_neq _ 0) E1). done.
      * intros. bool_norm.
        pose proof (compareVersion_trans (syncStamp c) (syncStamp b) (syncStamp a) ltac:(lia) ltac:(lia)).
        rewrite (proj2 (Z.eqb_neq _ 0)) by lia. cbn [negb]. apply Z.ltb_ge. lia.
  - intros. bool_norm. apply Z.ltb_ge. pose proof (Hv (versionNum a) (versionNum b) (versionNum c)). lia.
Qed.
