(* ===== verification/MossThms.v ===== *)
(** * Correctness of the merge operator

    Pebble may combine the operands of a key in any bracketing: a value merger
    starts from any operand and takes newer and older ones, among them results
    of earlier partial merges.  A [mtree] is one such evaluation; the theorems
    say that the bracketing does not matter for the values this program
    stores. *)

From stdpp Require Import base decidable list numbers option sets strings.
From Stdlib Require Import ZArith Lia.
From S2P Require Import Prelude Words Bytes Moss MossBitmap MossJSON.

(** ** Evaluations of the merger *)

(** [MNewer l r] feeds the result of [r] to the merger of [l] with
    [MergeNewer]; [MOlder l r] feeds the result of [l] to the merger of [r]
    with [MergeOlder]. *)
Inductive mtree := MLeaf (v : bytes) | MNewer (l r : mtree) | MOlder (l r : mtree).

(** The operands, oldest first. *)
Fixpoint operands (t : mtree) : list bytes :=
  match t with MLeaf v => [v] | MNewer l r | MOlder l r => operands l ++ operands r end.

Fixpoint runMerger (key : bytes) (t : mtree) : option (moss_error + mossValueMerger) :=
  match t with
  | MLeaf v => Some (inr (newMossMerger key v))
  | MNewer l r =>
      x ← runMerger key l; y ← runMerger key r;
      match x, y with
      | inr vl, inr vr => MergeNewer vl (Finish vr)
      | inl e, _ | _, inl e => Some (inl e)
      end
  | MOlder l r =>
      x ← runMerger key l; y ← runMerger key r;
      match x, y with
      | inr vl, inr vr => MergeOlder vr (Finish vl)
      | inl e, _ | _, inl e => Some (inl e)
      end
  end.

Lemma operands_ne t : operands t <> [].
Proof. induction t as [v|l IHl r IHr|l IHl r IHr]; simpl; [done|..]; intros E; by apply app_nil in E as [? _]. Qed.

(** Both ways of combining two finished mergers are one call of
    [mossMergeValues]. *)
Lemma runMerger_node key l r a b c :
  runMerger key l = Some (inr (mkMossValueMerger key a)) ->
  runMerger key r = Some (inr (mkMossValueMerger key b)) ->
  mossMergeValues key a b = Some (inr c) ->
  runMerger key (MNewer l r) = Some (inr (mkMossValueMerger key c)) /\
  runMerger key (MOlder l r) = Some (inr (mkMossValueMerger key c)).
Proof.
  intros El Er E. cbn [runMerger]. rewrite El, Er. go_step. unfold MergeNewer, MergeOlder, Finish.
  cbn [vm_key vm_value]. by rewrite E.
Qed.

(** Evaluation by an operation that is associative on a closed class. *)
Lemma runMerger_assoc key (P : bytes -> Prop) (f : bytes -> bytes -> bytes) t v vs :
  (forall a b, P a -> P b -> mossMergeValues key a b = Some (inr (f a b)) /\ P (f a b)) ->
  (forall a b c, P a -> P b -> P c -> f (f a b) c = f a (f b c)) ->
  Forall P (v :: vs) -> operands t = v :: vs ->
  runMerger key t = Some (inr (mkMossValueMerger key (fold_left f vs v))) /\ P (fold_left f vs v).
Proof.
  intros Hf Ha. revert v vs.
  assert (Hfold : forall vs b, Forall P vs -> P b -> P (fold_left f vs b)).
  { induction vs as [|w vs IH]; intros b Hvs Hb; [done|]. inversion Hvs; subst. simpl. apply IH; [done|].
    by apply Hf. }
  assert (Hpull : forall vs a b, Forall P vs -> P a -> P b -> fold_left f vs (f a b) = f a (fold_left f vs b)).
  { induction vs as [|w vs IH]; intros a b Hvs Hpa Hb; [done|]. inversion Hvs; subst. simpl.
    rewrite Ha by done. apply IH; [done..|]. by apply Hf. }
  induction t as [x|l IHl r IHr|l IHl r IHr]; intros v vs HP; simpl operands.
  { intros E. injection E as -> <-. inversion HP. done. }
  all: destruct (operands l) as [|v1 vs1] eqn:El; [by destruct (operands_ne l)|];
    destruct (operands r) as [|v2 vs2] eqn:Er; [by destruct (operands_ne r)|];
    simpl; intros E; injection E as -> <-; inversion HP as [|? ? Hv HP']; subst;
    apply Forall_app in HP' as [HP1 HP2]; inversion HP2 as [|? ? Hv2 HP2']; subst;
    destruct (IHl v vs1) as [Rl Pl]; [by constructor|done|];
    destruct (IHr v2 vs2) as [Rr Pr]; [by constructor|done|];
    destruct (Hf _ _ Pl Pr) as [Hm Hp];
    rewrite fold_left_app; cbn [fold_left]; rewrite Hpull by auto;
    destruct (runMerger_node key l r _ _ _ Rl Rr Hm) as [Q1 Q2]; done.
Qed.

(** ** Bitmaps *)

Lemma mossMergeValues_bitmap key a b :
  isBitmapKey key = true -> zlen a <> 8 -> mossMergeValues key a b = mossBitmapMerge a b.
Proof. intros Hk Ha. unfold mossMergeValues. by rewrite (proj2 (Z.eqb_neq (zlen a) 8)), Hk by done. Qed.

Lemma space_operand_8 v : space_operand v -> zlen v <> 8.
Proof. intros [_ ->]. done. Qed.

(** Operands alone compose to an operand with the joint effect. *)
Lemma runMerger_operands key t s s' :
  isBitmapKey key = true -> history s (operands t) s' ->
  exists v, runMerger key t = Some (inr (mkMossValueMerger key v)) /\ update_operand v /\
    forall k, 0 <= k < spaceBits -> Z.b2z (s' k) = Z.b2z (s k) + delta v k.
Proof.
  intros Hk. revert s s'. induction t as [v|l IHl r IHr|l IHl r IHr]; intros s s'; simpl operands.
  { inversion 1 as [|? ? s1 ? ? Hop Hd Hn]; subst. inversion Hn as [? ? E|]; subst.
    exists v. split; [done|]. split; [done|]. intros k Hkk. rewrite <- E by done. auto. }
  all: intros H; apply history_app in H as (s1 & H1 & H2);
    destruct (IHl _ _ H1) as (a & Ra & Ua & Da); destruct (IHr _ _ H2) as (b & Rb & Ub & Db);
    destruct (compose_delta s s1 s' a b Ua Ub Da Db) as (c & Ec & Uc & Dc);
    rewrite <- (mossMergeValues_bitmap key) in Ec by (done || apply space_operand_8, Ua);
    destruct (runMerger_node key l r _ _ _ Ra Rb Ec) as [Q1 Q2]; eauto.
Qed.

(** The same with the stored value as the oldest operand. *)
Lemma runMerger_base key t base ops s' :
  isBitmapKey key = true -> operands t = base :: ops ->
  space_value base -> history (bit base) ops s' ->
  exists v, runMerger key t = Some (inr (mkMossValueMerger key v)) /\ space_value v /\
    forall k, 0 <= k < spaceBits -> bit v k = s' k.
Proof.
  intros Hk. revert base ops s'. induction t as [v|l IHl r IHr|l IHl r IHr]; intros base ops s'; simpl operands.
  { intros E Hb H. injection E as -> <-. inversion H as [? ? Es|]; subst.
    exists base. split; [done|]. split; [done|]. done. }
  all: destruct (operands l) as [|v1 ops1] eqn:El; [by destruct (operands_ne l)|];
    simpl; intros E Hb H; injection E as -> <-; apply history_app in H as (s1 & H1 & H2);
    destruct (IHl base ops1 s1 eq_refl Hb H1) as (a & Ra & Va & Ba);
    destruct (runMerger_operands key r s1 s' Hk H2) as (b & Rb & Ub & Db);
    destruct (base_delta s1 s' a b Va Ub Ba Db) as (c & Ec & Vc & Bc);
    rewrite <- (mossMergeValues_bitmap key) in Ec by (done || (destruct Va as [_ ->]; done));
    destruct (runMerger_node key l r _ _ _ Ra Rb Ec) as [Q1 Q2]; eauto.
Qed.

(** C9: Whatever way Pebble brackets the merges of a stored bitmap with a
    history of operands that allocate free blocks and release allocated ones,
    the merger neither fails nor panics and yields the bitmap of exactly the
    blocks allocated at the end of the history.  So pending operands may be
    compacted in any order of evaluation. *)
Theorem bitmap_any_bracketing key t base ops s' :
  isBitmapKey key = true -> operands t = base :: ops ->
  space_value base -> history (bit base) ops s' ->
  exists v, runMerger key t = Some (inr (mkMossValueMerger key v)) /\ space_value v /\
    forall k, 0 <= k < spaceBits -> bit v k = s' k.
Proof. apply runMerger_base. Qed.

(** An operand that allocates, and one that releases, the first block. *)
Definition demoKey : bytes := bs ".1.0000000000".
Definition demoAlloc : bytes := 128 :: zmake 511 0 ++ zmake 512 255.
Definition demoRelease : bytes := zmake 512 0 ++ 127 :: zmake 511 255.
Definition demoBase : bytes := zmake 512 0.

Definition byte_okb (b : Z) : bool := (0 <=? b) && (b <? 256).

Lemma byte_okb_all v : forallb byte_okb v = true -> Forall byte_ok v.
Proof.
  intros H. apply Forall_forall. intros x Hx. apply list_elem_of_In in Hx.
  pose proof (proj1 (forallb_forall _ _) H x Hx) as Hb.
  unfold byte_okb in Hb. bool_norm. done.
Qed.

Definition rangeb (f : Z -> bool) : bool := forallb f (seqZ 0 spaceBits).

Lemma rangeb_spec f : rangeb f = true -> forall k, 0 <= k < spaceBits -> f k = true.
Proof.
  intros H k Hk. apply (proj1 (forallb_forall _ _) H). apply list_elem_of_In, elem_of_seqZ. lia.
Qed.

Lemma demo_history :
  history (bit demoBase) [demoAlloc; demoRelease] (bit demoBase).
Proof.
  assert (U : forall v, forallb byte_okb v && (zlen v =? 2 * SpaceLen) = true ->
    rangeb (fun k => negb (loBit v k) || hiBit v k) = true -> update_operand v).
  { intros v H1 H2. bool_norm. split; [split; [by apply byte_okb_all|done]|].
    intros k Hk L. pose proof (rangeb_spec _ H2 k Hk) as Q. cbv beta in Q. by rewrite L in Q. }
  assert (D : forall s s1 v, rangeb (fun k => Z.b2z (s1 k) =? Z.b2z (s k) + delta v k) = true ->
    forall k, 0 <= k < spaceBits -> Z.b2z (s1 k) = Z.b2z (s k) + delta v k).
  { intros s s1 v H k Hk. apply Z.eqb_eq. exact (rangeb_spec _ H k Hk). }
  apply (history_cons _ _ (bit (128 :: zmake 511 0))); [apply U; vm_compute; reflexivity|apply D; vm_compute; reflexivity|].
  apply (history_cons _ _ (bit demoBase)); [apply U; vm_compute; reflexivity|apply D; vm_compute; reflexivity|].
  by constructor.
Qed.

Lemma bitmap_any_bracketing_witness :
  exists v, runMerger demoKey (MOlder (MLeaf demoBase) (MNewer (MLeaf demoAlloc) (MLeaf demoRelease))) =
      Some (inr (mkMossValueMerger demoKey v)) /\ space_value v /\
    forall k, 0 <= k < spaceBits -> bit v k = bit demoBase k.
Proof.
  apply (bitmap_any_bracketing demoKey _ demoBase [demoAlloc; demoRelease] (bit demoBase));
    [vm_compute; reflexivity|reflexivity|split; [apply zmake_ok; unfold byte_ok; lia|reflexivity]|exact demo_history].
Defined.

(** Outside that discipline the operator is not associative: for a block
    that is already allocated, an allocate operand followed by a release
    operand clears the bit when they are merged one after the other into the
    stored value, and leaves it set when Pebble composes the two operands
    first. *)
Theorem bitmap_not_associative :
  exists base t1 t2 v1 v2, operands t1 = operands t2 /\ operands t1 = [base; demoAlloc; demoRelease] /\
    runMerger demoKey t1 = Some (inr (mkMossValueMerger demoKey v1)) /\
    runMerger demoKey t2 = Some (inr (mkMossValueMerger demoKey v2)) /\
    bit v1 0 = false /\ bit v2 0 = true.
Proof.
  exists (zmake 512 255),
    (MNewer (MNewer (MLeaf (zmake 512 255)) (MLeaf demoAlloc)) (MLeaf demoRelease)),
    (MNewer (MLeaf (zmake 512 255)) (MNewer (MLeaf demoAlloc) (MLeaf demoRelease))).
  eexists _, _. split_and!; vm_compute; reflexivity.
Qed.

(** ** Counters *)

Definition counter (v : bytes) : Prop := Forall byte_ok v /\ zlen v = 8.

Definition addCounters (a b : bytes) : bytes := le_bytes 8 (u64 (le_value a + le_value b)).

Lemma addCounters_value a b : le_value (addCounters a b) = u64 (le_value a + le_value b).
Proof. unfold addCounters. rewrite le_value_bytes. unfold u64. rewrite Z.mod_mod; done. Qed.

Lemma addCounters_counter a b : counter (addCounters a b).
Proof. split; [apply le_bytes_ok|]. unfold zlen, addCounters. by rewrite le_bytes_length. Qed.

Lemma addCounters_assoc a b c : addCounters (addCounters a b) c = addCounters a (addCounters b c).
Proof.
  unfold addCounters at 1 3. f_equal. rewrite !addCounters_value. unfold u64.
  rewrite Z.add_mod_idemp_l, Z.add_mod_idemp_r by lia. f_equal. lia.
Qed.

(** C10: Eight-byte operands add up modulo 2^64 in every bracketing, so a
    counter never depends on compaction.  The code looks at the lengths of the
    two values only: the addition is made under every key, also under a bitmap
    or metadata key, although the comment of [newMossMerger] restricts it to
    keys of eight bytes. *)
Theorem counter_any_bracketing key t :
  Forall counter (operands t) ->
  exists v, runMerger key t = Some (inr (mkMossValueMerger key v)) /\ counter v /\
    le_value v = u64 (foldr (fun w n => le_value w + n) 0 (operands t)).
Proof.
  destruct (operands t) as [|v vs] eqn:E; [by destruct (operands_ne t)|]. intros HF.
  destruct (runMerger_assoc key counter addCounters t v vs) as [R P]; [|by intros; apply addCounters_assoc|done..|].
  { intros a b [_ La] [_ Lb]. split; [|apply addCounters_counter].
    unfold mossMergeValues. by rewrite La, Lb. }
  eexists. split; [exact R|]. split; [done|].
  inversion HF as [|? ? Hv HF']; subst. clear HF E R P.
  revert v Hv. induction vs as [|w vs IH]; intros v Hv; cbn [fold_left foldr].
  - rewrite Z.add_0_r. symmetry. apply u64_small. destruct Hv as [Hb L].
    pose proof (le_value_bound v Hb) as B. rewrite L in B. done.
  - inversion HF'; subst. rewrite IH by (done || apply addCounters_counter). cbn [foldr].
    rewrite addCounters_value. unfold u64. rewrite Z.add_mod_idemp_l by lia. f_equal. lia.
Qed.

Lemma counter_any_bracketing_witness :
  let t := MNewer (MLeaf (le_bytes 8 (2 ^ 64 - 1))) (MOlder (MLeaf (le_bytes 8 5)) (MLeaf (le_bytes 8 7))) in
  exists v, runMerger demoKey t = Some (inr (mkMossValueMerger demoKey v)) /\ counter v /\
    le_value v = u64 (foldr (fun w n => le_value w + n) 0 (operands t)).
Proof.
  cbv zeta. apply counter_any_bracketing.
  repeat constructor; vm_compute; congruence.
Defined.

(** ** JSON metadata *)

(** C11: For metadata values without a delete mark, none of them eight bytes
    long, that either all carry a dual-active syncStamp or none does, the
    merger returns, in every
    bracketing, the first of the newest values: no value of the history is
    newer by (syncStamp, versionNum), and the stored one wins ties. *)
Theorem json_any_bracketing key dual t v vs :
  isBitmapKey key = false -> isJSONKey key = true ->
  operands t = v :: vs -> Forall (plain dual) (v :: vs) ->
  runMerger key t = Some (inr (mkMossValueMerger key (newest dual v vs))) /\
  newest dual v vs ∈ v :: vs /\ Forall (fun w => older dual (newest dual v vs) w = false) (v :: vs).
Proof.
  intros Hb Hj Ho HF.
  set (f := fun e i : bytes => if older dual e i then i else e).
  assert (Hirr : forall a, older dual a a = false).
  { intros a. unfold older. cbv zeta. rewrite !(proj2 (compareVersion_zero _ _)) by done. by destruct dual. }
  split.
  - apply (runMerger_assoc key (plain dual) f t v vs); [| |done..].
    + intros a b Ha Hb'. split; [|unfold f; by destruct (older dual a b)].
      unfold mossMergeValues. destruct Ha as (? & Ha8 & ?) eqn:Ea. rewrite (proj2 (Z.eqb_neq (zlen a) 8)) by done.
      cbn [andb]. rewrite Hb, Hj, (mossJSONMerge_plain dual) by done. done.
    + intros a b c _ _ _. unfold f. destruct (older dual a b) eqn:E1, (older dual b c) eqn:E2;
        rewrite ?E1, ?E2; try done; [by rewrite (older_trans _ a b c)|by rewrite (older_negtrans _ a b c)].
  - clear Ho HF. revert v. induction vs as [|w vs IH]; intros v; cbn [newest fold_left].
    { split; [set_solver|]. repeat constructor. apply Hirr. }
    destruct (IH (f v w)) as [IH1 IH2]. fold (newest dual (if older dual v w then w else v) vs).
    unfold f in IH1, IH2. split; [destruct (older dual v w); set_solver|].
    inversion IH2 as [|? ? Hx Hrest]; subst. destruct (older dual v w) eqn:E.
    + repeat constructor; try done. destruct (older dual (newest dual w vs) v) eqn:E2; [|done].
      by rewrite (older_trans _ _ _ _ E2 E) in Hx.
    + repeat constructor; try done. by apply (older_negtrans _ _ v).
Qed.

Definition demoJSON (n : Z) : bytes := [123] ++ versionNumName ++ [dquote; n; dquote; 125].

Lemma json_any_bracketing_witness :
  let t := MOlder (MLeaf (demoJSON 50)) (MNewer (MLeaf (demoJSON 53)) (MLeaf (demoJSON 51))) in
  runMerger (bs "*obj") t = Some (inr (mkMossValueMerger (bs "*obj")
    (newest false (demoJSON 50) [demoJSON 53; demoJSON 51]))) /\
  newest false (demoJSON 50) [demoJSON 53; demoJSON 51] ∈ [demoJSON 50; demoJSON 53; demoJSON 51] /\
  Forall (fun w => older false (newest false (demoJSON 50) [demoJSON 53; demoJSON 51]) w = false)
    [demoJSON 50; demoJSON 53; demoJSON 51].
Proof.
  cbv zeta. apply (json_any_bracketing (bs "*obj") false); [reflexivity..|].
  repeat constructor; vm_compute; congruence.
Defined.

(** The scanner reads back a string member: for a member written after a
    byte that does not occur in its quoted name (a comma or a brace), with no
    earlier match, a non-empty value without comma and closing brace is
    returned verbatim. *)
Theorem extractJSONField_member s pre c v e post :
  c ∉ jsonName s -> hasJSONKey (pre ++ [c]) (jsonName s) = Some false ->
  v <> [] -> 44 ∉ v -> 125 ∉ v -> e = 44 \/ e = 125 ->
  extractJSONField (pre ++ c :: jsonName s ++ dquote :: v ++ dquote :: e :: post) (jsonName s) = Some (Some v).
Proof.
  intros Hc Hno Hv H1 H2 He. set (name := jsonName s) in *.
  set (d := pre ++ c :: name ++ dquote :: v ++ dquote :: e :: post).
  assert (Hn : name = (dquote :: bs s ++ [dquote]) ++ [58]) by (unfold name, jsonName; simpl; by rewrite <- app_assoc).
  assert (Hnl : zlen name = zlen (dquote :: bs s ++ [dquote]) + 1) by (rewrite Hn; unfold zlen; rewrite length_app; simpl; lia).
  set (q := pre ++ c :: dquote :: bs s ++ [dquote]).
  assert (Hd : d = q ++ ([58; dquote] ++ v) ++ [dquote] ++ e :: post).
  { unfold d, q. rewrite Hn. simpl. rewrite <- !app_assoc. simpl. by rewrite <- !app_assoc. }
  assert (Hq : zlen q = zlen pre + zlen name) by (rewrite Hnl; unfold q, zlen; rewrite length_app; simpl; lia).
  assert (Hm : matchName name d 0 0 = Some (Some (zlen q))).
  { unfold hasJSONKey in Hno. destruct (matchName name (pre ++ [c]) 0 0) as [[x|]|] eqn:E; try done.
    unfold d. rewrite matchName_reset; [|pose proof (zlen_nonneg (dquote :: bs s ++ [dquote])); lia|done|done].
    rewrite (matchName_run name name _ _ 0) by done. do 2 f_equal. lia. }
  unfold extractJSONField. rewrite Hm. go_step. rewrite Hd at 1. unfold zlen at 1. rewrite Nat2Z.id, drop_app_length.
  replace (([58; dquote] ++ v) ++ [dquote] ++ e :: post) with ((58 :: dquote :: v ++ [dquote]) ++ e :: post)
    by (simpl; by rewrite <- app_assoc).
  assert (Hl : zlen (58 :: dquote :: v ++ [dquote]) = zlen v + 3) by (unfold zlen; simpl; rewrite length_app; simpl; lia).
  assert (0 < zlen v) by (destruct v; [done|unfold zlen; simpl; lia]).
  rewrite fieldEnd_run; [|set_solver..|done]. rewrite Hl, (proj2 (Z.leb_gt _ _)) by lia.
  assert (Hg : d.[zlen q + (zlen v + 3) - 1] = Some dquote).
  { rewrite Hd, (assoc_L (++)). unfold zget. pose proof (zlen_nonneg q).
    rewrite (proj2 (Z.leb_le 0 _)) by lia. rewrite lookup_app_r; unfold zlen in *; rewrite length_app; simpl; [|lia].
    replace (Z.to_nat _ - _)%nat with O by lia. done. }
  rewrite Hg. go_step. rewrite Z.eqb_refl, (proj2 (Z.leb_gt _ _)) by lia. cbn [negb orb].
  pose proof (slice_app (q ++ [58; dquote]) v ([dquote] ++ e :: post)) as Hs.
  replace (zlen (q ++ [58; dquote])) with (zlen q + 2) in Hs by (unfold zlen; rewrite length_app; simpl; lia).
  replace (zlen q + (zlen v + 3) - 1) with (zlen q + 2 + zlen v) by lia.
  replace ((q ++ [58; dquote]) ++ v ++ [dquote] ++ e :: post) with d in Hs by (rewrite Hd, <- !app_assoc; done).
  by rewrite Hs.
Qed.

Lemma extractJSONField_member_witness :
  extractJSONField (([123] ++ jsonName "k" ++ [dquote; 49; dquote]) ++
    44 :: jsonName "versionNum" ++ dquote :: bs "20-b" ++ dquote :: 125 :: []) (jsonName "versionNum") = Some (Some (bs "20-b")).
Proof.
  apply (extractJSONField_member "versionNum" _ 44 (bs "20-b") 125 []);
    [|vm_compute; reflexivity|vm_compute; congruence| | |right; reflexivity];
    intros H; apply list_elem_of_In in H; vm_compute in H; intuition congruence.
Defined.
