(* ===== verification/SpaceBitmap.v ===== *)
(** * The persistent space bitmap

    The pure functions of [internal/fs/block_device.go] that turn extents into
    bitmap updates, and what they do bit by bit. *)

From stdpp Require Import base decidable list numbers option strings.
From Stdlib Require Import ZArith Lia.
From S2P Require Import Prelude Words Bytes Moss MossBitmap Allocator.

Definition BlockSize : Z := 4 * 1024.
Definition SpaceSize : Z := Z.shiftl 1 24.
Definition blocksPerSpace : Z := SpaceSize / BlockSize.

Inductive space_error :=
  | ErrBitmapUpdate (offset size : Z)
  | ErrAllocResult (r : Result).

(** Go's [/] and [%] truncate: [÷] and [rem] on [Z]. *)
Infix "rem" := Z.rem (at level 40, no associativity) : go_scope.

Definition fitBlock (size : Z) : Z :=
  if size rem BlockSize =? 0 then size else i64 ((size ÷ BlockSize + 1) * BlockSize).

(** [byte(1 << uint(7-i))] *)
Definition bitMask (i : Z) : Z := Z.shiftl 1 (7 - i) mod 256.

(** [value[i] |= byte(1 << uint(7-j))] *)
Definition orBit (value : bytes) (i j : Z) : option bytes :=
  b ← value.[i]; value.[i <- Z.lor b (bitMask j)].

(** [value[i] ^= byte(1 << uint(7-j))] *)
Definition xorBit (value : bytes) (i j : Z) : option bytes :=
  b ← value.[i]; value.[i <- Z.lxor b (bitMask j)].

(** The marking loops.  The code has them twice: for [allocated] they set bits
    of the first half ([touch] is [orBit], whole bytes become [full] = 0xff);
    otherwise they toggle bits of the second half ([xorBit], [full] = 0), where
    every index is moved up by [base] = [SpaceLen]. *)
Definition markBits (touch : bytes -> Z -> Z -> option bytes) (full base : Z)
    (markStart markEnd markBitStartIndex markBitEndIndex : Z) (value : bytes) : option bytes :=
  if markEnd =? markStart then
    for_down (markBitEndIndex - 1) markBitStartIndex (fun i v => touch v (markStart + base) i) value
  else
    for_range markStart (markEnd + 1) (fun i value =>
      if negb (i =? markStart) && negb (i =? markEnd) then value.[i + base <- full]
      else if i =? markStart then
        for_down 7 markBitStartIndex (fun j v => touch v (i + base) j) value
      else for_range 0 markBitEndIndex (fun j v => touch v (i + base) j) value) value.

Definition simpleSpaceUpdateValue
    (markStart markEnd markBitStartIndex markBitEndIndex : Z) (allocated : bool) : option bytes :=
  value ← makeSlice (SpaceLen * 2) 0;
  value ← for_range SpaceLen (SpaceLen * 2) (fun i value => value.[i <- 255]) value;
  if allocated then markBits orBit 255 0 markStart markEnd markBitStartIndex markBitEndIndex value
  else markBits xorBit 0 SpaceLen markStart markEnd markBitStartIndex markBitEndIndex value.

Definition spaceUpdateValues (offset size : Z) (allocated : bool) : option (space_error + list bytes) :=
  if (offset <? 0) || (size <=? 0) || negb (offset rem BlockSize =? 0)
  then Some (inl (ErrBitmapUpdate offset size))
  else
    let sum := i64 (offset + size) in
    let keyStart := offset ÷ SpaceSize in
    let keyOffset := sum ÷ SpaceSize in
    let keyOffset := if sum rem SpaceSize =? 0 then keyOffset - 1 else keyOffset in
    let markStart := (offset - keyStart * SpaceSize) ÷ BlockSize ÷ 8 in
    let markBitStartIndex := ((offset - keyStart * SpaceSize) ÷ BlockSize) rem 8 in
    let keyEnd := keyOffset in
    let rest := i64 (sum - keyOffset * SpaceSize) in
    let markBitEndIndex := (rest ÷ BlockSize) rem 8 in
    let markEnd := rest ÷ BlockSize ÷ 8 in
    let markBitEndIndex := if 0 <? size rem BlockSize then markBitEndIndex + 1 else markBitEndIndex in
    let '(keyEnd, markBitEndIndex, markEnd) :=
      if markBitEndIndex =? 0 then
        (if markEnd =? 0 then keyEnd - 1 else keyEnd, 8, markEnd - 1)
      else (keyEnd, markBitEndIndex, markEnd) in
    if keyEnd - keyStart + 1 <? 0 then None
    else if keyStart =? keyEnd then
      v ← simpleSpaceUpdateValue markStart markEnd markBitStartIndex markBitEndIndex allocated;
      Some (inr [v])
    else
      values ← for_range keyStart (keyEnd + 1) (fun start values =>
        v ← (if start =? keyStart then
               simpleSpaceUpdateValue markStart (SpaceLen - 1) markBitStartIndex 8 allocated
             else if negb (start =? keyEnd) then
               simpleSpaceUpdateValue 0 (SpaceLen - 1) 0 8 allocated
             else simpleSpaceUpdateValue 0 markEnd 0 markBitEndIndex allocated);
        Some (values ++ [v])) [];
      Some (inr values).

(** [copy] into a zeroed slice of [SpaceLen] bytes. *)
Definition normalizeSpaceValue (value : bytes) : bytes :=
  let value := take (Z.to_nat SpaceLen) value in
  value ++ zmake (SpaceLen - zlen value) 0.

Definition setSpaceBits (value : bytes) (startBlock blocks : Z) (allocated : bool) : option bytes :=
  for_range 0 blocks (fun i value =>
    let bit := startBlock + i in
    let byteIndex := bit ÷ 8 in
    let bitIndex := 7 - bit rem 8 in
    b ← value.[byteIndex];
    value.[byteIndex <- if allocated then Z.lor b (Z.shiftl 1 bitIndex) else Z.ldiff b (Z.shiftl 1 bitIndex)])
    value.

Definition mergeResults (rs : list Result) : list Result :=
  match rs with
  | [] => []
  | r :: rs =>
      let '(out, cur) := fold_left (fun '(out, cur) n =>
        if i64 (Offset cur + Size cur) =? Offset n
        then (out, mkResult (Offset cur) (i64 (Size cur + Size n)))
        else (out ++ [cur], n)) rs ([], r) in
      out ++ [cur]
  end.

Definition byteResultsToBlockResults (results : list Result) : list Result :=
  map (fun r => mkResult (Offset r ÷ BlockSize) (fitBlock (Size r) ÷ BlockSize)) results.

(** [EncodeResults]: the offsets and the sizes, 8 little-endian bytes each. *)
Definition EncodeResults (results : list Result) : bytes * bytes :=
  (concat (map (fun r => le_bytes 8 (u64 (Offset r))) results),
   concat (map (fun r => le_bytes 8 (u64 (Size r))) results)).

#[global] Arguments spaceUpdateValues : simpl never.
#[global] Arguments simpleSpaceUpdateValue : simpl never.
#[global] Arguments setSpaceBits : simpl never.

(** ** Touching single bits *)

Lemma bitMask_spec j i : 0 <= j < 8 -> 0 <= i < 8 -> Z.testbit (bitMask j) i = (i =? 7 - j).
Proof.
  intros Hj Hi. unfold bitMask. rewrite (Z.mod_pow2_bits_low _ 8) by lia.
  rewrite Z.shiftl_spec by lia.
  destruct (i =? 7 - j) eqn:E; bool_norm.
  - subst. by rewrite Z.sub_diag.
  - destruct (decide (i < 7 - j)); [by rewrite Z.testbit_neg_r by lia|].
    change 1 with (2 ^ 0). apply Z.pow2_bits_false. lia.
Qed.

Lemma bitMask_ok j : byte_ok (bitMask j).
Proof. unfold byte_ok, bitMask. apply Z.mod_pos_bound. lia. Qed.

(** [touch] changes one bit by [g]. *)
Definition touches (touch : bytes -> Z -> Z -> option bytes) (g : bool -> bool) : Prop :=
  forall v i j, Forall byte_ok v -> 0 <= i < zlen v -> 0 <= j < 8 ->
  exists v', touch v i j = Some v' /\ Forall byte_ok v' /\ zlen v' = zlen v /\
    forall k, bit v' k = if k =? 8 * i + j then g (bit v k) else bit v k.

Lemma touch_byte v i j b b' g :
  Forall byte_ok v -> v.[i] = Some b -> 0 <= j < 8 -> byte_ok b' ->
  (forall t, 0 <= t < 8 -> Z.testbit b' t = if t =? 7 - j then g (Z.testbit b t) else Z.testbit b t) ->
  exists v', v.[i <- b'] = Some v' /\ Forall byte_ok v' /\ zlen v' = zlen v /\
    forall k, bit v' k = if k =? 8 * i + j then g (bit v k) else bit v k.
Proof.
  intros Hv E Hj Hb Ht. pose proof (zget_bound _ _ _ E) as Hi. rewrite zset_some by done.
  eexists. split; [done|]. split; [by apply insert_ok|]. split; [apply zlen_insert|].
  intros k. rewrite bit_insert by done. destruct (k / 8 =? i) eqn:Ek; bool_norm.
  - rewrite Ht by dlia. subst i. rewrite (bit_get v k b) by done.
    replace (7 - k mod 8 =? 7 - j) with (k =? 8 * (k / 8) + j); [done|].
    apply eq_true_iff_eq. rewrite !Z.eqb_eq. dlia.
  - rewrite (proj2 (Z.eqb_neq k _)) by dlia. done.
Qed.

Lemma orBit_touches : touches orBit (fun _ => true).
Proof.
  intros v i j Hv Hi Hj. unfold orBit. destruct (zget_some_ok v i Hv Hi) as (b & E & Hb). rewrite E. go_step.
  apply (touch_byte v i j b (Z.lor b (bitMask j)) (fun _ => true)); [done..|auto using byte_ok_lor, bitMask_ok|].
  intros t Ht. rewrite Z.lor_spec, bitMask_spec by done. destruct (t =? 7 - j); [apply orb_true_r|apply orb_false_r].
Qed.

Lemma xorBit_touches : touches xorBit negb.
Proof.
  intros v i j Hv Hi Hj. unfold xorBit. destruct (zget_some_ok v i Hv Hi) as (b & E & Hb). rewrite E. go_step.
  apply (touch_byte v i j b (Z.lxor b (bitMask j)) negb); [done..|auto using byte_ok_lxor, bitMask_ok|].
  intros t Ht. rewrite Z.lxor_spec, bitMask_spec by done. destruct (t =? 7 - j), (Z.testbit b t); done.
Qed.

Lemma andnot_touches v i j :
  Forall byte_ok v -> 0 <= i < zlen v -> 0 <= j < 8 ->
  exists b v', v.[i] = Some b /\ v.[i <- Z.ldiff b (bitMask j)] = Some v' /\ Forall byte_ok v' /\ zlen v' = zlen v /\
    forall k, bit v' k = if k =? 8 * i + j then false else bit v k.
Proof.
  intros Hv Hi Hj. destruct (zget_some_ok v i Hv Hi) as (b & E & Hb).
  destruct (touch_byte v i j b (Z.ldiff b (bitMask j)) (fun _ => false)) as (v' & H); [done..| | |eauto].
  - by apply byte_ok_ldiff.
  - intros t Ht. rewrite Z.ldiff_spec, bitMask_spec by done. destruct (t =? 7 - j); [apply andb_false_r|apply andb_true_r].
Qed.

(** ** Touching ranges of bits *)

Definition between (lo hi k : Z) : bool := (lo <=? k) && (k <? hi).

Lemma between_true lo hi k : between lo hi k = true <-> lo <= k < hi.
Proof. unfold between. rewrite andb_true_iff, Z.leb_le, Z.ltb_lt. done. Qed.

Lemma between_false lo hi k : between lo hi k = false <-> ~ lo <= k < hi.
Proof. rewrite <- not_true_iff_false, between_true. done. Qed.

(** [cases_between] splits on every range test and point test in the goal. *)
Ltac cases_between :=
  repeat match goal with
  | |- context [between ?a ?b ?c] =>
      let E := fresh in destruct (between a b c) eqn:E; [apply between_true in E|apply between_false in E]
  | |- context [?a =? ?b] => let E := fresh in destruct (a =? b) eqn:E; bool_norm
  end.

(** [v'] is [v] with [g] applied to the bits [lo, hi). *)
Definition touched (g : bool -> bool) (lo hi : Z) (v v' : bytes) : Prop :=
  Forall byte_ok v' /\ zlen v' = zlen v /\
  forall k, bit v' k = if between lo hi k then g (bit v k) else bit v k.

Lemma touched_empty g lo hi v : Forall byte_ok v -> hi <= lo -> touched g lo hi v v.
Proof. intros Hv H. split; [done|]. split; [done|]. intros k. cases_between; [lia|done]. Qed.

(** Adjacent ranges, in either order. *)
Lemma touched_trans g lo mid hi v v1 v2 lo1 hi1 lo2 hi2 :
  touched g lo1 hi1 v v1 -> touched g lo2 hi2 v1 v2 -> lo <= mid <= hi ->
  (lo1 = lo /\ hi1 = mid /\ lo2 = mid /\ hi2 = hi) \/ (lo1 = mid /\ hi1 = hi /\ lo2 = lo /\ hi2 = mid) ->
  touched g lo hi v v2.
Proof.
  intros (H1 & L1 & B1) (H2 & L2 & B2) Hle Hc. split; [done|]. split; [lia|].
  intros k. rewrite B2, B1. cases_between; done || lia.
Qed.

Section ranges.
Context (touch : bytes -> Z -> Z -> option bytes) (g : bool -> bool) (Ht : touches touch g).

Lemma touch_one v i j :
  Forall byte_ok v -> 0 <= i < zlen v -> 0 <= j < 8 ->
  exists v', touch v i j = Some v' /\ touched g (8 * i + j) (8 * i + j + 1) v v'.
Proof using Ht.
  intros Hv Hi Hj. destruct (Ht v i j Hv Hi Hj) as (v' & E & H1 & H2 & H3).
  exists v'. split; [done|]. split; [done|]. split; [done|].
  intros k. rewrite H3. cases_between; done || lia.
Qed.

Lemma touch_up v i lo hi :
  Forall byte_ok v -> 0 <= i < zlen v -> 0 <= lo <= hi -> hi <= 8 ->
  exists v', for_range lo hi (fun j v => touch v i j) v = Some v' /\ touched g (8 * i + lo) (8 * i + hi) v v'.
Proof using Ht.
  intros Hv Hi Hlo Hhi.
  apply (for_range_ind (fun j v' => touched g (8 * i + lo) (8 * i + j) v v')); [lia|by apply touched_empty|].
  intros j v1 Hj HT. pose proof HT as (H1 & L1 & _).
  destruct (touch_one v1 i j) as (v2 & E & HT2); [done|lia..|]. exists v2. split; [done|].
  eapply (touched_trans g _ (8 * i + j)); [exact HT|exact HT2|lia|left; lia].
Qed.

Lemma touch_down v i lo hi :
  Forall byte_ok v -> 0 <= i < zlen v -> 0 <= lo <= hi + 1 -> hi < 8 ->
  exists v', for_down hi lo (fun j v => touch v i j) v = Some v' /\ touched g (8 * i + lo) (8 * i + hi + 1) v v'.
Proof using Ht.
  intros Hv Hi Hlo Hhi.
  destruct (for_down_ind (fun j v' => touched g (8 * i + j + 1) (8 * i + hi + 1) v v') hi lo
    (fun j v => touch v i j) v) as (v' & E & H); [lia|apply touched_empty; [done|lia]| |].
  - intros j v1 Hj HT. pose proof HT as (H1 & L1 & _).
    destruct (touch_one v1 i j) as (v2 & E & HT2); [done|lia..|]. exists v2. split; [done|].
    eapply (touched_trans g _ (8 * i + j + 1)); [exact HT|exact HT2|lia|right; lia].
  - exists v'. split; [done|]. by replace (8 * i + (lo - 1) + 1) with (8 * i + lo) in H by lia.
Qed.

Lemma touch_full v i full :
  Forall byte_ok v -> 0 <= i < zlen v -> byte_ok full ->
  (forall k t, 8 * i <= k < 8 * i + 8 -> 0 <= t < 8 -> Z.testbit full t = g (bit v k)) ->
  exists v', v.[i <- full] = Some v' /\ touched g (8 * i) (8 * i + 8) v v'.
Proof using.
  intros Hv Hi Hf Hg. rewrite zset_some by done. eexists. split; [done|].
  split; [by apply insert_ok|]. split; [apply zlen_insert|]. intros k. rewrite bit_insert by done.
  cases_between; [apply Hg; dlia|dlia|dlia|done].
Qed.

Lemma markBits_spec full base ms me bs be v :
  Forall byte_ok v -> byte_ok full -> 0 <= ms <= me -> 0 <= base -> me + base < zlen v ->
  0 <= bs < 8 -> 0 <= be <= 8 -> (ms = me -> bs <= be) ->
  (forall k t, 8 * (ms + base) <= k < 8 * (me + base) + 8 -> 0 <= t < 8 -> Z.testbit full t = g (bit v k)) ->
  exists v', markBits touch full base ms me bs be v = Some v' /\
    touched g (8 * (ms + base) + bs) (8 * (me + base) + be) v v'.
Proof using Ht.
  intros Hv Hf Hm Hb Hl Hbs Hbe Hsame Hg. unfold markBits. destruct (me =? ms) eqn:E; bool_norm.
  { subst me. destruct (touch_down v (ms + base) bs (be - 1)) as (v' & E & HT); [done|lia..|].
    exists v'. split; [done|]. by replace (8 * (ms + base) + (be - 1) + 1) with (8 * (ms + base) + be) in HT by lia. }
  set (upto := fun i => if i <=? me then 8 * (i + base) else 8 * (me + base) + be).
  destruct (for_range_ind (fun i v' => touched g (8 * (ms + base) + bs) (upto i) v v') ms (me + 1)
    (fun i value =>
      if negb (i =? ms) && negb (i =? me) then value.[i + base <- full]
      else if i =? ms then for_down 7 bs (fun j v => touch v (i + base) j) value
      else for_range 0 be (fun j v => touch v (i + base) j) value) v) as (v' & Ev & HT); [lia| | |].
  - apply touched_empty; [done|]. unfold upto. rewrite (proj2 (Z.leb_le ms me)) by lia. lia.
  - intros i v1 Hi HT. pose proof HT as (H1 & L1 & B1).
    assert (Ui : upto i = 8 * (i + base)) by (unfold upto; by rewrite (proj2 (Z.leb_le i me)) by lia).
    destruct (i =? ms) eqn:Es; bool_norm; cbn [negb andb].
    + subst i. destruct (touch_down v1 (ms + base) bs 7) as (v2 & E2 & HT2); [done|lia..|].
      exists v2. split; [done|]. unfold upto. rewrite (proj2 (Z.leb_le (ms + 1) me)) by lia.
      destruct HT2 as (H2 & L2 & B2). split; [done|]. split; [lia|]. intros k. rewrite B2, B1, Ui.
      cases_between; done || lia.
    + destruct (i =? me) eqn:Ee; bool_norm; cbn [negb andb].
      * subst i. destruct (touch_up v1 (me + base) 0 be) as (v2 & E2 & HT2); [done|lia..|].
        exists v2. split; [done|]. rewrite Ui in HT. rewrite Z.add_0_r in HT2.
        unfold upto. rewrite (proj2 (Z.leb_gt (me + 1) me)) by lia.
        eapply (touched_trans g _ (8 * (me + base))); [exact HT|exact HT2|lia|left; lia].
      * destruct (touch_full v1 (i + base) full) as (v2 & E2 & HT2); [done|lia|done| |].
        { intros k t Hk Htt. rewrite (Hg k t) by lia. rewrite B1, Ui. cases_between; [lia|done]. }
        exists v2. split; [done|]. rewrite Ui in HT.
        unfold upto. rewrite (proj2 (Z.leb_le (i + 1) me)) by lia.
        eapply (touched_trans g _ (8 * (i + base))); [exact HT|exact HT2|lia|left; lia].
  - exists v'. split; [done|]. unfold upto in HT. by rewrite (proj2 (Z.leb_gt (me + 1) me)) in HT by lia.
Qed.
End ranges.
