(* ===== verification/SpaceBitmapSpec.v ===== *)
(** * What the bitmap functions compute

    Bit-level specifications of the functions of [SpaceBitmap]. *)

From stdpp Require Import base decidable list numbers option strings.
From Stdlib Require Import ZArith Lia.
From S2P Require Import Prelude Words Bytes Moss MossBitmap Allocator SpaceBitmap.

(** [v] is the operand that allocates (or releases) the blocks [lo, hi) and
    leaves all others alone. *)
Definition operand_for (allocated : bool) (lo hi : Z) (v : bytes) : Prop :=
  space_operand v /\
  forall k, 0 <= k < spaceBits ->
    loBit v k = allocated && between lo hi k /\ hiBit v k = allocated || negb (between lo hi k).

Lemma operand_for_update allocated lo hi v : operand_for allocated lo hi v -> update_operand v.
Proof.
  intros [Hv H]. split; [done|]. intros k Hk. destruct (H k Hk) as [-> ->].
  by destruct allocated.
Qed.

Lemma operand_for_delta allocated lo hi v k :
  operand_for allocated lo hi v -> 0 <= k < spaceBits ->
  delta v k = if between lo hi k then (if allocated then 1 else -1) else 0.
Proof.
  intros [_ H] Hk. unfold delta. destruct (H k Hk) as [-> ->]. by destruct allocated, (between lo hi k).
Qed.

Lemma operand_for_ext allocated lo hi lo' hi' v :
  (forall k, 0 <= k < spaceBits -> between lo hi k = between lo' hi' k) ->
  operand_for allocated lo hi v -> operand_for allocated lo' hi' v.
Proof.
  intros E [Hv H]. split; [done|]. intros k Hk. rewrite <- E by done. auto.
Qed.

(** The neutral operand both branches start from. *)
Lemma neutral_spec :
  exists v, for_range SpaceLen (SpaceLen * 2) (fun i value => value.[i <- 255]) (zmake (SpaceLen * 2) 0) = Some v /\
    space_operand v /\ forall k, bit v k = between spaceBits (2 * spaceBits) k.
Proof.
  destruct (for_range_ind (fun i v => space_operand v /\ forall k, bit v k = between spaceBits (8 * i) k)
    SpaceLen (SpaceLen * 2) (fun i value => value.[i <- 255]) (zmake (SpaceLen * 2) 0)) as (v & E & Hv & Hb);
    [done| | |].
  - split; [split; [by apply zmake_ok|by apply zlen_make]|]. intros k. rewrite bit_zmake0.
    cases_between; [unfold spaceBits in *; lia|done].
  - intros i v Hi [[Hv Lv] Hb]. rewrite zset_some by lia. eexists. split; [done|].
    split; [split; [by apply insert_ok|by rewrite zlen_insert]|].
    intros k. rewrite bit_insert, Hb by lia. unfold spaceBits, SpaceLen in *. cases_between; try done; try dlia.
    change 255 with (Z.ones 8). apply Z.ones_spec_low. dlia.
  - exists v. split; [done|]. split; [done|]. intros k. rewrite Hb. done.
Qed.

Lemma simpleSpaceUpdateValue_spec ms me bs be allocated :
  0 <= ms <= me -> me < SpaceLen -> 0 <= bs < 8 -> 0 <= be <= 8 -> (ms = me -> bs <= be) ->
  exists v, simpleSpaceUpdateValue ms me bs be allocated = Some v /\
    operand_for allocated (8 * ms + bs) (8 * me + be) v.
Proof.
  intros Hm Hl Hbs Hbe Hs. unfold simpleSpaceUpdateValue. rewrite makeSlice_some by done. go_step.
  destruct neutral_spec as (v & -> & [Hv Lv] & Hb). go_step. unfold spaceBits, SpaceLen in *.
  destruct allocated.
  - destruct (markBits_spec orBit (fun _ => true) orBit_touches 255 0 ms me bs be v)
      as (v' & E & H' & L' & B'); try done; try lia.
    { intros k t _ Ht. change 255 with (Z.ones 8). apply Z.ones_spec_low. lia. }
    exists v'. split; [done|]. split; [split; [done|unfold SpaceLen; lia]|]. intros k Hk. unfold loBit, hiBit, spaceBits, SpaceLen in *.
    rewrite !B', !Hb. cases_between; done || lia.
  - destruct (markBits_spec xorBit negb xorBit_touches 0 512 ms me bs be v)
      as (v' & E & H' & L' & B'); try done; try lia.
    { intros k t Hk Ht. rewrite Hb, Z.bits_0. cases_between; [done|lia]. }
    exists v'. split; [done|]. split; [split; [done|unfold SpaceLen; lia]|]. intros k Hk. unfold loBit, hiBit, spaceBits, SpaceLen in *.
    rewrite !B', !Hb. cases_between; done || lia.
Qed.

(** ** Extents to operands *)

(** The last block of [[offset, offset+size)] plus one, for aligned offsets. *)
Definition endBlock (offset size : Z) : Z := (offset + size + BlockSize - 1) / BlockSize.

Lemma endBlock_gt offset size : 0 <= offset -> 0 < size -> offset / BlockSize < endBlock offset size.
Proof. intros. unfold endBlock. change BlockSize with 4096. dlia. Qed.

Lemma lastKey sum :
  0 < sum -> (if sum rem SpaceSize =? 0 then sum ÷ SpaceSize - 1 else sum ÷ SpaceSize) = (sum - 1) / SpaceSize.
Proof.
  intros H. rewrite Z.rem_mod_nonneg, Z.quot_div_nonneg by (done || lia).
  change SpaceSize with 16777216. case_bool; dlia.
Qed.

(** The end position inside the last bitmap value. *)
Lemma endMarks K rest size :
  0 < rest <= SpaceSize -> 0 < size -> size mod BlockSize = rest mod BlockSize ->
  exists be me,
    (let mb := (rest ÷ BlockSize) rem 8 in
     let me := rest ÷ BlockSize ÷ 8 in
     let mb := if 0 <? size rem BlockSize then mb + 1 else mb in
     if mb =? 0 then (if me =? 0 then K - 1 else K, 8, me - 1) else (K, mb, me)) = (K, be, me) /\
    0 < be <= 8 /\ 0 <= me < SpaceLen /\ 8 * me + be = (rest + BlockSize - 1) / BlockSize.
Proof.
  unfold SpaceLen. change SpaceSize with 16777216. change BlockSize with 4096. intros Hr Hs Hm.
  rewrite (Z.rem_mod_nonneg size) by lia. rewrite Hm.
  rewrite (Z.quot_div_nonneg rest) by lia.
  assert (0 <= rest / 4096) by dlia.
  rewrite Z.rem_mod_nonneg, Z.quot_div_nonneg by lia. cbv zeta.
  remember (rest / 4096) as q eqn:Hq. assert (Hq' : rest = 4096 * q + rest mod 4096) by dlia.
  assert (0 <= rest mod 4096 < 4096) by dlia. remember (rest mod 4096) as p. clear Heqp Hq Hm.
  assert (Hend : (rest + 4096 - 1) / 4096 = if 0 <? p then q + 1 else q).
  { case_bool; dlia. }
  rewrite Hend. destruct (0 <? p) eqn:Ep; bool_norm.
  - rewrite (proj2 (Z.eqb_neq _ 0)) by dlia. eexists _, _. split; [done|]. dlia.
  - destruct (q mod 8 =? 0) eqn:Eq; bool_norm.
    + rewrite (proj2 (Z.eqb_neq _ 0)) by dlia. eexists _, _. split; [done|]. dlia.
    + eexists _, _. split; [done|]. dlia.
Qed.

(** The operands of an extent: one per bitmap key it touches, each marking
    exactly the blocks of the extent that the key describes. *)
Definition operands_for (allocated : bool) (offset size : Z) (values : list bytes) : Prop :=
  zlen values = (offset + size - 1) / SpaceSize - offset / SpaceSize + 1 /\
  forall i v, values.[i] = Some v ->
    let first := spaceBits * (offset / SpaceSize + i) in
    operand_for allocated (offset / BlockSize - first) (endBlock offset size - first) v.

Lemma zlen_snoc {A} (l : list A) x : zlen (l ++ [x]) = zlen l + 1.
Proof. unfold zlen. rewrite length_app. simpl. lia. Qed.

Lemma zget_snoc {A} (l : list A) x i y :
  (l ++ [x]).[i] = Some y -> l.[i] = Some y \/ (i = zlen l /\ y = x).
Proof.
  intros H. pose proof (zget_bound _ _ _ H) as Hb. rewrite zlen_snoc in Hb. unfold zget, zlen in *.
  rewrite (proj2 (Z.leb_le 0 i)) in * by lia. destruct (decide (i = Z.of_nat (length l))) as [E|].
  - right. split; [done|]. rewrite lookup_app_r in H by lia.
    replace (Z.to_nat i - length l)%nat with O in H by lia. by injection H.
  - left. by rewrite lookup_app_l in H by lia.
Qed.

(** The value of one space of an extent that reaches from block [q] of the
    space [S0] to before block [8 * me + be] of a later space [K]. *)
Definition valueAt (S0 K q me be start : Z) (allocated : bool) : option bytes :=
  if start =? S0 then simpleSpaceUpdateValue (q / 8) (SpaceLen - 1) (q mod 8) 8 allocated
  else if negb (start =? K) then simpleSpaceUpdateValue 0 (SpaceLen - 1) 0 8 allocated
  else simpleSpaceUpdateValue 0 me 0 be allocated.

Lemma valueAt_spec allocated S0 K q me be start :
  S0 <= start <= K -> S0 <> K -> 0 <= q < spaceBits -> 0 < be <= 8 -> 0 <= me < SpaceLen ->
  exists v, valueAt S0 K q me be start allocated = Some v /\
    operand_for allocated (spaceBits * S0 + q - spaceBits * start) (spaceBits * K + (8 * me + be) - spaceBits * start) v.
Proof.
  intros Hst HSK Hq Hbe Hme. assert (Hqd : q = 8 * (q / 8) + q mod 8) by (apply Z.div_mod; lia).
  assert (Hq8 : 0 <= q mod 8 < 8) by (apply Z.mod_pos_bound; lia). change spaceBits with 4096 in *. assert (HSL : SpaceLen = 512) by done.
  assert (Hone : forall sb eb ss es, (exists v, simpleSpaceUpdateValue sb eb ss es allocated = Some v /\ operand_for allocated (8 * sb + ss) (8 * eb + es) v) ->
    (forall k, 0 <= k < spaceBits -> between (8 * sb + ss) (8 * eb + es) k =
       between (4096 * S0 + q - 4096 * start) (4096 * K + (8 * me + be) - 4096 * start) k) ->
    exists v, simpleSpaceUpdateValue sb eb ss es allocated = Some v /\
      operand_for allocated (4096 * S0 + q - 4096 * start) (4096 * K + (8 * me + be) - 4096 * start) v).
  { intros sb eb ss es (v & E & Hv) Hk. exists v. split; [done|]. by eapply operand_for_ext. }
  unfold valueAt. destruct (start =? S0) eqn:E1; [|destruct (start =? K) eqn:E2]; bool_norm; cbn [negb];
    (apply Hone; [apply simpleSpaceUpdateValue_spec; lia|]; change spaceBits with 4096; intros k Hk; cases_between; lia || done).
Qed.

Lemma valueLoop_spec allocated S0 K q me be lo hi :
  S0 < K -> 0 <= q < spaceBits -> 0 < be <= 8 -> 0 <= me < SpaceLen -> lo = spaceBits * S0 + q -> hi = spaceBits * K + (8 * me + be) ->
  exists values, for_range S0 (K + 1) (fun start values => v ← valueAt S0 K q me be start allocated; Some (values ++ [v])) [] = Some values /\
    zlen values = K + 1 - S0 /\ forall i v, values.[i] = Some v -> operand_for allocated (lo - spaceBits * (S0 + i)) (hi - spaceBits * (S0 + i)) v.
Proof.
  intros HSK Hq Hbe Hme -> ->.
  destruct (for_range_ind (fun start values => zlen values = start - S0 /\ forall i v, values.[i] = Some v ->
      operand_for allocated (spaceBits * S0 + q - spaceBits * (S0 + i)) (spaceBits * K + (8 * me + be) - spaceBits * (S0 + i)) v)
    S0 (K + 1) (fun start values => v ← valueAt S0 K q me be start allocated; Some (values ++ [v])) []) as (values & E & L & HV); [lia| | |].
  - split; [unfold zlen; simpl; lia|]. intros i v Hv. rewrite zget_none in Hv by (unfold zlen; simpl; lia). done.
  - intros start values Hst [L HV]. destruct (valueAt_spec allocated S0 K q me be start) as (v & -> & Hv); [lia|lia|done..|].
    go_step. eexists. split; [done|]. split; [rewrite zlen_snoc; lia|].
    intros i w Hw. apply zget_snoc in Hw as [Hw|[-> ->]]; [by apply HV|]. by replace (S0 + zlen values) with start by lia.
  - by exists values.
Qed.

Lemma spaceUpdateValues_spec offset size allocated :
  0 <= offset -> 0 < size -> offset mod BlockSize = 0 -> offset + size < 2 ^ 63 ->
  exists values, spaceUpdateValues offset size allocated = Some (inr values) /\
    operands_for allocated offset size values.
Proof.
  intros Ho Hs Ha Hb. unfold spaceUpdateValues.
  rewrite (proj2 (Z.ltb_ge offset 0)), (proj2 (Z.leb_gt size 0)) by lia.
  rewrite Z.rem_mod_nonneg, Ha, Z.eqb_refl by (done || lia). cbn [orb negb]. cbv zeta.
  rewrite (i64_small (offset + size)) by (unfold is_i64; lia).
  rewrite lastKey by lia. set (K := (offset + size - 1) / SpaceSize). set (rest := offset + size - K * SpaceSize).
  assert (Hr : 0 < rest <= SpaceSize) by (subst rest K; change SpaceSize with 16777216 in *; dlia).
  rewrite (i64_small rest) by (unfold is_i64; change SpaceSize with 16777216 in *; lia).
  destruct (endMarks K rest size Hr Hs) as (be & me & Eq & Hbe & Hme & Hend).
  { subst rest. change SpaceSize with 16777216. change BlockSize with 4096 in *. dlia. }
  cbv zeta in Eq. rewrite Eq. clear Eq.
  rewrite !(Z.quot_div_nonneg offset) by (done || lia). set (S0 := offset / SpaceSize).
  set (st := offset - S0 * SpaceSize). assert (Hst : 0 <= st < SpaceSize) by (subst st S0; change SpaceSize with 16777216; dlia).
  rewrite (Z.quot_div_nonneg st) by (done || lia).
  assert (0 <= st / BlockSize < spaceBits) by (change SpaceSize with 16777216 in *; change BlockSize with 4096; change spaceBits with 4096; dlia).
  rewrite Z.quot_div_nonneg, Z.rem_mod_nonneg by lia.
  assert (Hlo : offset / BlockSize = spaceBits * S0 + st / BlockSize).
  { subst st. change SpaceSize with 16777216. change BlockSize with 4096. change spaceBits with 4096. dlia. }
  assert (Hhi : endBlock offset size = spaceBits * K + (8 * me + be)).
  { unfold endBlock. rewrite Hend. subst rest. change SpaceSize with 16777216. change BlockSize with 4096.
    change spaceBits with 4096. dlia. }
  assert (Hord : S0 <= K) by (apply Z.div_le_mono; [done|lia]).
  pose proof (endBlock_gt offset size Ho Hs) as Hlt.
  unfold operands_for. fold S0 K. cbv zeta. clearbody rest st S0 K. change spaceBits with 4096 in *. assert (HSL : SpaceLen = 512) by done.
  set (q := st / BlockSize) in *. clearbody q. clear st Hst rest Hr Hend Ha.
  assert (Hq : q = 8 * (q / 8) + q mod 8) by (apply Z.div_mod; lia).
  assert (Hq8 : 0 <= q mod 8 < 8) by (apply Z.mod_pos_bound; lia).
  rewrite (proj2 (Z.ltb_ge (K - S0 + 1) 0)) by lia. destruct (S0 =? K) eqn:E; bool_norm.
  - destruct (simpleSpaceUpdateValue_spec (q / 8) me ((q) mod 8) be allocated)
      as (v & -> & Hv); [lia|lia|lia|lia|lia|]. go_step.
    exists [v]. split; [done|]. split; [unfold zlen; simpl; lia|].
    intros i w Hw. rewrite zget_cons in Hw. destruct (i =? 0) eqn:Ei; bool_norm; [|rewrite zget_none in Hw by (unfold zlen; simpl; lia); done].
    injection Hw as <-. subst i. rewrite Z.add_0_r, Hlo, Hhi, <- E.
    eapply operand_for_ext; [|exact Hv]. change spaceBits with 4096. clear Hv. intros k Hk. cases_between; lia || done.
  - destruct (valueLoop_spec allocated S0 K q me be (offset / BlockSize) (endBlock offset size)) as (values & Ev & L & HV); [lia|done..|].
    unfold valueAt in Ev. rewrite Ev. go_step. exists values. split; [done|]. split; [lia|done].
Qed.

(** ** Direct bit updates *)

Lemma shiftl_bitMask j : 0 <= j < 8 -> Z.shiftl 1 (7 - j) = bitMask j.
Proof.
  intros Hj. unfold bitMask. symmetry. apply Z.mod_small. rewrite Z.shiftl_1_l. split; [lia|].
  change 256 with (2 ^ 8). apply Z.pow_lt_mono_r; lia.
Qed.

Lemma setSpaceBits_spec v startBlock blocks allocated :
  Forall byte_ok v -> 0 <= startBlock -> 0 <= blocks -> startBlock + blocks <= 8 * zlen v ->
  exists v', setSpaceBits v startBlock blocks allocated = Some v' /\
    touched (fun _ => allocated) startBlock (startBlock + blocks) v v'.
Proof.
  intros Hv Hs Hn Hl. unfold setSpaceBits.
  apply (for_range_ind (fun i v' => touched (fun _ => allocated) startBlock (startBlock + i) v v'));
    [done|apply touched_empty; [done|lia]|].
  intros i v1 Hi HT. pose proof HT as (H1 & L1 & _).
  rewrite Z.quot_div_nonneg, Z.rem_mod_nonneg, shiftl_bitMask by dlia.
  set (b := startBlock + i) in *. assert (Hb : b = 8 * (b / 8) + b mod 8) by dlia.
  assert (exists c v2, v1.[b / 8] = Some c /\
    v1.[b / 8 <- if allocated then Z.lor c (bitMask (b mod 8)) else Z.ldiff c (bitMask (b mod 8))] = Some v2 /\
    touched (fun _ => allocated) b (b + 1) v1 v2) as (c & v2 & Ec & E2 & HT2).
  { destruct allocated.
    - destruct (orBit_touches v1 (b / 8) (b mod 8)) as (v2 & E & H2 & L2 & B2); [done|dlia..|].
      unfold orBit in E. destruct (v1.[b / 8]) as [c|] eqn:Ec; [|done]. cbn [mbind option_bind] in E.
      exists c, v2. split; [done|]. split; [done|]. split; [done|]. split; [done|]. intros k. rewrite B2.
      rewrite <- Hb. cases_between; done || lia.
    - destruct (andnot_touches v1 (b / 8) (b mod 8)) as (c & v2 & Ec & E & H2 & L2 & B2); [done|dlia..|].
      exists c, v2. split; [done|]. split; [done|]. split; [done|]. split; [done|]. intros k. rewrite B2.
      rewrite <- Hb. cases_between; done || lia. }
  rewrite Ec. go_step. exists v2. split; [done|].
  eapply (touched_trans _ _ b); [exact HT|exact HT2|lia|left; lia].
Qed.

Lemma normalizeSpaceValue_spec v :
  Forall byte_ok v -> space_value (normalizeSpaceValue v) /\
  (space_value v -> normalizeSpaceValue v = v).
Proof.
  intros Hv. unfold normalizeSpaceValue, space_value, zlen, SpaceLen. split.
  - split; [apply Forall_app; split; [by apply Forall_take|by apply zmake_ok]|].
    rewrite length_app. unfold zmake. rewrite length_replicate. rewrite length_take. lia.
  - intros [_ L]. rewrite take_ge by lia. rewrite L. apply app_nil_r.
Qed.
