(* ===== verification/Pebble.v ===== *)
(** * The store interface

    Pebble is a third-party library: the model has it as a parameter, a class
    of operations with the documented behaviour the code relies on as laws.
    The laws describe every key by the chain of operands written to it (a
    [Set] starts a chain, [Merge] extends it, [Delete] empties it), and a read
    by the value merger run over the chain in some bracketing.  [MemStore] is
    a concrete store that satisfies the laws. *)

From stdpp Require Import base decidable list numbers option strings gmap.
From Stdlib Require Import ZArith Lia.
From S2P Require Import Prelude Words Bytes Moss MossThms.

(** Go error values of the database layer, by their message. *)
Definition error := string.

(** A Go function with an error result: [None] is a panic. *)
Definition goResult (A : Type) : Type := option (error + A).

Definition bindE {A B} (m : goResult A) (k : A -> goResult B) : goResult B :=
  match m with
  | None => None
  | Some (inl e) => Some (inl e)
  | Some (inr a) => k a
  end.

Notation "x ←! m ; k" := (bindE m (fun x => k)) (at level 20, m at level 100, k at level 200) : go_scope.
Notation "' p ←! m ; k" := (bindE m (fun x => let 'p := x in k))
  (at level 20, p pattern, m at level 100, k at level 200) : go_scope.

(** [go_run] runs the next error bind. *)
Ltac go_run := cbn [bindE].

(** Sequential composition of fallible steps over a slice. *)
Fixpoint foldE {A S} (f : S -> A -> goResult S) (s : S) (l : list A) : goResult S :=
  match l with
  | [] => Some (inr s)
  | x :: l => s ←! f s x; foldE f s l
  end.

Lemma foldE_app {A S} (f : S -> A -> goResult S) s l l' :
  foldE f s (l ++ l') = (s ←! foldE f s l; foldE f s l').
Proof.
  revert s. induction l as [|x l IH]; intros s; simpl; [done|].
  destruct (f s x) as [[e|s1]|]; simpl; auto.
Qed.

(** [for i := lo; i < hi; i++] with a fallible body. *)
Definition for_rangeE {S} (lo hi : Z) (body : Z -> S -> goResult S) (s : S) : goResult S :=
  foldE (fun s i => body i s) s (seqZ lo (hi - lo)).

Lemma for_rangeE_ind {S} (P : Z -> S -> Prop) lo hi body s :
  lo <= hi -> P lo s ->
  (forall i s, lo <= i < hi -> P i s -> exists s', body i s = Some (inr s') /\ P (i + 1) s') ->
  exists s', for_rangeE lo hi body s = Some (inr s') /\ P hi s'.
Proof.
  intros Hle. unfold for_rangeE. remember (Z.to_nat (hi - lo)) as n eqn:Hn. revert lo s Hle Hn.
  induction n as [|n IH]; intros lo s Hle Hn Hlo Hstep.
  - replace hi with lo in * by lia. rewrite Z.sub_diag. exists s. done.
  - rewrite seqZ_cons by lia. cbn [foldE]. destruct (Hstep lo s) as (s1 & -> & H1); [lia|done|]. go_run.
    replace (Z.pred (hi - lo)) with (hi - Z.succ lo) by lia. apply IH; [lia..|done|].
    intros i t Hi. apply Hstep. lia.
Qed.

(** The same with steps that may answer an error of which [Q] holds. *)
Lemma for_rangeE_cases {S} (P : Z -> S -> Prop) (Q : error -> Prop) lo hi body s :
  lo <= hi -> P lo s ->
  (forall i s, lo <= i < hi -> P i s -> (exists s', body i s = Some (inr s') /\ P (i + 1) s') \/ (exists e, body i s = Some (inl e) /\ Q e)) ->
  (exists s', for_rangeE lo hi body s = Some (inr s') /\ P hi s') \/ (exists e, for_rangeE lo hi body s = Some (inl e) /\ Q e).
Proof.
  intros Hle. unfold for_rangeE. remember (Z.to_nat (hi - lo)) as n eqn:Hn. revert lo s Hle Hn.
  induction n as [|n IH]; intros lo s Hle Hn Hlo Hstep.
  - replace hi with lo in * by lia. rewrite Z.sub_diag. left. by exists s.
  - rewrite seqZ_cons by lia. cbn [foldE]. destruct (Hstep lo s) as [(s1 & -> & H1)|(e & -> & He)]; [lia|done| |go_run; right; by exists e].
    go_run. replace (Z.pred (hi - lo)) with (hi - Z.succ lo) by lia. apply IH; [lia..|done|].
    intros i t Hi. apply Hstep. lia.
Qed.

(** Induction over a slice of fallible steps that all succeed. *)
Lemma foldE_ind {A S} (P : list A -> S -> Prop) (f : S -> A -> goResult S) s l :
  P [] s ->
  (forall done_ x rest s, l = done_ ++ x :: rest -> P done_ s -> exists s', f s x = Some (inr s') /\ P (done_ ++ [x]) s') ->
  exists s', foldE f s l = Some (inr s') /\ P l s'.
Proof.
  assert (H : forall pre, P pre s ->
    (forall done_ x rest s, pre ++ l = done_ ++ x :: rest -> P done_ s -> exists s', f s x = Some (inr s') /\ P (done_ ++ [x]) s') ->
    exists s', foldE f s l = Some (inr s') /\ P (pre ++ l) s'); [|exact (H [])].
  revert s. induction l as [|x l IH]; intros s pre H0 Hstep.
  - exists s. split; [done|]. by rewrite app_nil_r.
  - cbn [foldE]. destruct (Hstep pre x l s eq_refl H0) as (s1 & -> & H1). go_run.
    replace (pre ++ x :: l) with ((pre ++ [x]) ++ l) in * by (by rewrite <- app_assoc). by apply IH.
Qed.

(** ** Operations *)

Class PebbleOps := {
  DB : Type;
  Batch : Type;
  (** [db.Get]; [inr None] is [ErrNotFound] *)
  DBGet : DB -> bytes -> error + option bytes;
  NewIndexedBatch : DB -> Batch;
  (** [batch.Get] of an indexed batch over its database *)
  BatchGet : DB -> Batch -> bytes -> error + option bytes;
  BatchSet : Batch -> bytes -> bytes -> error + Batch;
  BatchMerge : Batch -> bytes -> bytes -> error + Batch;
  BatchDelete : Batch -> bytes -> error + Batch;
  BatchReset : Batch -> Batch;
  (** [batch.Commit(pebble.Sync)]: the new database and the error *)
  BatchCommit : DB -> Batch -> DB * option error;
}.

(** ** Documented behaviour *)

(** What reading a key with operand chain [ch] may answer. *)
Definition reads (key : bytes) (ch : list bytes) (r : error + option bytes) : Prop :=
  match ch with
  | [] => r = inr None
  | _ => exists t, operands t = ch /\
      match runMerger key t with
      | Some (inr vm) => r = inr (Some (Finish vm))
      | _ => exists e, r = inl e
      end
  end.

Class PebbleLaws (ops : PebbleOps) := {
  chain : DB -> bytes -> list bytes;
  bchain : DB -> Batch -> bytes -> list bytes;
  DBGet_reads : forall db k, reads k (chain db k) (DBGet db k);
  BatchGet_reads : forall db b k, reads k (bchain db b k) (BatchGet db b k);
  bchain_new : forall db k, bchain db (NewIndexedBatch db) k = chain db k;
  bchain_reset : forall db b k, bchain db (BatchReset b) k = chain db k;
  BatchSet_law : forall b k v, exists b', BatchSet b k v = inr b' /\
    forall db k', bchain db b' k' = if decide (k' = k) then [v] else bchain db b k';
  BatchMerge_law : forall b k v, exists b', BatchMerge b k v = inr b' /\
    forall db k', bchain db b' k' = if decide (k' = k) then bchain db b k ++ [v] else bchain db b k';
  BatchDelete_law : forall b k, exists b', BatchDelete b k = inr b' /\
    forall db k', bchain db b' k' = if decide (k' = k) then [] else bchain db b k';
  (** a successful commit applies the whole batch *)
  BatchCommit_ok : forall db b db', BatchCommit db b = (db', None) ->
    forall k, chain db' k = bchain db b k;
  (** a failed commit applies all of it or nothing *)
  BatchCommit_err : forall db b db' e, BatchCommit db b = (db', Some e) ->
    (forall k, chain db' k = chain db k) \/ (forall k, chain db' k = bchain db b k);
}.

(** A chain of one [Set] reads back as written. *)
Lemma reads_set k v r : reads k [v] r -> r = inr (Some v).
Proof.
  intros (t & Ht & H). assert (t = MLeaf v) as ->; [|done].
  destruct t as [w|l r'|l r']; simpl in Ht; [by injection Ht as ->|..];
    destruct (operands l) as [|a [|? ?]] eqn:El; try done; try (by destruct (operands_ne l));
    simpl in Ht; injection Ht as -> Hr; by destruct (operands_ne r').
Qed.

(** ** A concrete store *)

Module MemStore.
Inductive wop := WSet (k v : bytes) | WMerge (k v : bytes) | WDelete (k : bytes).

Definition lookupChain (db : gmap bytes (list bytes)) (k : bytes) : list bytes := default [] (db !! k).

Definition applyOp (db : gmap bytes (list bytes)) (op : wop) : gmap bytes (list bytes) :=
  match op with
  | WSet k v => <[k := [v]]> db
  | WMerge k v => <[k := lookupChain db k ++ [v]]> db
  | WDelete k => delete k db
  end.

Definition applyAll (db : gmap bytes (list bytes)) (b : list wop) : gmap bytes (list bytes) :=
  fold_left applyOp b db.

(** Merging from the oldest operand on. *)
Fixpoint leftTree (t : mtree) (vs : list bytes) : mtree :=
  match vs with [] => t | v :: vs => leftTree (MNewer t (MLeaf v)) vs end.

Definition readChain (k : bytes) (ch : list bytes) : error + option bytes :=
  match ch with
  | [] => inr None
  | v :: vs =>
      match runMerger k (leftTree (MLeaf v) vs) with
      | Some (inr vm) => inr (Some (Finish vm))
      | _ => inl "merge failed"%string
      end
  end.

#[export] Instance ops : PebbleOps := {|
  DB := gmap bytes (list bytes);
  Batch := list wop;
  DBGet db k := readChain k (lookupChain db k);
  NewIndexedBatch _ := [];
  BatchGet db b k := readChain k (lookupChain (applyAll db b) k);
  BatchSet b k v := inr (b ++ [WSet k v]);
  BatchMerge b k v := inr (b ++ [WMerge k v]);
  BatchDelete b k := inr (b ++ [WDelete k]);
  BatchReset _ := [];
  BatchCommit db b := (applyAll db b, None);
|}.

Lemma leftTree_operands t vs : operands (leftTree t vs) = operands t ++ vs.
Proof.
  revert t. induction vs as [|v vs IH]; intros t; simpl; [by rewrite app_nil_r|].
  rewrite IH. simpl. by rewrite <- app_assoc.
Qed.

Lemma readChain_reads k ch : reads k ch (readChain k ch).
Proof.
  destruct ch as [|v vs]; [done|]. exists (leftTree (MLeaf v) vs). split; [apply leftTree_operands|].
  simpl. destruct (runMerger k (leftTree (MLeaf v) vs)) as [[e|vm]|]; eauto.
Qed.

Lemma lookupChain_applyOp db op k' :
  lookupChain (applyOp db op) k' =
    match op with
    | WSet k v => if decide (k' = k) then [v] else lookupChain db k'
    | WMerge k v => if decide (k' = k) then lookupChain db k ++ [v] else lookupChain db k'
    | WDelete k => if decide (k' = k) then [] else lookupChain db k'
    end.
Proof.
  unfold lookupChain, applyOp. destruct op as [k v|k v|k]; destruct (decide (k' = k)) as [->|];
    rewrite ?lookup_insert_eq, ?lookup_delete_eq, ?lookup_insert_ne, ?lookup_delete_ne by done; done.
Qed.

#[export] Instance laws : PebbleLaws ops.
Proof.
  refine {| chain := (lookupChain : @DB ops -> _);
            bchain := (fun db b => lookupChain (applyAll db b)) : @DB ops -> @Batch ops -> _ |}; simpl.
  - intros. apply readChain_reads.
  - intros. apply readChain_reads.
  - done.
  - done.
  - intros b k v. eexists. split; [done|]. intros db k'. unfold applyAll. rewrite fold_left_app. cbn [fold_left].
    apply (lookupChain_applyOp _ (WSet k v)).
  - intros b k v. eexists. split; [done|]. intros db k'. unfold applyAll. rewrite fold_left_app. cbn [fold_left].
    apply (lookupChain_applyOp _ (WMerge k v)).
  - intros b k. eexists. split; [done|]. intros db k'. unfold applyAll. rewrite fold_left_app. cbn [fold_left].
    apply (lookupChain_applyOp _ (WDelete k)).
  - intros db b db' E k. by injection E as <-.
  - done.
Defined.
End MemStore.
