(* ===== verification/WriteBatch.v ===== *)
(** * The write batch

    [internal/database/pebble/WriteBatch.go]: reads and writes of an indexed
    batch, with the delete-marker convention for object metadata (keys that
    start with a digit).  The migration branches of the code are empty and
    guarded by conditions that are constantly false; they have no effect and
    no counterpart here. *)

From stdpp Require Import base decidable list numbers option strings gmap.
From Stdlib Require Import ZArith Lia.
From S2P Require Import Prelude Words Bytes Moss MossThms Pebble.

Definition rocksObjMetaDeleteMarker : Z := 126.

(** ** Delete markers *)

(** What [json.Unmarshal] into a [map[string]any] stores under a name, as far
    as [isDeleteMarker] looks at it. *)
Inductive jsonAny := JBool (b : bool) | JString (s : bytes) | JOther.

(** [encoding/json]'s decoder: [None] is an error. *)
Class JSONDecoder := Unmarshal : bytes -> option (gmap bytes jsonAny).

Fixpoint hasPrefix (s p : bytes) : bool :=
  match p, s with
  | [], _ => true
  | c :: p, d :: s => (c =? d) && hasPrefix s p
  | _ :: _, [] => false
  end.

(** [bytes.Contains] *)
Fixpoint contains (s sub : bytes) : bool :=
  hasPrefix s sub || match s with [] => false | _ :: s => contains s sub end.

Definition isDeleteMarker `{JSONDecoder} (value : bytes) : bool :=
  let scan := contains value (deleteMarkName ++ bs "true") ||
              contains value (deleteMarkName ++ dquote :: bs "true" ++ [dquote]) in
  match Unmarshal value with
  | None => scan
  | Some meta =>
      match meta !! bs "deleteMark" with
      | Some (JBool v) => v
      | Some (JString v) => contains v (bs "true")
      | _ => scan
      end
  end.

Definition getDeleteMarkKey (key : bytes) : bytes := rocksObjMetaDeleteMarker :: key.

Definition isNeedMigrate (key : bytes) : bool :=
  match key with
  | [] => false
  | c :: _ => existsb (Z.eqb c) (bs "!@*+-|:()") || digitKey key
  end.

Lemma digitKey_marker key : digitKey (getDeleteMarkKey key) = false.
Proof. done. Qed.

Lemma marker_ne key : getDeleteMarkKey key <> key.
Proof. intros E. apply (f_equal length) in E. simpl in E. lia. Qed.

(** ** Operations *)

Section ops.
Context `{PO : PebbleOps} `{J : JSONDecoder}.

Record WriteBatch := mkWriteBatch { wb_lun : string; wb_batch : Batch }.

Definition NewWriteBatch (db : DB) (lun : string) : WriteBatch := mkWriteBatch lun (NewIndexedBatch db).

(** A call of the underlying batch. *)
Definition lift (w : WriteBatch) (r : error + Batch) : goResult WriteBatch :=
  Some (match r with inl e => inl e | inr b => inr (mkWriteBatch (wb_lun w) b) end).

Definition RawPut (w : WriteBatch) (key value : bytes) : goResult WriteBatch := lift w (BatchSet (wb_batch w) key value).
Definition RawDelete (w : WriteBatch) (key : bytes) : goResult WriteBatch := lift w (BatchDelete (wb_batch w) key).
Definition RawMerge (w : WriteBatch) (key value : bytes) : goResult WriteBatch := lift w (BatchMerge (wb_batch w) key value).

Definition getCopy (db : DB) (w : WriteBatch) (key : bytes) : error + option bytes := BatchGet db (wb_batch w) key.

Definition getFromBatchAndDB (db : DB) (w : WriteBatch) (key : bytes) : error + option bytes :=
  if digitKey key then
    match getCopy db w key with
    | inl e => inl e
    | inr (Some res) => inr (Some res)
    | inr None => getCopy db w (getDeleteMarkKey key)
    end
  else getCopy db w key.

(** [delete] calls itself on the marker key; [fuel] bounds the depth. *)
Fixpoint deleteFuel (fuel : nat) (w : WriteBatch) (key : bytes) : goResult WriteBatch :=
  match fuel with
  | O => None
  | S fuel =>
      w ←! (if digitKey key then deleteFuel fuel w (getDeleteMarkKey key) else Some (inr w));
      RawDelete w key
  end.

Definition delete (w : WriteBatch) (key : bytes) : goResult WriteBatch := deleteFuel 2 w key.

Definition put (w : WriteBatch) (key value : bytes) : goResult WriteBatch :=
  if digitKey key then
    w ←! delete w key;
    RawPut w (if isDeleteMarker value then getDeleteMarkKey key else key) value
  else RawPut w key value.

Definition merge (w : WriteBatch) (key value : bytes) : goResult WriteBatch := RawMerge w key value.

Definition TransferAndPut (w : WriteBatch) (key value : bytes) : goResult WriteBatch :=
  w ←! delete w key;
  match key with
  | [] => RawPut w [rocksObjMetaDeleteMarker] value
  | _ :: rest => RawPut w (rocksObjMetaDeleteMarker :: rest) value
  end.

Definition Clear (w : WriteBatch) : WriteBatch := mkWriteBatch (wb_lun w) (BatchReset (wb_batch w)).

Definition Commit (db : DB) (w : WriteBatch) : DB * option error := BatchCommit db (wb_batch w).
End ops.

(** ** Effects on the operand chains *)

Section effects.
Context `{L : PebbleLaws} `{J : JSONDecoder}.
Implicit Types (w : WriteBatch) (db : DB) (key value : bytes).

Definition wchain (db : DB) (w : WriteBatch) (k : bytes) : list bytes := bchain db (wb_batch w) k.

Lemma RawPut_spec w key value :
  exists w', RawPut w key value = Some (inr w') /\ wb_lun w' = wb_lun w /\
    forall db k, wchain db w' k = if decide (k = key) then [value] else wchain db w k.
Proof.
  unfold RawPut, lift, wchain. destruct (BatchSet_law (wb_batch w) key value) as (b & -> & Hb).
  eexists. split; [done|]. split; [done|]. intros. apply Hb.
Qed.

Lemma RawDelete_spec w key :
  exists w', RawDelete w key = Some (inr w') /\ wb_lun w' = wb_lun w /\
    forall db k, wchain db w' k = if decide (k = key) then [] else wchain db w k.
Proof.
  unfold RawDelete, lift, wchain. destruct (BatchDelete_law (wb_batch w) key) as (b & -> & Hb).
  eexists. split; [done|]. split; [done|]. intros. apply Hb.
Qed.

Lemma merge_spec w key value :
  exists w', merge w key value = Some (inr w') /\ wb_lun w' = wb_lun w /\
    forall db k, wchain db w' k = if decide (k = key) then wchain db w key ++ [value] else wchain db w k.
Proof.
  unfold merge, RawMerge, lift, wchain. destruct (BatchMerge_law (wb_batch w) key value) as (b & -> & Hb).
  eexists. split; [done|]. split; [done|]. intros. apply Hb.
Qed.

Lemma delete_spec w key :
  exists w', delete w key = Some (inr w') /\ wb_lun w' = wb_lun w /\
    forall db k, wchain db w' k =
      if decide (k = key) then [] else if digitKey key && bool_decide (k = getDeleteMarkKey key) then [] else wchain db w k.
Proof.
  unfold delete. cbn [deleteFuel]. destruct (digitKey key) eqn:E; cbn [andb].
  - rewrite digitKey_marker. go_run. destruct (RawDelete_spec w (getDeleteMarkKey key)) as (w1 & -> & L1 & C1). go_run.
    destruct (RawDelete_spec w1 key) as (w2 & -> & L2 & C2). exists w2. split; [done|]. split; [congruence|].
    intros db k. rewrite C2, C1. repeat case_decide; try done; case_bool_decide; done.
  - go_run. apply RawDelete_spec.
Qed.

(** The key a value is stored under. *)
Definition putKey (key value : bytes) : bytes :=
  if digitKey key && isDeleteMarker value then getDeleteMarkKey key else key.

Lemma put_spec w key value :
  exists w', put w key value = Some (inr w') /\ wb_lun w' = wb_lun w /\
    forall db k, wchain db w' k =
      if decide (k = putKey key value) then [value]
      else if digitKey key && (bool_decide (k = key) || bool_decide (k = getDeleteMarkKey key)) then []
      else wchain db w k.
Proof.
  unfold put, putKey. destruct (digitKey key) eqn:E; cbn [andb].
  - destruct (delete_spec w key) as (w1 & -> & L1 & C1). go_run.
    destruct (RawPut_spec w1 (if isDeleteMarker value then getDeleteMarkKey key else key) value) as (w2 & -> & L2 & C2).
    exists w2. split; [done|]. split; [congruence|]. intros db k. rewrite C2, C1, E. case_decide; [done|].
    cbn [andb]. repeat case_decide; repeat case_bool_decide; done.
  - destruct (RawPut_spec w key value) as (w2 & -> & L2 & C2). exists w2. done.
Qed.

Lemma BatchGet_empty db w k : wchain db w k = [] -> getCopy db w k = inr None.
Proof. intros E. pose proof (BatchGet_reads db (wb_batch w) k) as R. unfold wchain in E. by rewrite E in R. Qed.

Lemma BatchGet_set db w k v : wchain db w k = [v] -> getCopy db w k = inr (Some v).
Proof.
  intros E. pose proof (BatchGet_reads db (wb_batch w) k) as R. unfold wchain in E. rewrite E in R.
  by apply reads_set in R.
Qed.

(** A metadata object is stored under its key or under its marker key, never
    under both. *)
Definition exclusive (db : DB) (w : WriteBatch) : Prop :=
  forall key, digitKey key = true -> wchain db w key = [] \/ wchain db w (getDeleteMarkKey key) = [].

Lemma digit_not_marker key key' : digitKey key = true -> getDeleteMarkKey key' <> key.
Proof. intros H <-. done. Qed.

Lemma put_exclusive db w w' key value : exclusive db w -> put w key value = Some (inr w') ->
  (forall key', digitKey key' = true -> key <> getDeleteMarkKey key') -> exclusive db w'.
Proof.
  intros Hx E Hk key' Hd. destruct (put_spec w key value) as (w1 & E1 & _ & C). rewrite E in E1.
  injection E1 as <-. rewrite !C. unfold putKey. destruct (Hx key' Hd) as [H1|H1];
    pose proof (Hk key' Hd); pose proof (digit_not_marker key' key' Hd); pose proof (digit_not_marker key' key Hd);
    destruct (digitKey key) eqn:Ed; cbn [andb]; destruct (isDeleteMarker value);
    repeat case_decide; repeat case_bool_decide; subst; simpl; try done; auto;
    try (match goal with Hm : getDeleteMarkKey _ = getDeleteMarkKey _ |- _ => injection Hm as Hm; subst end; done);
    try congruence.
Qed.

Lemma delete_exclusive db w w' key : exclusive db w -> delete w key = Some (inr w') -> exclusive db w'.
Proof.
  intros Hx E key' Hd. destruct (delete_spec w key) as (w1 & E1 & _ & C). rewrite E in E1.
  injection E1 as <-. rewrite !C. destruct (Hx key' Hd) as [H1|H1];
    repeat case_decide; destruct (digitKey key); cbn [andb]; repeat case_bool_decide; auto.
Qed.
End effects.
