(* ===== verification/BatchPebble.v ===== *)
(** * The batch writer

    [internal/database/pebble/batch_pebble.go]: requests, the handlers, [flush]
    and the processor goroutine with its queue and stop signal. *)

From stdpp Require Import base decidable list numbers option strings gmap relations.
From Stdlib Require Import ZArith Lia.
From S2P Require Import Prelude Words Bytes Moss MossThms Pebble WriteBatch.

(** [RequestType] *)
Definition CustomizeOperate : Z := 0.
Definition PutOnly : Z := 1.
Definition CompareAndPut : Z := 2.
Definition DeleteAndPut : Z := 3.

Definition maxBatchSize : Z := 1000.
(** Capacity of [dataProc]. *)
Definition queueCap : Z := 10000.

Section batch.
Context `{PO : PebbleOps} `{J : JSONDecoder}.

(** A consumer reads the database and writes to the batch. *)
Definition RequestConsumer : Type := DB -> WriteBatch -> goResult WriteBatch.

(** [result] is the content of the result channel (capacity 1); [None] is
    the [nil] error. *)
Record BatchRequest := mkBatchRequest {
  req_id : nat;
  Type_ : Z;
  Consumer : option RequestConsumer;
  Keys : list bytes;
  Values : list bytes;
  LowPriority : bool;
  result : list (option error);
  done_ : bool;
}.

Definition handleCustomizeOperate (db : DB) (batch : WriteBatch) (req : BatchRequest) : goResult WriteBatch :=
  match Consumer req with
  | None => Some (inl "CustomizeOperate: Consumer must not be nil"%string)
  | Some consumer => consumer db batch
  end.

Definition handlePutOnly (batch : WriteBatch) (req : BatchRequest) : goResult WriteBatch :=
  if negb (zlen (Keys req) =? zlen (Values req)) then Some (inl "PUT_ONLY: keys/values length mismatch"%string)
  else foldE (fun batch '(i, key) =>
         match (Values req).[Z.of_nat i] with
         | None => None
         | Some value => put batch key value
         end) batch (imap (fun i key => (i, key)) (Keys req)).

Definition handleCompareAndPut : goResult WriteBatch := Some (inl "COMPARE_AND_PUT not implemented"%string).

Definition handleDeleteAndPut (batch : WriteBatch) (req : BatchRequest) : goResult WriteBatch :=
  batch ←! foldE delete batch (Keys req);
  match Values req with
  | [] => Some (inr batch)
  | value :: _ =>
      match last (Keys req) with
      | None => Some (inl "DELETE_AND_PUT: missing put key"%string)
      | Some key => put batch key value
      end
  end.

Definition handleRequest (db : DB) (batch : WriteBatch) (req : BatchRequest) : goResult WriteBatch :=
  if Type_ req =? CustomizeOperate then handleCustomizeOperate db batch req
  else if Type_ req =? PutOnly then handlePutOnly batch req
  else if Type_ req =? CompareAndPut then handleCompareAndPut
  else if Type_ req =? DeleteAndPut then handleDeleteAndPut batch req
  else Some (inl "BatchPebble: unknown request type"%string).

(** [if req.done.CompareAndSwap(false, true) { req.result <- err }] *)
Definition notify (err : option error) (req : BatchRequest) : BatchRequest :=
  if done_ req then req
  else mkBatchRequest (req_id req) (Type_ req) (Consumer req) (Keys req) (Values req) (LowPriority req)
         (result req ++ [err]) true.

(** The execution order of a flush: normal requests, then low-priority ones. *)
Definition execOrder (requests : list BatchRequest) : list BatchRequest :=
  List.filter (fun r => negb (LowPriority r)) requests ++ List.filter LowPriority requests.

(** The new database, the batch after the deferred [Clear], the requests with
    their notifications. *)
Definition flush (db : DB) (batch : WriteBatch) (requests : list BatchRequest)
    : option (DB * WriteBatch * list BatchRequest) :=
  match foldE (handleRequest db) batch (execOrder requests) with
  | None => None
  | Some (inl e) => Some (db, Clear batch, map (notify (Some e)) requests)
  | Some (inr batch') =>
      let '(db', batchErr) := Commit db batch' in
      Some (db', Clear batch', map (notify batchErr) requests)
  end.

(** ** The processor goroutine *)

(** Where [runProcessor] is: waiting for the first request, draining the
    channel, at the stop check after a flush, in [drainOnStop], returned. *)
Inductive processor :=
  | PWait
  | PDrain (requests : list BatchRequest)
  | PCheckStop
  | PDrainOnStop
  | PExited.

Record BatchPebble := mkBatchPebble {
  bp_db : DB;
  bp_batch : WriteBatch;
  dataProc : list BatchRequest;
  stopped : bool;                      (** [stopCh] is closed *)
  proc : processor;
  answered : list BatchRequest;        (** requests whose fate is decided *)
}.

Definition newBatchPebble (lun : string) (db : DB) : BatchPebble :=
  mkBatchPebble db (NewWriteBatch db lun) [] false PWait [].

Definition set_queue (s : BatchPebble) q :=
  mkBatchPebble (bp_db s) (bp_batch s) q (stopped s) (proc s) (answered s).
Definition set_proc (s : BatchPebble) p :=
  mkBatchPebble (bp_db s) (bp_batch s) (dataProc s) (stopped s) p (answered s).
Definition add_answered (s : BatchPebble) rs :=
  mkBatchPebble (bp_db s) (bp_batch s) (dataProc s) (stopped s) (proc s) (answered s ++ rs).

Definition errStopped : error := "BatchPebble stopped"%string.

(** A request as [submitRequest] makes it. *)
Definition newRequest (id : nat) (consumer : RequestConsumer) (lowPriority : bool) : BatchRequest :=
  mkBatchRequest id CustomizeOperate (Some consumer) [] [] lowPriority [] false.

(** Steps of the goroutine [runProcessor]. *)
Inductive proc_step : BatchPebble -> BatchPebble -> Prop :=
  | step_first s req q :
      proc s = PWait -> dataProc s = req :: q ->
      proc_step s (set_proc (set_queue s q) (PDrain [req]))
  | step_wait_stop s :
      proc s = PWait -> stopped s = true ->
      proc_step s (set_proc s PDrainOnStop)
  | step_drain s rs req q :
      proc s = PDrain rs -> zlen rs < maxBatchSize -> dataProc s = req :: q ->
      proc_step s (set_proc (set_queue s q) (PDrain (rs ++ [req])))
  | step_flush s rs db' batch' rs' :
      proc s = PDrain rs -> dataProc s = [] \/ maxBatchSize <= zlen rs ->
      flush (bp_db s) (bp_batch s) rs = Some (db', batch', rs') ->
      proc_step s (mkBatchPebble db' batch' (dataProc s) (stopped s) PCheckStop (answered s ++ rs'))
  | step_check s :
      proc s = PCheckStop ->
      proc_step s (set_proc s (if stopped s then PDrainOnStop else PWait))
  | step_fail s req q :
      proc s = PDrainOnStop -> dataProc s = req :: q ->
      proc_step s (add_answered (set_queue s q) [notify (Some errStopped) req])
  | step_exit s :
      proc s = PDrainOnStop -> dataProc s = [] ->
      proc_step s (set_proc s PExited).

(** The whole system: the writer and the ids of the requests submitted so
    far.  Clients run [dispatch], whose [select] may take either ready case,
    with requests as [submitRequest] makes them, and [stop]. *)
Definition unanswered (req : BatchRequest) : Prop := done_ req = false /\ result req = [].

Inductive sys_step : BatchPebble * list nat -> BatchPebble * list nat -> Prop :=
  | sys_proc s s' ids : proc_step s s' -> sys_step (s, ids) (s', ids)
  | dispatch_send s ids req :
      unanswered req -> req_id req ∉ ids -> zlen (dataProc s) < queueCap ->
      sys_step (s, ids) (set_queue s (dataProc s ++ [req]), req_id req :: ids)
  | dispatch_stopped s ids req :
      unanswered req -> req_id req ∉ ids -> stopped s = true ->
      sys_step (s, ids) (add_answered s [notify (Some errStopped) req], req_id req :: ids)
  | stop_ s ids :
      sys_step (s, ids) (mkBatchPebble (bp_db s) (bp_batch s) (dataProc s) true (proc s) (answered s), ids).
End batch.
