(* ===== verification/BatchThms.v ===== *)
(** * Correctness of the write batch and of the batch writer *)

From stdpp Require Import base decidable list numbers option strings gmap relations sets.
From Stdlib Require Import ZArith Lia.
From S2P Require Import Prelude Words Bytes Moss MossThms Pebble WriteBatch BatchPebble.

(** ** The write batch *)

Section write_batch.
Context `{L : PebbleLaws} `{J : JSONDecoder}.

(** What was put is read back: for every key and value, [put] succeeds
    and [getFromBatchAndDB] on the same batch then returns that value,
    whether the value is a delete marker (stored under "~"+key) or not; and
    no key other than [key] and "~"+key changes. *)
Lemma put_get_roundtrip (db : DB) (w : WriteBatch) key value :
  exists w', put w key value = Some (inr w') /\
    getFromBatchAndDB db w' key = inr (Some value) /\
    forall k, k <> key -> k <> getDeleteMarkKey key -> wchain db w' k = wchain db w k.
Proof.
  destruct (put_spec w key value) as (w' & E & _ & C). exists w'. split; [done|].
  pose proof (marker_ne key) as Hne. unfold putKey in C. split.
  - unfold getFromBatchAndDB. destruct (digitKey key) eqn:Ed; cbn [andb] in C.
    + destruct (isDeleteMarker value).
      * rewrite (BatchGet_empty _ _ key), (BatchGet_set _ _ (getDeleteMarkKey key) value); [done| |];
          rewrite C; [by rewrite decide_True|].
        rewrite decide_False by done. by rewrite bool_decide_true.
      * rewrite (BatchGet_set _ _ key value); [done|]. rewrite C. by rewrite decide_True.
    + apply BatchGet_set. rewrite C. by rewrite decide_True.
  - intros k H1 H2. rewrite C. rewrite decide_False by (destruct (digitKey key && isDeleteMarker value); done).
    rewrite !bool_decide_false by done. by rewrite andb_false_r.
Qed.

(** Writers of the object metadata: puts and deletes whose key is not itself
    the marker form of an object key. *)
Inductive meta_op := MPut (key value : bytes) | MDelete (key : bytes).

Definition meta_key (op : meta_op) : bytes := match op with MPut k _ | MDelete k => k end.

Definition runMeta (w : WriteBatch) (op : meta_op) : goResult WriteBatch :=
  match op with MPut k v => put w k v | MDelete k => delete w k end.

(** C12: A metadata object is never stored both as live and as deleted.
    Any sequence of puts and deletes (on keys that are not themselves marker
    keys) succeeds and keeps, for every object key, at most one of key and
    "~"+key present; after a further delete the object is not found; and a
    further put is read back, whether the value is a delete marker (stored
    under "~"+key) or not, and changes no other object. *)
Theorem meta_exclusive (db : DB) (w : WriteBatch) mops :
  exclusive db w ->
  Forall (fun op => forall key, digitKey key = true -> meta_key op <> getDeleteMarkKey key) mops ->
  exists w', foldE runMeta w mops = Some (inr w') /\ exclusive db w' /\
    forall key,
      (exists w'', delete w' key = Some (inr w'') /\ getFromBatchAndDB db w'' key = inr None) /\
      forall value, exists w'', put w' key value = Some (inr w'') /\ getFromBatchAndDB db w'' key = inr (Some value) /\
        forall k, k <> key -> k <> getDeleteMarkKey key -> wchain db w'' k = wchain db w' k.
Proof.
  intros Hx HF. assert (exists w', foldE runMeta w mops = Some (inr w') /\ exclusive db w') as (w' & E & Hx').
  { apply (foldE_ind (fun _ w => exclusive db w)); [done|].
    intros pre op rest w1 El H1. rewrite El in HF. apply Forall_app in HF as [_ HF].
    inversion HF as [|? ? Hop _]; subst. destruct op as [k v|k]; simpl in *.
    - destruct (put_spec w1 k v) as (w2 & E & _). exists w2. split; [done|]. by eapply put_exclusive.
    - destruct (delete_spec w1 k) as (w2 & E & _). exists w2. split; [done|]. by eapply delete_exclusive. }
  exists w'. split; [done|]. split; [done|]. intros key. split; [|intros value; apply put_get_roundtrip].
  destruct (delete_spec w' key) as (w2 & E2 & _ & C). exists w2. split; [done|].
  unfold getFromBatchAndDB. destruct (digitKey key) eqn:Ed; cbn [andb] in C.
  - rewrite (BatchGet_empty _ _ key) by (rewrite C; by rewrite decide_True).
    apply BatchGet_empty. rewrite C. rewrite decide_False by apply marker_ne. by rewrite bool_decide_true.
  - apply BatchGet_empty. rewrite C. by rewrite decide_True.
Qed.
End write_batch.

#[local] Existing Instances MemStore.ops MemStore.laws.

Definition demoDecoder : JSONDecoder := fun _ => None.

Lemma meta_exclusive_witness :
  let _ := demoDecoder in
  let ops := [MPut (bs "1obj") (bs "live"); MDelete (bs "1obj")] in
  exists w', foldE runMeta (NewWriteBatch (∅ : @DB MemStore.ops) "lun") ops = Some (inr w') /\
    exclusive (∅ : @DB MemStore.ops) w' /\
    forall key, exists w'', delete w' key = Some (inr w'') /\ getFromBatchAndDB (∅ : @DB MemStore.ops) w'' key = inr None.
Proof.
  intros dec ops. destruct (meta_exclusive (∅ : @DB MemStore.ops) (NewWriteBatch (∅ : @DB MemStore.ops) "lun") ops) as (w' & E & Hx & H).
  - intros key _. left. reflexivity.
  - repeat constructor; intros key Hd E; injection E as E; discriminate E.
  - exists w'. split; [exact E|]. split; [exact Hx|]. intros key. apply (H key).
Defined.

(** ** Flush *)

Section flush.
Context `{L : PebbleLaws} `{J : JSONDecoder}.

(** The batch holds nothing of its own. *)
Definition clean (db : DB) (w : WriteBatch) : Prop := forall k, wchain db w k = chain db k.

Lemma clean_Clear db w : clean db (Clear w).
Proof. intros k. apply bchain_reset. Qed.

Lemma clean_new db lun : clean db (NewWriteBatch db lun).
Proof. intros k. apply bchain_new. Qed.

Lemma flush_cases db w rs db' w' rs' :
  flush db w rs = Some (db', w', rs') ->
  clean db' w' /\ exists outcome, rs' = map (notify outcome) rs /\
    match outcome with
    | None => exists w1, foldE (handleRequest db) w (execOrder rs) = Some (inr w1) /\
                forall k, chain db' k = wchain db w1 k
    | Some e => (forall k, chain db' k = chain db k) \/
                exists w1, foldE (handleRequest db) w (execOrder rs) = Some (inr w1) /\
                  forall k, chain db' k = wchain db w1 k
    end /\
    (forall w1 db1, foldE (handleRequest db) w (execOrder rs) = Some (inr w1) -> BatchCommit db (wb_batch w1) = (db1, None) -> outcome = None).
Proof.
  unfold flush. destruct (foldE _ _ _) as [[e|w1]|] eqn:E; [| |done].
  - intros H. injection H as <- <- <-. split; [apply clean_Clear|]. exists (Some e). split; [done|]. split; [by left|done].
  - unfold Commit. destruct (BatchCommit db (wb_batch w1)) as [db1 o] eqn:Ec. intros H. injection H as <- <- <-.
    split; [apply clean_Clear|]. exists o. split; [done|]. split; [|intros w2 db2 [= <-]; congruence]. destruct o as [e|].
    + apply BatchCommit_err in Ec as [Hc|Hc]; [by left|right; eauto].
    + exists w1. split; [done|]. intros k. exact (BatchCommit_ok _ _ _ Ec k).
Qed.

(** What each kind of request is to do: a custom request runs its consumer,
    [PutOnly] puts the pairs of keys and values in order, [DeleteAndPut]
    deletes its keys in order and puts its first value, if it has one, under
    the last of them.  The other kinds do nothing and cannot be performed. *)
Inductive performs (db : DB) (w : WriteBatch) (r : BatchRequest) (w' : WriteBatch) : Prop :=
  | pf_custom c : Type_ r = 0 -> Consumer r = Some c -> c db w = Some (inr w') -> performs db w r w'
  | pf_put :
      Type_ r = 1 -> length (Keys r) = length (Values r) ->
      foldE (fun w '(key, value) => put w key value) w (zip (Keys r) (Values r)) = Some (inr w') -> performs db w r w'
  | pf_delete : Type_ r = 3 -> Values r = [] -> foldE delete w (Keys r) = Some (inr w') -> performs db w r w'
  | pf_delete_put w1 key value values :
      Type_ r = 3 -> Values r = value :: values -> last (Keys r) = Some key ->
      foldE delete w (Keys r) = Some (inr w1) -> put w1 key value = Some (inr w') -> performs db w r w'.

Inductive performsAll (db : DB) : WriteBatch -> list BatchRequest -> WriteBatch -> Prop :=
  | pa_nil w : performsAll db w [] w
  | pa_cons w r w1 rs w2 : performs db w r w1 -> performsAll db w1 rs w2 -> performsAll db w (r :: rs) w2.

(** [rs] is an interleaving of normal requests and low-priority ones. *)
Inductive by_priority : list BatchRequest -> list BatchRequest -> list BatchRequest -> Prop :=
  | bp_nil : by_priority [] [] []
  | bp_normal r rs normals lows : LowPriority r = false -> by_priority rs normals lows -> by_priority (r :: rs) (r :: normals) lows
  | bp_low r rs normals lows : LowPriority r = true -> by_priority rs normals lows -> by_priority (r :: rs) normals (r :: lows).

Lemma execOrder_priority rs : exists normals lows, by_priority rs normals lows /\ execOrder rs = normals ++ lows.
Proof.
  unfold execOrder. induction rs as [|r rs (normals & lows & H & E)]; [exists [], []; split; [constructor|done]|].
  cbn [List.filter]. assert (Hp : by_priority rs (List.filter (fun r => negb (LowPriority r)) rs) (List.filter LowPriority rs)).
  { clear. induction rs as [|r rs IH]; [constructor|]. cbn [List.filter]. destruct (LowPriority r) eqn:El; by constructor. }
  destruct (LowPriority r) eqn:El; cbn [negb]; eexists _, _; (split; [|done]); by constructor.
Qed.

(** The loop of [handlePutOnly] over the indices is the loop over the pairs. *)
Lemma put_pairs w keys values off :
  length values = (off + length keys)%nat ->
  foldE (fun batch '(i, key) => match values.[Z.of_nat i] with None => None | Some value => put batch key value end) w
    (imap (fun i key => ((off + i)%nat, key)) keys) =
  foldE (fun w '(key, value) => put w key value) w (zip keys (drop off values)).
Proof.
  revert off w. induction keys as [|key keys IH]; intros off w Hl; [done|]. simpl in Hl.
  destruct (values !! off) as [v|] eqn:Ev; [|apply lookup_ge_None in Ev; lia].
  rewrite (drop_S _ v) by done. cbn [imap zip zip_with foldE]. rewrite Nat.add_0_r.
  assert (Hg : values.[Z.of_nat off] = Some v) by (unfold zget; rewrite (proj2 (Z.leb_le 0 _)) by lia; by rewrite Nat2Z.id).
  rewrite Hg. destruct (put w key v) as [[e|w1]|]; cbn [bindE]; [done| |done].
  rewrite <- IH by lia. f_equal. apply imap_ext. intros i x _. simpl. f_equal. lia.
Qed.

Lemma handleRequest_performs db w r w' : handleRequest db w r = Some (inr w') <-> performs db w r w'.
Proof.
  assert (Hput : length (Keys r) = length (Values r) ->
    handlePutOnly w r = foldE (fun w '(key, value) => put w key value) w (zip (Keys r) (Values r))).
  { intros Hl. unfold handlePutOnly. rewrite (proj2 (Z.eqb_eq _ _)) by (unfold zlen; lia). cbn [negb].
    pose proof (put_pairs w (Keys r) (Values r) 0 ltac:(lia)) as E. rewrite drop_0 in E. exact E. }
  unfold handleRequest, CustomizeOperate, PutOnly, CompareAndPut, DeleteAndPut. split.
  - repeat case_bool; try done.
    + unfold handleCustomizeOperate. destruct (Consumer r) as [c|] eqn:E; [|done]. by apply (pf_custom _ _ _ _ c).
    + destruct (decide (length (Keys r) = length (Values r))) as [Hl|Hl].
      * rewrite Hput by done. by apply pf_put.
      * unfold handlePutOnly. by rewrite (proj2 (Z.eqb_neq _ _)) by (unfold zlen; lia).
    + unfold handleDeleteAndPut. destruct (foldE delete w (Keys r)) as [[e|w1]|] eqn:E; go_run; [done| |done].
      destruct (Values r) as [|v vs] eqn:Ev; [intros [= <-]; by apply pf_delete|].
      destruct (last (Keys r)) as [k|] eqn:Ek; [|done]. intros Ep. by eapply pf_delete_put.
  - intros [c Ht Hc E|Ht Hl E|Ht Hv E|w1 key value values Ht Hv Hk E Ep]; rewrite Ht; simpl.
    + unfold handleCustomizeOperate. by rewrite Hc.
    + by rewrite Hput.
    + unfold handleDeleteAndPut. rewrite E. go_run. by rewrite Hv.
    + unfold handleDeleteAndPut. rewrite E. go_run. by rewrite Hv, Hk.
Qed.

Lemma foldE_performs db rs : forall w w', foldE (handleRequest db) w rs = Some (inr w') <-> performsAll db w rs w'.
Proof.
  induction rs as [|r rs IH]; intros w w'; cbn [foldE]; split.
  - intros [= <-]. constructor.
  - intros H. by inversion H.
  - destruct (handleRequest db w r) as [[e|w1]|] eqn:E; go_run; [done| |done]. intros H. apply handleRequest_performs in E.
    apply IH in H. by econstructor.
  - intros H. inversion H as [|? ? w1 ? ? Hp Ha]; subst. apply handleRequest_performs in Hp as ->. go_run. by apply IH.
Qed.

(** C13: A flush is atomic and all its requests share one outcome.  The
    requests are an interleaving of normal and low-priority ones.  If the
    flush answers [nil], every one of them was performed, on one batch, the
    normal ones first and each group in the order of arrival, and the
    database is exactly what that wrote.  If it answers an error, either
    nothing or (a commit that failed after applying) all of it was applied.
    It answers [nil] whenever all requests can be performed and the store
    commits the batch.  A request not answered before is answered exactly
    once, and the batch is left empty for the next flush. *)
Theorem flush_atomic db w rs db' w' rs' :
  Forall unanswered rs -> flush db w rs = Some (db', w', rs') ->
  clean db' w' /\ map req_id rs' = map req_id rs /\
  exists outcome normals lows, Forall (fun r => done_ r = true /\ result r = [outcome]) rs' /\ by_priority rs normals lows /\
    match outcome with
    | None => exists w1, performsAll db w (normals ++ lows) w1 /\ forall k, chain db' k = wchain db w1 k
    | Some e => (forall k, chain db' k = chain db k) \/
                exists w1, performsAll db w (normals ++ lows) w1 /\ forall k, chain db' k = wchain db w1 k
    end /\
    (forall w1 db1, performsAll db w (normals ++ lows) w1 -> BatchCommit db (wb_batch w1) = (db1, None) -> outcome = None).
Proof.
  intros HU E. destruct (flush_cases _ _ _ _ _ _ E) as (Hc & outcome & -> & Ho & Hnil). split; [done|]. split.
  { rewrite map_map. apply map_ext. intros r. unfold notify. by destruct (done_ r). }
  destruct (execOrder_priority rs) as (normals & lows & Hp & Ee). rewrite Ee in Ho, Hnil. exists outcome, normals, lows.
  assert (Hn : Forall (fun r => done_ r = true /\ result r = [outcome]) (map (notify outcome) rs)).
  { apply Forall_map. eapply Forall_impl; [exact HU|]. intros r [H1 H2]. unfold notify. rewrite H1, H2. done. }
  split; [done|]. split; [done|]. split.
  - destruct outcome as [e|]; [destruct Ho as [Ho|(w1 & E1 & Ho)]; [by left|right]|destruct Ho as (w1 & E1 & Ho)];
      exists w1; (split; [by apply foldE_performs|done]).
  - intros w1 db1 Ha. apply foldE_performs in Ha. by apply Hnil.
Qed.

(** Requests other than consumers never panic. *)
Lemma handleRequest_total db w r :
  (Type_ r = CustomizeOperate -> forall c, Consumer r = Some c -> forall w, c db w <> None) ->
  handleRequest db w r <> None.
Proof.
  intros Hc. unfold handleRequest. repeat case_bool; try done.
  - unfold handleCustomizeOperate. destruct (Consumer r) as [c|] eqn:E; [by eapply Hc|done].
  - unfold handlePutOnly. case_bool; [done|]. bool_norm.
    destruct (foldE_ind (fun _ _ => True) (fun batch '(i, key) =>
         match (Values r).[Z.of_nat i] with None => None | Some value => put batch key value end) w
         (imap (fun i key => (i, key)) (Keys r))) as (w' & -> & _); [done| |done].
    intros pre [i key] rest w1 El _.
    assert (Hi : imap (fun i key => (i, key)) (Keys r) !! length pre = Some (i, key))
      by (rewrite El; by apply list_lookup_middle).
    rewrite list_lookup_imap in Hi. destruct (Keys r !! length pre) as [k|] eqn:Ek; [|done].
    injection Hi as <- <-. apply lookup_lt_Some in Ek. unfold zlen in *.
    destruct (zget_some (Values r) (Z.of_nat (length pre))) as [v ->]; [unfold zlen; lia|].
    destruct (put_spec w1 k v) as (w2 & -> & _). eauto.
  - unfold handleDeleteAndPut.
    destruct (foldE_ind (fun _ _ => True) delete w (Keys r)) as (w1 & -> & _); [done| |].
    { intros pre k rest w1 _ _. destruct (delete_spec w1 k) as (w2 & -> & _). eauto. }
    go_run. destruct (Values r) as [|v ?]; [done|]. destruct (last (Keys r)) as [k|]; [|done].
    by destruct (put_spec w1 k v) as (w2 & -> & _).
Qed.

Definition total_request (r : BatchRequest) : Prop :=
  forall c, Consumer r = Some c -> forall db w, c db w <> None.

Lemma flush_total db w rs : Forall total_request rs -> exists x, flush db w rs = Some x.
Proof.
  intros HF. unfold flush.
  assert (Hne : forall l w, Forall total_request l -> foldE (handleRequest db) w l <> None).
  { intros l. induction l as [|r l IH]; intros w1 HF'; simpl; [done|]. inversion HF' as [|? ? Hr HF'']; subst.
    pose proof (handleRequest_total db w1 r) as Ht. destruct (handleRequest db w1 r) as [[e|w2]|]; simpl; [done|by apply IH|].
    destruct Ht; [|done]. intros _ c Hc. by apply Hr. }
  specialize (Hne (execOrder rs) w). destruct (foldE _ _ _) as [[e|w1]|].
  - eauto.
  - destruct (Commit db w1). eauto.
  - destruct Hne; [|done]. unfold execOrder. apply Forall_app. split; apply Forall_forall; intros r Hr;
      apply list_elem_of_In, filter_In in Hr as [Hr _]; rewrite Forall_forall in HF; apply HF, list_elem_of_In; done.
Qed.
End flush.

(** ** The processor *)

Section processor.
Context `{L : PebbleLaws} `{J : JSONDecoder}.
Implicit Types (s : BatchPebble) (ids : list nat).

(** The requests [runProcessor] has taken and not flushed yet. *)
Definition inflight (s : BatchPebble) : list BatchRequest :=
  match proc s with PDrain rs => rs | _ => [] end.

Definition answered_once (r : BatchRequest) : Prop := done_ r = true /\ exists o, result r = [o].

Record bp_inv (s : BatchPebble) (ids : list nat) : Prop := mk_bp_inv {
  bi_placed : map req_id (dataProc s ++ inflight s ++ answered s) ≡ₚ ids;
  bi_nodup : NoDup ids;
  bi_pending : Forall unanswered (dataProc s ++ inflight s);
  bi_answered : Forall answered_once (answered s);
  bi_queue : zlen (dataProc s) <= queueCap;
  bi_batch : zlen (inflight s) <= maxBatchSize;
  bi_clean : clean (bp_db s) (bp_batch s);
  bi_exit : proc s = PDrainOnStop \/ proc s = PExited -> stopped s = true;
}.

Lemma notify_answered o r : unanswered r -> answered_once (notify o r) /\ req_id (notify o r) = req_id r.
Proof. intros [H1 H2]. unfold notify, answered_once. rewrite H1, H2. simpl. eauto. Qed.

Lemma zlen_cons {A} (x : A) l : zlen (x :: l) = zlen l + 1.
Proof. unfold zlen. simpl. lia. Qed.

Lemma bp_inv_new lun db : bp_inv (newBatchPebble lun db) [].
Proof. split; simpl; try done; [constructor|apply clean_new|by intros [?|?]]. Qed.

Lemma proc_step_inv s s' ids : bp_inv s ids -> proc_step s s' -> bp_inv s' ids.
Proof.
  intros [I1 I2 I3 I4 I5 I6 I7 I8] Hs.
  destruct Hs as [s req q Hp Hq|s Hp Hst|s rs req q Hp Hl Hq|s rs db' b' rs' Hp Hl Hf|s Hp|s req q Hp Hq|s Hp Hq];
    destruct s as [db0 b0 q0 st0 p0 an0]; unfold inflight in *; simpl in *; subst;
    split; unfold inflight in *; simpl in *; try done.
  - rewrite <- I1, !map_app. simpl. by rewrite <- Permutation_middle.
  - inversion I3 as [|? ? Hr H3]; subst. rewrite app_nil_r in H3. apply Forall_app. auto.
  - rewrite zlen_cons in I5. lia.
  - by intros [?|?].
  - rewrite <- I1, !map_app. simpl. rewrite <- !app_assoc. simpl. by rewrite <- !Permutation_middle.
  - inversion I3 as [|? ? Hr H3]; subst. apply Forall_app in H3 as [? ?]. rewrite !Forall_app. auto.
  - rewrite zlen_cons in I5. lia.
  - unfold zlen in *. rewrite length_app. simpl. lia.
  - by intros [?|?].
  - destruct (flush_cases _ _ _ _ _ _ Hf) as (_ & o & -> & _).
    rewrite <- I1, !map_app, map_map. apply Permutation_app_head. rewrite Permutation_app_comm. apply Permutation_app_tail.
    erewrite map_ext; [done|]. intros r. unfold notify. by destruct (done_ r).
  - rewrite app_nil_r. by apply Forall_app in I3 as [? _].
  - apply Forall_app in I3 as [_ I3]. destruct (flush_cases _ _ _ _ _ _ Hf) as (_ & o & -> & _).
    apply Forall_app. split; [done|]. apply Forall_map. eapply Forall_impl; [exact I3|].
    intros r Hr. by apply notify_answered.
  - by destruct (flush_cases _ _ _ _ _ _ Hf) as (? & _).
  - by intros [?|?].
  - by destruct st0.
  - by destruct st0.
  - by destruct st0.
  - destruct st0; [done|]. by intros [?|?].
  - inversion I3 as [|? ? Hr H3]; subst. rewrite <- I1, !map_app. simpl.
    rewrite (proj2 (notify_answered (Some errStopped) req Hr)), (assoc_L (++)). by rewrite Permutation_app_comm.
  - by inversion I3.
  - inversion I3 as [|? ? Hr H3]; subst. apply Forall_app. split; [done|]. constructor; [|done]. by apply notify_answered.
  - rewrite zlen_cons in I5. lia.
  - intros _. apply I8. by left.
Qed.

Lemma sys_step_inv x y : bp_inv x.1 x.2 -> sys_step x y -> bp_inv y.1 y.2.
Proof.
  intros HI Hs. destruct Hs as [s s' ids Hp|s ids req Hu Hid Hq|s ids req Hu Hid Hst|s ids]; simpl in *;
    [by eapply proc_step_inv|..]; destruct HI as [I1 I2 I3 I4 I5 I6 I7 I8]; destruct s as [db0 b0 q0 st0 p0 an0];
    unfold inflight in *; simpl in *; split; unfold inflight in *; simpl in *; try done; auto.
  - rewrite <- I1, <- app_assoc. simpl. by rewrite <- Permutation_middle.
  - by constructor.
  - rewrite !Forall_app in *. destruct I3. auto.
  - unfold zlen in *. rewrite length_app. simpl. lia.
  - rewrite <- I1, !map_app. simpl. rewrite (proj2 (notify_answered (Some errStopped) req Hu)).
    rewrite !(assoc_L (++)). by rewrite <- Permutation_cons_append.
  - by constructor.
  - apply Forall_app. split; [done|]. constructor; [|done]. by apply notify_answered.
Qed.

(** C14: In every reachable state of the writer, with any number of clients
    submitting and stopping in any interleaving, every submitted request is
    in exactly one place: queued, taken for the next flush, or answered; the
    answered ones got exactly one answer and the others none; the queue and
    the batch keep their bounds, and between flushes the batch is empty. *)
Theorem batch_invariant lun db s ids :
  rtc sys_step (newBatchPebble lun db, []) (s, ids) ->
  map req_id (dataProc s ++ inflight s ++ answered s) ≡ₚ ids /\ NoDup ids /\
  Forall unanswered (dataProc s ++ inflight s) /\ Forall answered_once (answered s) /\
  zlen (dataProc s) <= queueCap /\ zlen (inflight s) <= maxBatchSize /\ clean (bp_db s) (bp_batch s).
Proof.
  intros HR. assert (HI : bp_inv (s, ids).1 (s, ids).2).
  { revert HR. generalize (s, ids). intros y HR.
    remember (newBatchPebble lun db, []) as x eqn:Ex. assert (HI : bp_inv x.1 x.2) by (subst; apply bp_inv_new).
    clear Ex. induction HR as [|x y z Hs _ IH]; [done|]. apply IH. by eapply sys_step_inv. }
  destruct HI as [I1 I2 I3 I4 I5 I6 I7 I8]. done.
Qed.

(** ** Progress *)

Definition drained (s : BatchPebble) : Prop := dataProc s = [] /\ inflight s = [].

Lemma progress_flush s rs :
  proc s = PDrain rs -> dataProc s = [] \/ maxBatchSize <= zlen rs -> Forall total_request rs ->
  exists s', proc_step s s' /\ proc s' = PCheckStop /\ dataProc s' = dataProc s.
Proof.
  intros Hp Hq HT. destruct (flush_total (bp_db s) (bp_batch s) rs HT) as [[[db' b'] rs'] Hf].
  eexists. split; [by eapply step_flush|]. done.
Qed.

Lemma progress_next s req q :
  dataProc s = req :: q -> proc s = PWait \/ proc s = PDrainOnStop ->
  exists s', proc_step s s' /\ dataProc s' = q /\ proc s' <> PExited /\ inflight s' ⊆ [req].
Proof.
  intros Hq [Hp|Hp].
  - eexists. split; [by eapply step_first|]. done.
  - eexists. split; [by eapply step_fail|]. unfold inflight. simpl. rewrite Hp. split; [done|]. split; [done|]. set_solver.
Qed.

Lemma progress_run s :
  proc s <> PExited -> Forall total_request (dataProc s ++ inflight s) ->
  exists s', rtc proc_step s s' /\ drained s'.
Proof.
  remember (length (dataProc s)) as n eqn:Hn. revert s Hn. induction n as [n IH] using lt_wf_ind. intros s Hn Hp HT.
  assert (Hwait : forall s1, length (dataProc s1) = n -> proc s1 = PWait \/ proc s1 = PDrainOnStop ->
    Forall total_request (dataProc s1) -> exists s', rtc proc_step s1 s' /\ drained s').
  { intros s1 H1 Hp1 HT1. destruct (dataProc s1) as [|req q] eqn:Hq.
    - exists s1. split; [apply rtc_refl|]. split; [done|]. unfold inflight. by destruct Hp1 as [-> | ->].
    - destruct (progress_next s1 req q Hq Hp1) as (s2 & Hs & Hq2 & Hp2 & Hin). apply Forall_cons in HT1 as [HTr HTq].
      destruct (IH (length (dataProc s2)) ltac:(rewrite Hq2; simpl in H1; lia) s2 eq_refl Hp2) as (s' & HR & HD).
      + rewrite Hq2. apply Forall_app. split; [done|]. apply Forall_forall. intros r Hr. apply Hin, list_elem_of_singleton in Hr as ->. done.
      + exists s'. split; [by eapply rtc_l|done]. }
  assert (Hcheck : forall s1, length (dataProc s1) = n -> proc s1 = PCheckStop ->
    Forall total_request (dataProc s1) -> exists s', rtc proc_step s1 s' /\ drained s').
  { intros s1 H1 Hp1 HT1. destruct (Hwait (set_proc s1 (if stopped s1 then PDrainOnStop else PWait))) as (s' & HR & HD);
      [done|simpl; destruct (stopped s1); auto|done|]. exists s'. split; [|done]. eapply rtc_l; [|done]. by apply step_check. }
  apply Forall_app in HT as [HT1 HT2].
  unfold inflight in HT2. destruct (proc s) as [|rs| | |] eqn:Ep; [apply Hwait; auto| |apply Hcheck; auto|apply Hwait; auto|done].
  assert (Hflush : dataProc s = [] \/ maxBatchSize <= zlen rs -> exists s', rtc proc_step s s' /\ drained s').
  { intros Hq. destruct (progress_flush s rs Ep Hq HT2) as (s1 & Hs & Hp1 & Hq1).
    destruct (Hcheck s1) as (s' & HR & HD); [congruence|done|congruence|]. exists s'. split; [by eapply rtc_l|done]. }
  destruct (dataProc s) as [|req q] eqn:Hq; [auto|].
  destruct (decide (zlen rs < maxBatchSize)) as [Hl|Hl]; [|apply Hflush; right; lia].
  pose proof (step_drain s rs req q Ep Hl Hq) as Hs. apply Forall_cons in HT1 as [HTr HTq].
  destruct (IH (length q) ltac:(rewrite Hn; simpl; lia) (set_proc (set_queue s q) (PDrain (rs ++ [req])))) as (s' & HR & HD);
    [done|done|by unfold inflight; simpl; rewrite !Forall_app, Forall_singleton|]. exists s'. split; [by eapply rtc_l|done].
Qed.

(** C15: No request waits forever while the processor runs: from every
    reachable state in which the processor has not returned, and whose
    pending consumers do not panic, the processor alone can take steps to a
    state where every request submitted so far has exactly one answer. *)
Theorem batch_progress lun db s ids :
  rtc sys_step (newBatchPebble lun db, []) (s, ids) -> proc s <> PExited ->
  Forall total_request (dataProc s ++ inflight s) ->
  exists s', rtc proc_step s s' /\ map req_id (answered s') ≡ₚ ids /\ Forall answered_once (answered s').
Proof.
  intros HR Hp HT. destruct (progress_run s Hp HT) as (s' & HP & Hd & Hi).
  assert (HI : forall x y, rtc sys_step x y -> bp_inv x.1 x.2 -> bp_inv y.1 y.2).
  { intros x y H. induction H as [|x y z Hs _ IH]; [done|]. intros. by apply IH, (sys_step_inv x). }
  assert (HR' : rtc sys_step (s, ids) (s', ids)).
  { clear -HP. induction HP as [|x y z Hs _ IH]; [apply rtc_refl|]. eapply rtc_l; [by apply sys_proc|done]. }
  destruct (HI (newBatchPebble lun db, []) (s', ids) (transitivity HR HR') (bp_inv_new lun db)) as [I1 I2 I3 I4 I5 I6 I7 I8]. simpl in *.
  exists s'. split; [done|]. rewrite Hd, Hi in I1. done.
Qed.

(** After the processor has returned nothing leaves the queue. *)
Lemma exited_stuck x y req :
  rtc sys_step x y -> proc x.1 = PExited -> req ∈ dataProc x.1 -> req ∈ dataProc y.1 /\ proc y.1 = PExited.
Proof.
  intros HR. induction HR as [|x y z Hs _ IH]; [done|]. intros Hp Hr. apply IH.
  - destruct Hs as [s s' ids Hs|s ids r Hu Hid Hq|s ids r Hu Hid Hst|s ids]; simpl in *; try done.
    destruct Hs; simpl in *; congruence.
  - destruct Hs as [s s' ids Hs|s ids r Hu Hid Hq|s ids r Hu Hid Hst|s ids]; simpl in *; try done; [|set_solver].
    destruct Hs; simpl in *; congruence.
Qed.

(** The shutdown race: because [dispatch] may still send to the
    buffered channel after [stop], a state is reachable in which a request
    was submitted, the processor has returned, and no continuation whatever
    answers the request (its caller blocks forever). *)
Theorem dispatch_after_stop_unanswered lun (db : DB) consumer low :
  let req := newRequest 0 consumer low in
  exists s, rtc sys_step (newBatchPebble lun db, []) (s, [0%nat]) /\ stopped s = true /\
    forall s' ids', rtc sys_step (s, [0%nat]) (s', ids') -> req ∈ dataProc s' /\ unanswered req.
Proof.
  intros req. set (s0 := newBatchPebble lun db).
  set (s1 := mkBatchPebble (bp_db s0) (bp_batch s0) (dataProc s0) true (proc s0) (answered s0)).
  set (s2 := set_proc s1 PDrainOnStop). set (s3 := set_proc s2 PExited).
  set (s4 := set_queue s3 (dataProc s3 ++ [req])).
  exists s4. split; [|split; [done|]].
  - eapply rtc_l; [apply stop_|]. eapply rtc_l; [apply sys_proc, (step_wait_stop s1); done|].
    eapply rtc_l; [apply sys_proc, (step_exit s2); done|]. eapply rtc_l; [apply (dispatch_send s3 [] req); [done|set_solver|done]|].
    apply rtc_refl.
  - intros s' ids' HR. destruct (exited_stuck _ _ req HR) as [H _]; [done|set_solver|]. done.
Qed.
End processor.

(** ** Witnesses *)

#[local] Existing Instance demoDecoder.

Definition demoDB : @DB MemStore.ops := ∅.
Definition demoConsumer : RequestConsumer := fun _ w => put w (bs "key") (bs "value").
Definition demoRequest : BatchRequest := newRequest 0 demoConsumer false.

Lemma demo_total : Forall total_request [demoRequest].
Proof.
  constructor; [|constructor]. intros c E db w. injection E as <-. unfold demoConsumer.
  destruct (put_spec w (bs "key") (bs "value")) as (w' & -> & _). done.
Qed.

(** A low-priority request before a normal one. *)
Definition demoLow : BatchRequest := mkBatchRequest 1 PutOnly None [bs "key"] [bs "low"] true [] false.

Lemma demo_flush_total : Forall total_request [demoLow; demoRequest].
Proof. constructor; [|exact demo_total]. intros c E. discriminate E. Qed.

Lemma flush_atomic_witness :
  exists db' w' rs', flush demoDB (NewWriteBatch demoDB "lun") [demoLow; demoRequest] = Some (db', w', rs') /\
    clean db' w' /\ map req_id rs' = [1%nat; 0%nat] /\
    exists outcome normals lows, Forall (fun r => done_ r = true /\ result r = [outcome]) rs' /\
      by_priority [demoLow; demoRequest] normals lows /\
      match outcome with
      | None => exists w1, performsAll demoDB (NewWriteBatch demoDB "lun") (normals ++ lows) w1 /\ forall k, chain db' k = wchain demoDB w1 k
      | Some e => (forall k, chain db' k = chain demoDB k) \/
                  exists w1, performsAll demoDB (NewWriteBatch demoDB "lun") (normals ++ lows) w1 /\ forall k, chain db' k = wchain demoDB w1 k
      end.
Proof.
  destruct (flush_total demoDB (NewWriteBatch demoDB "lun") [demoLow; demoRequest] demo_flush_total) as [[[db' w'] rs'] E].
  exists db', w', rs'. split; [exact E|].
  destruct (flush_atomic demoDB (NewWriteBatch demoDB "lun") [demoLow; demoRequest] db' w' rs') as (H1 & H2 & outcome & normals & lows & H3 & H4 & H5 & _);
    [repeat constructor|exact E|].
  split; [exact H1|]. split; [exact H2|]. exists outcome, normals, lows. split; [exact H3|]. split; [exact H4|exact H5].
Defined.

Definition demoSystem : BatchPebble := set_queue (newBatchPebble "lun" demoDB) [demoRequest].

Lemma demo_run : rtc sys_step (newBatchPebble "lun" demoDB, []) (demoSystem, [0%nat]).
Proof.
  eapply rtc_l; [|apply rtc_refl].
  apply (dispatch_send (newBatchPebble "lun" demoDB) [] demoRequest); [done|set_solver|done].
Qed.

Lemma batch_invariant_witness :
  map req_id (dataProc demoSystem ++ inflight demoSystem ++ answered demoSystem) ≡ₚ [0%nat] /\ NoDup [0%nat] /\
  Forall unanswered (dataProc demoSystem ++ inflight demoSystem) /\ Forall answered_once (answered demoSystem) /\
  zlen (dataProc demoSystem) <= queueCap /\ zlen (inflight demoSystem) <= maxBatchSize /\
  clean (bp_db demoSystem) (bp_batch demoSystem).
Proof. apply (batch_invariant "lun" demoDB demoSystem [0%nat]). exact demo_run. Defined.

Lemma batch_progress_witness :
  exists s', rtc proc_step demoSystem s' /\ map req_id (answered s') ≡ₚ [0%nat] /\ Forall answered_once (answered s').
Proof. apply (batch_progress "lun" demoDB demoSystem [0%nat]); [exact demo_run|discriminate|exact demo_total]. Defined.
