(* ===== verification/BlockDevice.v ===== *)
(** * The block device

    [internal/fs/block_device.go]: allocation in bytes over an extent
    allocator, the persistent space bitmap in the store, and recovery of the
    allocator from it. *)

From stdpp Require Import base decidable list numbers option strings gmap.
From Stdlib Require Import ZArith Lia.
From S2P Require Import Prelude Words Bytes Moss MossBitmap MossThms Allocator AllocatorInv AllocatorMark AllocatorScan Extents AllocatorOps SpaceBitmap SpaceBitmapSpec Pebble WriteBatch BatchPebble.

(** ** What the device needs of its allocator

    The code names this interface in a comment ([type Allocator interface]);
    [AllocatorV3] is the implementation it uses. *)

Class ExtentAllocator (T : Type) := {
  ea_new : Z -> option T;
  ea_allocate : T -> Z -> option (T * (alloc_error + list Result));
  ea_release : T -> list Result -> option (T * option alloc_error);
  ea_initAllocated : T -> Z -> Z -> option (T * option alloc_error);
}.

Class ExtentAllocatorLaws (T : Type) `{ExtentAllocator T} := {
  ea_ok : T -> Prop;
  ea_total : T -> Z;
  ea_free : T -> Z -> bool;
  ea_total_bound : forall a, ea_ok a -> 0 < ea_total a <= 2 ^ 62;
  ea_free_in : forall a b, ea_ok a -> ea_free a b = true -> 0 <= b < ea_total a;
  ea_new_law : forall n, 0 < n <= 2 ^ 62 ->
    exists a, ea_new n = Some a /\ ea_ok a /\ ea_total a = n /\ forall b, 0 <= b < n -> ea_free a b = true;
  ea_allocate_law : forall a want, ea_ok a ->
    exists a' r, ea_allocate a want = Some (a', r) /\ ea_ok a' /\ ea_total a' = ea_total a /\
      match r with
      | inl _ => a' = a /\ ~ 0 < want <= count (ea_free a) 0 (ea_total a)
      | inr rs => 0 < want /\ Forall (extent_in (ea_total a)) rs /\ disjoint_extents rs /\ sizes rs = want /\
          (forall b, covers rs b = true -> ea_free a b = true) /\
          (forall b, ea_free a' b = ea_free a b && negb (covers rs b))
      end;
  ea_release_law : forall a rs, ea_ok a -> Forall (extent_in (ea_total a)) rs -> disjoint_extents rs ->
    (forall b, covers rs b = true -> ea_free a b = false) ->
    exists a', ea_release a rs = Some (a', None) /\ ea_ok a' /\ ea_total a' = ea_total a /\
      forall b, ea_free a' b = ea_free a b || covers rs b;
  ea_init_law : forall a o s, ea_ok a -> extent_in (ea_total a) (mkResult o s) ->
    exists a', ea_initAllocated a o s = Some (a', None) /\ ea_ok a' /\ ea_total a' = ea_total a /\
      forall b, ea_free a' b = ea_free a b && negb (in_extent o s b);
}.

(** ** Keys *)

(** Decimal digits, least significant last; [n] has at most [fuel] digits. *)
Fixpoint decimal (fuel : nat) (n : Z) : bytes :=
  match fuel with
  | O => []
  | S fuel => (if n <? 10 then [] else decimal fuel (n / 10)) ++ [48 + n mod 10]
  end.

(** [fmt.Sprintf("%010d", n)]: at least ten characters, zeros after the sign. *)
Definition sprintf010d (n : Z) : bytes :=
  let digits := decimal 19 (Z.abs n) in
  if n <? 0 then 45 :: zmake (9 - zlen digits) 48 ++ digits
  else zmake (10 - zlen digits) 48 ++ digits.

Definition familySpaceKey (index : Z) : bytes := RocksFileSystemPrefixOffset ++ sprintf010d index.

(** Byte extents of block extents, as [Alloc] returns them. *)
Definition toBytes (rs : list Result) : list Result :=
  map (fun r => mkResult (i64 (Offset r * BlockSize)) (i64 (Size r * BlockSize))) rs.

Section device.
Context `{PO : PebbleOps} `{J : JSONDecoder}.
Context {T : Type} `{EA : ExtentAllocator T}.

(** The fields the operations use; the store is passed along. *)
Record BlockDevice := mkBlockDevice { bd_name : string; bd_size : Z; bd_allocator : T }.

Definition set_allocator (d : BlockDevice) (a : T) : BlockDevice := mkBlockDevice (bd_name d) (bd_size d) a.

(** [None] is a panic; otherwise the device and an error or the byte and the
    block extents. *)
Definition Alloc (d : BlockDevice) (size : Z) : option (BlockDevice * (error + list Result * list Result)) :=
  if size <=? 0 then Some (d, inl "alloc size must be > 0"%string)
  else
    let blocks := fitBlock size ÷ BlockSize in
    '(a, r) ← ea_allocate (bd_allocator d) blocks;
    let d := set_allocator d a in
    let allocBlocks := match r with inl _ => [] | inr rs => rs end in
    match allocBlocks with
    | [] => Some (d, inl "lun has no enough space"%string)
    | _ => Some (d, inr (toBytes allocBlocks, allocBlocks))
    end.

Definition RollbackAlloc (d : BlockDevice) (allocBlocks : list Result) : option BlockDevice :=
  match allocBlocks with
  | [] => Some d
  | _ => '(a, _) ← ea_release (bd_allocator d) allocBlocks; Some (set_allocator d a)
  end.

Definition spaceKeyCount (size : Z) : Z := i64 (size + SpaceSize - 1) ÷ SpaceSize.

Definition get (db : DB) (key : bytes) : goResult (option bytes) := Some (DBGet db key).

Definition loadSpaceValue (db : DB) (spaceIndex : Z) (updates : gmap Z bytes) : goResult bytes :=
  match updates !! spaceIndex with
  | Some value => Some (inr value)
  | None =>
      value ←! get db (familySpaceKey spaceIndex);
      Some (inr (normalizeSpaceValue (default [] value)))
  end.

(** The guard both persisting functions start with. *)
Definition validResult (r : Result) : bool :=
  negb ((Offset r <? 0) || (Size r <=? 0) || negb (Offset r rem BlockSize =? 0)).

Definition errAllocResult : error := "invalid alloc result"%string.

Definition persistSpaceMerges (w : WriteBatch) (results : list Result) (allocated : bool) : goResult WriteBatch :=
  foldE (fun w r =>
    if negb (validResult r) then Some (inl errAllocResult)
    else
      match spaceUpdateValues (Offset r) (Size r) allocated with
      | None => None
      | Some (inl _) => Some (inl "invalid bitmap update"%string)
      | Some (inr values) =>
          foldE (fun w '(i, value) => merge w (familySpaceKey (Offset r ÷ SpaceSize + Z.of_nat i)) value)
            w (imap (fun i value => (i, value)) values)
      end) w results.

Definition PersistAllocBatch (w : WriteBatch) (results : list Result) : goResult WriteBatch :=
  persistSpaceMerges w results true.

(** The loop over the bitmap values one extent touches; [fuel] bounds the
    iterations, each of which handles at least one block. *)
Fixpoint persistExtent (fuel : nat) (db : DB) (updates : gmap Z bytes) (startBlock blocks : Z) (allocated : bool)
    : goResult (gmap Z bytes) :=
  if blocks <=? 0 then Some (inr updates)
  else match fuel with
  | O => None
  | S fuel =>
      let spaceIndex := startBlock ÷ blocksPerSpace in
      let spaceOffset := startBlock rem blocksPerSpace in
      let n := if blocks <? blocksPerSpace - spaceOffset then blocks else blocksPerSpace - spaceOffset in
      value ←! loadSpaceValue db spaceIndex updates;
      match setSpaceBits value spaceOffset n allocated with
      | None => None
      | Some value => persistExtent fuel db (<[spaceIndex := value]> updates) (startBlock + n) (blocks - n) allocated
      end
  end.

(** [order] is the order in which [range] visits the map, which Go leaves
    open. *)
Definition persistSpaceBits (order : list (Z * bytes) -> list (Z * bytes)) (db : DB) (w : WriteBatch)
    (results : list Result) (allocated : bool) : goResult WriteBatch :=
  updates ←! foldE (fun updates r =>
    if negb (validResult r) then Some (inl errAllocResult)
    else
      let blocks := fitBlock (Size r) ÷ BlockSize in
      persistExtent (Z.to_nat blocks) db updates (Offset r ÷ BlockSize) blocks allocated) (∅ : gmap Z bytes) results;
  foldE (fun w '(spaceIndex, value) => put w (familySpaceKey spaceIndex) value) w (order (map_to_list updates)).

Definition Release (order : list (Z * bytes) -> list (Z * bytes)) (d : BlockDevice) (db : DB) (w : WriteBatch)
    (results : list Result) : goResult (BlockDevice * WriteBatch) :=
  w ←! persistSpaceBits order db w results false;
  match ea_release (bd_allocator d) (byteResultsToBlockResults results) with
  | None => None
  | Some (a, _) => Some (inr (set_allocator d a, w))
  end.

(** ** Formatting and recovery *)

(** [CustomizeOperateData] when no other request is pending: the database
    after the flush, of a failed commit too, and the error the request is
    answered with. *)
Definition customizeOperateData (db : DB) (lun : string) (consumer : RequestConsumer) : option (DB * option error) :=
  match flush db (NewWriteBatch db lun) [newRequest 0 consumer false] with
  | Some (db', _, [r]) =>
      match result r with
      | [err] => Some (db', err)
      | _ => None
      end
  | _ => None
  end.

Definition initConsumer (start end_ : Z) : RequestConsumer := fun _ w =>
  for_rangeE start end_ (fun i w => put w (familySpaceKey i) (zmake SpaceLen 0)) w.

(** [for start := 0; start < total; start += 1000]; iteration [i] has
    [start] = [1000 * i].  After an error the device is not opened and nothing
    reads the database through it. *)
Definition tryInitBlockSpace (d : BlockDevice) (db : DB) : goResult DB :=
  first ←! get db (familySpaceKey 0);
  match first with
  | Some _ => Some (inr db)
  | None =>
      let tot := spaceKeyCount (bd_size d) in
      for_rangeE 0 ((tot + 999) / 1000) (fun i db =>
        let start := 1000 * i in
        let end_ := if tot <? start + 1000 then tot else start + 1000 in
        match customizeOperateData db (bd_name d) (initConsumer start end_) with
        | None => None
        | Some (_, Some err) => Some (inl err)
        | Some (db, None) => Some (inr db)
        end) db
  end.

(** The variables [runStart] and [runLen] of [loadAllocator] and the
    allocator they are flushed into. *)
Record loadState := mkLoadState { runStart : Z; runLen : Z; ls_alloc : T }.

Definition closeRun (s : loadState) : goResult loadState :=
  if runStart s <? 0 then Some (inr s)
  else
    match ea_initAllocated (ls_alloc s) (runStart s) (runLen s) with
    | None => None
    | Some (a, Some _) => Some (inl "InitAllocated failed"%string)
    | Some (a, None) => Some (inr (mkLoadState (-1) 0 a))
    end.

(** Extend the current run by [n] blocks from [block] on. *)
Definition extendRunBy (s : loadState) (block n : Z) : loadState :=
  mkLoadState (if runStart s <? 0 then block else runStart s) (runLen s + n) (ls_alloc s).

(** The loop over the bits of one byte. *)
Definition loadBits (b block validBits : Z) (s : loadState) : goResult loadState :=
  for_rangeE 0 validBits (fun bit s =>
    if negb (Z.land b (Z.shiftl 1 (7 - bit)) =? 0) then Some (inr (extendRunBy s (block + bit) 1))
    else closeRun s) s.

(** The loop over the bytes of one bitmap value, from [byteIndex] on. *)
Fixpoint loadBytes (totalBlocks spaceStart byteIndex : Z) (value : bytes) (s : loadState) : goResult loadState :=
  match value with
  | [] => Some (inr s)
  | b :: value =>
      let block := spaceStart + byteIndex * 8 in
      if totalBlocks <=? block then Some (inr s)
      else
        let validBits := if totalBlocks <? block + 8 then totalBlocks - block else 8 in
        s ←! (if b =? 0 then closeRun s
              else if (b =? 255) && (validBits =? 8) then Some (inr (extendRunBy s block 8))
              else loadBits b block validBits s);
        loadBytes totalBlocks spaceStart (byteIndex + 1) value s
  end.

Definition loadAllocator (d : BlockDevice) (db : DB) : goResult BlockDevice :=
  let totalBlocks := bd_size d ÷ BlockSize in
  s ←! for_rangeE 0 (spaceKeyCount (bd_size d)) (fun spaceIndex s =>
    value ←! loadSpaceValue db spaceIndex ∅;
    loadBytes totalBlocks (spaceIndex * blocksPerSpace) 0 value s)
    (mkLoadState (-1) 0 (bd_allocator d));
  s ←! closeRun s;
  Some (inr (set_allocator d (ls_alloc s))).

(** [newBlockDevice] up to the I/O channel: a fresh allocator, the bitmap
    formatted if it is not there, and the allocator loaded from it. *)
Definition newBlockDevice (name : string) (size : Z) (db : DB) : goResult (BlockDevice * DB) :=
  match ea_new (size ÷ BlockSize) with
  | None => None
  | Some a =>
      let d := mkBlockDevice name size a in
      db ←! tryInitBlockSpace d db;
      d ←! loadAllocator d db;
      Some (inr (d, db))
  end.
End device.

(** ** [AllocatorV3] implements the interface *)

(** A method call on a non-nil allocator. *)
Definition onSome {A} (r : option (option AllocatorV3 * A)) : option (AllocatorV3 * A) :=
  '(p, x) ← r; a ← p; Some (a, x).

#[global] Instance AllocatorV3_ops : ExtentAllocator AllocatorV3 := {|
  ea_new := NewAllocatorV3;
  ea_allocate a want := onSome (Allocate (Some a) want);
  ea_release a rs := onSome (Allocator.Release (Some a) rs);
  ea_initAllocated a o s := onSome (InitAllocated (Some a) o s);
|}.
