(* ===== verification/BlockDeviceSpec.v ===== *)
(** * Lemmas about the block device

    The allocator interface discharged by [AllocatorV3], the bitmap keys, what
    persisting an extent does to the stored bitmap, and the scan that loads the
    allocator. *)

From stdpp Require Import base decidable list numbers option strings gmap.
From Stdlib Require Import ZArith Lia.
From S2P Require Import Prelude Words Bytes Moss MossBitmap MossThms Allocator AllocatorInv AllocatorMark AllocatorScan Extents AllocatorOps SpaceBitmap SpaceBitmapSpec Pebble WriteBatch BatchPebble BlockDevice.

(** ** The allocator interface *)

#[global] Instance AllocatorV3_laws : ExtentAllocatorLaws AllocatorV3.
Proof.
  refine {| ea_ok := inv; ea_total := total; ea_free := freeb |}; simpl.
  - intros a Ha. apply (shape_total _ (levels_shape _ (inv_levels _ Ha))).
  - intros a b Ha Hf. by apply (freeb_bounds _ _ (levels_shape _ (inv_levels _ Ha))).
  - intros n Hn. destruct (NewAllocatorV3_spec n Hn) as (a & E & Hi & Ht & _ & Hf). exists a. split_and!; try done.
    intros b Hb. rewrite Hf. apply andb_true_iff. rewrite Z.leb_le, Z.ltb_lt. lia.
  - intros a want Ha. destruct (decide (0 < want <= available a)) as [Hw|Hw].
    + destruct (Allocate_ok a want Ha Hw) as (a' & rs & -> & Hi & [T1 T2 T3 T4 T5] & Hs & _).
      exists a', (inr rs). split_and!; try done. lia.
    + rewrite Allocate_err by done. eexists a, (inl _). split; [reflexivity|]. split_and!; try done.
      by rewrite <- (inv_available _ Ha).
  - intros a rs Ha Hin Hd Hc. assert (Forall result_i64 rs) as H64.
    { eapply Forall_impl; [exact Hin|]. intros r. unfold extent_in, result_i64, is_i64.
      pose proof (shape_total _ (levels_shape _ (inv_levels _ Ha))). lia. }
    destruct (Release_cases a rs Ha H64) as [(a' & -> & Hi & _ & _ & Hf & Ht & _)|(e & _ & Hn)].
    + exists a'. by split_and!.
    + destruct Hn. split; [|done]. apply Forall_forall. intros r Hr. rewrite Forall_forall in Hin. split; [by apply Hin|].
      intros b Hb. apply Hc, covers_true. exists r. split; [done|]. by apply in_result_true.
  - intros a o s Ha Hin. pose proof (shape_total _ (levels_shape _ (inv_levels _ Ha))) as Ht.
    assert (is_i64 o /\ is_i64 s) as [H1 H2] by (unfold extent_in, is_i64 in *; simpl in *; lia).
    destruct (InitAllocated_cases a o s Ha H1 H2) as [[Hs _]|[(_ & Hn & _)|(_ & a' & -> & Hi & Hf & Ht' & _)]].
    + unfold extent_in in Hin. simpl in Hin. lia.
    + done.
    + exists a'. by split_and!.
Defined.

(** ** Keys *)

Definition undecimal (ds : bytes) : Z := fold_left (fun n c => 10 * n + (c - 48)) ds 0.

Lemma undecimal_snoc ds c : undecimal (ds ++ [c]) = 10 * undecimal ds + (c - 48).
Proof. unfold undecimal. by rewrite fold_left_app. Qed.

Lemma undecimal_decimal fuel n : 0 <= n < 10 ^ Z.of_nat fuel -> undecimal (decimal fuel n) = n.
Proof.
  revert n. induction fuel as [|fuel IH]; intros n Hn; [change (10 ^ Z.of_nat 0) with 1 in Hn; unfold undecimal; simpl; lia|].
  rewrite Nat2Z.inj_succ, Z.pow_succ_r in Hn by lia. cbn [decimal]. rewrite undecimal_snoc.
  destruct (n <? 10) eqn:E; bool_norm.
  - unfold undecimal. simpl. rewrite Z.mod_small by lia. lia.
  - rewrite IH; [dlia|]. split; [dlia|]. apply Z.div_lt_upper_bound; lia.
Qed.

Lemma undecimal_zeros n ds : undecimal (zmake n 48 ++ ds) = undecimal ds.
Proof.
  unfold undecimal, zmake. rewrite fold_left_app. f_equal.
  induction (Z.to_nat n) as [|m IH]; [done|exact IH].
Qed.

(** Distinct bitmap indices have distinct keys. *)
Lemma familySpaceKey_inj i j :
  0 <= i < 2 ^ 63 -> 0 <= j < 2 ^ 63 -> familySpaceKey i = familySpaceKey j -> i = j.
Proof.
  intros Hi Hj E. unfold familySpaceKey in E. apply app_inj_1 in E as [_ E]; [|done].
  unfold sprintf010d in E. rewrite !(proj2 (Z.ltb_ge _ 0)), !Z.abs_eq in E by lia.
  apply (f_equal undecimal) in E. rewrite !undecimal_zeros, !undecimal_decimal in E; [done|simpl; lia..].
Qed.

Lemma familySpaceKey_bitmap i : isBitmapKey (familySpaceKey i) = true.
Proof.
  unfold isBitmapKey, familySpaceKey. simpl. rewrite !andb_true_r. apply Z.ltb_lt.
  assert (0 < zlen (sprintf010d i)); [|unfold zlen in *; simpl length; lia].
  unfold sprintf010d. cbn [decimal]. case_bool; unfold zlen; simpl; rewrite !length_app; simpl; lia.
Qed.

Lemma familySpaceKey_digit i : digitKey (familySpaceKey i) = false.
Proof. done. Qed.

(** ** The stored bitmap *)

Section stored.
Context `{L : PebbleLaws} `{J : JSONDecoder}.

(** For [n] bitmap keys, the chain of each is a stored value followed by a
    history of operands, and describes the allocated blocks [A]. *)
Definition stored_chains (n : Z) (ch : bytes -> list bytes) (A : Z -> bool) : Prop :=
  forall i, 0 <= i < n -> exists base pending, ch (familySpaceKey i) = base :: pending /\ space_value base /\
    history (bit base) pending (fun k => A (spaceBits * i + k)).

Lemma stored_ext n ch ch' A A' :
  (forall i, 0 <= i < n -> ch (familySpaceKey i) = ch' (familySpaceKey i)) ->
  (forall b, 0 <= b < spaceBits * n -> A b = A' b) -> stored_chains n ch A -> stored_chains n ch' A'.
Proof.
  intros Hc HA Hs i Hi. destruct (Hs i Hi) as (base & pending & E & Hb & Hh).
  exists base, pending. rewrite <- Hc by done. split; [done|]. split; [done|].
  rewrite <- (app_nil_r pending). apply history_app. eexists. split; [exact Hh|].
  constructor. intros k Hk. apply HA. unfold spaceBits, SpaceLen in *. lia.
Qed.

(** One more operand. *)
Lemma history_snoc allocated lo hi s pending A v :
  history s pending A -> operand_for allocated lo hi v ->
  (forall k, 0 <= k < spaceBits -> between lo hi k = true -> A k = negb allocated) ->
  history s (pending ++ [v]) (fun k => if between lo hi k then allocated else A k).
Proof.
  intros Hh Hv HA. apply history_app. exists A. split; [done|].
  apply (history_cons _ _ (fun k => if between lo hi k then allocated else A k));
    [by eapply operand_for_update| |by constructor].
  intros k Hk. rewrite (operand_for_delta _ _ _ _ _ Hv Hk). specialize (HA k Hk).
  destruct (between lo hi k); [rewrite HA by done; by destruct allocated|]. lia.
Qed.

(** A read of a stored bitmap value. *)
Lemma stored_read n (db : DB) A i :
  stored_chains n (chain db) A -> 0 <= i < n ->
  exists v, DBGet db (familySpaceKey i) = inr (Some v) /\ space_value v /\
    forall k, 0 <= k < spaceBits -> bit v k = A (spaceBits * i + k).
Proof.
  intros Hs Hi. destruct (Hs i Hi) as (base & pending & E & Hb & Hh).
  pose proof (DBGet_reads db (familySpaceKey i)) as R. rewrite E in R. destruct R as (t & Ht & R).
  destruct (runMerger_base _ t base pending _ (familySpaceKey_bitmap i) Ht Hb Hh) as (v & Ev & Hv & Hbits).
  rewrite Ev in R. eauto.
Qed.

Lemma stored_load n (db : DB) A i :
  stored_chains n (chain db) A -> 0 <= i < n ->
  exists v, loadSpaceValue db i ∅ = Some (inr v) /\ space_value v /\
    forall k, 0 <= k < spaceBits -> bit v k = A (spaceBits * i + k).
Proof.
  intros Hs Hi. destruct (stored_read n db A i Hs Hi) as (v & E & Hv & Hb). unfold loadSpaceValue.
  rewrite lookup_empty. unfold get. rewrite E. go_run. exists v. simpl.
  by rewrite (proj2 (normalizeSpaceValue_spec v (proj1 Hv)) Hv).
Qed.

(** ** Persisting an extent *)

(** The blocks of a byte extent. *)
Definition blockOf (r : Result) (b : Z) : bool := between (Offset r / BlockSize) (endBlock (Offset r) (Size r)) b.

(** A byte extent the device may persist: aligned, non-empty, inside the
    [n] bitmap keys. *)
Definition byte_extent (n : Z) (r : Result) : Prop :=
  0 <= Offset r /\ 0 < Size r /\ Offset r mod BlockSize = 0 /\ Offset r + Size r <= SpaceSize * n.

Lemma byte_extent_valid n r : byte_extent n r -> validResult r = true.
Proof.
  intros (H1 & H2 & H3 & _). unfold validResult. rewrite Z.rem_mod_nonneg, H3 by (done || lia).
  rewrite (proj2 (Z.ltb_ge _ 0)), (proj2 (Z.leb_gt _ 0)) by lia. done.
Qed.

(** The blocks of the extent are described by the keys it is written to. *)
Lemma blockOf_space n r b : byte_extent n r -> blockOf r b = true ->
  Offset r / SpaceSize <= b / spaceBits <= (Offset r + Size r - 1) / SpaceSize.
Proof.
  intros (H1 & H2 & H3 & H4) Hb. unfold blockOf in Hb. apply between_true in Hb. unfold endBlock in Hb.
  change SpaceSize with 16777216 in *. change BlockSize with 4096 in *. change spaceBits with 4096 in *.
  split; [dlia|]. apply Z.div_le_lower_bound; [lia|]. dlia.
Qed.

(** Merging one value into each of a run of spaces. *)
Lemma merge_values db w S0 values :
  0 <= S0 -> S0 + zlen values < 2 ^ 62 ->
  exists w', foldE (fun w '(i, value) => merge w (familySpaceKey (S0 + Z.of_nat i)) value) w (imap (fun i value => (i, value)) values) = Some (inr w') /\
    (forall db' k, (forall i, S0 <= i < S0 + zlen values -> k <> familySpaceKey i) -> wchain db' w' k = wchain db' w k) /\
    (forall i v, values.[i] = Some v -> wchain db w' (familySpaceKey (S0 + i)) = wchain db w (familySpaceKey (S0 + i)) ++ [v]).
Proof.
  intros HS0 Hlv.
  destruct (foldE_ind (fun pre w' =>
    (forall db' k, (forall i, S0 <= i < S0 + zlen pre -> k <> familySpaceKey i) -> wchain db' w' k = wchain db' w k) /\
    (forall i v, values.[i] = Some v -> 0 <= i < zlen pre ->
       wchain db w' (familySpaceKey (S0 + i)) = wchain db w (familySpaceKey (S0 + i)) ++ [v]))
    (fun w '(i, value) => merge w (familySpaceKey (S0 + Z.of_nat i)) value) w
    (imap (fun i value => (i, value)) values)) as (w' & Ew & Hother & Hmine).
  - split; [done|]. unfold zlen. simpl. lia.
  - intros pre [j v] rest w1 El [IH1 IH2].
    assert (Hj : imap (fun i value => (i, value)) values !! length pre = Some (j, v)) by (rewrite El; by apply list_lookup_middle).
    rewrite list_lookup_imap in Hj. destruct (values !! length pre) as [v'|] eqn:Ej; [|done]. injection Hj as <- <-.
    pose proof (lookup_lt_Some _ _ _ Ej) as Hlt.
    unfold zlen in *.
    destruct (merge_spec w1 (familySpaceKey (S0 + Z.of_nat (length pre))) v') as (w2 & E2 & _ & C2).
    exists w2. split; [done|]. rewrite length_app. simpl. split.
    + intros db' k Hk. rewrite C2, decide_False by (apply Hk; lia). apply IH1. intros i Hi. apply Hk. lia.
    + intros i u Hu Hi. rewrite C2. case_decide as Hd.
      * assert (i = Z.of_nat (length pre)) as -> by (apply familySpaceKey_inj in Hd; lia).
        unfold zget in Hu. rewrite (proj2 (Z.leb_le 0 _)), Nat2Z.id, Ej in Hu by lia. injection Hu as <-.
        f_equal. apply IH1. intros i Hi'. intros Hd2. apply familySpaceKey_inj in Hd2; lia.
      * apply IH2; [done|]. destruct (decide (i = Z.of_nat (length pre))); [by subst|lia].
  - exists w'. assert (Hzl : zlen (imap (fun i value => (i, value)) values) = zlen values) by (unfold zlen; by rewrite length_imap).
    rewrite Hzl in *. split; [done|]. split; [done|]. intros i v Hv. apply Hmine; [done|]. by apply zget_bound in Hv.
Qed.

Lemma persist_one n allocated r A db w :
  0 <= n < 2 ^ 38 -> byte_extent n r -> stored_chains n (wchain db w) A ->
  (forall b, blockOf r b = true -> A b = negb allocated) ->
  exists values w', spaceUpdateValues (Offset r) (Size r) allocated = Some (inr values) /\
    foldE (fun w '(i, value) => merge w (familySpaceKey (Offset r ÷ SpaceSize + Z.of_nat i)) value)
      w (imap (fun i value => (i, value)) values) = Some (inr w') /\
    stored_chains n (wchain db w') (fun b => if blockOf r b then allocated else A b) /\
    forall db' k, (forall i, 0 <= i < n -> k <> familySpaceKey i) -> wchain db' w' k = wchain db' w k.
Proof.
  intros Hn Hr Hs HA. pose proof Hr as (H1 & H2 & H3 & H4).
  destruct (spaceUpdateValues_spec (Offset r) (Size r) allocated H1 H2 H3) as (values & E & Lv & HV).
  { change SpaceSize with 16777216 in *. lia. }
  set (S0 := Offset r / SpaceSize) in *. set (K := (Offset r + Size r - 1) / SpaceSize) in *.
  assert (HS0 : 0 <= S0) by (apply Z.div_pos; [lia|done]).
  assert (HSK : S0 <= K) by (apply Z.div_le_mono; [done|lia]).
  assert (HK : K < n) by (apply Z.div_lt_upper_bound; [done|lia]).
  exists values. rewrite Z.quot_div_nonneg by done. fold S0.
  destruct (merge_values db w S0 values) as (w' & Ew & Hother & Hmine); [done|lia|].
  rewrite Ew. exists w'. split; [done|]. split; [done|]. split.
  - intros i Hi. destruct (Hs i Hi) as (base & pending & Ei & Hb & Hh).
    destruct (decide (S0 <= i <= K)) as [Hin|Hout].
    + destruct (zget_some values (i - S0)) as [v Ev]; [lia|]. specialize (HV _ _ Ev). cbv zeta in HV.
      pose proof (Hmine _ _ Ev) as Hm. replace (S0 + (i - S0)) with i in * by lia.
      exists base, (pending ++ [v]). rewrite Hm, Ei. split; [done|]. split; [done|].
      eapply history_ext; [|eapply history_snoc; [exact Hh|exact HV|]].
      * intros k Hk. unfold blockOf. cbv beta. cases_between; done || lia.
      * intros k Hk Hbt. apply HA. unfold blockOf. apply between_true in Hbt. apply between_true. lia.
    + exists base, pending. rewrite Hother.
      * split; [done|]. split; [done|]. eapply history_ext; [|exact Hh]. intros k Hk. cbv beta.
         destruct (blockOf r (spaceBits * i + k)) eqn:Eb; [|done]. pose proof (blockOf_space n r _ Hr Eb).
         assert ((spaceBits * i + k) / spaceBits = i) as Hdiv by (rewrite Z.mul_comm, Z.div_add_l, Z.div_small by lia; lia). lia.
      * intros j Hj Hd. apply familySpaceKey_inj in Hd; lia.
  - intros db' k Hk. apply Hother. intros i Hi. apply Hk. lia.
Qed.

(** The extents of a list cover a block. *)
Definition blocksOf (rs : list Result) (b : Z) : bool := existsb (fun r => blockOf r b) rs.

Fixpoint disjoint_blocks (rs : list Result) : Prop :=
  match rs with
  | [] => True
  | r :: rs => (forall b, blockOf r b = true -> blocksOf rs b = false) /\ disjoint_blocks rs
  end.

Lemma persistSpaceMerges_spec n allocated rs A db w :
  0 <= n < 2 ^ 38 -> Forall (byte_extent n) rs -> disjoint_blocks rs -> stored_chains n (wchain db w) A ->
  (forall b, blocksOf rs b = true -> A b = negb allocated) ->
  exists w', persistSpaceMerges w rs allocated = Some (inr w') /\
    stored_chains n (wchain db w') (fun b => if blocksOf rs b then allocated else A b) /\
    forall db' k, (forall i, 0 <= i < n -> k <> familySpaceKey i) -> wchain db' w' k = wchain db' w k.
Proof.
  intros Hn HF. unfold persistSpaceMerges. revert A w. induction HF as [|r rs Hr HF IH]; intros A w HD Hs HA.
  - exists w. split; [done|]. split; [done|]. done.
  - destruct HD as [HD1 HD2]. cbn [foldE]. rewrite (byte_extent_valid n) by done. cbn [negb].
    destruct (persist_one n allocated r A db w Hn Hr Hs) as (values & w1 & E1 & E2 & Hs1 & Ho1).
    { intros b Hb. apply HA. simpl. by rewrite Hb. }
    rewrite E1, E2. go_run. destruct (IH _ w1 HD2 Hs1) as (w2 & E3 & Hs2 & Ho2).
    { intros b Hb. destruct (blockOf r b) eqn:Eb; [by rewrite (HD1 b Eb) in Hb|]. apply HA. simpl. by rewrite Hb, orb_true_r. }
    exists w2. split; [exact E3|]. split.
    + eapply stored_ext; [done| |exact Hs2]. intros b _. simpl. by destruct (blockOf r b), (blocksOf rs b).
    + intros db' k Hk. rewrite Ho2, Ho1 by done. done.
Qed.
End stored.

(** ** Loading the allocator *)

Lemma land_bit b i : 0 <= i -> (Z.land b (Z.shiftl 1 i) =? 0) = negb (Z.testbit b i).
Proof.
  intros Hi. destruct (Z.testbit b i) eqn:E; simpl.
  - apply Z.eqb_neq. intros H0. pose proof (f_equal (fun x => Z.testbit x i) H0) as H1. simpl in H1.
    rewrite Z.land_spec, E, Z.shiftl_spec, Z.sub_diag, Z.bits_0 in H1 by done. done.
  - apply Z.eqb_eq. apply Z.bits_inj'. intros j Hj. rewrite Z.land_spec, Z.bits_0.
    destruct (decide (j = i)) as [->|Hne]; [by rewrite E|]. rewrite Z.shiftl_spec by done.
    destruct (decide (j < i)); [by rewrite (Z.testbit_neg_r 1), andb_false_r by lia|].
    replace (Z.testbit 1 (j - i)) with false; [apply andb_false_r|].
    symmetry. change 1 with (2 ^ 0). apply Z.pow2_bits_false. lia.
Qed.

Section load.
Context {T : Type} `{EA : ExtentAllocator T} `{EL : !ExtentAllocatorLaws T}.
Context (tot : Z) (A : Z -> bool).
Implicit Types s : @loadState T.

(** The allocator agrees with the bitmap up to the start of the current run;
    the run is a maximal stretch of allocated blocks ending at [p]; nothing
    from [p] on has been looked at. *)
Definition loaded (p : Z) (s : loadState) : Prop :=
  ea_ok (ls_alloc s) /\ ea_total (ls_alloc s) = tot /\
  ((runStart s < 0 /\ runLen s = 0 /\
    forall b, 0 <= b < tot -> ea_free (ls_alloc s) b = if b <? p then negb (A b) else true) \/
   (0 <= runStart s /\ 0 < runLen s /\ runStart s + runLen s = p /\
    (forall b, runStart s <= b < p -> A b = true) /\
    forall b, 0 <= b < tot -> ea_free (ls_alloc s) b = if b <? runStart s then negb (A b) else true)).

Lemma closeRun_spec p s :
  loaded p s -> p <= tot -> exists s', closeRun s = Some (inr s') /\ loaded p s' /\ runStart s' < 0.
Proof.
  intros (Ho & Ht & H) Hp. unfold closeRun. destruct H as [(H1 & H2 & H3)|(H1 & H2 & H3 & H4 & H5)].
  - rewrite (proj2 (Z.ltb_lt _ 0)) by done. exists s. split; [done|]. split; [|done]. split; [done|]. split; [done|]. by left.
  - rewrite (proj2 (Z.ltb_ge _ 0)) by done.
    destruct (ea_init_law (ls_alloc s) (runStart s) (runLen s) Ho) as (a' & -> & Ho' & Ht' & Hf).
    { unfold extent_in. simpl. lia. }
    eexists. split; [done|]. split; [|simpl; lia]. split; [done|]. split; [simpl; lia|]. left. simpl.
    split; [lia|]. split; [done|]. intros b Hb. rewrite Hf, H5 by done. unfold in_extent.
    destruct (b <? runStart s) eqn:E1, (b <? p) eqn:E2, (runStart s <=? b) eqn:E3, (b <? runStart s + runLen s) eqn:E4;
      bool_norm; simpl; rewrite ?andb_true_r; try lia; try done. by rewrite H4 by lia.
Qed.

Lemma loaded_free p q s :
  loaded p s -> runStart s < 0 -> p <= q -> (forall b, p <= b < q -> A b = false) -> loaded q s.
Proof.
  intros (Ho & Ht & H) Hr Hpq HA. split; [done|]. split; [done|]. destruct H as [(H1 & H2 & H3)|?]; [|lia]. left.
  split; [done|]. split; [done|]. intros b Hb. rewrite H3 by done.
  destruct (b <? p) eqn:E1, (b <? q) eqn:E2; bool_norm; try lia; try done. by rewrite HA by lia.
Qed.

Lemma loaded_extend p n s :
  loaded p s -> 0 <= p -> 0 < n -> (forall b, p <= b < p + n -> A b = true) -> loaded (p + n) (extendRunBy s p n).
Proof.
  intros (Ho & Ht & H) Hp Hn HA. split; [done|]. split; [done|]. right. unfold extendRunBy.
  destruct H as [(H1 & H2 & H3)|(H1 & H2 & H3 & H4 & H5)]; simpl.
  - rewrite (proj2 (Z.ltb_lt _ 0)) by done. split_and!; try lia; try done.
  - rewrite (proj2 (Z.ltb_ge _ 0)) by done. split_and!; try lia; try done.
    intros b Hb. destruct (decide (b < p)); [apply H4|apply HA]; lia.
Qed.

Lemma loadBits_spec b block valid s :
  loaded block s -> 0 <= block -> 0 <= valid <= 8 -> block + valid <= tot ->
  (forall j, 0 <= j < valid -> Z.testbit b (7 - j) = A (block + j)) ->
  exists s', loadBits b block valid s = Some (inr s') /\ loaded (block + valid) s'.
Proof.
  intros Hl Hb Hv Ht HA. apply (for_rangeE_ind (fun j s => loaded (block + j) s)); [lia|by rewrite Z.add_0_r|].
  intros j s1 Hj H1. rewrite land_bit, HA by lia. rewrite Z.add_assoc. destruct (A (block + j)) eqn:E; simpl.
  - eexists. split; [done|]. apply loaded_extend; [done|lia..|]. intros c Hc. by replace c with (block + j) by lia.
  - destruct (closeRun_spec _ s1 H1) as (s2 & -> & H2 & Hr); [lia|]. exists s2. split; [done|].
    eapply loaded_free; [exact H2|done|lia|]. intros c Hc. by replace c with (block + j) by lia.
Qed.

Lemma loadBytes_spec spaceStart value byteIndex s :
  0 <= spaceStart -> 0 <= byteIndex -> Forall byte_ok value ->
  (forall k, 0 <= k < 8 * zlen value -> bit value k = A (spaceStart + 8 * byteIndex + k)) ->
  loaded (Z.min tot (spaceStart + 8 * byteIndex)) s ->
  exists s', loadBytes tot spaceStart byteIndex value s = Some (inr s') /\
    loaded (Z.min tot (spaceStart + 8 * (byteIndex + zlen value))) s'.
Proof.
  revert byteIndex s. induction value as [|b value IH]; intros byteIndex s H0 Hi HF HA Hl; cbn [loadBytes].
  { exists s. split; [done|]. by rewrite Z.add_0_r. }
  assert (Hz : zlen (b :: value) = zlen value + 1) by (unfold zlen; simpl; lia). pose proof (zlen_nonneg value) as Hz0.
  inversion HF as [|? ? Hb HF']; subst. destruct (tot <=? spaceStart + byteIndex * 8) eqn:Et; bool_norm.
  { exists s. split; [done|]. replace (Z.min _ _) with tot in Hl by lia. by replace (Z.min _ _) with tot by lia. }
  replace (Z.min tot (spaceStart + 8 * byteIndex)) with (spaceStart + byteIndex * 8) in Hl by lia.
  set (block := spaceStart + byteIndex * 8) in *.
  set (valid := if tot <? block + 8 then tot - block else 8).
  assert (Hvalid : 0 < valid <= 8 /\ Z.min tot (block + 8) = block + valid) by (unfold valid; case_bool; lia).
  assert (Hbits : forall j, 0 <= j < 8 -> Z.testbit b (7 - j) = A (block + j)).
  { intros j Hj. rewrite <- (bit_at (b :: value) 0 j b) by done. rewrite Z.mul_0_r, Z.add_0_l, HA by lia. f_equal. lia. }
  assert (exists s1, (if b =? 0 then closeRun s
      else if (b =? 255) && (valid =? 8) then Some (inr (extendRunBy s block 8))
      else loadBits b block valid s) = Some (inr s1) /\ loaded (block + valid) s1) as (s1 & -> & H1).
  { destruct (b =? 0) eqn:E0; [|destruct ((b =? 255) && (valid =? 8)) eqn:Ef]; bool_norm.
    - destruct (closeRun_spec _ s Hl) as (s1 & -> & Hl1 & Hr); [lia|]. exists s1. split; [done|].
      eapply loaded_free; [exact Hl1|done|lia|]. intros c Hc. replace c with (block + (c - block)) by lia.
      rewrite <- Hbits by lia. subst b. apply Z.bits_0.
    - eexists. split; [done|]. replace valid with 8. apply loaded_extend; [done|lia..|].
      intros c Hc. replace c with (block + (c - block)) by lia. rewrite <- Hbits by lia.
      subst b. change 255 with (Z.ones 8). apply Z.ones_spec_low. lia.
    - apply loadBits_spec; [done|lia..|]. intros j Hj. apply Hbits. lia. }
  go_run. destruct (IH (byteIndex + 1) s1) as (s2 & -> & H2); [done|lia|done| | |].
  - intros k Hk. replace (spaceStart + 8 * (byteIndex + 1) + k) with (spaceStart + 8 * byteIndex + (8 + k)) by lia.
    rewrite <- HA by lia. unfold bit. rewrite zget_cons. rewrite (proj2 (Z.eqb_neq _ 0)) by dlia.
    do 2 f_equal; [f_equal; dlia|dlia].
  - replace (Z.min _ _) with (block + valid) by lia. done.
  - exists s2. split; [done|]. replace (byteIndex + zlen (b :: value)) with (byteIndex + 1 + zlen value) by lia. done.
Qed.
End load.

Section load_device.
Context `{L : PebbleLaws} `{J : JSONDecoder} {T : Type} `{EA : ExtentAllocator T} `{EL : !ExtentAllocatorLaws T}.

Lemma spaceKeyCount_spec size :
  0 < size -> size + SpaceSize < 2 ^ 63 ->
  0 < spaceKeyCount size /\ size <= SpaceSize * spaceKeyCount size /\ spaceKeyCount size < 2 ^ 40.
Proof.
  intros H1 H2. unfold spaceKeyCount. change SpaceSize with 16777216 in *.
  rewrite i64_small by (unfold is_i64; lia). rewrite Z.quot_div_nonneg by lia. dlia.
Qed.

Lemma loadAllocator_spec (d : BlockDevice) db A :
  0 < bd_size d -> bd_size d + SpaceSize < 2 ^ 63 ->
  ea_ok (bd_allocator d) -> ea_total (bd_allocator d) = bd_size d / BlockSize ->
  (forall b, 0 <= b < bd_size d / BlockSize -> ea_free (bd_allocator d) b = true) ->
  stored_chains (spaceKeyCount (bd_size d)) (chain db) A ->
  exists a, loadAllocator d db = Some (inr (set_allocator d a)) /\ ea_ok a /\ ea_total a = bd_size d / BlockSize /\
    forall b, 0 <= b < bd_size d / BlockSize -> ea_free a b = negb (A b).
Proof.
  intros H1 H2 Ho Ht Hf Hs. destruct (spaceKeyCount_spec (bd_size d) H1 H2) as (Hn & Hcov & _).
  unfold loadAllocator. rewrite Z.quot_div_nonneg by (done || lia). set (tot := bd_size d / BlockSize) in *.
  assert (Htot : 0 <= tot) by (apply Z.div_pos; [lia|done]).
  assert (Hmin : tot <= spaceBits * spaceKeyCount (bd_size d)).
  { unfold tot. apply Z.div_le_upper_bound; [done|]. change SpaceSize with 16777216 in *. change BlockSize with 4096.
    change spaceBits with 4096. lia. }
  destruct (for_rangeE_ind (fun i s => loaded tot A (Z.min tot (spaceBits * i)) s) 0 (spaceKeyCount (bd_size d))
    (fun spaceIndex s => value ←! loadSpaceValue db spaceIndex ∅;
       loadBytes tot (spaceIndex * blocksPerSpace) 0 value s) (mkLoadState (-1) 0 (bd_allocator d)))
    as (s & -> & Hl); [lia| | |].
  - split; [done|]. split; [done|]. left. simpl. split; [lia|]. split; [done|]. intros b Hb.
    rewrite (proj2 (Z.ltb_ge b _)) by lia. by apply Hf.
  - intros i s Hi Hl. destruct (stored_load _ _ _ _ Hs Hi) as (v & -> & [Hv Lv] & Hb). go_run.
    change blocksPerSpace with spaceBits. destruct (loadBytes_spec tot A (i * spaceBits) v 0 s) as (s' & -> & Hl').
    + apply Z.mul_nonneg_nonneg; [lia|done].
    + done.
    + done.
    + intros k Hk. rewrite Hb by (unfold spaceBits; lia). f_equal. lia.
    + by replace (i * spaceBits + 8 * 0) with (spaceBits * i) by lia.
    + exists s'. split; [done|]. rewrite Lv in Hl'.
      by replace (i * spaceBits + 8 * (0 + SpaceLen)) with (spaceBits * (i + 1)) in Hl' by (unfold spaceBits; lia).
  - go_run. replace (Z.min _ _) with tot in Hl by lia.
    destruct (closeRun_spec tot A tot s Hl) as (s' & -> & (Ho' & Ht' & Hd) & Hr); [lia|]. go_run.
    eexists. split; [done|]. split; [done|]. split; [done|]. intros b Hb.
    destruct Hd as [(_ & _ & H3)|?]; [|lia]. rewrite H3 by done. by rewrite (proj2 (Z.ltb_lt b tot)) by lia.
Qed.
End load_device.
