(* ===== verification/BlockDeviceThms.v ===== *)
(** * Correctness of the block device

    Bitmap updates, allocation in bytes, and crash safety: the allocator that
    is loaded from the store holds exactly the committed extents. *)

From stdpp Require Import base decidable list numbers option strings gmap relations.
From Stdlib Require Import ZArith Lia.
From S2P Require Import Prelude Words Bytes Moss MossBitmap MossThms Allocator AllocatorInv AllocatorMark AllocatorScan Extents AllocatorOps AllocatorSpec SpaceBitmap SpaceBitmapSpec Pebble WriteBatch BatchPebble BatchThms BlockDevice BlockDeviceSpec.

(** ** Block and byte extents *)

Definition byteResult (r : Result) : Result := mkResult (Offset r * BlockSize) (Size r * BlockSize).

Lemma toBytes_spec tot rs :
  tot * BlockSize < 2 ^ 63 -> Forall (extent_in tot) rs -> toBytes rs = map byteResult rs.
Proof.
  intros Ht HF. unfold toBytes. induction HF as [|r rs (H1 & H2 & H3) _ IH]; [done|]. simpl. f_equal; [|done].
  unfold byteResult. change BlockSize with 4096 in *. rewrite !i64_small by (unfold is_i64; lia). done.
Qed.

Lemma blockOf_byteResult r b : blockOf (byteResult r) b = in_result r b.
Proof.
  unfold blockOf, byteResult, in_result, in_extent, endBlock, between. simpl. change BlockSize with 4096.
  rewrite Z.div_mul by done. replace ((Offset r * 4096 + Size r * 4096 + 4096 - 1) / 4096) with (Offset r + Size r) by dlia.
  done.
Qed.

Lemma blocksOf_toBytes rs b : blocksOf (map byteResult rs) b = covers rs b.
Proof.
  unfold blocksOf, covers. induction rs as [|r rs IH]; simpl; [done|]. by rewrite blockOf_byteResult, IH.
Qed.

Lemma disjoint_toBytes tot rs :
  Forall (extent_in tot) rs -> disjoint_extents rs -> disjoint_blocks (map byteResult rs).
Proof.
  induction rs as [|r rs IH]; intros HF HD; [done|]. pose proof HF as HF0. apply Forall_cons in HF as [Hr HF].
  pose proof HD as [_ HD']. split; [|by apply IH]. intros b Hb. rewrite blockOf_byteResult in Hb.
  change (blocksOf (map byteResult rs) b = false). rewrite blocksOf_toBytes. by eapply disjoint_covers.
Qed.

Lemma byteResult_extent n tot r : tot * BlockSize <= SpaceSize * n -> extent_in tot r -> byte_extent n (byteResult r).
Proof.
  intros Hn (H1 & H2 & H3). unfold byte_extent, byteResult. simpl. change BlockSize with 4096 in *.
  split; [lia|]. split; [lia|]. split; [apply Z.mod_mul; lia|]. lia.
Qed.

Lemma fitBlock_blocks size :
  0 < size < 2 ^ 62 -> fitBlock size ÷ BlockSize = (size + BlockSize - 1) / BlockSize.
Proof.
  intros H. unfold fitBlock. change BlockSize with 4096. rewrite Z.rem_mod_nonneg by lia. case_bool.
  - rewrite Z.quot_div_nonneg by lia. dlia.
  - rewrite (Z.quot_div_nonneg size) by lia. rewrite i64_small by (unfold is_i64; dlia).
    rewrite Z.quot_mul by lia. dlia.
Qed.

(** ** Bitmap updates *)

(** The operands of an extent do to the stored bitmap exactly what
    setting its bits one by one does: for an aligned extent inside one bitmap
    value, [spaceUpdateValues] yields a single operand, and merging it into
    any stored value gives the value [setSpaceBits] computes for the extent's
    blocks, for allocation and for release. *)
Theorem merge_equals_setSpaceBits v i offset size allocated :
  space_value v -> 0 <= i < 2 ^ 38 -> offset mod BlockSize = 0 ->
  SpaceSize * i <= offset -> 0 < size -> offset + size <= SpaceSize * (i + 1) ->
  exists op v', spaceUpdateValues offset size allocated = Some (inr [op]) /\
    mossMergeValues (familySpaceKey i) v op = Some (inr v') /\
    setSpaceBits v (offset / BlockSize - spaceBits * i) (fitBlock size ÷ BlockSize) allocated = Some v'.
Proof.
  intros [Hv Lv] Hi Ha Ho Hs He. change SpaceSize with 16777216 in *.
  destruct (spaceUpdateValues_spec offset size allocated) as (values & E & Ll & HV); [lia|done..|lia|].
  change SpaceSize with 16777216 in *.
  replace (offset / 16777216) with i in * by dlia. replace ((offset + size - 1) / 16777216) with i in Ll by dlia.
  destruct values as [|op [|? ?]]; [by unfold zlen in Ll; simpl in Ll; lia| |unfold zlen in Ll; simpl in Ll; lia].
  specialize (HV 0 op eq_refl). cbv zeta in HV. rewrite Z.add_0_r in HV. set (lo := offset / BlockSize - spaceBits * i) in *.
  destruct (mossBitmapMerge_base v op (conj Hv Lv) (proj1 HV)) as (v' & Em & [Hv' Lv'] & Hb).
  assert (Hend : endBlock offset size - spaceBits * i = lo + fitBlock size ÷ BlockSize).
  { rewrite fitBlock_blocks by lia. unfold lo, endBlock. change BlockSize with 4096 in *. dlia. }
  assert (Hlo : 0 <= lo /\ 0 <= fitBlock size ÷ BlockSize /\ lo + fitBlock size ÷ BlockSize <= spaceBits).
  { rewrite <- Hend. rewrite fitBlock_blocks by lia. unfold lo, endBlock. change BlockSize with 4096 in *. change spaceBits with 4096. dlia. }
  destruct (setSpaceBits_spec v lo (fitBlock size ÷ BlockSize) allocated Hv) as (v2 & Es & H2 & L2 & B2);
    [lia|lia|rewrite Lv; apply Hlo|].
  exists op, v'. split; [done|]. rewrite mossMergeValues_bitmap; [|apply familySpaceKey_bitmap|by rewrite Lv].
  split; [done|]. rewrite Es. f_equal. apply bytes_ext; [done..|lia|]. intros k Hk.
  assert (Hk' : 0 <= k < spaceBits) by (unfold spaceBits; lia).
  rewrite B2, Hb by done. destruct (proj2 HV k Hk') as [-> ->]. rewrite Hend.
  destruct (between lo _ k), allocated, (bit v k); done.
Qed.

Lemma merge_equals_setSpaceBits_witness :
  exists op v', spaceUpdateValues (SpaceSize + 4096 * 5) 10000 true = Some (inr [op]) /\
    mossMergeValues (familySpaceKey 1) (zmake SpaceLen 0) op = Some (inr v') /\
    setSpaceBits (zmake SpaceLen 0) ((SpaceSize + 4096 * 5) / BlockSize - spaceBits * 1) (fitBlock 10000 ÷ BlockSize) true = Some v'.
Proof.
  apply (merge_equals_setSpaceBits (zmake SpaceLen 0) 1 (SpaceSize + 4096 * 5) 10000 true);
    [split; [apply zmake_ok; unfold byte_ok; lia|reflexivity]|lia|reflexivity|vm_compute; congruence..].
Defined.

(** ** The device system *)

Section system.
Context `{L : PebbleLaws} `{J : JSONDecoder} {T : Type} `{EA : ExtentAllocator T} `{EL : !ExtentAllocatorLaws T}.

(** The store's commits do not fail. *)
Definition healthy : Prop := forall (db : DB) b, exists db', BatchCommit db b = (db', None).

(** A commit that fails leaves the store as it was. *)
Definition cleanFailure : Prop :=
  forall (db : DB) b db' e, BatchCommit db b = (db', Some e) -> forall k, chain db' k = chain db k.

Lemma healthy_clean : healthy -> cleanFailure.
Proof. intros HH db b db' e E. destruct (HH db b) as [db2 E2]. by rewrite E in E2. Qed.

(** A device size the code can open: whole blocks, no overflow. *)
Definition device_size (size : Z) : Prop := BlockSize <= size /\ size mod BlockSize = 0 /\ size + SpaceSize < 2 ^ 61.

Lemma device_size_blocks size :
  device_size size -> 0 < size / BlockSize <= 2 ^ 62 /\ size / BlockSize * BlockSize = size /\
    0 < spaceKeyCount size < 2 ^ 38 /\ size <= SpaceSize * spaceKeyCount size.
Proof.
  unfold device_size. change BlockSize with 4096. change SpaceSize with 16777216. intros (H1 & H2 & H3).
  destruct (spaceKeyCount_spec size) as (N1 & N2 & _); [lia|change SpaceSize with 16777216; lia|].
  change SpaceSize with 16777216 in *. split; [dlia|]. split; [dlia|]. split; [|done].
  unfold spaceKeyCount in *. change SpaceSize with 16777216 in *. rewrite i64_small in * by (unfold is_i64; lia).
  rewrite Z.quot_div_nonneg in * by lia. dlia.
Qed.

(** A request whose consumer succeeds: a commit that fails applied the whole
    batch or nothing. *)
Lemma customizeOperateData_cases (db : DB) lun (consumer : RequestConsumer) w :
  consumer db (NewWriteBatch db lun) = Some (inr w) ->
  exists db' err, customizeOperateData db lun consumer = Some (db', err) /\ BatchCommit db (wb_batch w) = (db', err) /\
    match err with
    | None => forall k, chain db' k = wchain db w k
    | Some _ => (forall k, chain db' k = chain db k) \/ (forall k, chain db' k = wchain db w k)
    end.
Proof.
  intros Hc. unfold customizeOperateData, flush. set (req := newRequest 0 consumer false).
  change (execOrder [req]) with [req]. cbn [foldE].
  change (handleRequest db (NewWriteBatch db lun) req) with (consumer db (NewWriteBatch db lun)).
  rewrite Hc. go_run. unfold Commit. destruct (BatchCommit db (wb_batch w)) as [db' err] eqn:E. simpl.
  exists db', err. split; [done|]. split; [done|].
  destruct err as [e|]; [exact (BatchCommit_err _ _ _ _ E)|exact (BatchCommit_ok _ _ _ E)].
Qed.

Lemma put_familySpaceKey w i v :
  exists w', put w (familySpaceKey i) v = Some (inr w') /\
    forall (db : DB) k, wchain db w' k = if decide (k = familySpaceKey i) then [v] else wchain db w k.
Proof.
  destruct (put_spec w (familySpaceKey i) v) as (w' & E & _ & C). exists w'. split; [done|]. exact C.
Qed.

Lemma initConsumer_spec (db : DB) w start end_ :
  0 <= start <= end_ -> end_ < 2 ^ 38 ->
  exists w', initConsumer start end_ db w = Some (inr w') /\
    (forall i, start <= i < end_ -> wchain db w' (familySpaceKey i) = [zmake SpaceLen 0]) /\
    (forall k, (forall i, start <= i < end_ -> k <> familySpaceKey i) -> wchain db w' k = wchain db w k).
Proof.
  intros Hs He. apply (for_rangeE_ind (fun j w' =>
    (forall i, start <= i < j -> wchain db w' (familySpaceKey i) = [zmake SpaceLen 0]) /\
    (forall k, (forall i, start <= i < j -> k <> familySpaceKey i) -> wchain db w' k = wchain db w k)));
    [lia|split; [lia|done]|].
  intros j w1 Hj [I1 I2]. destruct (put_familySpaceKey w1 j (zmake SpaceLen 0)) as (w2 & E & C).
  exists w2. split; [done|]. split.
  - intros i Hi. rewrite C. case_decide as Hd; [done|]. apply I1. destruct (decide (i = j)); [by subst|lia].
  - intros k Hk. rewrite C, decide_False by (apply Hk; lia). apply I2. intros i Hi. apply Hk. lia.
Qed.

(** Formatting is done, or a commit failed; a formatted device is left alone. *)
Lemma tryInitBlockSpace_cases (d : @BlockDevice T) (db : DB) A :
  device_size (bd_size d) ->
  (stored_chains (spaceKeyCount (bd_size d)) (chain db) A \/
   (chain db (familySpaceKey 0) = [] /\ forall b, A b = false)) ->
  (exists db', tryInitBlockSpace d db = Some (inr db') /\ stored_chains (spaceKeyCount (bd_size d)) (chain db') A) \/
  (exists e, tryInitBlockSpace d db = Some (inl e) /\ ~ healthy /\ ~ stored_chains (spaceKeyCount (bd_size d)) (chain db) A).
Proof.
  intros Hd HA. destruct (device_size_blocks _ Hd) as (_ & _ & Hn & _). unfold tryInitBlockSpace, get. go_run.
  destruct HA as [HA|[H0 HA]].
  - destruct (stored_read _ _ _ 0 HA) as (v & -> & _); [lia|]. go_run. eauto.
  - pose proof (DBGet_reads db (familySpaceKey 0)) as R. rewrite H0 in R. cbn [reads] in R.
    assert (Hno : ~ stored_chains (spaceKeyCount (bd_size d)) (chain db) A)
      by (intros HS; destruct (stored_read _ _ _ 0 HS) as (v & Ev & _); [lia|]; congruence).
    rewrite R. go_run. set (n := spaceKeyCount (bd_size d)) in *. clearbody n.
    destruct (for_rangeE_cases (fun j db' => forall i, 0 <= i < Z.min n (1000 * j) -> chain db' (familySpaceKey i) = [zmake SpaceLen 0]) (fun _ => ~ healthy)
      0 ((n + 999) / 1000) (fun i db =>
        match customizeOperateData db (bd_name d) (initConsumer (1000 * i) (if n <? 1000 * i + 1000 then n else 1000 * i + 1000)) with
        | None => None
        | Some (_, Some err) => Some (inl err)
        | Some (db, None) => Some (inr db)
        end) db)
      as [(db' & E & Hdb)|(e & E & He)]; [dlia|lia| | |right; by exists e].
    + intros j db1 Hj Hi1. set (e := if n <? 1000 * j + 1000 then n else 1000 * j + 1000).
      assert (He : e = Z.min n (1000 * (j + 1))) by (unfold e; case_bool; lia).
      destruct (initConsumer_spec db1 (NewWriteBatch db1 (bd_name d)) (1000 * j) e) as (w & Ew & W1 & W2); [dlia|lia|].
      destruct (customizeOperateData_cases db1 (bd_name d) (initConsumer (1000 * j) e) w Ew) as (db2 & [err|] & -> & Ec & C2).
      { right. exists err. split; [done|]. intros HH. destruct (HH db1 (wb_batch w)) as [db3 E3]. by rewrite Ec in E3. }
      left. exists db2. split; [done|]. intros i Hi. rewrite C2.
      destruct (decide (1000 * j <= i)); [apply W1; lia|]. rewrite W2.
      * rewrite clean_new. apply Hi1. lia.
      * intros i' Hi' Ek. apply familySpaceKey_inj in Ek; lia.
    + left. exists db'. split; [done|]. intros i Hi. exists (zmake SpaceLen 0), []. rewrite Hdb by dlia. split; [done|].
      split; [split; [by apply zmake_ok|done]|]. constructor. intros k _. by rewrite bit_zmake0, HA.
Qed.

(** The device, its store, the extents committed to the bitmap and the
    extents allocated but not committed. *)
Record system := mkSystem {
  sys_dev : @BlockDevice T; sys_db : DB; committed : list Result; pending : list Result }.

Inductive dev_step : system -> system -> Prop :=
  (** a client allocates *)
  | dev_alloc d db C P size d' bytes_ blocks :
      0 < size < 2 ^ 61 -> Alloc d size = Some (d', inr (bytes_, blocks)) ->
      dev_step (mkSystem d db C P) (mkSystem d' db C (P ++ blocks))
  (** a client gives up before committing *)
  | dev_rollback d db C P blocks P' d' :
      P ≡ₚ blocks ++ P' -> RollbackAlloc d blocks = Some d' ->
      dev_step (mkSystem d db C P) (mkSystem d' db C P')
  (** the allocation is committed through a batch that holds nothing else
      about the bitmap *)
  | dev_commit d db C P blocks P' w w' db' :
      P ≡ₚ blocks ++ P' -> clean db w -> PersistAllocBatch w (toBytes blocks) = Some (inr w') ->
      BatchCommit db (wb_batch w') = (db', None) ->
      dev_step (mkSystem d db C P) (mkSystem d db' (C ++ blocks) P')
  (** the commit fails and the client keeps what it has *)
  | dev_commit_failed d db C P blocks P' w w' db' e :
      P ≡ₚ blocks ++ P' -> clean db w -> PersistAllocBatch w (toBytes blocks) = Some (inr w') ->
      BatchCommit db (wb_batch w') = (db', Some e) -> (forall k, chain db' k = chain db k) ->
      dev_step (mkSystem d db C P) (mkSystem d db' C P)
  (** the process dies and the device is opened again *)
  | dev_crash d db C P d' db' :
      newBlockDevice (bd_name d) (bd_size d) db = Some (inr (d', db')) ->
      dev_step (mkSystem d db C P) (mkSystem d' db' C []).

Record sys_inv (size : Z) (s : system) : Prop := mk_sys_inv {
  si_size : bd_size (sys_dev s) = size;
  si_ok : ea_ok (bd_allocator (sys_dev s));
  si_total : ea_total (bd_allocator (sys_dev s)) = size / BlockSize;
  si_in : Forall (extent_in (size / BlockSize)) (committed s ++ pending s);
  si_disjoint : disjoint_extents (committed s ++ pending s);
  si_free : forall b, 0 <= b < size / BlockSize ->
    ea_free (bd_allocator (sys_dev s)) b = negb (covers (committed s ++ pending s) b);
  si_stored : stored_chains (spaceKeyCount size) (chain (sys_db s)) (covers (committed s));
}.

(** A device that was opened, with exactly the blocks of [A] taken. *)
Record opened (name : string) (size : Z) (A : Z -> bool) (d : @BlockDevice T) (db : DB) : Prop := mk_opened {
  od_name : bd_name d = name;
  od_size : bd_size d = size;
  od_ok : ea_ok (bd_allocator d);
  od_total : ea_total (bd_allocator d) = size / BlockSize;
  od_free : forall b, 0 <= b < size / BlockSize -> ea_free (bd_allocator d) b = negb (A b);
  od_stored : stored_chains (spaceKeyCount size) (chain db) A;
}.

Lemma newBlockDevice_cases name size (db : DB) A :
  device_size size ->
  (stored_chains (spaceKeyCount size) (chain db) A \/ (chain db (familySpaceKey 0) = [] /\ forall b, A b = false)) ->
  (exists (d : @BlockDevice T) db', newBlockDevice name size db = Some (inr (d, db')) /\ opened name size A d db') \/
  (exists e, newBlockDevice (T := T) name size db = Some (inl e) /\ ~ healthy /\ ~ stored_chains (spaceKeyCount size) (chain db) A).
Proof.
  intros Hd HA. destruct (device_size_blocks _ Hd) as (Hb & _ & _ & _). unfold newBlockDevice.
  assert (Hpos : 0 < size) by (destruct Hd; change BlockSize with 4096 in *; lia).
  rewrite Z.quot_div_nonneg by (done || lia). destruct (ea_new_law _ Hb) as (a & -> & Ho & Ht & Hf).
  destruct (tryInitBlockSpace_cases (mkBlockDevice name size a) db A Hd HA) as [(db' & -> & Hs)|(e & -> & He)]; go_run; [|right; by exists e].
  destruct (loadAllocator_spec (mkBlockDevice name size a) db' A) as (a' & -> & Ho' & Ht' & Hf'); simpl; try done.
  { destruct Hd as (_ & _ & ?). simpl in *. lia. }
  go_run. left. eexists _, _. split; [done|]. by split.
Qed.

(** A new device, when commits succeed. *)
Lemma newBlockDevice_new name size (db : DB) :
  healthy -> device_size size -> chain db (familySpaceKey 0) = [] ->
  exists (d : @BlockDevice T) db', newBlockDevice name size db = Some (inr (d, db')) /\ opened name size (fun _ => false) d db'.
Proof. intros HH Hd H0. destruct (newBlockDevice_cases name size db (fun _ => false) Hd) as [?|(e & _ & ? & _)]; [by right|done|done]. Qed.

(** A new device that was opened. *)
Lemma newBlockDevice_first name size (db : DB) (d : @BlockDevice T) db' :
  device_size size -> chain db (familySpaceKey 0) = [] -> newBlockDevice name size db = Some (inr (d, db')) ->
  opened name size (fun _ => false) d db'.
Proof.
  intros Hd H0 E. destruct (newBlockDevice_cases name size db (fun _ => false) Hd) as [(d1 & db1 & E1 & H)|(e & E1 & _)]; [by right| |];
    rewrite E in E1; [by injection E1 as <- <-|done].
Qed.

(** A formatted device always opens. *)
Lemma newBlockDevice_again name size (db : DB) A :
  device_size size -> stored_chains (spaceKeyCount size) (chain db) A ->
  exists (d : @BlockDevice T) db', newBlockDevice name size db = Some (inr (d, db')) /\ opened name size A d db'.
Proof. intros Hd HA. destruct (newBlockDevice_cases name size db A Hd) as [?|(e & _ & _ & ?)]; [by left|done|done]. Qed.

Lemma Alloc_cases (d : @BlockDevice T) size :
  ea_ok (bd_allocator d) -> ea_total (bd_allocator d) * BlockSize < 2 ^ 63 -> 0 < size < 2 ^ 62 ->
  let want := (size + BlockSize - 1) / BlockSize in
  let free := ea_free (bd_allocator d) in
  let tot := ea_total (bd_allocator d) in
  (count free 0 tot < want /\ exists e, Alloc d size = Some (d, inl e)) \/
  (want <= count free 0 tot /\ exists a' blocks, Alloc d size = Some (set_allocator d a', inr (map byteResult blocks, blocks)) /\
     ea_ok a' /\ ea_total a' = tot /\ Forall (extent_in tot) blocks /\ disjoint_extents blocks /\ sizes blocks = want /\
     (forall b, covers blocks b = true -> free b = true) /\ (forall b, ea_free a' b = free b && negb (covers blocks b))).
Proof.
  intros Ho Ht Hs want free tot. unfold Alloc. rewrite (proj2 (Z.leb_gt size 0)), fitBlock_blocks by lia. fold want.
  assert (Hw : 0 < want) by (unfold want; change BlockSize with 4096; dlia).
  destruct (ea_allocate_law (bd_allocator d) want Ho) as (a' & r & -> & Ho' & Ht' & Hr). go_step. fold free tot in Hr.
  destruct r as [e|rs].
  - destruct Hr as [-> Hn]. left. split; [lia|]. destruct d. eauto.
  - destruct Hr as (_ & HF & HD & Hsz & Hc & Hfr). right.
    assert (want <= count free 0 tot).
    { rewrite <- Hsz, (sizes_count tot) by done. rewrite (count_partition free (covers rs)).
      pose proof (count_bounds (fun b => free b && negb (covers rs b)) 0 tot).
      rewrite (count_ext (covers rs) (fun b => free b && covers rs b)); [lia|].
      intros b _. destruct (covers rs b) eqn:E; [by rewrite (Hc b E)|by rewrite andb_false_r]. }
    split; [done|]. exists a', rs. rewrite <- (toBytes_spec tot) by (done || lia).
    split; [|by split_and!]. destruct rs; [simpl in Hsz; unfold sizes in Hsz; simpl in Hsz; lia|done].
Qed.

(** Any part of the pending extents can be persisted, and is then part of
    the stored bitmap. *)
Lemma persist_pending size d db C P blocks P' w :
  device_size size -> sys_inv size (mkSystem d db C P) -> P ≡ₚ blocks ++ P' -> clean db w ->
  exists w', PersistAllocBatch w (toBytes blocks) = Some (inr w') /\
    stored_chains (spaceKeyCount size) (wchain db w') (covers (C ++ blocks)).
Proof.
  intros Hd [I1 I2 I3 I4 I5 I6 I7] HP Hcl. destruct (device_size_blocks _ Hd) as (Hb & Hbs & Hn & Hcov). simpl in *.
  assert (HP' : C ++ P ≡ₚ (C ++ blocks) ++ P') by (rewrite HP; by rewrite (assoc_L (++))).
  rewrite HP' in I4. apply (disjoint_perm _ _ HP') in I5. pose proof I4 as I4'. apply Forall_app in I4' as [F1 F2].
  apply (disjoint_app_covers _ _ _ I4) in I5 as (D1 & _ & _).
  apply (disjoint_app_covers _ _ _ F1) in D1 as (_ & D5 & D6). apply Forall_app in F1 as [_ F4].
  assert (Hov : size / BlockSize * BlockSize < 2 ^ 63) by (rewrite Hbs; destruct Hd as (_ & _ & ?); change SpaceSize with 16777216 in *; lia).
  unfold PersistAllocBatch. rewrite (toBytes_spec (size / BlockSize)) by done.
  destruct (persistSpaceMerges_spec (spaceKeyCount size) true (map byteResult blocks) (covers C) db w) as (w2 & E2 & Hs2 & _).
  - lia.
  - apply Forall_map. eapply Forall_impl; [exact F4|]. intros r. apply byteResult_extent. lia.
  - by eapply disjoint_toBytes.
  - eapply stored_ext; [|done|exact I7]. intros i _. by rewrite Hcl.
  - intros b Hb'. rewrite blocksOf_toBytes in Hb'. destruct (covers C b) eqn:EC; [|done]. by rewrite (D6 b EC) in Hb'.
  - exists w2. split; [done|]. eapply stored_ext; [done| |exact Hs2].
    intros b _. cbv beta. rewrite blocksOf_toBytes, covers_app. destruct (covers blocks b); [by rewrite orb_true_r|by rewrite orb_false_r].
Qed.

Lemma sys_step_preserves size s s' :
  device_size size -> sys_inv size s -> dev_step s s' -> sys_inv size s'.
Proof.
  intros Hd HI HS. destruct (device_size_blocks _ Hd) as (Hb & Hbs & Hn & Hcov).
  destruct HS as [d db C P sz d' by_ blocks Hsz E|d db C P blocks P' d' HP E|d db C P blocks P' w w' db' HP Hcl E Ec|d db C P blocks P' w w' db' e HP Hcl E Ec Hch|d db C P d' db' E];
    pose proof HI as [I1 I2 I3 I4 I5 I6 I7]; simpl in *.
  - destruct (Alloc_cases d sz I2) as [(_ & e & E')|(_ & a' & bl & E' & Ho' & Ht' & HF & HD & _ & Hc & Hf)];
      [rewrite I3, Hbs; destruct Hd as (_ & _ & ?); change SpaceSize with 16777216 in *; lia|lia|by rewrite E' in E|].
    rewrite E' in E. injection E as <- <- <-. rewrite I3 in *. split; simpl; try done.
    + rewrite (assoc_L (++)). by apply Forall_app.
    + rewrite (assoc_L (++)). apply (disjoint_app_covers (size / BlockSize)); [by apply Forall_app|].
      split; [done|]. split; [done|]. intros b Hb'. destruct (covers bl b) eqn:Eb; [|done].
      pose proof (extent_in_covers _ _ _ I4 Hb'). specialize (Hc b Eb). rewrite I6, Hb' in Hc by done. done.
    + intros b Hb'. rewrite Hf, I6, (assoc_L (++)), (covers_app (C ++ P)) by done. by rewrite negb_orb.
  - assert (HP' : C ++ P ≡ₚ blocks ++ (C ++ P')).
    { rewrite HP. rewrite !(assoc_L (++)). apply Permutation_app_tail, Permutation_app_comm. }
    rewrite HP' in I4. apply (disjoint_perm _ _ HP') in I5.
    pose proof I4 as I4'. apply Forall_app in I4' as [F1 F2].
    apply (disjoint_app_covers _ _ _ I4) in I5 as (D1 & D2 & D3).
    assert (Hfree : forall b, 0 <= b < size / BlockSize -> ea_free (bd_allocator d) b = negb (covers blocks b || covers (C ++ P') b)).
    { intros b Hb'. rewrite I6 by done. f_equal. rewrite (covers_perm _ _ b HP'). apply covers_app. }
    destruct blocks as [|r0 rs0]; [simpl in E; injection E as <-; split; simpl; try done; intros b Hb'; by rewrite Hfree|].
    unfold RollbackAlloc in E. destruct (ea_release_law (bd_allocator d) (r0 :: rs0) I2) as (a' & Er & Ho' & Ht' & Hf).
    + by rewrite I3.
    + done.
    + intros b Hb'. pose proof (extent_in_covers _ _ _ F1 Hb'). rewrite Hfree by done. by rewrite Hb'.
    + rewrite Er in E. injection E as <-. split; simpl; try done; [congruence|].
      intros b Hb'. rewrite Hf, Hfree by done. destruct (covers (r0 :: rs0) b) eqn:Eb; simpl; [by rewrite (D3 b Eb)|by rewrite orb_false_r].
  - assert (HP' : C ++ P ≡ₚ (C ++ blocks) ++ P') by (rewrite HP; by rewrite (assoc_L (++))).
    rewrite HP' in I4. apply (disjoint_perm _ _ HP') in I5.
    split; simpl; try done.
    + intros b Hb'. rewrite I6 by done. by rewrite (covers_perm _ _ b HP').
    + eapply stored_ext; [intros i _; symmetry; exact (BatchCommit_ok _ _ _ Ec _)|done|].
      destruct (persist_pending size d db C P blocks P' w Hd HI HP Hcl) as (w2 & E2 & Hs2).
      rewrite E2 in E. by injection E as ->.
  - split; simpl; try done. eapply stored_ext; [intros i _; symmetry; apply Hch|done|exact I7].
  - destruct (newBlockDevice_again (bd_name d) size db (covers C) Hd I7) as (d2 & db2 & E2 & [_ Hsz Ho Ht Hf Hs]). rewrite I1, E2 in E. injection E as <- <-.
    pose proof I4 as I4'. apply Forall_app in I4' as [F1 F2]. apply (disjoint_app_covers _ _ _ I4) in I5 as (D1 & _).
    split; simpl; rewrite ?app_nil_r; done.
Qed.

(** [Alloc] in bytes.  For every positive size it answers an error and
    changes nothing exactly when fewer blocks are free than the size needs,
    rounded up; otherwise it returns disjoint block-aligned extents inside
    the device, all free before, of exactly that many blocks, and marks
    exactly them allocated. *)
Theorem Alloc_correct (d : @BlockDevice T) size :
  ea_ok (bd_allocator d) -> ea_total (bd_allocator d) * BlockSize < 2 ^ 63 -> 0 < size < 2 ^ 62 ->
  let want := (size + BlockSize - 1) / BlockSize in
  let free := ea_free (bd_allocator d) in
  let tot := ea_total (bd_allocator d) in
  (count free 0 tot < want /\ exists e, Alloc d size = Some (d, inl e)) \/
  (want <= count free 0 tot /\ exists a' blocks, Alloc d size = Some (set_allocator d a', inr (map byteResult blocks, blocks)) /\
     ea_ok a' /\ ea_total a' = tot /\ Forall (extent_in tot) blocks /\ disjoint_extents blocks /\ sizes blocks = want /\
     (forall b, covers blocks b = true -> free b = true) /\ (forall b, ea_free a' b = free b && negb (covers blocks b))).
Proof. apply Alloc_cases. Qed.

(** C16: Crash safety of space management.  Start from a freshly formatted
    device and let clients allocate, roll back and commit allocations in any
    order, with commits that succeed or that fail and change nothing, with the
    process dying and the device being opened again at any
    point.  Then always: the committed and the pending extents are pairwise
    disjoint and exactly they are not free; committing any pending extents
    cannot fail in the bitmap code; and opening the device again succeeds
    and yields an allocator in which exactly the committed extents are
    allocated: nothing committed is lost or handed out again, and nothing
    uncommitted leaks. *)
Theorem crash_safety name size (db0 db1 : DB) (d0 : @BlockDevice T) s :
  device_size size -> chain db0 (familySpaceKey 0) = [] ->
  newBlockDevice name size db0 = Some (inr (d0, db1)) ->
  rtc dev_step (mkSystem d0 db1 [] []) s ->
  disjoint_extents (committed s ++ pending s) /\
  (forall b, 0 <= b < size / BlockSize ->
     ea_free (bd_allocator (sys_dev s)) b = negb (covers (committed s ++ pending s) b)) /\
  (forall blocks P' w, pending s ≡ₚ blocks ++ P' -> clean (sys_db s) w ->
     exists w', PersistAllocBatch w (toBytes blocks) = Some (inr w')) /\
  exists (d' : @BlockDevice T) db', newBlockDevice name size (sys_db s) = Some (inr (d', db')) /\
    forall b, 0 <= b < size / BlockSize -> ea_free (bd_allocator d') b = negb (covers (committed s) b).
Proof.
  intros Hd H0 E HR. destruct (newBlockDevice_first name size db0 d0 db1 Hd H0 E) as [_ Hsz Ho Ht Hf Hs].
  assert (HI : sys_inv size s).
  { assert (HI0 : sys_inv size (mkSystem d0 db1 [] [])) by (split; simpl; try done; constructor).
    clear -HR HI0 Hd. revert HR HI0. generalize (mkSystem d0 db1 [] []). intros x HR.
    induction HR as [|x y z Hxy _ IH]; [done|]. intros HI. apply IH. by eapply sys_step_preserves. }
  pose proof HI as [I1 I2 I3 I4 I5 I6 I7]. split; [done|]. split; [done|]. split.
  - intros blocks P' w HP Hcl. destruct s as [d db C P]. simpl in *.
    destruct (persist_pending size d db C P blocks P' w Hd HI HP Hcl) as (w' & ? & _). eauto.
  - destruct (newBlockDevice_again name size (sys_db s) (covers (committed s)) Hd I7) as (d' & db' & ? & [_ _ _ _ ? _]). eauto.
Qed.
End system.

(** ** Witnesses: the in-memory store and [AllocatorV3] *)

#[local] Existing Instances MemStore.ops MemStore.laws.
#[local] Existing Instance demoDecoder.

Definition demoDevice : @BlockDevice AllocatorV3 :=
  mkBlockDevice "lun" 40960 (match NewAllocatorV3 10 with Some a => a | None => mkAllocatorV3 0 0 [] [] [] 0 0 end).

Lemma demoDevice_ok : ea_ok (bd_allocator demoDevice) /\ ea_total (bd_allocator demoDevice) = 10.
Proof.
  destruct (NewAllocatorV3_spec 10) as (a & E & Hi & Ht & _); [lia|].
  assert (Ha : bd_allocator demoDevice = a) by (unfold demoDevice; rewrite E; reflexivity).
  rewrite Ha. split; [exact Hi|exact Ht].
Qed.

Lemma Alloc_correct_witness :
  let want := (10000 + BlockSize - 1) / BlockSize in
  let free := ea_free (bd_allocator demoDevice) in
  let tot := ea_total (bd_allocator demoDevice) in
  (count free 0 tot < want /\ exists e, Alloc demoDevice 10000 = Some (demoDevice, inl e)) \/
  (want <= count free 0 tot /\ exists a' blocks,
     Alloc demoDevice 10000 = Some (set_allocator demoDevice a', inr (map byteResult blocks, blocks)) /\
     ea_ok a' /\ ea_total a' = tot /\ Forall (extent_in tot) blocks /\ disjoint_extents blocks /\ sizes blocks = want /\
     (forall b, covers blocks b = true -> free b = true) /\ (forall b, ea_free a' b = free b && negb (covers blocks b))).
Proof.
  apply (Alloc_correct demoDevice 10000); [exact (proj1 demoDevice_ok)|rewrite (proj2 demoDevice_ok); reflexivity|lia].
Defined.

Lemma mem_healthy : healthy (ops := MemStore.ops).
Proof. intros db b. eexists. reflexivity. Qed.

Lemma demo_size : device_size 40960.
Proof. unfold device_size. vm_compute. split; [congruence|]. split; reflexivity. Qed.

(** A client allocates three blocks and commits them. *)
Definition demoSystem : option (@BlockDevice AllocatorV3 * @DB MemStore.ops * @system MemStore.ops AllocatorV3) :=
  match newBlockDevice "lun" 40960 (∅ : @DB MemStore.ops) with
  | Some (inr (d0, db1)) =>
      match Alloc d0 10000 with
      | Some (d, inr (_, blocks)) =>
          match PersistAllocBatch (NewWriteBatch db1 "lun") (toBytes blocks) with
          | Some (inr w) => Some (d0, db1, mkSystem d (BatchCommit db1 (wb_batch w)).1 blocks [])
          | _ => None
          end
      | _ => None
      end
  | _ => None
  end.

Lemma demoSystem_blocks : (fun x => map Size (committed x.2)) <$> demoSystem = Some [3].
Proof. vm_compute. reflexivity. Qed.

Lemma demoSystem_runs d0 db1 s :
  demoSystem = Some (d0, db1, s) -> newBlockDevice "lun" 40960 (∅ : @DB MemStore.ops) = Some (inr (d0, db1)) /\ rtc dev_step (mkSystem d0 db1 [] []) s.
Proof.
  unfold demoSystem. destruct (newBlockDevice "lun" 40960 _) as [[e|[d1 db2]]|] eqn:E; try done.
  destruct (Alloc d1 10000) as [[d [e|[by_ blocks]]]|] eqn:Ea; try done. destruct (PersistAllocBatch _ _) as [[e|w]|] eqn:Ep; try done.
  intros [= <- <- <-]. split; [done|]. eapply rtc_l; [by eapply (dev_alloc _ _ _ _ 10000)|]. apply rtc_once.
  eapply (dev_commit d db2 [] blocks blocks [] (NewWriteBatch db2 "lun") w); [by rewrite app_nil_r|apply clean_new|done|reflexivity].
Qed.

(** After a crash exactly the three blocks are taken. *)
Lemma crash_safety_witness :
  exists d0 db1 s, demoSystem = Some (d0, db1, s) /\ committed s <> [] /\
    exists (d' : @BlockDevice AllocatorV3) db', newBlockDevice "lun" 40960 (sys_db s) = Some (inr (d', db')) /\
      forall b, 0 <= b < 40960 / BlockSize -> ea_free (bd_allocator d') b = negb (covers (committed s) b).
Proof.
  pose proof demoSystem_blocks as Hb. destruct demoSystem as [[[d0 db1] s]|] eqn:E; [|discriminate Hb]. exists d0, db1, s. split; [reflexivity|].
  destruct (demoSystem_runs _ _ _ E) as [Eo Hr].
  destruct (crash_safety "lun" 40960 (∅ : @DB MemStore.ops) db1 d0 s demo_size) as (_ & _ & _ & H); [reflexivity|exact Eo|exact Hr|].
  split; [|exact H]. intros E0. cbn in Hb. rewrite E0 in Hb. discriminate Hb.
Defined.
