(* ===== verification/FileMetaCodec.v ===== *)
(** * The binary file-metadata codec

    [internal/ec/server/file_meta_codec.go]: a length-prefixed little-endian
    layout, written to a buffer and read back from a [bytes.Reader]. *)

From stdpp Require Import base decidable list numbers option strings.
From Stdlib Require Import ZArith Lia.
From S2P Require Import Prelude Words Bytes Pebble.

(** [pb.FileMeta], without the protobuf bookkeeping. *)
Record FileMeta := mkFileMeta {
  fm_MetaKey : bytes; fm_FileName : bytes; fm_Lun : bytes; fm_Etag : bytes;
  fm_Size : Z; fm_Offset : list Z; fm_Len : list Z }.

(** [binary.Write] of a [uint32] and of an [int64]. *)
Definition putU32 (x : Z) : bytes := le_bytes 4 x.
Definition putI64 (x : Z) : bytes := le_bytes 8 (u64 x).

(** [writeString]: the length is converted to [uint32]. *)
Definition writeString (s : bytes) : bytes := putU32 (zlen s mod 2 ^ 32) ++ s.

(** The pairs [(Offset[i], Len[i])]. *)
Fixpoint writePairs (offset len : list Z) : bytes :=
  match offset, len with
  | o :: offset, l :: len => putI64 o ++ putI64 l ++ writePairs offset len
  | _, _ => []
  end.

Definition encodeFileMetaBinary (m : FileMeta) : error + bytes :=
  if negb (zlen (fm_Offset m) =? zlen (fm_Len m)) then inl "offset/len size mismatch"%string
  else inr (writeString (fm_MetaKey m) ++ writeString (fm_FileName m) ++ writeString (fm_Lun m) ++ writeString (fm_Etag m) ++
            putI64 (fm_Size m) ++ putU32 (zlen (fm_Offset m) mod 2 ^ 32) ++ writePairs (fm_Offset m) (fm_Len m)).

(** ** Reading

    A reader is the unread rest of the data; a read returns its value and the
    new rest. *)

Definition reader (A : Type) : Type := bytes -> error + (A * bytes).

Definition rbind {A B} (m : reader A) (k : A -> reader B) : reader B := fun rest =>
  match m rest with inl e => inl e | inr (a, rest) => k a rest end.

Notation "x ←r m ; k" := (rbind m (fun x => k)) (at level 20, m at level 100, k at level 200) : go_scope.

Definition rret {A} (a : A) : reader A := fun rest => inr (a, rest).

(** [binary.Read] of [n] bytes: [io.ReadFull], then the little-endian value. *)
Definition readLE (n : nat) : reader Z := fun rest =>
  if bool_decide (length rest < n)%nat
  then inl (if bool_decide (rest = []) then "EOF"%string else "unexpected EOF"%string)
  else inr (le_value (take n rest), drop n rest).

Definition readU32 : reader Z := readLE 4.
Definition readI64 : reader Z := v ←r readLE 8; rret (i64 v).

(** [b := make([]byte, n); r.Read(b)]: [bytes.Reader.Read] fails only at the
    end of the data and may fill less than [b], the rest of which stays zero. *)
Definition readBuf (n : Z) : reader bytes := fun rest =>
  match rest with
  | [] => inl "EOF"%string
  | _ => inr (take (Z.to_nat n) rest ++ zmake (n - zlen rest) 0, drop (Z.to_nat n) rest)
  end.

Definition readString : reader bytes := n ←r readU32; readBuf n.

(** [for i := uint32(0); i < n; i++]: every iteration reads 16 bytes, so the
    length of the rest bounds the iterations. *)
Fixpoint readPairs (fuel : nat) (n : Z) (offset len : list Z) : reader (list Z * list Z) := fun rest =>
  if n <=? 0 then inr ((offset, len), rest)
  else match fuel with
  | O => inl "EOF"%string
  | S fuel => (o ←r readI64; l ←r readI64; readPairs fuel (n - 1) (offset ++ [o]) (len ++ [l])) rest
  end.

Definition decodeFileMetaBinary (data : bytes) : error + FileMeta :=
  match (metaKey ←r readString; fileName ←r readString; lun ←r readString; etag ←r readString;
         size ←r readI64; n ←r readU32;
         (fun rest => (p ←r readPairs (length rest) n [] [];
           rret (mkFileMeta metaKey fileName lun etag size p.1 p.2)) rest)) data with
  | inl e => inl e
  | inr (m, _) => inr m
  end.

(** ** Well-formed metadata *)

(** Strings short enough for their length field; [int64] numbers. *)
Definition meta_string (s : bytes) : Prop := Forall byte_ok s /\ zlen s < 2 ^ 32.

Record meta_ok (m : FileMeta) : Prop := {
  ok_MetaKey : meta_string (fm_MetaKey m);
  ok_FileName : meta_string (fm_FileName m);
  ok_Lun : meta_string (fm_Lun m);
  ok_Etag : meta_string (fm_Etag m);
  ok_Size : is_i64 (fm_Size m);
  ok_Offset : Forall is_i64 (fm_Offset m);
  ok_Len : Forall is_i64 (fm_Len m);
  ok_same : zlen (fm_Offset m) = zlen (fm_Len m);
  ok_count : zlen (fm_Offset m) < 2 ^ 32;
}.

(** ** Reading back what was written *)

(** [d] reads the encoding [x] as [a], whatever follows ([ne]: provided
    something follows). *)
Definition decodes {A} (ne : bool) (d : reader A) (x : bytes) (a : A) : Prop :=
  forall tail, (ne = true -> tail <> []) -> d (x ++ tail) = inr (a, tail).

(** On a strict prefix of [x], [d] fails. *)
Definition rejects {A} (d : reader A) (x : bytes) : Prop :=
  forall p s, x = p ++ s -> s <> [] -> exists e, d p = inl e.

(** On every prefix of [x], [d] fails or uses everything up. *)
Definition exhausts {A} (d : reader A) (x : bytes) : Prop :=
  forall p s, x = p ++ s -> (exists e, d p = inl e) \/ (exists a, d p = inr (a, [])).

Lemma decodes_weaken {A} (d : reader A) x a : decodes false d x a -> decodes true d x a.
Proof. intros H tail _. by apply H. Qed.

Lemma decodes_seq {A B} (d1 : reader A) (d2 : A -> reader B) x1 x2 a b :
  decodes true d1 x1 a -> x2 <> [] -> decodes false (d2 a) x2 b -> decodes false (rbind d1 d2) (x1 ++ x2) b.
Proof.
  intros H1 Hne H2 tail Ht. unfold rbind. rewrite <- app_assoc, H1; [by apply H2|].
  intros _ E. by apply app_nil in E as [? _].
Qed.

Lemma decodes_seq_exact {A B} (d1 : reader A) (d2 : A -> reader B) x1 x2 a b :
  decodes false d1 x1 a -> decodes false (d2 a) x2 b -> decodes false (rbind d1 d2) (x1 ++ x2) b.
Proof. intros H1 H2 tail Ht. unfold rbind. rewrite <- app_assoc, H1 by done. by apply H2. Qed.

(** A prefix of a concatenation ends in the first or in the second part. *)
Lemma prefix_app (x1 x2 p s : bytes) :
  x1 ++ x2 = p ++ s -> (exists s', x1 = p ++ s' /\ s' <> []) \/ (exists p', p = x1 ++ p' /\ x2 = p' ++ s).
Proof.
  intros E. apply app_eq_app in E as [l [[-> ->]|[-> ->]]].
  - destruct l as [|c l]; [|left; eauto]. right. exists []. by rewrite !app_nil_r.
  - right. eauto.
Qed.

Lemma rejects_seq {A B} (d1 : reader A) (d2 : A -> reader B) x1 x2 a :
  decodes false d1 x1 a -> rejects d1 x1 -> rejects (d2 a) x2 -> rejects (rbind d1 d2) (x1 ++ x2).
Proof.
  intros D1 R1 R2 p s E Hs. unfold rbind. apply prefix_app in E as [(s' & E & Hs')|(p' & -> & E)].
  - destruct (R1 p s' E Hs') as [e ->]. eauto.
  - rewrite D1 by done. by eapply R2.
Qed.

Lemma rejects_seq_padded {A B} (d1 : reader A) (d2 : A -> reader B) x1 x2 a :
  decodes true d1 x1 a -> exhausts d1 x1 -> rejects (d2 a) x2 -> (forall a', exists e, d2 a' [] = inl e) ->
  rejects (rbind d1 d2) (x1 ++ x2).
Proof.
  intros D1 X1 R2 F2 p s E Hs. unfold rbind. apply prefix_app in E as [(s' & E & Hs')|(p' & -> & E)].
  - destruct (X1 p s' E) as [[e ->]|[a' ->]]; [eauto|apply F2].
  - destruct p' as [|c p']; [|rewrite D1 by done; by eapply R2].
    destruct (X1 (x1 ++ []) []) as [[e ->]|[a' ->]]; [by rewrite !app_nil_r|eauto|apply F2].
Qed.

(** *** The primitive readers *)

Lemma readLE_decodes n x : length x = n -> decodes false (readLE n) x (le_value x).
Proof.
  intros Hl tail _. unfold readLE. rewrite length_app, bool_decide_false by lia.
  by rewrite take_app_length', drop_app_length'.
Qed.

Lemma readLE_rejects n x : length x = n -> rejects (readLE n) x.
Proof.
  intros Hl p s -> Hs. unfold readLE. rewrite length_app in Hl. rewrite bool_decide_true; [eauto|].
  destruct s; [done|]. simpl in Hl. lia.
Qed.

Lemma readU32_decodes x : 0 <= x < 2 ^ 32 -> decodes false readU32 (putU32 x) x.
Proof.
  intros Hx. pose proof (readLE_decodes 4 (putU32 x) (le_bytes_length 4 x)) as H.
  unfold putU32 in H at 2. rewrite le_value_bytes, Z.mod_small in H by done. done.
Qed.

Lemma readU32_rejects x : rejects readU32 (putU32 x).
Proof. apply readLE_rejects, le_bytes_length. Qed.

Lemma readI64_decodes x : is_i64 x -> decodes false readI64 (putI64 x) x.
Proof.
  intros Hx tail _. unfold readI64, rbind. rewrite (readLE_decodes 8) by (apply le_bytes_length || done).
  unfold putI64, rret. rewrite le_value_bytes. change (2 ^ (8 * Z.of_nat 8)) with (2 ^ 64).
  rewrite Z.mod_small by apply u64_range. by rewrite i64_u64.
Qed.

Lemma readI64_rejects x : rejects readI64 (putI64 x).
Proof.
  intros p s E Hs. unfold readI64, rbind. destruct (readLE_rejects 8 (putI64 x) (le_bytes_length 8 _) p s E Hs) as [e ->].
  eauto.
Qed.

Lemma writeString_ne s : writeString s <> [].
Proof. done. Qed.

Lemma readString_decodes s : meta_string s -> decodes true readString (writeString s) s.
Proof.
  intros [_ Hl] tail Ht. specialize (Ht eq_refl). pose proof (zlen_nonneg s) as H0. unfold readString, writeString, rbind.
  rewrite <- app_assoc, Z.mod_small, (readU32_decodes (zlen s)) by done. unfold readBuf.
  destruct (s ++ tail) as [|c l] eqn:E; [by apply app_nil in E as [_ ?]|]. rewrite <- E.
  replace (Z.to_nat (zlen s)) with (length s) by (unfold zlen; lia). rewrite take_app_length, drop_app_length.
  replace (zmake _ 0) with (@nil Z); [by rewrite app_nil_r|]. unfold zmake, zlen. rewrite length_app.
  by replace (Z.to_nat _) with O by lia.
Qed.

Lemma readString_exhausts s : meta_string s -> exhausts readString (writeString s).
Proof.
  intros [_ Hl] p t E. pose proof (zlen_nonneg s) as H0. unfold writeString in E. rewrite Z.mod_small in E by done.
  unfold readString, rbind. apply prefix_app in E as [(s' & E & Hs)|(p' & -> & ->)].
  - destruct (readU32_rejects _ _ _ E Hs) as [e ->]. eauto.
  - rewrite readU32_decodes by done. destruct p' as [|c p']; [left; eauto|]. right. eexists. simpl. do 2 f_equal.
    apply drop_ge. unfold zlen. simpl. rewrite ?length_app. lia.
Qed.

(** *** The extents *)

Lemma readPairs_decodes offset len fuel acc acc' tail :
  Forall is_i64 offset -> Forall is_i64 len -> length offset = length len -> (length offset <= fuel)%nat ->
  readPairs fuel (zlen offset) acc acc' (writePairs offset len ++ tail) = inr ((acc ++ offset, acc' ++ len), tail).
Proof.
  intros HO. revert len fuel acc acc'. induction HO as [|o offset Ho HO IH]; intros len fuel acc acc' HL El Hf.
  - destruct len; [|done]. rewrite !app_nil_r. by destruct fuel.
  - destruct len as [|l len]; [done|]. inversion HL as [|? ? Hl HL']; subst. destruct fuel as [|fuel]; [simpl in Hf; lia|].
    assert (Hz : zlen (o :: offset) = zlen offset + 1) by (unfold zlen; simpl; lia). pose proof (zlen_nonneg offset).
    cbn [readPairs writePairs]. rewrite (proj2 (Z.leb_gt _ 0)) by lia. unfold rbind.
    rewrite <- app_assoc, (readI64_decodes o) by done. rewrite <- app_assoc, (readI64_decodes l) by done.
    replace (zlen (o :: offset) - 1) with (zlen offset) by lia.
    rewrite IH by (done || (simpl in El, Hf; lia)). by rewrite <- !app_assoc.
Qed.

Lemma readPairs_rejects offset len fuel acc acc' :
  Forall is_i64 offset -> Forall is_i64 len -> length offset = length len ->
  rejects (readPairs fuel (zlen offset) acc acc') (writePairs offset len).
Proof.
  intros HO. revert len fuel acc acc'. induction HO as [|o offset Ho HO IH]; intros len fuel acc acc' HL El p s E Hs.
  - simpl in E. symmetry in E. apply app_nil in E as [_ ->]. done.
  - destruct len as [|l len]; [done|]. inversion HL as [|? ? Hl HL']; subst.
    assert (Hz : zlen (o :: offset) = zlen offset + 1) by (unfold zlen; simpl; lia). pose proof (zlen_nonneg offset).
    destruct fuel as [|fuel]; cbn [readPairs]; rewrite (proj2 (Z.leb_gt _ 0)) by lia; [eauto|].
    replace (zlen (o :: offset) - 1) with (zlen offset) by lia.
    eapply (rejects_seq readI64 _ (putI64 o)); [by apply readI64_decodes|apply readI64_rejects| |exact E|exact Hs].
    eapply (rejects_seq readI64 _ (putI64 l)); [by apply readI64_decodes|apply readI64_rejects|].
    apply IH; [done|]. by injection El.
Qed.

Lemma writePairs_length offset len : length offset = length len -> length (writePairs offset len) = (16 * length offset)%nat.
Proof.
  revert len. induction offset as [|o offset IH]; intros [|l len] E; try done. cbn [writePairs]. rewrite !length_app.
  unfold putI64. rewrite !le_bytes_length. rewrite IH by (by injection E). simpl. lia.
Qed.

(** *** The whole layout *)

(** The reader inside [decodeFileMetaBinary]. *)
Definition metaReader : reader FileMeta :=
  metaKey ←r readString; fileName ←r readString; lun ←r readString; etag ←r readString;
  size ←r readI64; n ←r readU32;
  (fun rest => (p ←r readPairs (length rest) n [] [];
     rret (mkFileMeta metaKey fileName lun etag size p.1 p.2)) rest).

Lemma decode_metaReader data :
  decodeFileMetaBinary data = match metaReader data with inl e => inl e | inr (m, _) => inr m end.
Proof. done. Qed.

(** The encoding of well-formed metadata. *)
Definition encoding (m : FileMeta) : bytes :=
  writeString (fm_MetaKey m) ++ writeString (fm_FileName m) ++ writeString (fm_Lun m) ++ writeString (fm_Etag m) ++
  putI64 (fm_Size m) ++ putU32 (zlen (fm_Offset m)) ++ writePairs (fm_Offset m) (fm_Len m).

Lemma encode_ok m : meta_ok m -> encodeFileMetaBinary m = inr (encoding m).
Proof.
  intros H. unfold encodeFileMetaBinary. rewrite (ok_same _ H), Z.eqb_refl. cbn [negb].
  unfold encoding. rewrite <- (ok_same _ H). rewrite Z.mod_small by (split; [apply zlen_nonneg|apply (ok_count _ H)]). done.
Qed.

Lemma metaReader_decodes m : meta_ok m -> decodes false metaReader (encoding m) m.
Proof.
  intros [H1 H2 H3 H4 H5 H6 H7 H8 H9]. unfold metaReader, encoding.
  eapply decodes_seq; [by apply readString_decodes|done|]. eapply decodes_seq; [by apply readString_decodes|done|].
  eapply decodes_seq; [by apply readString_decodes|done|]. eapply decodes_seq; [by apply readString_decodes|done|].
  eapply decodes_seq_exact; [by apply readI64_decodes|].
  eapply decodes_seq_exact; [apply readU32_decodes; split; [apply zlen_nonneg|done]|].
  assert (El : length (fm_Offset m) = length (fm_Len m)) by (unfold zlen in H8; lia).
  intros tail _. unfold rbind. rewrite readPairs_decodes; [by destruct m|done..|].
  rewrite length_app, writePairs_length by done. lia.
Qed.

Lemma metaReader_rejects m : meta_ok m -> rejects metaReader (encoding m).
Proof.
  intros [H1 H2 H3 H4 H5 H6 H7 H8 H9]. unfold metaReader, encoding.
  eapply rejects_seq_padded; [by apply readString_decodes|by apply readString_exhausts| |intros; eexists; reflexivity].
  eapply rejects_seq_padded; [by apply readString_decodes|by apply readString_exhausts| |intros; eexists; reflexivity].
  eapply rejects_seq_padded; [by apply readString_decodes|by apply readString_exhausts| |intros; eexists; reflexivity].
  eapply rejects_seq_padded; [by apply readString_decodes|by apply readString_exhausts| |intros; eexists; reflexivity].
  eapply rejects_seq; [by apply readI64_decodes|apply readI64_rejects|].
  eapply rejects_seq; [apply readU32_decodes; split; [apply zlen_nonneg|done]|apply readU32_rejects|].
  assert (El : length (fm_Offset m) = length (fm_Len m)) by (unfold zlen in H8; lia).
  intros p s Ep Hs. unfold rbind.
  destruct (readPairs_rejects _ _ (length p) [] [] H6 H7 El p s Ep Hs) as [e ->]. eauto.
Qed.

(** C17: The codec round-trips and detects truncation.  Metadata whose strings
    and extent list fit their 32-bit length fields is decoded from its
    encoding exactly, also with bytes after it; and decoding any strict prefix
    of the encoding fails, although [bytes.Reader.Read] pads a short string
    with zeros. *)
Theorem fileMeta_codec m :
  meta_ok m ->
  exists x, encodeFileMetaBinary m = inr x /\
    (forall tail, decodeFileMetaBinary (x ++ tail) = inr m) /\
    (forall p s, x = p ++ s -> s <> [] -> exists e, decodeFileMetaBinary p = inl e).
Proof.
  intros H. eexists. split; [by apply encode_ok|]. split.
  - intros tail. rewrite decode_metaReader. by rewrite (metaReader_decodes m H).
  - intros p s E Hs. rewrite decode_metaReader. destruct (metaReader_rejects m H p s) as [e ->]; [congruence|done|eauto].
Qed.

Definition demoMeta : FileMeta := mkFileMeta (bs "k") (bs "b/obj") [] (bs "0badf00d") 9000 [4096; 0] [8192; 4096].

Lemma demoMeta_ok : meta_ok demoMeta.
Proof. split; try (split; [repeat constructor; vm_compute; congruence|vm_compute; congruence]); try (repeat constructor; vm_compute; congruence); vm_compute; congruence. Qed.

Lemma fileMeta_codec_witness :
  exists x, encodeFileMetaBinary demoMeta = inr x /\
    (forall tail, decodeFileMetaBinary (x ++ tail) = inr demoMeta) /\
    (forall p s, x = p ++ s -> s <> [] -> exists e, decodeFileMetaBinary p = inl e).
Proof. apply (fileMeta_codec demoMeta). exact demoMeta_ok. Defined.
