(* ===== verification/AioChannel.v ===== *)
(** * The asynchronous write channel

    [internal/fs/aio_channel.go]: block alignment, and the splitting of a
    buffer over the allocated extents.  The kernel's asynchronous write is a
    parameter: a disk with [submitAndWait] and what a successful write does. *)

From stdpp Require Import base decidable list numbers option strings gmap.
From Stdlib Require Import ZArith Lia.
From S2P Require Import Prelude Words Bytes Moss MossJSON Allocator Extents SpaceBitmap Pebble.

(** ** Alignment *)

Definition AlignBlockSize (size : Z) : Z :=
  if size <=? 0 then 0
  else if size rem BlockSize =? 0 then size
  else i64 ((size ÷ BlockSize + 1) * BlockSize).

(** A slice together with the address of its first byte. *)
Record buffer := mkBuffer { buf_addr : Z; buf_data : bytes }.

(** [addr] is the address of the block [make] returned. *)
Definition NewAlignedBlockBuffer (addr size : Z) : option buffer :=
  if size <=? 0 then Some (mkBuffer 0 [])
  else
    raw ← makeSlice (size + BlockSize - 1) 0;
    let start := if addr mod BlockSize =? 0 then 0 else BlockSize - addr mod BlockSize in
    data ← slice raw start (start + size);
    Some (mkBuffer (addr + start) data).

Definition isAlignedBuffer (b : buffer) : bool :=
  match buf_data b with
  | [] => true
  | _ => (buf_addr b mod BlockSize =? 0) && (zlen (buf_data b) rem BlockSize =? 0)
  end.

Definition fmtAlignmentError (kind : string) : error := (kind +:+ " is not 4096-byte aligned")%string.

Definition validateAlignedResult (r : Result) : option error :=
  if (Offset r <? 0) || (Size r <=? 0) then Some (fmtAlignmentError "result")
  else if negb (Offset r rem BlockSize =? 0) then Some (fmtAlignmentError "offset")
  else if negb (Size r rem BlockSize =? 0) then Some (fmtAlignmentError "len")
  else None.

(** ** The disk *)

Class AioDisk := {
  disk : Type;
  diskByte : disk -> Z -> Z;
  (** [AioChannel.submitAndWait]: the number of bytes written and the error *)
  submitAndWait : disk -> bytes -> Z -> disk * (Z * option error);
}.

(** A full write without an error stores the bytes; no write touches a byte
    outside its range. *)
Class AioDiskLaws (A : AioDisk) := {
  submit_stores : forall d data off d', submitAndWait d data off = (d', (zlen data, None)) ->
    forall i b, data.[i] = Some b -> diskByte d' (off + i) = b;
  submit_frame : forall d data off d' r, submitAndWait d data off = (d', r) ->
    forall p, ~ off <= p < off + zlen data -> diskByte d' p = diskByte d p;
}.

Section channel.
Context `{AD : AioDisk}.

(** The loop that builds the segment list.  [ctx i] is what [ctx.Err()]
    answers in iteration [i]; the result is [(cursor, error)] of an early
    return or the final cursor and the segments. *)
Fixpoint buildSegments (ctx : nat -> option error) (i : nat) (data : bytes) (results : list Result)
    (cursor : Z) (segments : list (bytes * Z)) : option ((Z * error) + (Z * list (bytes * Z))) :=
  match results with
  | [] => Some (inr (cursor, segments))
  | r :: results =>
      match ctx i with
      | Some e => Some (inl (cursor, e))
      | None =>
          if zlen data <=? cursor then Some (inr (cursor, segments))
          else match validateAlignedResult r with
          | Some e => Some (inl (cursor, e))
          | None =>
              let need := if zlen data - cursor <? Size r then zlen data - cursor else Size r in
              if (need <=? 0) || negb (need rem BlockSize =? 0) then Some (inl (cursor, fmtAlignmentError "len"))
              else
                seg ← slice data cursor (cursor + need);
                buildSegments ctx (S i) data results (cursor + need) (segments ++ [(seg, Offset r)])
          end
      end
  end.

(** The loop that submits the segments. *)
Fixpoint writeSegments (ctx : nat -> option error) (i : nat) (d : disk) (segments : list (bytes * Z)) (writtenTotal : Z)
    : disk * (Z * option error) :=
  match segments with
  | [] => (d, (writtenTotal, None))
  | (data, offset) :: segments =>
      match ctx i with
      | Some e => (d, (writtenTotal, Some e))
      | None =>
          let '(d, (n, err)) := submitAndWait d data offset in
          let writtenTotal := writtenTotal + n in
          match err with
          | Some e => (d, (writtenTotal, Some e))
          | None =>
              if negb (n =? zlen data) then (d, (writtenTotal, Some "short write"%string))
              else writeSegments ctx (S i) d segments writtenTotal
          end
      end
  end.

(** [ctx1] and [ctx2] answer [ctx.Err()] in the two loops. *)
Definition WriteAllocated (ctx1 ctx2 : nat -> option error) (d : disk) (b : buffer) (results : list Result)
    : option (disk * (Z * option error)) :=
  let data := buf_data b in
  if zlen data =? 0 then Some (d, (0, None))
  else if negb (isAlignedBuffer b) then Some (d, (0, Some (fmtAlignmentError "buffer")))
  else
    s ← buildSegments ctx1 0 data results 0 [];
    match s with
    | inl (cursor, e) => Some (d, (cursor, Some e))
    | inr (cursor, segments) =>
        if negb (cursor =? zlen data) then Some (d, (0, Some "short write"%string))
        else Some (writeSegments ctx2 0 d segments 0)
    end.

(** Reading the extents back. *)
Definition readRange (d : disk) (off n : Z) : bytes := map (fun j => diskByte d (off + j)) (seqZ 0 n).

Fixpoint readExtents (d : disk) (results : list Result) (n : Z) : bytes :=
  match results with
  | [] => []
  | r :: results =>
      if n <=? 0 then []
      else let k := Z.min (Size r) n in readRange d (Offset r) k ++ readExtents d results (n - k)
  end.
End channel.

(** ** Alignment lemmas *)

Lemma AlignBlockSize_spec size :
  0 <= size < 2 ^ 62 ->
  size <= AlignBlockSize size < size + BlockSize /\ AlignBlockSize size mod BlockSize = 0.
Proof.
  intros H. unfold AlignBlockSize. change BlockSize with 4096. case_bool.
  { assert (size = 0) as -> by lia. done. }
  rewrite Z.rem_mod_nonneg by lia. case_bool; [lia|]. rewrite Z.quot_div_nonneg, i64_small by (unfold is_i64; dlia).
  split; [dlia|]. apply Z.mod_mul. lia.
Qed.

(** ** Segments *)

(** The reference definition of the split: consecutive pieces of the data, as
    large as the extents. *)
Fixpoint cut (data : bytes) (results : list Result) : list (bytes * Z) :=
  match data, results with
  | [], _ | _, [] => []
  | _, r :: results => (take (Z.to_nat (Size r)) data, Offset r) :: cut (drop (Z.to_nat (Size r)) data) results
  end.

Lemma cut_nil results : cut [] results = [].
Proof. by destruct results. Qed.

Lemma slice_take {A} (data : list A) lo n :
  0 <= lo -> 0 <= n -> lo + n <= zlen data ->
  slice data lo (lo + n) = Some (take (Z.to_nat n) (drop (Z.to_nat lo) data)).
Proof.
  intros. unfold slice. rewrite (proj2 (Z.leb_le 0 lo)), (proj2 (Z.leb_le lo _)), (proj2 (Z.leb_le (lo + n) _)) by lia.
  simpl. by replace (lo + n - lo) with n by lia.
Qed.

Definition positive (r : Result) : Prop := 0 < Size r.

Lemma sizes_positive results : Forall positive results -> 0 <= sizes results.
Proof. unfold sizes, positive. induction 1; simpl; lia. Qed.

Lemma buildSegments_ok ctx i data results cursor segs c segs' :
  0 <= cursor <= zlen data ->
  buildSegments ctx i data results cursor segs = Some (inr (c, segs')) ->
  cursor <= c <= zlen data /\
  segs' = segs ++ cut (take (Z.to_nat (c - cursor)) (drop (Z.to_nat cursor) data)) results /\
  (c < zlen data -> c - cursor = sizes results) /\
  (Forall positive results -> c - cursor <= sizes results).
Proof.
  revert i cursor segs. induction results as [|r results IH]; intros i cursor segs Hc; cbn [buildSegments].
  { intros E. injection E as <- <-. rewrite Z.sub_diag, take_0, cut_nil, app_nil_r. split; [lia|]. split; [done|]. unfold sizes. simpl. lia. }
  destruct (ctx i); [done|]. case_bool.
  { intros E. injection E as <- <-. rewrite Z.sub_diag. rewrite take_0, cut_nil, app_nil_r. split; [lia|]. split; [done|]. split; [lia|].
    intros HF. apply sizes_positive in HF. lia. }
  unfold validateAlignedResult. destruct ((Offset r <? 0) || (Size r <=? 0)) eqn:Ev; [done|]. bool_norm.
  destruct (negb (Offset r rem BlockSize =? 0)); [done|]. destruct (negb (Size r rem BlockSize =? 0)); [done|].
  set (need := if zlen data - cursor <? Size r then zlen data - cursor else Size r).
  assert (Hn : 0 < need <= Size r /\ cursor + need <= zlen data /\ (cursor + need < zlen data -> need = Size r))
    by (unfold need; case_bool; lia).
  destruct ((need <=? 0) || negb (need rem BlockSize =? 0)); [done|].
  rewrite slice_take by lia. go_step. intros E. apply IH in E as (H1 & -> & H3 & H4); [|lia].
  split; [lia|]. split; [|split].
  - rewrite <- app_assoc. f_equal.
    assert (Hd : drop (Z.to_nat cursor) data <> []).
    { intros E0. apply (f_equal length) in E0. rewrite length_drop in E0. unfold zlen in *. simpl in E0. lia. }
    assert (Hlen : length (drop (Z.to_nat cursor) data) = (length data - Z.to_nat cursor)%nat) by apply length_drop.
    set (rest := drop (Z.to_nat cursor) data) in *.
    replace (drop (Z.to_nat (cursor + need)) data) with (drop (Z.to_nat need) rest)
      by (unfold rest; rewrite drop_drop; f_equal; lia).
    assert (Hsplit : take (Z.to_nat (c - cursor)) rest = take (Z.to_nat need) rest ++ take (Z.to_nat (c - (cursor + need))) (drop (Z.to_nat need) rest)).
    { replace (Z.to_nat (c - cursor)) with (Z.to_nat need + Z.to_nat (c - (cursor + need)))%nat by lia. by rewrite take_take_drop. }
    destruct (take (Z.to_nat (c - cursor)) rest) as [|x l] eqn:Et.
    { exfalso. apply (f_equal length) in Et. rewrite length_take in Et. unfold zlen in *. simpl in Et. lia. }
    cbn [cut]. rewrite Hsplit. destruct (decide (need = Size r)) as [<-|Hne].
    + rewrite take_app_length', drop_app_length'; [done|rewrite length_take; unfold zlen in *; lia..].
    + assert (c = cursor + need) as -> by lia. rewrite Z.sub_diag, take_0, app_nil_r.
      rewrite take_take, (drop_ge (take _ _)), !cut_nil by (rewrite ?length_take; unfold zlen in *; lia).
      by replace (Z.to_nat (Size r) `min` Z.to_nat need)%nat with (Z.to_nat need) by lia.
  - intros Hlt. specialize (H3 Hlt). unfold sizes in *. simpl. lia.
  - intros HF. apply Forall_cons in HF as [_ HF]. specialize (H4 HF). unfold sizes in *. simpl. lia.
Qed.

Lemma buildSegments_runs ctx i data results cursor segs :
  0 <= cursor <= zlen data -> exists x, buildSegments ctx i data results cursor segs = Some x.
Proof.
  revert i cursor segs. induction results as [|r results IH]; intros i cursor segs Hc; cbn [buildSegments]; [eauto|].
  destruct (ctx i); [eauto|]. case_bool; [eauto|]. destruct (validateAlignedResult r); [eauto|].
  set (need := if zlen data - cursor <? Size r then zlen data - cursor else Size r).
  assert (cursor + need <= zlen data) by (unfold need; case_bool; lia).
  destruct ((need <=? 0) || negb (need rem BlockSize =? 0)) eqn:E; [eauto|]. bool_norm.
  rewrite slice_take by lia. go_step. apply IH. lia.
Qed.

(** A write never panics. *)
Lemma WriteAllocated_total `{AD : AioDisk} ctx1 ctx2 (d : disk) b results :
  exists x, WriteAllocated ctx1 ctx2 d b results = Some x.
Proof.
  unfold WriteAllocated. pose proof (zlen_nonneg (buf_data b)). repeat case_bool; eauto.
  destruct (buildSegments_runs ctx1 0 (buf_data b) results 0 []) as [[[c e]|[c segs]] ->]; [lia|go_step; eauto|].
  go_step. case_bool; eauto.
Qed.

(** A slice of zeros of the right length, at an aligned address. *)
Lemma NewAlignedBlockBuffer_spec addr size :
  0 <= size -> exists b, NewAlignedBlockBuffer addr size = Some b /\ buf_data b = zmake size 0 /\
    (0 < size -> buf_addr b mod BlockSize = 0).
Proof.
  intros Hs. unfold NewAlignedBlockBuffer. case_bool.
  { assert (size = 0) as -> by lia. eexists. split; [done|]. split; [done|lia]. }
  rewrite makeSlice_some by (change BlockSize with 4096; lia). go_step.
  set (start := if addr mod BlockSize =? 0 then 0 else BlockSize - addr mod BlockSize).
  assert (Hst : 0 <= start < BlockSize /\ (addr + start) mod BlockSize = 0).
  { unfold start. change BlockSize with 4096. case_bool; dlia. }
  rewrite slice_take by (rewrite ?zlen_make; change BlockSize with 4096 in *; lia). go_step. eexists. split; [done|].
  split; [|intros _; apply Hst]. simpl. unfold zmake. rewrite drop_replicate, take_replicate. f_equal.
  change BlockSize with 4096 in *. lia.
Qed.

(** ** Writing *)

Section write.
Context `{AL : AioDiskLaws}.

Definition seg_in (seg : bytes * Z) (p : Z) : Prop := seg.2 <= p < seg.2 + zlen seg.1.

Fixpoint segs_disjoint (segs : list (bytes * Z)) : Prop :=
  match segs with
  | [] => True
  | seg :: segs => Forall (fun seg' => forall p, seg_in seg p -> ~ seg_in seg' p) segs /\ segs_disjoint segs
  end.

Lemma zget_readRange (d : disk) off n i : 0 <= i < n -> (readRange d off n).[i] = Some (diskByte d (off + i)).
Proof.
  intros Hi. unfold readRange, zget. rewrite (proj2 (Z.leb_le 0 i)) by lia. rewrite list_lookup_fmap.
  rewrite (proj2 (lookup_seqZ 0 n (Z.to_nat i) i)) by lia. done.
Qed.

Lemma zlen_readRange (d : disk) off n : 0 <= n -> zlen (readRange d off n) = n.
Proof. intros. unfold readRange, zlen. rewrite length_map, length_seqZ. lia. Qed.

Lemma readRange_ext (d d' : disk) off n :
  (forall p, off <= p < off + n -> diskByte d p = diskByte d' p) -> readRange d off n = readRange d' off n.
Proof.
  intros H. unfold readRange. apply map_ext_in. intros j Hj. apply list_elem_of_In, elem_of_seqZ in Hj. apply H. lia.
Qed.

Lemma readRange_stored (d : disk) off data :
  (forall i b, data.[i] = Some b -> diskByte d (off + i) = b) -> readRange d off (zlen data) = data.
Proof.
  intros H. pose proof (zlen_nonneg data). apply zget_ext; [by apply zlen_readRange|].
  rewrite zlen_readRange by done. intros i Hi. rewrite zget_readRange by done.
  destruct (zget_some data i Hi) as [b Eb]. by rewrite Eb, (H i b Eb).
Qed.

Lemma writeSegments_ok ctx i (d : disk) segs w d' n :
  writeSegments ctx i d segs w = (d', (n, None)) -> segs_disjoint segs ->
  n = w + zlen (concat (map fst segs)) /\
  Forall (fun seg => readRange d' seg.2 (zlen seg.1) = seg.1) segs /\
  forall p, Forall (fun seg => ~ seg_in seg p) segs -> diskByte d' p = diskByte d p.
Proof.
  revert i d w. induction segs as [|[data off] segs IH]; intros i d w; cbn [writeSegments].
  { intros E _. injection E as <- <-. split; [unfold zlen; simpl; lia|]. done. }
  destruct (ctx i); [done|]. destruct (submitAndWait d data off) as [d1 [m err]] eqn:Es. destruct err; [done|].
  destruct (m =? zlen data) eqn:Em; [|done]. bool_norm. subst m. cbn [negb]. intros E [HD HD'].
  apply IH in E as (-> & HF & Hfr); [|done]. split; [|split].
  - cbn [map concat fst]. unfold zlen. rewrite length_app. lia.
  - constructor; [|done]. cbn [fst snd]. rewrite <- (readRange_stored d1 off data) at 2 by (by eapply submit_stores).
    apply readRange_ext. intros p Hp. apply Hfr. eapply Forall_impl; [exact HD|]. intros seg' Hseg. by apply Hseg.
  - intros p Hp. apply Forall_cons in Hp as [Hp0 Hp]. rewrite Hfr by done. by eapply submit_frame.
Qed.

(** *** The split covers the extents *)

Lemma cut_in data results :
  Forall positive results ->
  Forall (fun seg => exists r, r ∈ results /\ seg.2 = Offset r /\ zlen seg.1 <= Size r) (cut data results).
Proof.
  intros HF. revert data. induction HF as [|r results Hr HF IH]; intros data; [by destruct data|].
  destruct data as [|x data]; [constructor|]. cbn [cut]. constructor.
  - exists r. split; [left|]. split; [done|]. cbn [fst]. unfold positive, zlen in *. rewrite length_take. lia.
  - eapply Forall_impl; [apply IH|]. intros seg (r' & Hr' & H). exists r'. split; [by right|done].
Qed.

Lemma cut_disjoint data results :
  Forall positive results -> disjoint_extents results -> segs_disjoint (cut data results).
Proof.
  intros HF. revert data. induction HF as [|r results Hr HF IH]; intros data HD; [by destruct data|].
  destruct data as [|x data]; [done|]. cbn [cut]. destruct HD as [HD1 HD2]. split; [|by apply IH].
  eapply Forall_impl; [by apply cut_in|]. intros seg (r' & Hr' & Ho & Hl) p H1 H2. unfold seg_in in *. cbn [fst snd] in *.
  rewrite Forall_forall in HD1, HF. specialize (HD1 r' Hr'). specialize (HF r' Hr'). unfold positive in *.
  assert (Hlt : zlen (take (Z.to_nat (Size r)) (x :: data)) <= Size r) by (unfold zlen; rewrite length_take; lia).
  rewrite overlap_false_iff in HD1 by done.
  assert (Hno : in_result r' p = false) by (apply HD1, in_result_true; lia).
  apply not_true_iff_false in Hno. apply Hno, in_result_true. lia.
Qed.

Lemma readExtents_cut (d : disk) data results :
  Forall positive results -> zlen data <= sizes results ->
  Forall (fun seg => readRange d seg.2 (zlen seg.1) = seg.1) (cut data results) ->
  readExtents d results (zlen data) = data.
Proof.
  intros HF. revert data. induction HF as [|r results Hr HF IH]; intros data Hs HS.
  { unfold sizes in Hs. simpl in Hs. destruct data; [done|]. unfold zlen in Hs. simpl in Hs. lia. }
  destruct data as [|x data]; [done|]. cbn [cut readExtents] in *. apply Forall_cons in HS as [H0 HS]. unfold positive in Hr.
  rewrite (proj2 (Z.leb_gt _ 0)) by (unfold zlen; simpl; lia).
  set (v := x :: data) in *. cbn [fst snd] in H0.
  assert (Hk : zlen (take (Z.to_nat (Size r)) v) = Z.min (Size r) (zlen v)) by (unfold zlen; rewrite length_take; lia).
  rewrite Hk in H0. rewrite H0. replace (zlen v - Z.min (Size r) (zlen v)) with (zlen (drop (Z.to_nat (Size r)) v))
    by (unfold zlen; rewrite length_drop; lia).
  rewrite IH; [by rewrite take_drop| |done]. pose proof (sizes_positive results HF). unfold sizes in *. simpl in Hs. unfold zlen in *. rewrite length_drop. lia.
Qed.

Lemma concat_cut data results :
  Forall positive results -> zlen data <= sizes results -> concat (map fst (cut data results)) = data.
Proof.
  intros HF. revert data. induction HF as [|r results Hr HF IH]; intros data Hs.
  { unfold sizes in Hs. simpl in Hs. destruct data; [done|]. unfold zlen in Hs. simpl in Hs. lia. }
  destruct data as [|x data]; [done|]. cbn [cut map concat fst]. set (v := x :: data) in *.
  rewrite IH; [by rewrite take_drop|]. pose proof (sizes_positive results HF).
  unfold sizes in *. simpl in Hs. unfold zlen, positive in *. rewrite length_drop. lia.
Qed.

(** Whatever the outcome, only bytes of the segments change. *)
Lemma writeSegments_frame ctx i (d : disk) segs w d' r p :
  writeSegments ctx i d segs w = (d', r) -> Forall (fun seg => ~ seg_in seg p) segs -> diskByte d' p = diskByte d p.
Proof.
  revert i d w. induction segs as [|[data off] segs IH]; intros i d w; cbn [writeSegments]; [intros E _; by injection E as <-|].
  destruct (ctx i); [intros E _; by injection E as <-|].
  destruct (submitAndWait d data off) as [d1 [m err]] eqn:Es. intros E Hp. apply Forall_cons in Hp as [Hp0 Hp].
  assert (H1 : diskByte d1 p = diskByte d p) by (by eapply submit_frame).
  destruct err; [by injection E as <-|]. destruct (m =? zlen data); cbn [negb] in E; [|by injection E as <-].
  rewrite <- H1. by eapply IH.
Qed.

Lemma cut_uncovered data results p :
  Forall positive results -> covers results p = false -> Forall (fun seg => ~ seg_in seg p) (cut data results).
Proof.
  intros HF Hp. eapply Forall_impl; [by apply cut_in|]. intros seg (r & Hr & Ho & Hl) Hin.
  apply (proj1 (covers_false _ _) Hp) in Hr. apply not_true_iff_false in Hr. apply Hr, in_result_true.
  unfold seg_in in Hin. lia.
Qed.

(** Whatever the outcome, no byte outside the extents changes. *)
Lemma WriteAllocated_frame ctx1 ctx2 (d d' : disk) b results r p :
  WriteAllocated ctx1 ctx2 d b results = Some (d', r) -> Forall positive results ->
  covers results p = false -> diskByte d' p = diskByte d p.
Proof.
  pose proof (zlen_nonneg (buf_data b)) as Hz. intros E HF Hp. revert E. unfold WriteAllocated.
  case_bool; [intros E; by injection E as <-|]. case_bool; [intros E; by injection E as <-|].
  destruct (buildSegments ctx1 0 (buf_data b) results 0 []) as [[[c e]|[c segs]]|] eqn:Eb; go_step; [intros E; by injection E as <-| |done].
  case_bool; [intros E; by injection E as <-|]. intros E. injection E as Ew.
  eapply writeSegments_frame; [exact Ew|]. apply buildSegments_ok in Eb as (_ & -> & _); [|lia]. by apply cut_uncovered.
Qed.

Lemma WriteAllocated_stores ctx1 ctx2 (d d' : disk) b results n :
  WriteAllocated ctx1 ctx2 d b results = Some (d', (n, None)) ->
  Forall positive results -> disjoint_extents results ->
  n = zlen (buf_data b) /\ readExtents d' results n = buf_data b /\
  forall p, covers results p = false -> diskByte d' p = diskByte d p.
Proof.
  unfold WriteAllocated. set (data := buf_data b). pose proof (zlen_nonneg data) as Hz. intros E HF HD. revert E. case_bool.
  { intros E. injection E as <- <-. assert (data = []) as Hd0 by (destruct data; [done|unfold zlen in *; simpl in *; lia]).
    rewrite Hd0. split; [done|]. split; [by destruct results|done]. }
  case_bool; [done|]. destruct (buildSegments ctx1 0 data results 0 []) as [[[c e]|[c segs]]|] eqn:Eb; go_step; [done| |done].
  destruct (c =? zlen data) eqn:Ec; cbn [negb]; [|done]. bool_norm. subst c. intros E. injection E as E.
  apply buildSegments_ok in Eb as (_ & -> & _ & Hsz); [|lia]. specialize (Hsz HF). rewrite Z.sub_0_r in *.
  rewrite drop_0, take_ge in E by (unfold zlen; lia). cbn [app] in E.
  apply writeSegments_ok in E as (-> & HS & Hfr); [|by apply cut_disjoint].
  rewrite concat_cut, Z.add_0_l by done. split; [done|]. split; [by apply readExtents_cut|].
  intros p Hp. apply Hfr. by apply cut_uncovered.
Qed.

(** ** Success *)

(** An extent as [Alloc] returns it. *)
Definition aligned_extent (r : Result) : Prop :=
  0 <= Offset r /\ 0 < Size r /\ Offset r mod BlockSize = 0 /\ Size r mod BlockSize = 0.

Lemma validateAlignedResult_ok r : aligned_extent r -> validateAlignedResult r = None.
Proof.
  intros (H1 & H2 & H3 & H4). unfold validateAlignedResult.
  rewrite (proj2 (Z.ltb_ge _ 0)), (proj2 (Z.leb_gt _ 0)) by lia. rewrite !Z.rem_mod_nonneg by (done || lia).
  by rewrite H3, H4.
Qed.

Lemma buildSegments_total ctx i data results cursor segs :
  (forall j, ctx j = None) -> Forall aligned_extent results -> zlen data mod BlockSize = 0 -> cursor mod BlockSize = 0 -> 0 <= cursor <= zlen data ->
  exists c segs', buildSegments ctx i data results cursor segs = Some (inr (c, segs')).
Proof.
  intros Hctx HF Hd. revert i cursor segs. induction HF as [|r results Hr HF IH]; intros i cursor segs Hc Hb; cbn [buildSegments]; [eauto|].
  rewrite Hctx. case_bool; [eauto|]. rewrite validateAlignedResult_ok by done. pose proof Hr as (H1 & H2 & H3 & H4).
  set (need := if zlen data - cursor <? Size r then zlen data - cursor else Size r).
  assert (Hn : 0 < need /\ need mod BlockSize = 0 /\ cursor + need <= zlen data).
  { unfold need. change BlockSize with 4096 in *. case_bool; [|lia]. split; [lia|]. split; [|lia]. dlia. }
  rewrite (proj2 (Z.leb_gt need 0)), Z.rem_mod_nonneg by (done || lia). destruct Hn as (Hn0 & -> & Hn2). cbn [orb negb Z.eqb].
  rewrite slice_take by lia. go_step. apply IH; [|lia]. change BlockSize with 4096 in *. subst need. clear -Hc Hn0 Hd H4.
  destruct (zlen data - cursor <? Size r); dlia.
Qed.

(** A disk on which every write succeeds. *)
Definition reliable : Prop := forall (d : disk) data off, exists d', submitAndWait d data off = (d', (zlen data, None)).

Lemma writeSegments_total ctx i (d : disk) segs w :
  (forall j, ctx j = None) -> reliable -> exists d' n, writeSegments ctx i d segs w = (d', (n, None)).
Proof.
  intros Hctx HR. revert i d w. induction segs as [|[data off] segs IH]; intros i d w; cbn [writeSegments]; [eauto|]. rewrite Hctx.
  destruct (HR d data off) as [d1 ->]. rewrite Z.eqb_refl. apply IH.
Qed.

Lemma WriteAllocated_runs ctx1 ctx2 (d : disk) b results :
  (forall i, ctx1 i = None) -> (forall i, ctx2 i = None) -> reliable -> Forall aligned_extent results -> disjoint_extents results -> isAlignedBuffer b = true ->
  zlen (buf_data b) <= sizes results ->
  exists d', WriteAllocated ctx1 ctx2 d b results = Some (d', (zlen (buf_data b), None)).
Proof.
  intros H1 H2 HR HF HD Hal Hsz. pose proof (zlen_nonneg (buf_data b)) as Hz. unfold WriteAllocated. case_bool; [by rewrite Heqb0; eauto|].
  rewrite Hal. cbn [negb].
  assert (Hm : zlen (buf_data b) mod BlockSize = 0).
  { unfold isAlignedBuffer in Hal. destruct (buf_data b); [done|]. bool_norm. by rewrite Z.rem_mod_nonneg in *. }
  assert (HP : Forall positive results) by (eapply Forall_impl; [exact HF|]; intros r (_ & ? & _); done).
  destruct (buildSegments_total ctx1 0 (buf_data b) results 0 [] H1 HF Hm) as (c & segs & Eb); [done|lia|].
  rewrite Eb. go_step. apply buildSegments_ok in Eb as (Hc & -> & Heq & _); [|lia].
  assert (c = zlen (buf_data b)) as -> by (destruct (decide (c < zlen (buf_data b))) as [Hlt|]; [specialize (Heq Hlt); lia|lia]).
  rewrite Z.eqb_refl. cbn [negb]. rewrite Z.sub_0_r, drop_0, take_ge by (unfold zlen; lia). cbn [app].
  destruct (writeSegments_total ctx2 0 d (cut (buf_data b) results) 0 H2 HR) as (d' & n & E). rewrite E.
  apply writeSegments_ok in E as (-> & _ & _); [|by apply cut_disjoint]. rewrite concat_cut by done. exists d'. done.
Qed.

(** C18: A write that reports success has stored the data, and a write that
    can succeed does.  If [WriteAllocated] returns no error, it returns the
    length of the buffer, reading the extents in order yields exactly the
    buffer, and no byte outside the extents changed.  Writing an aligned buffer
    to aligned extents that are large enough succeeds when the context is not
    cancelled and the disk does not fail. *)
Theorem WriteAllocated_correct (d : disk) b results :
  Forall positive results -> disjoint_extents results ->
  (forall ctx1 ctx2 d' n, WriteAllocated ctx1 ctx2 d b results = Some (d', (n, None)) ->
     n = zlen (buf_data b) /\ readExtents d' results n = buf_data b /\
     forall p, covers results p = false -> diskByte d' p = diskByte d p) /\
  (reliable -> Forall aligned_extent results -> isAlignedBuffer b = true -> zlen (buf_data b) <= sizes results ->
     exists d', WriteAllocated (fun _ => None) (fun _ => None) d b results = Some (d', (zlen (buf_data b), None))).
Proof.
  intros Hp Hd. split; [intros ctx1 ctx2 d' n E; by eapply WriteAllocated_stores|]. intros. by apply WriteAllocated_runs.
Qed.
End write.

(** ** A concrete disk *)

Module MemDisk.
Fixpoint writeAll (d : gmap Z Z) (data : bytes) (off : Z) : gmap Z Z :=
  match data with
  | [] => d
  | b :: data => <[off := b]> (writeAll d data (off + 1))
  end.

#[export] Instance ops : AioDisk := {|
  disk := gmap Z Z;
  diskByte d p := default 0 (d !! p);
  submitAndWait d data off := (writeAll d data off, (zlen data, None));
|}.

Lemma writeAll_lookup (d : gmap Z Z) data off p :
  writeAll d data off !! p = if decide (off <= p < off + zlen data) then data.[p - off] else d !! p.
Proof.
  revert off. induction data as [|b data IH]; intros off; cbn [writeAll].
  { rewrite decide_False; [done|]. unfold zlen. simpl. lia. }
  assert (Hz : zlen (b :: data) = zlen data + 1) by (unfold zlen; simpl; lia). pose proof (zlen_nonneg data).
  destruct (decide (p = off)) as [->|Hne].
  - rewrite lookup_insert_eq, decide_True by lia. by rewrite Z.sub_diag.
  - rewrite lookup_insert_ne, IH by done. rewrite zget_cons, (proj2 (Z.eqb_neq _ 0)) by lia.
    replace (p - (off + 1)) with (p - off - 1) by lia. repeat case_decide; done || lia.
Qed.

#[export] Instance laws : AioDiskLaws ops.
Proof.
  split; simpl.
  - intros d data off d' E i b Hb. injection E as <-. pose proof (zget_bound _ _ _ Hb).
    rewrite writeAll_lookup, decide_True by lia. replace (off + i - off) with i by lia. by rewrite Hb.
  - intros d data off d' r E p Hp. injection E as <- <-. by rewrite writeAll_lookup, decide_False.
Qed.

Lemma ops_reliable : reliable.
Proof. intros d data off. eexists. reflexivity. Qed.
End MemDisk.

#[local] Existing Instances MemDisk.ops MemDisk.laws.

Definition demoBuffer : buffer := mkBuffer 8192 (zmake 8192 7).
Definition demoExtents : list Result := [mkResult 4096 4096; mkResult 16384 8192].

Lemma WriteAllocated_correct_witness :
  exists d', WriteAllocated (fun _ => None) (fun _ => None) (∅ : @disk MemDisk.ops) demoBuffer demoExtents =
      Some (d', (zlen (buf_data demoBuffer), None)) /\
    readExtents d' demoExtents (zlen (buf_data demoBuffer)) = buf_data demoBuffer.
Proof.
  destruct (WriteAllocated_correct (∅ : @disk MemDisk.ops) demoBuffer demoExtents) as [Hs Hc]; [repeat constructor|repeat constructor|].
  destruct (Hc MemDisk.ops_reliable) as [d' E]; [repeat constructor; vm_compute; congruence|vm_compute; reflexivity|vm_compute; congruence|].
  exists d'. split; [exact E|]. exact (proj1 (proj2 (Hs _ _ _ _ E))).
Defined.
