(* ===== verification/Crc32.v ===== *)
(** * CRC-32

    [hash/crc32] with the IEEE polynomial, as the upload handler uses it. *)

From stdpp Require Import base decidable list numbers option strings.
From Stdlib Require Import ZArith Lia.
From S2P Require Import Prelude Words Bytes.

Definition IEEE : Z := 3988292384. (* 0xedb88320 *)

(** [^crc] on a [uint32] *)
Definition not32 (c : Z) : Z := Z.lxor c (2 ^ 32 - 1).

(** Entry [i] of the IEEE table. *)
Definition crcStep (c : Z) : Z :=
  if Z.testbit c 0 then Z.lxor (Z.shiftr c 1) IEEE else Z.shiftr c 1.

Definition ieeeTable (i : Z) : Z := Nat.iter 8 crcStep i.

(** The byte loop of [crc32.update]. *)
Definition crcBytes (c : Z) (p : bytes) : Z :=
  fold_left (fun c v => Z.lxor (ieeeTable (Z.lxor (Z.land c 255) v)) (Z.shiftr c 8)) p c.

(** [crc32.Update(crc, crc32.IEEETable, p)] *)
Definition crc32Update (crc : Z) (p : bytes) : Z := not32 (crcBytes (not32 crc) p).

(** [crc32.ChecksumIEEE] *)
Definition crc32ChecksumIEEE (p : bytes) : Z := crc32Update 0 p.

(** The check value of the CRC catalogue. *)
Example crc32_check : crc32ChecksumIEEE (bs "123456789") = 3421780262.
Proof. vm_compute. reflexivity. Qed.

Lemma not32_involutive c : not32 (not32 c) = c.
Proof. unfold not32. by rewrite Z.lxor_assoc, Z.lxor_nilpotent, Z.lxor_0_r. Qed.

(** Updating chunk by chunk is updating with the concatenation. *)
Lemma crc32Update_app crc p q : crc32Update (crc32Update crc p) q = crc32Update crc (p ++ q).
Proof. unfold crc32Update. rewrite not32_involutive. unfold crcBytes. by rewrite fold_left_app. Qed.

Lemma crc32Update_nil crc : crc32Update crc [] = crc.
Proof. apply not32_involutive. Qed.

(** [fmt.Sprintf("%08x", c)] *)
Definition hexDigit (d : Z) : Z := if d <? 10 then 48 + d else 87 + d.

Fixpoint hex (n : nat) (c : Z) : bytes :=
  match n with O => [] | S n => hex n (c / 16) ++ [hexDigit (c mod 16)] end.

Definition sprintf08x (c : Z) : bytes := hex 8 c.
