(* ===== verification/Upload.v ===== *)
(** * The upload handler

    [internal/ec/server/aio_upload_server_handler.go] with the metadata keys of
    [internal/message/pb/object.go] and [meta_reader.go].

    [Put] and [Complete] hand a flush to a goroutine; the channel server takes
    the next payload only after it received the handler's response, and a flush
    sends its response (or releases the wait group) as its last action.  So the
    flush has ended before the next operation of the same upload starts, and
    the model runs it to its end inside the operation.  Every path of [Put],
    [Complete] and [TimeOut] sends exactly one response, which is the result of
    the model's functions. *)

From stdpp Require Import base decidable list numbers option strings gmap.
From Stdlib Require Import ZArith Lia.
From S2P Require Import Prelude Words Bytes Moss MossThms Allocator Extents SpaceBitmap Pebble WriteBatch BatchPebble BlockDevice FileMetaCodec AioChannel Crc32.

Definition MinAllocSize : Z := 1024 * 1024.

Inductive Response := MetaContinue | MetaSuccess | MetaError (e : error).

(** [pb.PutInitRequest], the fields the handler reads. *)
Record PutInitRequest := mkPutInitRequest {
  pi_Lun : string; pi_FileName : bytes; pi_MetaKey : bytes; pi_NoGet : bool }.

Record flushBlockInfo := mkFlushBlockInfo {
  fi_results : list Result; fi_token : list Result; fi_originalLen : Z; fi_alignedLen : Z; fi_err : option error }.

Record AioUploadServerHandler := mkHandler {
  initReq : option PutInitRequest;
  chunks : list bytes;
  pendingLen : Z;
  fileSize : Z;
  crc32Value : Z;
  blockInfoList : list flushBlockInfo;
  flushErr : option error;
  finalized : bool;
  allocCount : Z;
}.

Definition NewAioUploadServerHandler : AioUploadServerHandler := mkHandler None [] 0 0 0 [] None false 0.

(** [chunks] and [allocCount] are not reset. *)
Definition Start (h : AioUploadServerHandler) (req : PutInitRequest) : AioUploadServerHandler :=
  mkHandler (Some req) (chunks h) 0 0 0 [] None false (allocCount h).

Definition set_finalized (h : AioUploadServerHandler) : AioUploadServerHandler :=
  mkHandler (initReq h) (chunks h) (pendingLen h) (fileSize h) (crc32Value h) (blockInfoList h) (flushErr h) true (allocCount h).
Definition set_infos (h : AioUploadServerHandler) (l : list flushBlockInfo) : AioUploadServerHandler :=
  mkHandler (initReq h) (chunks h) (pendingLen h) (fileSize h) (crc32Value h) l (flushErr h) (finalized h) (allocCount h).

(** Updating the info of the running flush, the last of the list. *)
Definition update_last (l : list flushBlockInfo) (f : flushBlockInfo -> flushBlockInfo) : list flushBlockInfo :=
  match last l with None => l | Some x => take (length l - 1) l ++ [f x] end.

(** [h.failFlush(info, err)] *)
Definition failFlush (h : AioUploadServerHandler) (err : error) : AioUploadServerHandler :=
  mkHandler (initReq h) (chunks h) (pendingLen h) (fileSize h) (crc32Value h)
    (update_last (blockInfoList h) (fun i => mkFlushBlockInfo (fi_results i) (fi_token i) (fi_originalLen i) (fi_alignedLen i) (Some err)))
    (match flushErr h with None => Some err | e => e end) (finalized h) (allocCount h).

Definition completeFlush (h : AioUploadServerHandler) (results token : list Result) : AioUploadServerHandler :=
  mkHandler (initReq h) (chunks h) (pendingLen h) (fileSize h) (crc32Value h)
    (update_last (blockInfoList h) (fun i => mkFlushBlockInfo results token (fi_originalLen i) (fi_alignedLen i) (fi_err i)))
    (flushErr h) (finalized h) (allocCount h + zlen results).

(** [copy(buf[cursor:], chunk)] *)
Definition copyAt (buf : bytes) (cursor : Z) (chunk : bytes) : option bytes :=
  if (0 <=? cursor) && (cursor <=? zlen buf) then
    Some (take (Z.to_nat cursor) buf ++ take (Z.to_nat (zlen buf - cursor)) chunk ++ drop (Z.to_nat cursor + length chunk) buf)
  else None.

Fixpoint copyChunks (buf : bytes) (cursor : Z) (cs : list bytes) : option bytes :=
  match cs with
  | [] => Some buf
  | c :: cs => buf ← copyAt buf cursor c; copyChunks buf (cursor + zlen c) cs
  end.

(** [addr] is the address of the new buffer's memory. *)
Definition startFlush (addr : Z) (h : AioUploadServerHandler) : option (AioUploadServerHandler * buffer) :=
  let originalLen := pendingLen h in
  let alignedLen := AlignBlockSize originalLen in
  b ← NewAlignedBlockBuffer addr alignedLen;
  data ← copyChunks (buf_data b) 0 (chunks h);
  let info := mkFlushBlockInfo [] [] originalLen alignedLen None in
  Some (mkHandler (initReq h) [] 0 (fileSize h) (crc32Value h) (blockInfoList h ++ [info]) (flushErr h) (finalized h) (allocCount h),
        mkBuffer (buf_addr b) data).

(** ** Metadata keys *)

(** [strings.Split(s, "/")] *)
Fixpoint splitSlash (s cur : bytes) : list bytes :=
  match s with
  | [] => [cur]
  | c :: s => if c =? 47 then cur :: splitSlash s [] else splitSlash s (cur ++ [c])
  end.

Definition PebbleFileMetaPrefix : bytes := bs "#".
Definition PebbleFileSystemFileNum : bytes := bs ".2.num".
Definition PebbleFileSystemSize : bytes := bs ".2.size".
Definition PebbleFileSystemUsedSize : bytes := bs ".2.used".

Definition GetFileMetaKey (fileName : bytes) : bytes :=
  match splitSlash fileName [] with
  | _ :: part :: _ => PebbleFileMetaPrefix ++ part
  | _ => PebbleFileMetaPrefix ++ fileName
  end.

Definition fileMetaKey (metaKey : bytes) : bytes := bs "meta/file/" ++ metaKey.

(** [mspebble.ToByte] *)
Definition ToByte (c : Z) : bytes := le_bytes 8 (u64 c).

Definition buildFileMetaAndResults (req : PutInitRequest) (tot : Z) (etag : bytes) (infos : list flushBlockInfo)
    : FileMeta * list Result * Z :=
  let results := concat (map fi_results infos) in
  (mkFileMeta (pi_MetaKey req) (pi_FileName req) (bs (pi_Lun req)) etag tot (map Offset results) (map Size results),
   results, fold_left (fun t r => i64 (t + Size r)) results 0).

(** [proto.Marshal], a third-party package. *)
Class ProtoMarshal := Marshal : FileMeta -> error + bytes.

(** [proto.Unmarshal], which reads what [proto.Marshal] wrote. *)
Class ProtoCodec (PM : ProtoMarshal) := {
  Unmarshal : bytes -> error + FileMeta;
  Unmarshal_Marshal : forall meta b, Marshal meta = inr b -> Unmarshal b = inr meta;
}.

Section handler.
Context `{PO : PebbleOps} `{J : JSONDecoder} {T : Type} `{EA : ExtentAllocator T} `{AD : AioDisk} `{PM : ProtoMarshal}.

(** What the handler works on. *)
Record world := mkWorld { w_dev : @BlockDevice T; w_disk : disk; w_db : DB }.

Definition set_dev (w : world) (d : @BlockDevice T) : world := mkWorld d (w_disk w) (w_db w).

(** One [RollbackAlloc] per flush that still has its token. *)
Fixpoint rollbackTokens (d : @BlockDevice T) (infos : list flushBlockInfo) : option (@BlockDevice T) :=
  match infos with
  | [] => Some d
  | i :: infos =>
      match fi_token i with
      | [] => rollbackTokens d infos
      | token => d ← RollbackAlloc d token; rollbackTokens d infos
      end
  end.

Definition clearToken (i : flushBlockInfo) : flushBlockInfo :=
  mkFlushBlockInfo (fi_results i) [] (fi_originalLen i) (fi_alignedLen i) (fi_err i).

Definition rollbackCompletedFlushes (h : AioUploadServerHandler) (w : world) : option (AioUploadServerHandler * world) :=
  d ← rollbackTokens (w_dev w) (blockInfoList h);
  Some (set_infos h (map clearToken (blockInfoList h)), set_dev w d).

(** The error branches of [runFlush]: with [respond], the flush that failed
    also undoes the others and answers. *)
Definition flushFailed (h : AioUploadServerHandler) (w : world) (err : error) (respond : bool)
    : option (AioUploadServerHandler * world * Response) :=
  let h := failFlush h err in
  if respond then '(h, w) ← rollbackCompletedFlushes h w; Some (h, w, MetaError err)
  else Some (h, w, MetaError err).

(** [ctx1], [ctx2] are what the context answers during the write.  The
    response is only sent when [respond]. *)
Definition runFlush (ctx1 ctx2 : nat -> option error) (h : AioUploadServerHandler) (w : world) (buf : buffer) (respond : bool)
    : option (AioUploadServerHandler * world * Response) :=
  '(d, r) ← Alloc (w_dev w) (zlen (buf_data buf));
  let w := set_dev w d in
  match r with
  | inl err => flushFailed h w err respond
  | inr (results, token) =>
      '(dk, (written, err)) ← WriteAllocated ctx1 ctx2 (w_disk w) buf results;
      let w := mkWorld (w_dev w) dk (w_db w) in
      let err := match err with
                 | None => if written =? zlen (buf_data buf) then None else Some "partial aio write"%string
                 | e => e
                 end in
      match err with
      | Some err => d ← RollbackAlloc (w_dev w) token; flushFailed h (set_dev w d) err respond
      | None => Some (completeFlush h results token, w, MetaContinue)
      end
  end.

(** [context.Background()] is never cancelled. *)
Definition Background : nat -> option error := fun _ => None.

Definition Put (addr : Z) (h : AioUploadServerHandler) (w : world) (data : bytes)
    : option (AioUploadServerHandler * world * Response) :=
  match initReq h with
  | None => Some (h, w, MetaError "start request is missing"%string)
  | Some _ =>
      match flushErr h with
      | Some e => Some (h, w, MetaError e)
      | None =>
          if finalized h then Some (h, w, MetaError "upload is already finalized"%string)
          else match data with
          | [] => Some (h, w, MetaContinue)
          | _ =>
              let h := mkHandler (initReq h) (chunks h ++ [data]) (pendingLen h + zlen data) (i64 (fileSize h + zlen data))
                         (crc32Update (crc32Value h) data) (blockInfoList h) (flushErr h) (finalized h) (allocCount h) in
              if MinAllocSize <=? pendingLen h then
                '(h, buf) ← startFlush addr h; runFlush Background Background h w buf true
              else Some (h, w, MetaContinue)
          end
      end
  end.

(** [consumer0] of [Complete]. *)
Definition commitConsumer (meta : FileMeta) (metaBytes : bytes) (results : list Result) (totalSize : Z) : RequestConsumer :=
  fun _ w =>
    w ←! PersistAllocBatch w results;
    w ←! put w (GetFileMetaKey (fm_FileName meta)) metaBytes;
    w ←! merge w PebbleFileSystemFileNum (ToByte 1);
    w ←! merge w PebbleFileSystemSize (ToByte (fm_Size meta));
    merge w PebbleFileSystemUsedSize (ToByte totalSize).

(** [consumer] when [NoGet] is false: write nothing if the key exists. *)
Definition guardedConsumer (meta : FileMeta) (c : RequestConsumer) : RequestConsumer :=
  fun db w =>
    match getFromBatchAndDB db w (fileMetaKey (fm_MetaKey meta)) with
    | inl e => Some (inl e)
    | inr None => c db w
    | inr (Some _) => Some (inr w)
    end.

(** The variable [exists] after the request ran. *)
Definition existsFlag (req : PutInitRequest) (meta : FileMeta) (db : DB) (lun : string) : bool :=
  if pi_NoGet req then false
  else match getFromBatchAndDB db (NewWriteBatch db lun) (fileMetaKey (fm_MetaKey meta)) with
       | inr (Some _) => true
       | _ => false
       end.

(** [CustomizeOperateData(lun, ...)]: only the device's own name has a
    processor here. *)
Definition submitRequest (w : world) (lun : string) (c : RequestConsumer) : option (DB * option error) :=
  if String.eqb lun (bd_name (w_dev w)) then customizeOperateData (w_db w) lun c
  else Some (w_db w, Some "no processor registered"%string).

(** [Complete] once all flushes are done and none failed.  The database of a
    failed commit is kept. *)
Definition commitUpload (h : AioUploadServerHandler) (w : world) (req : PutInitRequest)
    : option (AioUploadServerHandler * world * Response) :=
  let etag := if crc32Value h =? 0 then [] else sprintf08x (crc32Value h) in
  let '(meta, results, totalSize) := buildFileMetaAndResults req (fileSize h) etag (blockInfoList h) in
  match Marshal meta with
  | inl e => '(h, w) ← rollbackCompletedFlushes h w; Some (h, w, MetaError e)
  | inr metaBytes =>
      let lun := if String.eqb (pi_Lun req) "" then bd_name (w_dev w) else pi_Lun req in
      let consumer0 := commitConsumer meta metaBytes results totalSize in
      let consumer := if pi_NoGet req then consumer0 else guardedConsumer meta consumer0 in
      let exists_ := existsFlag req meta (w_db w) lun in
      '(db', err) ← submitRequest w lun consumer;
      let w := mkWorld (w_dev w) (w_disk w) db' in
      match err with
      | Some e => '(h, w) ← rollbackCompletedFlushes h w; Some (h, w, MetaError e)
      | None =>
          '(h, w) ← (if exists_ then rollbackCompletedFlushes h w else Some (h, w));
          Some (h, w, MetaSuccess)
      end
  end.

Definition Complete (addr : Z) (ctx1 ctx2 : nat -> option error) (h : AioUploadServerHandler) (w : world)
    : option (AioUploadServerHandler * world * Response) :=
  match initReq h with
  | None => Some (h, w, MetaError "start request is missing"%string)
  | Some req =>
      match flushErr h with
      | Some e => '(h, w) ← rollbackCompletedFlushes (set_finalized h) w; Some (h, w, MetaError e)
      | None =>
          if finalized h then Some (h, w, MetaError "upload is already finalized"%string)
          else if fileSize h =? 0 then Some (set_finalized h, w, MetaError "empty put payload"%string)
          else
            let h := set_finalized h in
            '(h, w) ← (if pendingLen h =? 0 then Some (h, w)
                       else '(h, buf) ← startFlush addr h;
                            '(h, w, _) ← runFlush ctx1 ctx2 h w buf false; Some (h, w));
            match flushErr h with
            | Some e => '(h, w) ← rollbackCompletedFlushes h w; Some (h, w, MetaError e)
            | None => commitUpload h w req
            end
      end
  end.

Definition TimeOut (h : AioUploadServerHandler) (w : world) : option (AioUploadServerHandler * world * Response) :=
  let h := mkHandler (initReq h) [] 0 (fileSize h) (crc32Value h) (blockInfoList h) (flushErr h) true (allocCount h) in
  '(h, w) ← rollbackCompletedFlushes h w;
  Some (h, w, MetaError "channel timeout"%string).

(** [QueryFileMeta] *)
Definition QueryFileMeta (db : DB) (metaKey : bytes) : error + FileMeta :=
  match DBGet db (fileMetaKey metaKey) with
  | inl e => inl e
  | inr None | inr (Some []) => inl "file meta not found"%string
  | inr (Some v) => decodeFileMetaBinary v
  end.
End handler.
