(* ===== verification/UploadInv.v ===== *)
(** * The invariant of an upload

    What the handler holds between two payloads: which bytes it received, which
    of them are on the disk and where, and which blocks it owns. *)

From stdpp Require Import base decidable list numbers option strings gmap.
From Stdlib Require Import ZArith Lia.
From S2P Require Import Prelude Words Bytes Moss MossJSON MossThms Allocator Extents AllocatorSpec SpaceBitmap Pebble WriteBatch BatchPebble BlockDevice BlockDeviceSpec BlockDeviceThms FileMetaCodec AioChannel Crc32 Upload.

(** ** Byte extents of blocks *)

Lemma disjoint_byteResult rs : disjoint_extents rs -> disjoint_extents (map byteResult rs).
Proof.
  induction rs as [|r rs IH]; [done|]. intros [HF HD]. split; [|by apply IH]. apply Forall_map.
  eapply Forall_impl; [exact HF|]. intros q. unfold extentsOverlap, byteResult. simpl. change BlockSize with 4096.
  intros H. apply andb_false_iff. apply andb_false_iff in H. destruct H as [H|H]; bool_norm; [left|right]; apply Z.ltb_ge; lia.
Qed.

Lemma covers_byteResult rs p : covers (map byteResult rs) p = covers rs (p / BlockSize).
Proof.
  unfold covers. induction rs as [|r rs IH]; [done|]. simpl. f_equal; [|exact IH].
  apply eq_true_iff_eq. rewrite !in_result_true. unfold byteResult. simpl. change BlockSize with 4096. dlia.
Qed.

Lemma sizes_byteResult rs : sizes (map byteResult rs) = sizes rs * BlockSize.
Proof. unfold sizes. induction rs as [|r rs IH]; simpl; [done|]. rewrite IH. change BlockSize with 4096. lia. Qed.

Lemma positive_byteResult tot rs : Forall (extent_in tot) rs -> Forall positive (map byteResult rs).
Proof.
  intros HF. apply Forall_map. eapply Forall_impl; [exact HF|]. intros r (_ & ? & _). unfold positive, byteResult. simpl.
  change BlockSize with 4096. lia.
Qed.

Section reading.
Context `{AD : AioDisk}.

(** Reading extents only looks at their bytes. *)
Lemma readExtents_ext (d d' : disk) results n :
  Forall positive results -> (forall p, covers results p = true -> diskByte d p = diskByte d' p) ->
  readExtents d results n = readExtents d' results n.
Proof.
  intros HF. revert n. induction HF as [|r results Hr HF IH]; intros n H; [done|]. cbn [readExtents]. case_bool; [done|].
  unfold positive in Hr. f_equal.
  - unfold readRange. apply map_ext_in. intros j Hj. apply list_elem_of_In, elem_of_seqZ in Hj. apply H.
    rewrite covers_cons. apply orb_true_iff. left. apply in_result_true. lia.
  - apply IH. intros p Hp. apply H. rewrite covers_cons, Hp. apply orb_true_r.
Qed.
End reading.

Lemma readRange_take `{AD : AioDisk} (d : disk) off n m :
  0 <= m <= n -> readRange d off m = take (Z.to_nat m) (readRange d off n).
Proof.
  intros H. unfold readRange. replace n with (m + (n - m)) by lia. rewrite seqZ_app by lia.
  rewrite map_app, take_app_length'; [done|]. rewrite length_map, length_seqZ. done.
Qed.

(** Reading the first bytes of what is stored. *)
Lemma readExtents_take `{AD : AioDisk} (d : disk) results n m :
  Forall positive results -> 0 <= m <= n -> readExtents d results m = take (Z.to_nat m) (readExtents d results n).
Proof.
  intros HF. revert n m. induction HF as [|r results Hr HF IH]; intros n m Hm; cbn [readExtents]; [by rewrite take_nil|].
  unfold positive in Hr. destruct (m <=? 0) eqn:Em; bool_norm; [by replace (Z.to_nat m) with O by lia|].
  rewrite (proj2 (Z.leb_gt n 0)) by lia.
  assert (Hl : length (readRange d (Offset r) (Z.min (Size r) n)) = Z.to_nat (Z.min (Size r) n))
    by (unfold readRange; rewrite length_map, length_seqZ; done).
  destruct (decide (m <= Size r)).
  - rewrite Z.min_r by lia. rewrite take_app_le by lia. rewrite Z.sub_diag.
    assert (readExtents d results 0 = []) as -> by (by destruct results). rewrite app_nil_r.
    apply readRange_take. lia.
  - rewrite !Z.min_l in * by lia. rewrite take_app, Hl. f_equal.
    + symmetry. apply take_ge. lia.
    + rewrite (IH (n - Size r)) by lia. f_equal. lia.
Qed.

(** ** Copying the chunks *)

Lemma copyChunks_spec pre cs m :
  zlen (concat cs) <= m ->
  copyChunks (pre ++ zmake m 0) (zlen pre) cs = Some (pre ++ concat cs ++ zmake (m - zlen (concat cs)) 0).
Proof.
  revert pre m. induction cs as [|c cs IH]; intros pre m Hm; cbn [copyChunks concat].
  { change (zlen (@nil Z)) with 0. by rewrite Z.sub_0_r. }
  cbn [concat] in Hm. unfold zlen in Hm at 1. rewrite length_app in Hm.
  assert (Hz : zlen (pre ++ zmake m 0) = zlen pre + m) by (unfold zlen, zmake; rewrite length_app, length_replicate; lia).
  pose proof (zlen_nonneg pre). unfold copyAt. rewrite Hz, (proj2 (Z.leb_le 0 _)), (proj2 (Z.leb_le _ _)) by lia. cbn [andb]. go_step.
  replace (Z.to_nat (zlen pre)) with (length pre) by (unfold zlen; lia). rewrite take_app_length.
  rewrite (take_ge c) by lia. rewrite drop_app_add'; [|done]. unfold zmake at 1. rewrite drop_replicate.
  rewrite (assoc_L (++)). specialize (IH (pre ++ c) (m - zlen c)). unfold zmake in IH at 1.
  replace (Z.to_nat (m - zlen c)) with (Z.to_nat m - length c)%nat in IH by (unfold zlen; lia).
  replace (zlen (pre ++ c)) with (zlen pre + zlen c) in IH by (unfold zlen; rewrite length_app; lia).
  rewrite IH by (unfold zlen; lia). rewrite <- !app_assoc.
  replace (zlen (c ++ concat cs)) with (zlen c + zlen (concat cs)) by (unfold zlen; rewrite length_app; lia).
  by rewrite Z.sub_add_distr.
Qed.

(** ** Releasing tokens *)

Definition tokens (infos : list flushBlockInfo) : list Result := concat (map fi_token infos).

Section rollback.
Context {T : Type} `{EA : ExtentAllocator T} `{EL : !ExtentAllocatorLaws T}.

(** The device's allocator is sound and its free map is [free0] less the
    blocks of [held]. *)
Record holding (tot : Z) (free0 : Z -> bool) (held : list Result) (d : @BlockDevice T) : Prop := {
  ho_ok : ea_ok (bd_allocator d);
  ho_total : ea_total (bd_allocator d) = tot;
  ho_in : Forall (extent_in tot) held;
  ho_disjoint : disjoint_extents held;
  ho_was_free : forall b, covers held b = true -> free0 b = true;
  ho_free : forall b, ea_free (bd_allocator d) b = free0 b && negb (covers held b);
}.

Lemma holding_perm tot free0 rs rs' d : rs ≡ₚ rs' -> holding tot free0 rs d -> holding tot free0 rs' d.
Proof.
  intros P [H1 H2 H3 H4 H5 H6]. split; try done.
  - by rewrite <- P.
  - by eapply disjoint_perm.
  - intros b Hb. apply H5. by rewrite (covers_perm _ _ _ P).
  - intros b. by rewrite H6, (covers_perm _ _ _ P).
Qed.

Lemma RollbackAlloc_holding tot free0 token held d :
  holding tot free0 (token ++ held) d ->
  exists d', RollbackAlloc d token = Some d' /\ holding tot free0 held d' /\ bd_name d' = bd_name d /\ bd_size d' = bd_size d.
Proof.
  intros [H1 H2 H3 H4 H5 H6]. pose proof H3 as H3'. apply Forall_app in H3' as [F1 F2].
  apply (disjoint_app_covers _ _ _ H3) in H4 as (D1 & D2 & D3).
  destruct token as [|r rs]; [exists d; split; [done|]; split; [by split|done]|]. unfold RollbackAlloc.
  destruct (ea_release_law (bd_allocator d) (r :: rs) H1) as (a' & -> & Ho & Ht & Hf); [by rewrite H2|done| |].
  { intros b Hb. by rewrite H6, covers_app, Hb, andb_false_r. }
  eexists. split; [done|]. split; [|done]. split; simpl; try done; [congruence| |].
  - intros b Hb. apply H5. by rewrite covers_app, Hb, orb_true_r.
  - intros b. rewrite Hf, H6, covers_app. destruct (covers (r :: rs) b) eqn:E; simpl.
    + rewrite andb_false_r. simpl. rewrite (D3 b E), H5; [done|]. by rewrite covers_app, E.
    + by rewrite orb_false_r.
Qed.

Lemma rollbackTokens_holding tot free0 infos d :
  holding tot free0 (tokens infos) d ->
  exists d', rollbackTokens d infos = Some d' /\ holding tot free0 [] d' /\ bd_name d' = bd_name d /\ bd_size d' = bd_size d.
Proof.
  revert d. induction infos as [|i infos IH]; intros d H; cbn [rollbackTokens]; [eauto|].
  unfold tokens in H. cbn [map concat] in H. destruct (fi_token i) as [|r rs] eqn:Et; [by apply IH|].
  destruct (RollbackAlloc_holding _ _ _ _ _ H) as (d1 & -> & H1 & N1 & S1). go_step.
  destruct (IH d1 H1) as (d2 & E2 & H2 & N2 & S2). exists d2. split; [done|]. split; [done|]. split; congruence.
Qed.

Lemma Alloc_holding tot free0 held d size :
  holding tot free0 held d -> tot * BlockSize < 2 ^ 63 -> 0 < size < 2 ^ 62 ->
  (exists e, Alloc d size = Some (d, inl e)) \/
  (exists d' token, Alloc d size = Some (d', inr (map byteResult token, token)) /\ holding tot free0 (held ++ token) d' /\
     sizes token = (size + BlockSize - 1) / BlockSize /\ bd_name d' = bd_name d /\ bd_size d' = bd_size d).
Proof.
  intros [H1 H2 H3 H4 H5 H6] Ht Hs.
  destruct (Alloc_cases d size H1 ltac:(rewrite H2; done) Hs) as [(_ & e & E)|(_ & a' & tk & E & Ho & Ht' & HF & HD & Hsz & Hc & Hf)];
    [left; eauto|right]. rewrite H2 in *. exists (set_allocator d a'), tk. split; [done|]. split; [|by simpl].
  split; simpl; try done.
  - by apply Forall_app.
  - apply (disjoint_app_covers tot); [by apply Forall_app|]. split; [done|]. split; [done|]. intros b Hb.
    destruct (covers tk b) eqn:E2; [|done]. specialize (Hc b E2). by rewrite H6, Hb, andb_false_r in Hc.
  - intros b Hb. rewrite covers_app in Hb. apply orb_true_iff in Hb as [Hb|Hb]; [by apply H5|].
    apply Hc in Hb. rewrite H6 in Hb. by apply andb_true_iff in Hb as [? _].
  - intros b. rewrite Hf, H6, covers_app, negb_orb. by rewrite andb_assoc.
Qed.

(** Fewer blocks are free than [size] bytes need. *)
Definition no_room (d : @BlockDevice T) (size : Z) : Prop :=
  count (ea_free (bd_allocator d)) 0 (ea_total (bd_allocator d)) < (size + BlockSize - 1) / BlockSize.

(** The only reason for [Alloc] to fail. *)
Lemma Alloc_room tot free0 held d d' size e :
  holding tot free0 held d -> tot * BlockSize < 2 ^ 63 -> 0 < size < 2 ^ 62 -> Alloc d size = Some (d', inl e) -> no_room d size.
Proof.
  intros [H1 H2 _ _ _ _] Ht Hs E.
  destruct (Alloc_cases d size H1 ltac:(rewrite H2; done) Hs) as [(Hc & _)|(_ & a' & tk & E' & _)]; [done|]. congruence.
Qed.

(** Padding to whole blocks needs no more of them. *)
Lemma no_room_aligned d n : 0 <= n < 2 ^ 62 -> no_room d (AlignBlockSize n) -> no_room d n.
Proof.
  intros Hn. destruct (AlignBlockSize_spec n Hn) as [Ha Hm]. unfold no_room.
  replace ((n + BlockSize - 1) / BlockSize) with ((AlignBlockSize n + BlockSize - 1) / BlockSize); [done|].
  change BlockSize with 4096 in *. dlia.
Qed.
End rollback.

(** ** One flush *)

Section flush.
Context {PO : PebbleOps} {J : JSONDecoder} {T : Type} `{EA : ExtentAllocator T} `{EL : !ExtentAllocatorLaws T}
  {AD : AioDisk} `{AL : !AioDiskLaws AD} {PM : ProtoMarshal}.

(** The bytes of a completed flush are on the disk, in the blocks of its
    token. *)
Record flushed (dk : disk) (i : flushBlockInfo) (data : bytes) : Prop := {
  fl_results : fi_results i = map byteResult (fi_token i);
  fl_pos : 0 < fi_originalLen i < 2 ^ 61;
  fl_len : zlen data = fi_originalLen i;
  fl_read : readExtents dk (fi_results i) (fi_originalLen i) = data;
  fl_padded : readExtents dk (fi_results i) (fi_alignedLen i) = data ++ zmake (fi_alignedLen i - fi_originalLen i) 0;
  fl_sizes : sizes (fi_results i) = fi_alignedLen i;
  fl_aligned : fi_alignedLen i = AlignBlockSize (fi_originalLen i);
}.

Lemma startFlush_spec addr (h : AioUploadServerHandler) :
  pendingLen h = zlen (concat (chunks h)) -> 0 < pendingLen h < 2 ^ 61 ->
  let n := pendingLen h in
  exists buf,
    startFlush addr h = Some
      (mkHandler (initReq h) [] 0 (fileSize h) (crc32Value h)
         (blockInfoList h ++ [mkFlushBlockInfo [] [] n (AlignBlockSize n) None]) (flushErr h) (finalized h) (allocCount h), buf) /\
    buf_data buf = concat (chunks h) ++ zmake (AlignBlockSize n - n) 0 /\ isAlignedBuffer buf = true.
Proof.
  intros Hp Hn n. destruct (AlignBlockSize_spec n ltac:(lia)) as (Ha & Hm). unfold startFlush. fold n.
  destruct (NewAlignedBlockBuffer_spec addr (AlignBlockSize n)) as (b & -> & Hd & Hal); [lia|]. go_step. rewrite Hd.
  pose proof (copyChunks_spec [] (chunks h) (AlignBlockSize n) ltac:(rewrite <- Hp; fold n; lia)) as Hcp.
  cbn [app] in Hcp. change (zlen (@nil Z)) with 0 in Hcp. rewrite Hcp. go_step.
  rewrite <- Hp. fold n. eexists. split; [done|]. cbn [buf_data]. split; [done|]. unfold isAlignedBuffer. cbn [buf_data buf_addr].
  assert (Hz : zlen (concat (chunks h) ++ zmake (AlignBlockSize n - n) 0) = AlignBlockSize n)
    by (unfold zlen in *; rewrite length_app; unfold zmake; rewrite length_replicate; lia).
  rewrite Hz, Hal, Z.rem_mod_nonneg, Hm by (done || lia). by case_match.
Qed.

Lemma update_last_snoc infos i f : update_last (infos ++ [i]) f = infos ++ [f i].
Proof.
  unfold update_last. rewrite last_snoc. rewrite length_app. simpl. rewrite Nat.add_sub. by rewrite take_app_length.
Qed.

Lemma tokens_app infos infos' : tokens (infos ++ infos') = tokens infos ++ tokens infos'.
Proof. unfold tokens. by rewrite map_app, concat_app. Qed.

Lemma tokens_clear infos : tokens (map clearToken infos) = [].
Proof. unfold tokens. induction infos; simpl; done. Qed.

Lemma rollbackCompletedFlushes_spec tot free0 h (w : world (T := T)) :
  holding tot free0 (tokens (blockInfoList h)) (w_dev w) ->
  exists d', rollbackCompletedFlushes h w = Some (set_infos h (map clearToken (blockInfoList h)), set_dev w d') /\
    holding tot free0 [] d' /\ bd_name d' = bd_name (w_dev w) /\ bd_size d' = bd_size (w_dev w).
Proof.
  intros H. unfold rollbackCompletedFlushes. destruct (rollbackTokens_holding _ _ _ _ H) as (d' & -> & H' & N & S).
  go_step. eauto.
Qed.

(** The bytes of blocks that were not free stay as they are. *)
Definition untouched (free0 : Z -> bool) (dk dk' : disk) : Prop :=
  forall p, free0 (p / BlockSize) = false -> diskByte dk' p = diskByte dk p.

Lemma flushed_frame tot dk dk' infos datas results :
  (forall p, covers results p = false -> diskByte dk' p = diskByte dk p) ->
  Forall (extent_in tot) (tokens infos) ->
  (forall p, covers (tokens infos) (p / BlockSize) = true -> covers results p = false) ->
  Forall2 (flushed dk) infos datas -> Forall2 (flushed dk') infos datas.
Proof.
  intros Hfr Hin Hdj HF. induction HF as [|i data infos datas [R1 R0 R2 R3 R5 R4] HF IH]; [done|].
  unfold tokens in Hin, Hdj. cbn [map concat] in Hin, Hdj. apply Forall_app in Hin as [Hin1 Hin2]. constructor.
  - assert (Hsame : forall n, readExtents dk (fi_results i) n = readExtents dk' (fi_results i) n).
    { intros n. apply readExtents_ext; [rewrite R1; by eapply positive_byteResult|].
      intros p Hp. symmetry. apply Hfr, Hdj. rewrite R1, covers_byteResult in Hp. by rewrite covers_app, Hp. }
    split; try done; by rewrite <- Hsame.
  - apply IH; [done|]. intros p Hp. apply Hdj. rewrite covers_app. unfold tokens in Hp. by rewrite Hp, orb_true_r.
Qed.

(** A failed upload: the error is recorded and, when the failing flush had to
    answer, all blocks are back. *)
Record failed_flush (tot : Z) (free0 : Z -> bool) (h h' : AioUploadServerHandler) (w w' : world (T := T)) (err : error) (respond : bool) : Prop := {
  ff_err : flushErr h' = Some err;
  ff_req : initReq h' = initReq h;
  ff_fin : finalized h' = finalized h;
  ff_db : w_db w' = w_db w;
  ff_name : bd_name (w_dev w') = bd_name (w_dev w);
  ff_size : bd_size (w_dev w') = bd_size (w_dev w);
  ff_untouched : untouched free0 (w_disk w) (w_disk w');
  ff_tokens : respond = true -> tokens (blockInfoList h') = [];
  ff_holding : holding tot free0 (tokens (blockInfoList h')) (w_dev w');
}.

Lemma flushFailed_spec tot free0 infos i h (w0 w : world (T := T)) err respond :
  blockInfoList h = infos ++ [i] -> fi_token i = [] -> flushErr h = None ->
  holding tot free0 (tokens infos) (w_dev w) -> w_db w = w_db w0 -> bd_name (w_dev w) = bd_name (w_dev w0) ->
  bd_size (w_dev w) = bd_size (w_dev w0) -> untouched free0 (w_disk w0) (w_disk w) ->
  exists h' w', flushFailed h w err respond = Some (h', w', MetaError err) /\ failed_flush tot free0 h h' w0 w' err respond.
Proof.
  intros Hi Ht He Hh Hdb Hn Hs Hu. unfold flushFailed.
  assert (Hf : blockInfoList (failFlush h err) = infos ++ [mkFlushBlockInfo (fi_results i) [] (fi_originalLen i) (fi_alignedLen i) (Some err)]).
  { unfold failFlush. cbn [blockInfoList]. by rewrite Hi, update_last_snoc, Ht. }
  assert (Htk : tokens (blockInfoList (failFlush h err)) = tokens infos).
  { rewrite Hf, tokens_app. unfold tokens at 2. simpl. by rewrite app_nil_r. }
  assert (Hfe : flushErr (failFlush h err) = Some err) by (unfold failFlush; cbn [flushErr]; by rewrite He).
  destruct respond.
  - destruct (rollbackCompletedFlushes_spec tot free0 (failFlush h err) w) as (d' & -> & Hh' & N & S); [by rewrite Htk|].
    go_step. eexists _, _. split; [done|]. split; simpl; try done; try congruence; by rewrite tokens_clear.
  - eexists _, _. split; [done|]. split; try done. by rewrite Htk.
Qed.

(** The handler and the world after a flush that succeeded. *)
Record good_flush (tot : Z) (free0 : Z -> bool) (infos : list flushBlockInfo) (datas : list bytes) (data : bytes)
    (h h' : AioUploadServerHandler) (w w' : world (T := T)) : Prop := {
  gf_h : exists results token, h' = completeFlush h results token;
  gf_db : w_db w' = w_db w;
  gf_name : bd_name (w_dev w') = bd_name (w_dev w);
  gf_size : bd_size (w_dev w') = bd_size (w_dev w);
  gf_untouched : untouched free0 (w_disk w) (w_disk w');
  gf_holding : holding tot free0 (tokens (blockInfoList h')) (w_dev w');
  gf_flushed : Forall2 (flushed (w_disk w')) (blockInfoList h') (datas ++ [data]);
}.

Lemma readExtents_padded dk results data k :
  Forall positive results -> 0 <= k -> readExtents dk results (zlen data + k) = data ++ zmake k 0 ->
  readExtents dk results (zlen data) = data.
Proof.
  intros HF Hk E. pose proof (zlen_nonneg data). rewrite (readExtents_take dk results (zlen data + k)) by (done || lia).
  rewrite E. apply take_app_length'. unfold zlen. lia.
Qed.

(** A flush whose padded data is in the extents of its token. *)
Lemma flushed_intro tot dk token data :
  let n := zlen data in
  0 < n < 2 ^ 61 -> Forall (extent_in tot) token -> sizes token = AlignBlockSize n / BlockSize ->
  readExtents dk (map byteResult token) (AlignBlockSize n) = data ++ zmake (AlignBlockSize n - n) 0 ->
  flushed dk (mkFlushBlockInfo (map byteResult token) token n (AlignBlockSize n) None) data.
Proof.
  intros n Hn Hin Hsz Hrd. destruct (AlignBlockSize_spec n ltac:(lia)) as (Ha & Hm).
  split; cbn [fi_results fi_token fi_originalLen fi_alignedLen]; try (done || lia).
  - apply (readExtents_padded _ _ _ (AlignBlockSize n - n)); [by eapply positive_byteResult|lia|].
    fold n. by replace (n + (AlignBlockSize n - n)) with (AlignBlockSize n) by lia.
  - rewrite sizes_byteResult, Hsz. change BlockSize with 4096 in *. dlia.
Qed.

Lemma runFlush_good tot free0 infos datas data h (w w' : world (T := T)) token :
  let n := zlen data in
  0 < n < 2 ^ 61 -> blockInfoList h = infos ++ [mkFlushBlockInfo [] [] n (AlignBlockSize n) None] ->
  holding tot free0 (tokens infos) (w_dev w) -> Forall2 (flushed (w_disk w)) infos datas ->
  holding tot free0 (tokens infos ++ token) (w_dev w') -> sizes token = AlignBlockSize n / BlockSize ->
  w_db w' = w_db w -> bd_name (w_dev w') = bd_name (w_dev w) -> bd_size (w_dev w') = bd_size (w_dev w) ->
  (forall p, covers (map byteResult token) p = false -> diskByte (w_disk w') p = diskByte (w_disk w) p) ->
  readExtents (w_disk w') (map byteResult token) (AlignBlockSize n) = data ++ zmake (AlignBlockSize n - n) 0 ->
  good_flush tot free0 infos datas data h (completeFlush h (map byteResult token) token) w w'.
Proof.
  intros n Hn Hi Hh HF2 Hh' Hsz Hdb Hnm Hsi Hfr Hrd. destruct (AlignBlockSize_spec n ltac:(lia)) as (Ha & Hm).
  assert (Hin : Forall (extent_in tot) (tokens infos ++ token)) by apply Hh'. pose proof Hin as Hin'. apply Forall_app in Hin' as [Hin1 Hin2].
  assert (HB : blockInfoList (completeFlush h (map byteResult token) token) =
    infos ++ [mkFlushBlockInfo (map byteResult token) token n (AlignBlockSize n) None])
    by (unfold completeFlush; cbn [blockInfoList]; by rewrite Hi, update_last_snoc).
  assert (Hdj : forall b, covers (tokens infos) b = true -> covers token b = false)
    by (apply (disjoint_app_covers tot _ _ Hin), Hh').
  split; try done; [by eauto|..].
  - intros p Hp. apply Hfr. rewrite covers_byteResult. destruct (covers token (p / BlockSize)) eqn:E; [|done].
    rewrite (ho_was_free _ _ _ _ Hh') in Hp; [done|]. by rewrite covers_app, E, orb_true_r.
  - rewrite HB, tokens_app. unfold tokens at 2. simpl. by rewrite app_nil_r.
  - rewrite HB. apply Forall2_app.
    + eapply flushed_frame; [exact Hfr|exact Hin1| |exact HF2]. intros p Hp. rewrite covers_byteResult. by apply Hdj.
    + constructor; [|done]. by eapply flushed_intro.
Qed.

Lemma aligned_byteResult tot token : Forall (extent_in tot) token -> Forall aligned_extent (map byteResult token).
Proof.
  intros HF. apply Forall_map. eapply Forall_impl; [exact HF|]. intros r (H1 & H2 & _). unfold aligned_extent, byteResult. simpl.
  change BlockSize with 4096. rewrite !Z.mod_mul by lia. lia.
Qed.

(** What may make a flush of [n] bytes fail: a disk that fails a write, a
    context that ended, or too little free space. *)
Definition flush_cause (ctx1 ctx2 : nat -> option error) (d : @BlockDevice T) (n : Z) : Prop :=
  reliable -> (forall i, ctx1 i = None) -> (forall i, ctx2 i = None) -> no_room d n.

Lemma runFlush_spec ctx1 ctx2 tot free0 infos datas data h (w : world (T := T)) buf respond :
  let n := zlen data in
  tot * BlockSize < 2 ^ 63 -> 0 < n < 2 ^ 61 ->
  blockInfoList h = infos ++ [mkFlushBlockInfo [] [] n (AlignBlockSize n) None] -> flushErr h = None ->
  buf_data buf = data ++ zmake (AlignBlockSize n - n) 0 -> isAlignedBuffer buf = true ->
  holding tot free0 (tokens infos) (w_dev w) -> Forall2 (flushed (w_disk w)) infos datas ->
  exists h' w' r, runFlush ctx1 ctx2 h w buf respond = Some (h', w', r) /\
    ((r = MetaContinue /\ good_flush tot free0 infos datas data h h' w w') \/
     (exists e, r = MetaError e /\ failed_flush tot free0 h h' w w' e respond /\ flush_cause ctx1 ctx2 (w_dev w) n)).
Proof.
  intros n Htot Hn Hi He Hb Hal Hh HF2. destruct (AlignBlockSize_spec n ltac:(lia)) as (Ha & Hm). unfold runFlush.
  assert (Hz : zlen (buf_data buf) = AlignBlockSize n)
    by (rewrite Hb; unfold n, zlen in *; rewrite length_app; unfold zmake; rewrite length_replicate; lia).
  rewrite Hz. destruct (Alloc_holding tot free0 _ _ (AlignBlockSize n) Hh Htot) as [[e Ea]|(d' & tk & -> & Hh' & Hsz & Nd & Sd)];
    [change BlockSize with 4096 in *; lia|rewrite Ea|]; go_step.
  { destruct (flushFailed_spec tot free0 infos _ h w (set_dev w (w_dev w)) e respond Hi eq_refl He) as (h' & w' & -> & Hf); try done.
    eexists _, _, _. split; [done|]. right. exists e. split; [done|]. split; [done|]. intros _ _ _. apply no_room_aligned; [lia|].
    eapply (Alloc_room tot free0 _ _ _ _ _ Hh Htot); [|exact Ea]. change BlockSize with 4096 in *. lia. }
  assert (Hin : Forall (extent_in tot) (tokens infos ++ tk)) by apply Hh'. pose proof Hin as Hin'. apply Forall_app in Hin' as [Hin1 Hin2].
  assert (HP : Forall positive (map byteResult tk)) by (by eapply positive_byteResult).
  cbn [w_disk w_dev w_db set_dev].
  destruct (WriteAllocated_total ctx1 ctx2 (w_disk w) buf (map byteResult tk)) as [[dk [wr er]] Ew]. rewrite Ew. go_step.
  pose proof (fun p => WriteAllocated_frame _ _ _ _ _ _ _ p Ew HP) as Hfr.
  match goal with |- context [match ?e with Some err => _ | None => _ end] => destruct e as [err|] eqn:Eerr end.
  - pose proof (holding_perm _ _ _ _ _ (Permutation_app_comm _ _) Hh') as Hh2.
    destruct (RollbackAlloc_holding _ _ _ _ _ Hh2) as (d2 & E2 & Hh3 & N3 & S3). cbn [w_dev]. rewrite E2. go_step.
    destruct (flushFailed_spec tot free0 infos _ h w (mkWorld d2 dk (w_db w)) err respond Hi eq_refl He) as (h' & w' & E' & Hf);
      try done; simpl; try congruence.
    { intros p Hp. apply Hfr. rewrite covers_byteResult. destruct (covers tk (p / BlockSize)) eqn:E; [|done].
      rewrite (ho_was_free _ _ _ _ Hh') in Hp; [done|]. by rewrite covers_app, E, orb_true_r. }
    unfold set_dev. cbn [w_disk w_db]. rewrite E'. eexists _, _, _. split; [done|]. right. exists err. split; [done|]. split; [done|].
    intros HR Hc1 Hc2. exfalso.
    destruct (WriteAllocated_runs ctx1 ctx2 (w_disk w) buf (map byteResult tk) Hc1 Hc2 HR) as [dk2 E3]; try done.
    + by eapply aligned_byteResult.
    + apply disjoint_byteResult. by apply (disjoint_app_covers tot _ _ Hin), Hh'.
    + rewrite Hz, sizes_byteResult, Hsz. change BlockSize with 4096 in *. dlia.
    + rewrite Ew, Hz in E3. injection E3 as _ -> ->. by rewrite Z.eqb_refl in Eerr.
  - destruct er; [done|]. destruct (wr =? AlignBlockSize n) eqn:Ewr; [|done]. bool_norm. subst wr.
    apply WriteAllocated_stores in Ew as (_ & Hrd & _); [|done|].
    2:{ apply disjoint_byteResult. by apply (disjoint_app_covers tot _ _ Hin), Hh'. }
    eexists _, _, _. split; [done|]. left. split; [done|].
    apply (runFlush_good tot free0 infos datas data h w (mkWorld d' dk (w_db w)) tk); simpl; try done.
    + fold n. rewrite Hsz. clear -Hm Ha. change BlockSize with 4096 in *. dlia.
    + fold n. by rewrite Hrd, Hb.
Qed.
End flush.
