(* ===== verification/UploadThms.v ===== *)
(** * Theorems of the upload handler

    What one upload does to the disk, to the free space and to the database:
    every operation keeps the invariant [uploading] or releases the blocks, and
    [Complete] commits the file or releases the blocks. *)

From stdpp Require Import base decidable list numbers option strings gmap.
From Stdlib Require Import ZArith Lia.
From S2P Require Import Prelude Words Bytes Moss MossJSON MossThms Allocator Extents AllocatorSpec SpaceBitmap Pebble WriteBatch BatchPebble BatchThms BlockDevice BlockDeviceSpec BlockDeviceThms FileMetaCodec AioChannel Crc32 Upload UploadInv.

Section upload.
Context {PO : PebbleOps} `{L : !PebbleLaws PO} {J : JSONDecoder} {T : Type} `{EA : ExtentAllocator T} `{EL : !ExtentAllocatorLaws T}
  {AD : AioDisk} `{AL : !AioDiskLaws AD} {PM : ProtoMarshal}.
Implicit Types (w : world (T := T)) (h : AioUploadServerHandler) (data received : bytes).

(** An upload that received [received], of which a part is on the disk and
    the rest in memory. *)
Record uploading (tot : Z) (free0 : Z -> bool) (req : PutInitRequest) (received : bytes) h w : Prop := {
  up_req : initReq h = Some req;
  up_err : flushErr h = None;
  up_fin : finalized h = false;
  up_holding : holding tot free0 (tokens (blockInfoList h)) (w_dev w);
  up_data : exists datas, Forall2 (flushed (w_disk w)) (blockInfoList h) datas /\ received = concat datas ++ concat (chunks h);
  up_pending : pendingLen h = zlen (concat (chunks h));
  up_size : fileSize h = zlen received;
  up_crc : crc32Value h = crc32Update 0 received;
}.

(** No block is held any more. *)
Definition released (tot : Z) (free0 : Z -> bool) h w : Prop :=
  tokens (blockInfoList h) = [] /\ holding tot free0 [] (w_dev w).

(** What every operation leaves alone. *)
Definition framed (free0 : Z -> bool) w w' : Prop :=
  untouched free0 (w_disk w) (w_disk w') /\ bd_name (w_dev w') = bd_name (w_dev w) /\ bd_size (w_dev w') = bd_size (w_dev w).

Lemma framed_refl free0 w : framed free0 w w.
Proof. split; [by intros ??|done]. Qed.

Lemma framed_trans free0 w1 w2 w3 : framed free0 w1 w2 -> framed free0 w2 w3 -> framed free0 w1 w3.
Proof.
  intros (U1 & N1 & S1) (U2 & N2 & S2). split; [|split; congruence]. intros p Hp. by rewrite U2, U1.
Qed.

Lemma Start_uploading tot free0 req h w :
  chunks h = [] -> holding tot free0 [] (w_dev w) -> uploading tot free0 req [] (Start h req) w.
Proof. intros Hc Hh. split; simpl; rewrite ?Hc; try done. exists []. split; [constructor|done]. Qed.

Lemma zlen_app_ {A} (l l' : list A) : zlen (l ++ l') = zlen l + zlen l'.
Proof. unfold zlen. rewrite length_app. lia. Qed.

(** The bytes in memory are a suffix of what was received. *)
Lemma uploading_pending tot free0 req received h w :
  uploading tot free0 req received h w -> 0 <= pendingLen h <= zlen received.
Proof.
  intros [U1 U2 U3 U4 (datas & HF & HR) U6 U7 U8]. rewrite U6, HR, zlen_app_.
  pose proof (zlen_nonneg (concat datas)). pose proof (zlen_nonneg (concat (chunks h))). lia.
Qed.

(** Writing out what is pending. *)
Lemma flush_pending addr ctx1 ctx2 tot free0 req received h w respond :
  tot * BlockSize < 2 ^ 63 -> zlen received < 2 ^ 61 -> 0 < pendingLen h -> initReq h = Some req -> flushErr h = None ->
  holding tot free0 (tokens (blockInfoList h)) (w_dev w) ->
  (exists datas, Forall2 (flushed (w_disk w)) (blockInfoList h) datas /\ received = concat datas ++ concat (chunks h)) ->
  pendingLen h = zlen (concat (chunks h)) ->
  exists h1 buf h' w' r, startFlush addr h = Some (h1, buf) /\ runFlush ctx1 ctx2 h1 w buf respond = Some (h', w', r) /\
    framed free0 w w' /\ w_db w' = w_db w /\ initReq h' = Some req /\ finalized h' = finalized h /\
    holding tot free0 (tokens (blockInfoList h')) (w_dev w') /\
    ((r = MetaContinue /\ flushErr h' = None /\ chunks h' = [] /\ pendingLen h' = 0 /\ fileSize h' = fileSize h /\ crc32Value h' = crc32Value h /\
      exists datas, Forall2 (flushed (w_disk w')) (blockInfoList h') datas /\ received = concat datas) \/
     (exists e, r = MetaError e /\ flushErr h' = Some e /\ (respond = true -> tokens (blockInfoList h') = []) /\ flush_cause ctx1 ctx2 (w_dev w) (pendingLen h))).
Proof.
  intros Ht Hr Hp Hq He Hh (datas & HF & HR) Hpl.
  assert (Hle : pendingLen h <= zlen received) by (rewrite Hpl, HR, zlen_app_; pose proof (zlen_nonneg (concat datas)); lia).
  destruct (startFlush_spec addr h Hpl) as (buf & E & Hb & Hal); [lia|]. rewrite Hpl in E, Hb, Hp, Hle |- *.
  eexists _, buf. rewrite E.
  match goal with |- context [Some (?h0, buf) = _] => set (h1 := h0) end.
  destruct (runFlush_spec ctx1 ctx2 tot free0 (blockInfoList h) datas (concat (chunks h)) h1 w buf respond Ht)
    as (h' & w' & r & Er & [[-> G]|(e & -> & F & Hcause)]); try done; [lia|..]; exists h', w'; eexists; (split; [done|]); (split; [exact Er|]).
  - destruct G as [(results & token & Eh') G2 G3 G4 G5 G6 G7].
    split; [done|]. split; [done|]. subst h'. cbn [initReq finalized completeFlush h1]. split; [done|]. split; [done|]. split; [exact G6|].
    left. split; [done|]. cbn [flushErr chunks pendingLen fileSize crc32Value completeFlush h1]. do 5 (split; [done|]).
    eexists. split; [exact G7|]. rewrite concat_app. simpl. by rewrite app_nil_r.
  - destruct F as [F1 F2 F3 F4 F5 F6 F7 F8 F9]. split; [done|]. split; [done|]. split; [by rewrite F2|]. split; [done|].
    split; [done|]. right. eauto.
Qed.

(** The upload between two payloads: still running with everything received
    so far, or failed with every block released. *)
Definition after_put (tot : Z) (free0 : Z -> bool) (req : PutInitRequest) received h w (r : Response) : Prop :=
  (r = MetaContinue /\ uploading tot free0 req received h w) \/
  (exists e, r = MetaError e /\ initReq h = Some req /\ flushErr h = Some e /\ released tot free0 h w).

Lemma Put_spec addr tot free0 req received h w data :
  tot * BlockSize < 2 ^ 63 -> zlen received + zlen data < 2 ^ 61 -> uploading tot free0 req received h w ->
  exists h' w' r, Put addr h w data = Some (h', w', r) /\ framed free0 w w' /\ w_db w' = w_db w /\
    after_put tot free0 req (received ++ data) h' w' r /\
    (forall e, r = MetaError e -> reliable -> no_room (w_dev w) (pendingLen h + zlen data)).
Proof.
  intros Ht Hsz U. pose proof (uploading_pending _ _ _ _ _ _ U) as Hpb. pose proof (zlen_nonneg data) as Hd0.
  destruct U as [U1 U2 U3 U4 (datas & HF & HR) U6 U7 U8]. unfold Put. rewrite U1, U2, U3.
  destruct data as [|x data'] eqn:Ed; rewrite <- Ed in *.
  { exists h, w, MetaContinue. split; [done|]. split; [apply framed_refl|]. split; [done|]. split; [|done]. left. split; [done|].
    rewrite Ed, app_nil_r. split; try done. eauto. }
  set (h1 := mkHandler _ _ _ _ _ _ _ _ _).
  assert (V : uploading tot free0 req (received ++ data) h1 w).
  { split; unfold h1; cbn [initReq flushErr finalized blockInfoList chunks pendingLen fileSize crc32Value]; try done.
    - exists datas. split; [done|]. rewrite HR, concat_app, app_assoc. simpl. by rewrite app_nil_r.
    - rewrite U6, concat_app, zlen_app_. simpl. by rewrite app_nil_r.
    - pose proof (zlen_nonneg received). rewrite U7, zlen_app_. apply i64_small. unfold is_i64. lia.
    - by rewrite U8, crc32Update_app. }
  case_bool.
  - pose proof V as [V1 V2 V3 V4 V5 V6 V7 V8].
    destruct (flush_pending addr Background Background tot free0 req (received ++ data) h1 w true)
      as (h2 & buf & h' & w' & r & E1 & E2 & Hf & Hdb & Hq & Hfi & Hh & Hcase); try done;
      [rewrite zlen_app_; lia|unfold MinAllocSize in *; lia|].
    rewrite E1. go_step. exists h', w', r. split; [done|]. split; [done|]. split; [done|].
    destruct Hcase as [(-> & C2 & C3 & C4 & C5 & C6 & ds & C7 & C8)|(e & -> & C2 & C3 & Hcause)].
    + split; [|done]. left. split; [done|]. split; rewrite ?C3, ?C4, ?C5, ?C6, ?Hfi; try done. exists ds. by rewrite app_nil_r.
    + split; [|intros e' _ Hrel; by apply Hcause]. right. exists e. do 3 (split; [done|]). specialize (C3 eq_refl). split; [done|]. by rewrite C3 in Hh.
  - exists h1, w, MetaContinue. split; [done|]. split; [apply framed_refl|]. split; [done|]. split; [by left|done].
Qed.

(** ** The commit *)

Lemma GetFileMetaKey_head fileName : exists rest, GetFileMetaKey fileName = 35 :: rest.
Proof. unfold GetFileMetaKey. destruct (splitSlash fileName []) as [|? [|? ?]]; eexists; reflexivity. Qed.

Lemma put_plain wb key value :
  digitKey key = false ->
  exists wb', put wb key value = Some (inr wb') /\
    forall db k, wchain db wb' k = if decide (k = key) then [value] else wchain db wb k.
Proof.
  intros Hd. destruct (put_spec wb key value) as (wb' & E & _ & C). exists wb'. split; [done|]. intros db k.
  rewrite C. unfold putKey. by rewrite Hd.
Qed.

(** The database after the request of [Complete], key by key. *)
Record committed_as (n : Z) (A : Z -> bool) (token : list Result) (meta : FileMeta) (mb : bytes) (used : Z)
    (before after : bytes -> list bytes) : Prop := {
  ca_space : stored_chains n after (fun b => covers token b || A b);
  ca_meta : after (GetFileMetaKey (fm_FileName meta)) = [mb];
  ca_num : after PebbleFileSystemFileNum = before PebbleFileSystemFileNum ++ [ToByte 1];
  ca_size : after PebbleFileSystemSize = before PebbleFileSystemSize ++ [ToByte (fm_Size meta)];
  ca_used : after PebbleFileSystemUsedSize = before PebbleFileSystemUsedSize ++ [ToByte used];
  ca_other : forall k, k <> GetFileMetaKey (fm_FileName meta) -> k <> PebbleFileSystemFileNum -> k <> PebbleFileSystemSize ->
    k <> PebbleFileSystemUsedSize -> (forall i, 0 <= i < n -> k <> familySpaceKey i) -> after k = before k;
}.

Lemma commitConsumer_spec n tot A token meta mb used (db : DB) wb :
  0 <= n < 2 ^ 38 -> tot * BlockSize <= SpaceSize * n -> Forall (extent_in tot) token -> disjoint_extents token ->
  stored_chains n (wchain db wb) A -> (forall b, covers token b = true -> A b = false) ->
  exists wb', commitConsumer meta mb (map byteResult token) used db wb = Some (inr wb') /\
    committed_as n A token meta mb used (wchain db wb) (wchain db wb').
Proof.
  intros Hn Hcap Hin Hdj Hs HA. unfold commitConsumer, PersistAllocBatch.
  destruct (persistSpaceMerges_spec n true (map byteResult token) A db wb) as (w1 & -> & Hs1 & C1); try done.
  { apply Forall_map. eapply Forall_impl; [exact Hin|]. intros r. by apply byteResult_extent. }
  { by eapply disjoint_toBytes. }
  { intros b Hb. rewrite blocksOf_toBytes in Hb. by apply HA. }
  go_run. destruct (GetFileMetaKey_head (fm_FileName meta)) as (rest & Hkey). set (key := GetFileMetaKey (fm_FileName meta)) in *.
  destruct (put_plain w1 key mb) as (w2 & -> & C2); [by rewrite Hkey|]. go_run.
  destruct (merge_spec w2 PebbleFileSystemFileNum (ToByte 1)) as (w3 & -> & _ & C3). go_run.
  destruct (merge_spec w3 PebbleFileSystemSize (ToByte (fm_Size meta))) as (w4 & -> & _ & C4). go_run.
  destruct (merge_spec w4 PebbleFileSystemUsedSize (ToByte used)) as (w5 & -> & _ & C5).
  assert (HC : forall k, wchain db w5 k =
    if decide (k = PebbleFileSystemUsedSize) then wchain db wb k ++ [ToByte used]
    else if decide (k = PebbleFileSystemSize) then wchain db wb k ++ [ToByte (fm_Size meta)]
    else if decide (k = PebbleFileSystemFileNum) then wchain db wb k ++ [ToByte 1]
    else if decide (k = key) then [mb] else wchain db w1 k).
  { intros k. rewrite !C5, !C4, !C3, !C2, Hkey. repeat case_decide; subst; try done;
      rewrite C1 by (intros i _; discriminate); done. }
  exists w5. split; [done|]. split.
  - eapply (stored_ext n (wchain db w1)); [| |exact Hs1]; [|intros b _; cbv beta; rewrite blocksOf_toBytes; by destruct (covers token b)].
    intros i Hi. rewrite HC, Hkey. rewrite !decide_False; done.
  - fold key. rewrite HC, Hkey. rewrite 3!decide_False by done. by rewrite decide_True.
  - by rewrite HC.
  - by rewrite HC.
  - by rewrite HC.
  - fold key. intros k K1 K2 K3 K4 K5. rewrite HC, !decide_False by done. by apply C1.
Qed.

Lemma customizeOperateData_err (db : DB) lun (consumer : RequestConsumer) e :
  consumer db (NewWriteBatch db lun) = Some (inl e) -> customizeOperateData db lun consumer = Some (db, Some e).
Proof.
  intros Hc. unfold customizeOperateData, flush. set (req := newRequest 0 consumer false).
  change (execOrder [req]) with [req]. cbn [foldE].
  change (handleRequest db (NewWriteBatch db lun) req) with (consumer db (NewWriteBatch db lun)).
  by rewrite Hc.
Qed.

(** ** Completing the upload *)

Definition extentsOf (infos : list flushBlockInfo) : list Result := concat (map fi_results infos).

Definition etagOf received : bytes :=
  if crc32Update 0 received =? 0 then [] else sprintf08x (crc32Update 0 received).

Definition metaOf (req : PutInitRequest) received (infos : list flushBlockInfo) : FileMeta :=
  mkFileMeta (pi_MetaKey req) (pi_FileName req) (bs (pi_Lun req)) (etagOf received) (zlen received)
    (map Offset (extentsOf infos)) (map Size (extentsOf infos)).

Lemma extentsOf_flushed (dk : disk) infos datas : Forall2 (flushed dk) infos datas -> extentsOf infos = map byteResult (tokens infos).
Proof.
  intros HF. unfold extentsOf, tokens. induction HF as [|i data infos datas HR HF IH]; [done|]. cbn [map concat].
  by rewrite map_app, IH, (fl_results _ _ _ HR).
Qed.

Lemma u64_of_i64 x : u64 (i64 x) = u64 x.
Proof. unfold u64, i64. rewrite Zminus_mod_idemp_l. f_equal. lia. Qed.

(** The wrapping sum of the sizes is encoded like the sum. *)
Lemma ToByte_total rs t : ToByte (fold_left (fun t r => i64 (t + Size r)) rs t) = ToByte (t + sizes rs).
Proof.
  revert t. induction rs as [|r rs IH]; intros t; cbn [fold_left]; [unfold sizes; simpl; by rewrite Z.add_0_r|].
  rewrite IH. unfold ToByte. f_equal. change (sizes (r :: rs)) with (Size r + sizes rs). unfold u64.
  rewrite <- Zplus_mod_idemp_l. fold (u64 (i64 (t + Size r))). rewrite u64_of_i64. unfold u64. rewrite Zplus_mod_idemp_l.
  f_equal. lia.
Qed.

(** The database [after] has exactly the file [received], flushed as [infos],
    in addition to what was in [before]. *)
Definition file_stored (n : Z) (A : Z -> bool) (req : PutInitRequest) received (infos : list flushBlockInfo) (dk : disk)
    (before after : DB) : Prop :=
  exists pieces mb, Forall2 (flushed dk) infos pieces /\ received = concat pieces /\
    Marshal (metaOf req received infos) = inr mb /\
    committed_as n A (tokens infos) (metaOf req received infos) mb (sizes (extentsOf infos)) (chain before) (chain after).

(** How an upload ends: committed, refused because the name is taken, failed,
    or failed by a commit that reported an error after it was applied; in
    the last case the blocks are released although the stored metadata and
    the stored bitmap have them. *)
Inductive outcome (tot : Z) (free0 : Z -> bool) (n : Z) (A : Z -> bool) (req : PutInitRequest) received h' w w' : Response -> Prop :=
  | out_committed :
      file_stored n A req received (blockInfoList h') (w_disk w') (w_db w) (w_db w') ->
      holding tot free0 (tokens (blockInfoList h')) (w_dev w') ->
      outcome tot free0 n A req received h' w w' MetaSuccess
  | out_exists :
      pi_NoGet req = false -> chain (w_db w) (fileMetaKey (pi_MetaKey req)) <> [] ->
      (forall k, chain (w_db w') k = chain (w_db w) k) -> released tot free0 h' w' ->
      outcome tot free0 n A req received h' w w' MetaSuccess
  | out_failed e :
      (forall k, chain (w_db w') k = chain (w_db w) k) -> released tot free0 h' w' ->
      outcome tot free0 n A req received h' w w' (MetaError e)
  | out_commit_failed e b infos :
      BatchCommit (w_db w) b = (w_db w', Some e) -> blockInfoList h' = map clearToken infos ->
      file_stored n A req received infos (w_disk w') (w_db w) (w_db w') -> released tot free0 h' w' ->
      outcome tot free0 n A req received h' w w' (MetaError e).

(** Giving up with an error. *)
Lemma rollback_answers tot free0 h w w0 (r : Response) :
  holding tot free0 (tokens (blockInfoList h)) (w_dev w) -> framed free0 w0 w ->
  exists h' w', ('(h, w) ← rollbackCompletedFlushes h w; Some (h, w, r)) = Some (h', w', r) /\
    framed free0 w0 w' /\ blockInfoList h' = map clearToken (blockInfoList h) /\ w_disk w' = w_disk w /\ w_db w' = w_db w /\
    released tot free0 h' w'.
Proof.
  intros Hh Hf. destruct (rollbackCompletedFlushes_spec _ _ _ _ Hh) as (d' & -> & Hd & N & S). go_step.
  eexists _, _. split; [done|]. split; [eapply framed_trans; [exact Hf|]; split; [by intros ??|done]|].
  split; [done|]. split; [done|]. split; [done|]. split; [apply tokens_clear|done].
Qed.

Lemma rollback_fails tot free0 n A req received h w w0 e :
  holding tot free0 (tokens (blockInfoList h)) (w_dev w) -> framed free0 w0 w -> (forall k, chain (w_db w) k = chain (w_db w0) k) ->
  exists h' w', ('(h, w) ← rollbackCompletedFlushes h w; Some (h, w, MetaError e)) = Some (h', w', MetaError e) /\
    framed free0 w0 w' /\ outcome tot free0 n A req received h' w0 w' (MetaError e).
Proof.
  intros Hh Hf Hdb. destruct (rollback_answers tot free0 h w w0 (MetaError e) Hh Hf) as (h' & w' & -> & Hf' & _ & _ & E & Hr).
  exists h', w'. split; [done|]. split; [done|]. apply out_failed; [|done]. by rewrite E.
Qed.

(** A request that wrote the file, and what its commit made of it. *)
Lemma stored_request (db : DB) lun n A token meta mb used (c : RequestConsumer) wb' :
  let wb := NewWriteBatch db lun in
  c db wb = Some (inr wb') -> committed_as n A token meta mb used (wchain db wb) (wchain db wb') ->
  exists db' err, customizeOperateData db lun c = Some (db', err) /\
    match err with
    | None => committed_as n A token meta mb used (chain db) (chain db')
    | Some e => (forall k, chain db' k = chain db k) \/
        (exists b, BatchCommit db b = (db', Some e)) /\ committed_as n A token meta mb used (chain db) (chain db')
    end.
Proof.
  intros wb Ec Hc. assert (Hcl : forall k, wchain db wb k = chain db k) by apply clean_new.
  assert (Hok : forall db', (forall k, chain db' k = wchain db wb' k) -> committed_as n A token meta mb used (chain db) (chain db')).
  { intros db' C'. destruct Hc as [K1 K2 K3 K4 K5 K6]. split; intros; rewrite ?C', <- ?Hcl; auto.
    eapply stored_ext; [| |exact K1]; intros; [by rewrite C'|done]. }
  destruct (customizeOperateData_cases db lun c wb' Ec) as (db' & err & E & Eb & C). exists db', err. split; [done|].
  destruct err as [e|]; [|by apply Hok]. destruct C as [C|C]; [by left|]. right. split; [by eexists|by apply Hok].
Qed.

Lemma stored_request_err (db : DB) lun (c : RequestConsumer) wb' db' err :
  (forall b, exists db', BatchCommit db b = (db', None)) -> c db (NewWriteBatch db lun) = Some (inr wb') ->
  customizeOperateData db lun c = Some (db', err) -> err = None.
Proof.
  intros HH Ec E. destruct (customizeOperateData_cases db lun c wb' Ec) as (db1 & err1 & E1 & Eb & _).
  destruct (HH (wb_batch wb')) as [db2 E2]. congruence.
Qed.

(** Nothing stands in the way of the request of [Complete]. *)
Record can_request (req : PutInitRequest) w (name : string) : Prop := {
  cr_lun : pi_Lun req = ""%string \/ pi_Lun req = name;
  cr_read : pi_NoGet req = true \/ chain (w_db w) (fileMetaKey (pi_MetaKey req)) = [];
  cr_commit : forall b, exists db', BatchCommit (w_db w) b = (db', None);
}.

(** What the request does, depending on the existence check. *)
Lemma request_cases w lun n tot A req token meta mb used :
  0 <= n < 2 ^ 38 -> tot * BlockSize <= SpaceSize * n -> Forall (extent_in tot) token -> disjoint_extents token ->
  stored_chains n (chain (w_db w)) A -> (forall b, covers token b = true -> A b = false) ->
  fm_MetaKey meta = pi_MetaKey req ->
  let consumer0 := commitConsumer meta mb (map byteResult token) used in
  exists db' err, submitRequest w lun (if pi_NoGet req then consumer0 else guardedConsumer meta consumer0) = Some (db', err) /\
    match err with
    | None =>
        (existsFlag req meta (w_db w) lun = false /\ committed_as n A token meta mb used (chain (w_db w)) (chain db')) \/
        (existsFlag req meta (w_db w) lun = true /\ pi_NoGet req = false /\
           chain (w_db w) (fileMetaKey (fm_MetaKey meta)) <> [] /\ forall k, chain db' k = chain (w_db w) k)
    | Some e => (forall k, chain db' k = chain (w_db w) k) \/
        (exists b, BatchCommit (w_db w) b = (db', Some e)) /\ committed_as n A token meta mb used (chain (w_db w)) (chain db')
    end /\
    (lun = bd_name (w_dev w) -> can_request req w (bd_name (w_dev w)) -> err = None).
Proof.
  intros Hn Hcap Hin Hdj Hs HA Hmk consumer0. unfold submitRequest, existsFlag.
  destruct (String.eqb_spec lun (bd_name (w_dev w))) as [_|Hl]; [|by eexists _, _; split; [done|]; split; [left|]].
  set (db := w_db w) in *. set (wb := NewWriteBatch db lun).
  assert (Hcl : forall k, wchain db wb k = chain db k) by apply clean_new.
  destruct (commitConsumer_spec n tot A token meta mb used db wb Hn Hcap Hin Hdj) as (wb' & Ec & Hc); [|done|].
  { eapply stored_ext; [| |exact Hs]; intros; [by rewrite Hcl|done]. }
  destruct (pi_NoGet req) eqn:Eg.
  { destruct (stored_request db lun n A token meta mb used consumer0 wb' Ec Hc) as (db' & err & E & C).
    exists db', err. split; [done|]. split; [destruct err; [done|by left]|]. intros _ Hr. eapply (stored_request_err db lun); [apply Hr|exact Ec|exact E]. }
  assert (Hg : getFromBatchAndDB db wb (fileMetaKey (fm_MetaKey meta)) = getCopy db wb (fileMetaKey (fm_MetaKey meta))) by done.
  destruct (getFromBatchAndDB db wb (fileMetaKey (fm_MetaKey meta))) as [e|[v|]] eqn:Ev.
  - exists db, (Some e). split; [|split; [by left|]].
    { apply customizeOperateData_err. unfold guardedConsumer. fold wb. by rewrite Ev. }
    intros _ [_ [Hr|Hr] _]; [congruence|]. by rewrite Hmk, (BatchGet_empty db wb) in Hg by (by rewrite Hcl).
  - destruct (customizeOperateData_cases db lun (guardedConsumer meta consumer0) wb) as (db' & err & E & Eb & C);
      [unfold guardedConsumer; fold wb; by rewrite Ev|]. exists db', err. split; [done|].
    split; [|intros _ [_ _ Hr]; fold db in Hr; destruct (Hr (wb_batch wb)) as [? Hr']; congruence]. destruct err as [e|].
    + left. intros k. destruct C as [C|C]; [apply C|]. by rewrite C.
    + right. split; [done|]. split; [done|]. split; [|intros k; by rewrite C].
      intros Hempty. by rewrite (BatchGet_empty db wb) in Hg by (by rewrite Hcl).
  - destruct (stored_request db lun n A token meta mb used (guardedConsumer meta consumer0) wb') as (db' & err & E & C);
      [unfold guardedConsumer; fold wb; by rewrite Ev|done|].
    exists db', err. split; [done|]. split; [destruct err; [done|by left]|]. intros _ Hr.
    eapply (stored_request_err db lun (guardedConsumer meta consumer0)); [apply Hr|unfold guardedConsumer; fold wb; by rewrite Ev|exact E].
Qed.

Lemma commitUpload_spec tot free0 n A req received h w w0 :
  0 <= n < 2 ^ 38 -> tot * BlockSize <= SpaceSize * n ->
  stored_chains n (chain (w_db w)) A -> (forall b, free0 b = true -> A b = false) ->
  holding tot free0 (tokens (blockInfoList h)) (w_dev w) -> framed free0 w0 w -> w_db w = w_db w0 ->
  (exists datas, Forall2 (flushed (w_disk w)) (blockInfoList h) datas /\ received = concat datas) ->
  fileSize h = zlen received -> crc32Value h = crc32Update 0 received ->
  exists h' w' r, commitUpload h w req = Some (h', w', r) /\ framed free0 w0 w' /\ outcome tot free0 n A req received h' w0 w' r /\
    (can_request req w (bd_name (w_dev w)) -> (forall infos, exists mb, Marshal (metaOf req received infos) = inr mb) -> r = MetaSuccess).
Proof.
  intros Hn Hcap Hs HA Hh Hf Hdb (datas & HF & HR) Hsz Hcrc. unfold commitUpload, buildFileMetaAndResults.
  rewrite Hcrc, Hsz. fold (etagOf received). fold (extentsOf (blockInfoList h)). fold (metaOf req received (blockInfoList h)).
  set (meta := metaOf req received (blockInfoList h)). pose proof (extentsOf_flushed _ _ _ HF) as Hext.
  destruct (Marshal meta) as [e|mb] eqn:Em.
  { destruct (rollback_fails tot free0 n A req received h w w0 e Hh Hf) as (h' & w' & E & Hf' & Ho); [by rewrite Hdb|]. rewrite E.
    exists h', w', (MetaError e). do 3 (split; [done|]). intros _ Hm. destruct (Hm (blockInfoList h)) as [mb Em']. fold meta in Em'; congruence. }
  set (lun := if String.eqb (pi_Lun req) "" then bd_name (w_dev w) else pi_Lun req).
  set (used := fold_left _ (extentsOf (blockInfoList h)) 0).
  assert (Hst : forall db', committed_as n A (tokens (blockInfoList h)) meta mb used (chain (w_db w)) (chain db') ->
    file_stored n A req received (blockInfoList h) (w_disk w) (w_db w0) db').
  { intros db' Hc. exists datas, mb. split; [done|]. split; [done|]. split; [done|].
    rewrite Hdb in Hc. destruct Hc as [K1 K2 K3 K4 K5 K6]. split; try done.
    rewrite K5. do 2 f_equal. unfold used. apply ToByte_total. }
  clearbody used. rewrite Hext.
  destruct (request_cases w lun n tot A req (tokens (blockInfoList h)) meta mb used Hn Hcap)
    as (db' & err & -> & C & Hc); try apply Hh; try done; [intros b Hb; by apply HA, Hh|]. go_step.
  assert (Herr : can_request req w (bd_name (w_dev w)) -> err = None).
  { intros Hr. apply Hc; [|done]. unfold lun. destruct (String.eqb_spec (pi_Lun req) "") as [|Hl]; [done|]. by destruct (cr_lun _ _ _ Hr). }
  set (w1 := mkWorld (w_dev w) (w_disk w) db'). assert (Hf1 : framed free0 w0 w1) by exact Hf.
  destruct err as [e|].
  - destruct C as [C|[[b Eb] C]].
    + destruct (rollback_fails tot free0 n A req received h w1 w0 e Hh Hf1) as (h' & w' & E & Hf' & Ho); [by rewrite <- Hdb|]. rewrite E.
      exists h', w', (MetaError e). do 3 (split; [done|]). intros Hr _. by specialize (Herr Hr).
    + destruct (rollback_answers tot free0 h w1 w0 (MetaError e) Hh Hf1) as (h' & w' & -> & Hf' & Ei & Ed & E & Hr).
      exists h', w', (MetaError e). split; [done|]. split; [done|]. split; [|intros Hq _; by specialize (Herr Hq)].
      eapply (out_commit_failed _ _ _ _ _ _ _ _ _ e b (blockInfoList h)); rewrite ?Ed, ?E, <- ?Hdb; try done.
      rewrite Hdb. by apply Hst.
  - destruct C as [[-> C]|(-> & Hg & Hne & Hch)]; go_step.
    + eexists _, _, _. split; [done|]. split; [done|]. split; [|done]. apply out_committed; [by apply Hst|done].
    + destruct (rollback_answers tot free0 h w1 w0 MetaSuccess Hh Hf1) as (h' & w' & -> & Hf' & _ & _ & E & Hr).
      exists h', w', MetaSuccess. split; [done|]. split; [done|]. split; [|done]. apply out_exists; [done| | |done]; rewrite ?E, <- ?Hdb; done.
Qed.

Lemma empty_holds_nothing (dk : disk) infos datas : Forall2 (flushed dk) infos datas -> concat datas = [] -> infos = [].
Proof.
  intros HF E. destruct HF as [|i data infos datas [R1 R0 R2 R3 R5 R4] HF]; [done|]. simpl in E. apply app_eq_nil in E as [-> _].
  change (zlen (@nil Z)) with 0 in R2. lia.
Qed.

(** Nothing stands in the way of [Complete]: there is something to store,
    the context is alive, the disk works and has room for what is pending,
    the metadata can be marshalled, the store takes the commit. *)
Record can_complete (ctx1 ctx2 : nat -> option error) (req : PutInitRequest) received h w : Prop := {
  cc_bytes : received <> [];
  cc_reliable : reliable;
  cc_ctx1 : forall i, ctx1 i = None;
  cc_ctx2 : forall i, ctx2 i = None;
  cc_room : ~ no_room (w_dev w) (pendingLen h);
  cc_marshal : forall infos, exists mb, Marshal (metaOf req received infos) = inr mb;
  cc_request : can_request req w (bd_name (w_dev w));
}.

Lemma Complete_spec addr ctx1 ctx2 tot free0 n A req received h w :
  tot * BlockSize < 2 ^ 63 -> 0 <= n < 2 ^ 38 -> tot * BlockSize <= SpaceSize * n ->
  stored_chains n (chain (w_db w)) A -> (forall b, free0 b = true -> A b = false) ->
  uploading tot free0 req received h w -> zlen received < 2 ^ 61 ->
  exists h' w' r, Complete addr ctx1 ctx2 h w = Some (h', w', r) /\ framed free0 w w' /\ outcome tot free0 n A req received h' w w' r /\
    (can_complete ctx1 ctx2 req received h w -> r = MetaSuccess).
Proof.
  intros Ht Hn Hcap Hs HA U Hsz. pose proof (uploading_pending _ _ _ _ _ _ U) as Hpb.
  destruct U as [U1 U2 U3 U4 (datas & HF & HR) U6 U7 U8]. unfold Complete. rewrite U1, U2, U3. case_bool.
  { rename Heqb into E0. rewrite U7 in E0. assert (received = []) as Hr by (destruct received; [done|unfold zlen in E0; simpl in E0; lia]).
    rewrite Hr in HR. symmetry in HR. apply app_eq_nil in HR as [HR _]. apply (empty_holds_nothing _ _ _ HF) in HR.
    eexists _, _, _. split; [done|]. split; [apply framed_refl|]. split; [|by intros [Hb _ _ _ _ _ _]]. apply out_failed; [done|]. rewrite HR in U4. split; [|exact U4].
    simpl. by rewrite HR. }
  cbn [pendingLen set_finalized]. case_bool.
  - go_step. cbn [flushErr set_finalized]. rewrite U2. destruct (commitUpload_spec tot free0 n A req received (set_finalized h) w w) as (h' & w' & r & E & Hf & Ho & Hc);
      try done; [|exists h', w', r; do 3 (split; [done|]); intros [_ _ _ _ _ H6 H7]; by apply Hc].
    exists datas. split; [done|].
    assert (concat (chunks h) = []) as Hc by (destruct (concat (chunks h)); [done|unfold zlen in U6; simpl in U6; lia]).
    by rewrite HR, Hc, app_nil_r.
  - destruct (flush_pending addr ctx1 ctx2 tot free0 req received (set_finalized h) w false)
      as (h2 & buf & h' & w' & r & E1 & E2 & Hf & Hdb & Hq & Hfi & Hh & Hcase); try done; [simpl; lia|eauto|].
    rewrite E1. go_step. rewrite E2. go_step.
    destruct Hcase as [(-> & -> & C3 & C4 & C5 & C6 & C7)|(e & -> & -> & _ & Hcause)].
    + cbn [fileSize crc32Value set_finalized] in C5, C6.
      destruct (commitUpload_spec tot free0 n A req received h' w' w) as (h3 & w3 & r & E & Hf' & Ho & Hc);
        try done; [by rewrite Hdb|by rewrite C5|by rewrite C6|]. exists h3, w3, r. do 3 (split; [done|]).
      intros [_ _ _ _ _ H6 [H7 H8 H9]]. apply Hc; [|done]. destruct Hf as (_ & -> & _). split; rewrite ?Hdb; done.
    + destruct (rollback_fails tot free0 n A req received h' w' w e Hh Hf) as (h3 & w3 & E & Hf' & Ho); [by rewrite Hdb|]. rewrite E.
      exists h3, w3, (MetaError e). do 3 (split; [done|]). intros [_ H2 H3 H4 H5 _ _]. destruct H5. by apply Hcause.
Qed.

Lemma TimeOut_spec tot free0 h w :
  holding tot free0 (tokens (blockInfoList h)) (w_dev w) ->
  exists h' w', TimeOut h w = Some (h', w', MetaError "channel timeout"%string) /\ framed free0 w w' /\ w_db w' = w_db w /\
    released tot free0 h' w' /\ chunks h' = [].
Proof.
  intros Hh. unfold TimeOut. set (h1 := mkHandler _ _ _ _ _ _ _ _ _).
  destruct (rollbackCompletedFlushes_spec tot free0 h1 w Hh) as (d' & -> & Hd & N & S). go_step.
  eexists _, _. split; [done|]. split; [split; [by intros ??|done]|]. split; [done|]. split; [|done]. split; [apply tokens_clear|done].
Qed.

(** ** Reading a file from its metadata *)

(** The extents of the metadata in order, as many bytes as [Size] says. *)
Definition readFile (dk : disk) (meta : FileMeta) : bytes :=
  readExtents dk (zip_with mkResult (fm_Offset meta) (fm_Len meta)) (fm_Size meta).

(** A flush as it lies on the disk. *)
Definition padded data : bytes := data ++ zmake (AlignBlockSize (zlen data) - zlen data) 0.

Lemma readExtents_app (dk : disk) rs rs' n :
  Forall positive rs -> sizes rs <= n -> readExtents dk (rs ++ rs') n = readExtents dk rs (sizes rs) ++ readExtents dk rs' (n - sizes rs).
Proof.
  intros HF. revert n. induction HF as [|r rs Hr HF IH]; intros n Hn.
  { unfold sizes. simpl. by rewrite Z.sub_0_r. }
  pose proof (sizes_positive rs HF). unfold positive in Hr. change (sizes (r :: rs)) with (Size r + sizes rs) in *.
  cbn [app readExtents]. rewrite !(proj2 (Z.leb_gt _ 0)) by lia. rewrite !Z.min_l by lia. rewrite IH by lia.
  rewrite <- app_assoc. do 2 f_equal; f_equal; lia.
Qed.

Lemma readExtents_flushed (dk : disk) infos datas :
  Forall positive (extentsOf infos) -> Forall2 (flushed dk) infos datas ->
  readExtents dk (extentsOf infos) (sizes (extentsOf infos)) = concat (map padded datas) /\
  zlen (concat datas) <= sizes (extentsOf infos).
Proof.
  intros HP HF. unfold extentsOf in *. induction HF as [|i data infos datas [R1 R0 R2 R3 R5 R4 R6] HF IH]; [done|].
  cbn [map concat] in *. apply Forall_app in HP as [HP1 HP2]. destruct (IH HP2) as [IH1 IH2].
  pose proof (sizes_positive _ HP2). rewrite sizes_app, zlen_app_. split.
  - rewrite readExtents_app by (done || lia). replace (_ + _ - _) with (sizes (concat (map fi_results infos))) by lia.
    rewrite IH1. f_equal. rewrite R4, R5. unfold padded. by rewrite R2, <- R6.
  - destruct (AlignBlockSize_spec (fi_originalLen i)) as [Ha _]; lia.
Qed.

Lemma AlignBlockSize_aligned n : 0 <= n -> n mod BlockSize = 0 -> AlignBlockSize n = n.
Proof.
  intros Hn Hm. unfold AlignBlockSize. case_bool; [lia|]. rewrite Z.rem_mod_nonneg by (done || lia). by rewrite Hm.
Qed.

(** Padding after the last piece does no harm. *)
Lemma take_padded ds d :
  Forall (fun x => zlen x mod BlockSize = 0) ds ->
  take (length (concat (ds ++ [d]))) (concat (map padded (ds ++ [d]))) = concat (ds ++ [d]).
Proof.
  intros HF. assert (map padded ds = ds) as Hd.
  { induction HF as [|x ds Hx HF IH]; [done|]. cbn [map]. rewrite IH. f_equal. unfold padded.
    rewrite AlignBlockSize_aligned, Z.sub_diag by (done || apply zlen_nonneg). apply app_nil_r. }
  rewrite map_app, !concat_app, Hd. simpl. rewrite app_nil_r. unfold padded.
  rewrite !app_nil_r, app_assoc. apply take_app_length.
Qed.

Lemma zip_extents rs : zip_with mkResult (map Offset rs) (map Size rs) = rs.
Proof. induction rs as [|[o z] rs IH]; [done|]. simpl. by f_equal. Qed.

Lemma readFile_flushed tot (dk : disk) infos datas req :
  Forall (extent_in tot) (tokens infos) -> Forall2 (flushed dk) infos datas ->
  readFile dk (metaOf req (concat datas) infos) = take (length (concat datas)) (concat (map padded datas)).
Proof.
  intros Hin HF. unfold readFile, metaOf. cbn [fm_Offset fm_Len fm_Size]. rewrite zip_extents.
  assert (HP : Forall positive (extentsOf infos)) by (rewrite (extentsOf_flushed _ _ _ HF); by eapply positive_byteResult).
  destruct (readExtents_flushed dk infos datas HP HF) as [E Hle].
  pose proof (zlen_nonneg (concat datas)). rewrite (readExtents_take dk _ (sizes (extentsOf infos))) by (done || lia).
  rewrite E. f_equal. unfold zlen. lia.
Qed.

(** ** Keys *)

Lemma splitSlash_noslash a cur : Forall (fun c => c <> 47) a -> splitSlash a cur = [cur ++ a].
Proof.
  intros HF. revert cur. induction HF as [|c a Hc HF IH]; intros cur; cbn [splitSlash]; [by rewrite app_nil_r|].
  rewrite (proj2 (Z.eqb_neq c 47)) by done. rewrite IH. by rewrite <- app_assoc.
Qed.

Lemma splitSlash_component a rest cur :
  Forall (fun c => c <> 47) a -> splitSlash (a ++ 47 :: rest) cur = (cur ++ a) :: splitSlash rest [].
Proof.
  intros HF. revert cur. induction HF as [|c a Hc HF IH]; intros cur; cbn [splitSlash app].
  - by rewrite app_nil_r.
  - rewrite (proj2 (Z.eqb_neq c 47)) by done. rewrite IH. by rewrite <- app_assoc.
Qed.

Lemma GetFileMetaKey_component a part rest :
  Forall (fun c => c <> 47) a -> Forall (fun c => c <> 47) part ->
  GetFileMetaKey (a ++ 47 :: part ++ 47 :: rest) = PebbleFileMetaPrefix ++ part /\
  GetFileMetaKey (a ++ 47 :: part) = PebbleFileMetaPrefix ++ part.
Proof.
  intros Ha Hp. unfold GetFileMetaKey. rewrite !splitSlash_component by done. by rewrite splitSlash_noslash.
Qed.

Lemma fileMetaKey_outside n k fileName :
  fileMetaKey k <> GetFileMetaKey fileName /\ fileMetaKey k <> PebbleFileSystemFileNum /\ fileMetaKey k <> PebbleFileSystemSize /\
  fileMetaKey k <> PebbleFileSystemUsedSize /\ forall i, 0 <= i < n -> fileMetaKey k <> familySpaceKey i.
Proof. destruct (GetFileMetaKey_head fileName) as (rest & ->). by split_and!. Qed.

(** C20: A payload keeps the upload intact or undoes it.  [Put] never panics
    and never changes the database or a byte of a block that was not free
    when the upload started.  If it answers [CONTINUE], every byte received
    so far is on the disk in blocks the upload holds or still in memory, and
    size and checksum are those of the bytes received; if it answers an
    error, every block the upload held is free again, and the disk failed a
    write or fewer blocks were free than the bytes in memory need. *)
Theorem Put_correct addr tot free0 req received h w data :
  tot * BlockSize < 2 ^ 63 -> zlen received + zlen data < 2 ^ 61 -> uploading tot free0 req received h w ->
  exists h' w' r, Put addr h w data = Some (h', w', r) /\ framed free0 w w' /\ w_db w' = w_db w /\
    after_put tot free0 req (received ++ data) h' w' r /\
    (forall e, r = MetaError e -> reliable -> no_room (w_dev w) (pendingLen h + zlen data)).
Proof. apply Put_spec. Qed.

(** C21: Completing an upload is all or nothing, and says which, unless the
    store's commit itself reports an error after applying the batch.
    [Complete] always answers.  It answers [SUCCESS] if the file is committed:
    its pieces are readable from the extents of the metadata, the metadata has
    the size and the CRC of the received bytes, and one batch has stored the
    metadata, marked exactly the upload's blocks allocated and added to the
    counters; or if the checked key was taken, and then every block is free
    again and every key has what it had.  When it answers an error, every
    block is free again, and either every key has what it had before, or the
    commit failed after it was applied and the database has the whole file
    whose blocks are free.  It answers [SUCCESS] whenever something was
    received, the context is alive, the disk works and has room for the
    pending bytes, the metadata can be marshalled, the LUN is the device's,
    the name is not taken and the store's commit succeeds. *)
Theorem Complete_correct addr ctx1 ctx2 tot free0 n A req received h w :
  tot * BlockSize < 2 ^ 63 -> 0 <= n < 2 ^ 38 -> tot * BlockSize <= SpaceSize * n ->
  stored_chains n (chain (w_db w)) A -> (forall b, free0 b = true -> A b = false) ->
  uploading tot free0 req received h w -> zlen received < 2 ^ 61 ->
  exists h' w' r, Complete addr ctx1 ctx2 h w = Some (h', w', r) /\ framed free0 w w' /\ outcome tot free0 n A req received h' w w' r /\
    (can_complete ctx1 ctx2 req received h w -> r = MetaSuccess).
Proof. apply Complete_spec. Qed.

(** C22: What the stored metadata says about the content.  After [Complete]
    answered [SUCCESS] for a file whose name was not checked or not taken,
    reading the file's metadata key gives bytes that unmarshal to metadata
    with the request's names, the size and the CRC of the received bytes.
    Reading the extents of that metadata in order, cut to its size, yields
    the flushed pieces, each padded with zeros to whole blocks, cut to the
    file's size.  That is the uploaded file when every piece but the last
    fills whole blocks. *)
Theorem metadata_content `{PC : !ProtoCodec PM} addr ctx1 ctx2 tot free0 n A req received h w h' w' :
  tot * BlockSize < 2 ^ 63 -> 0 <= n < 2 ^ 38 -> tot * BlockSize <= SpaceSize * n ->
  stored_chains n (chain (w_db w)) A -> (forall b, free0 b = true -> A b = false) ->
  uploading tot free0 req received h w -> zlen received < 2 ^ 61 ->
  pi_NoGet req = true \/ chain (w_db w) (fileMetaKey (pi_MetaKey req)) = [] ->
  Complete addr ctx1 ctx2 h w = Some (h', w', MetaSuccess) ->
  exists mb meta pieces, DBGet (w_db w') (GetFileMetaKey (pi_FileName req)) = inr (Some mb) /\ Unmarshal mb = inr meta /\
    fm_FileName meta = pi_FileName req /\ fm_MetaKey meta = pi_MetaKey req /\ fm_Size meta = zlen received /\ fm_Etag meta = etagOf received /\
    received = concat pieces /\ map zlen pieces = map fi_originalLen (blockInfoList h') /\
    readFile (w_disk w') meta = take (length received) (concat (map padded pieces)) /\
    forall ds d, pieces = ds ++ [d] -> Forall (fun x => zlen x mod BlockSize = 0) ds -> readFile (w_disk w') meta = received.
Proof.
  intros Ht Hn Hcap Hs HA U Hsz Hg E.
  destruct (Complete_spec addr ctx1 ctx2 tot free0 n A req received h w) as (h1 & w1 & r & E1 & _ & O & _); try done.
  rewrite E in E1. injection E1 as <- <- <-.
  inversion O as [(pieces & mb & HF & HR & Hm & Hc) Hh|Hn' Hne| | ]; [|destruct Hg; congruence].
  exists mb, (metaOf req received (blockInfoList h')), pieces. split.
  { pose proof (DBGet_reads (w_db w') (GetFileMetaKey (pi_FileName req))) as R.
    assert (Ec : chain (w_db w') (GetFileMetaKey (pi_FileName req)) = [mb]) by exact (ca_meta _ _ _ _ _ _ _ _ Hc).
    rewrite Ec in R. by apply reads_set in R. }
  split; [by apply Unmarshal_Marshal|]. do 4 (split; [done|]). split; [done|]. split; [|rewrite HR; split].
  - clear -HF. induction HF as [|i d infos ds HR HF IH]; [done|]. simpl. by rewrite IH, (fl_len _ _ _ HR).
  - eapply readFile_flushed; [apply Hh|done].
  - intros ds d -> Hd. erewrite readFile_flushed; [by apply take_padded|apply Hh|done].
Qed.

(** The metadata key of a file is its second path component: files in
    different directories, or at different depths, whose second component
    agrees have the same key, and the later upload replaces the metadata of
    the earlier one. *)
Theorem GetFileMetaKey_collision a b part rest rest' :
  Forall (fun c => c <> 47) a -> Forall (fun c => c <> 47) b -> Forall (fun c => c <> 47) part ->
  GetFileMetaKey (a ++ 47 :: part ++ 47 :: rest) = GetFileMetaKey (b ++ 47 :: part ++ 47 :: rest') /\
  GetFileMetaKey (a ++ 47 :: part ++ 47 :: rest) = GetFileMetaKey (b ++ 47 :: part).
Proof.
  intros Ha Hb Hp. destruct (GetFileMetaKey_component a part rest Ha Hp) as [-> _].
  destruct (GetFileMetaKey_component b part rest' Hb Hp) as [-> ->]. done.
Qed.

(** C26: An upload never stores anything where [QueryFileMeta] or the
    existence check look: the chains of those keys are the same before and
    after, so a file that was not found before its upload is not found after
    it. *)
Theorem upload_not_queryable addr ctx1 ctx2 tot free0 n A req received h w h' w' r :
  tot * BlockSize < 2 ^ 63 -> 0 <= n < 2 ^ 38 -> tot * BlockSize <= SpaceSize * n ->
  stored_chains n (chain (w_db w)) A -> (forall b, free0 b = true -> A b = false) ->
  uploading tot free0 req received h w -> zlen received < 2 ^ 61 ->
  Complete addr ctx1 ctx2 h w = Some (h', w', r) ->
  forall k, chain (w_db w') (fileMetaKey k) = chain (w_db w) (fileMetaKey k) /\
    (chain (w_db w) (fileMetaKey k) = [] -> QueryFileMeta (w_db w') k = inl "file meta not found"%string).
Proof.
  intros Ht Hn Hcap Hs HA U Hsz E k.
  destruct (Complete_spec addr ctx1 ctx2 tot free0 n A req received h w) as (h1 & w1 & r1 & E1 & _ & O & _); try done.
  rewrite E in E1. injection E1 as <- <- <-.
  assert (Hk : chain (w_db w') (fileMetaKey k) = chain (w_db w) (fileMetaKey k)).
  { destruct O as [(pieces & mb & _ & _ & _ & Hc) _|_ _ Hch _|e Hdb _|e b infos _ _ (pieces & mb & _ & _ & _ & Hc) _];
      [|apply Hch|apply Hdb|]; apply (ca_other _ _ _ _ _ _ _ _ Hc);
      destruct (fileMetaKey_outside n k (pi_FileName req)) as (K1 & K2 & K3 & K4 & K5); done. }
  split; [done|]. intros H0. unfold QueryFileMeta. pose proof (DBGet_reads (w_db w') (fileMetaKey k)) as R.
  rewrite Hk, H0 in R. cbn [reads] in R. by rewrite R.
Qed.
End upload.

(** ** Witnesses: a ten-block device on the in-memory disk and store *)

#[local] Existing Instances MemStore.ops MemStore.laws MemDisk.ops MemDisk.laws.
#[local] Existing Instance demoDecoder.

#[local] Instance FileMeta_eq_dec : EqDecision FileMeta.
Proof. solve_decision. Defined.

(** The binary codec in the place of protobuf; what it would not read back it
    refuses. *)
Definition demoMarshal : ProtoMarshal := fun meta =>
  match encodeFileMetaBinary meta with
  | inl e => inl e
  | inr b =>
      match decodeFileMetaBinary b with
      | inr meta' => if decide (meta' = meta) then inr b else inl "cannot encode"%string
      | inl e => inl e
      end
  end.
#[local] Existing Instance demoMarshal.

#[local] Instance demoCodec : ProtoCodec demoMarshal.
Proof.
  exists decodeFileMetaBinary. intros meta b. unfold Marshal, demoMarshal.
  destruct (encodeFileMetaBinary meta) as [e|b']; [done|]. destruct (decodeFileMetaBinary b') as [e|meta'] eqn:E; [done|].
  case_decide as Hd; [|done]. intros [= <-]. by rewrite E, Hd.
Defined.

Definition demoWorld : world (T := AllocatorV3) :=
  match newBlockDevice "lun" 40960 (∅ : @DB MemStore.ops) with
  | Some (inr (d, db)) => mkWorld d (∅ : @disk MemDisk.ops) db
  | _ => mkWorld demoDevice (∅ : @disk MemDisk.ops) (∅ : @DB MemStore.ops)
  end.

Definition demoFree : Z -> bool := ea_free (bd_allocator (w_dev demoWorld)).
Definition demoReq : PutInitRequest := mkPutInitRequest "" (bs "dir/file") (bs "k") true.
Definition demoUpload : AioUploadServerHandler :=
  mkHandler (Some demoReq) [[1; 2; 3]] 3 3 (crc32Update 0 [1; 2; 3]) [] None false 0.

Lemma demoWorld_ok :
  holding 10 demoFree [] (w_dev demoWorld) /\ stored_chains 1 (chain (w_db demoWorld)) (fun _ => false).
Proof.
  unfold demoFree, demoWorld.
  destruct (newBlockDevice_new (T := AllocatorV3) "lun" 40960 (∅ : @DB MemStore.ops) mem_healthy demo_size) as (d0 & db1 & E & [_ _ Ho Ht _ Hs]); [reflexivity|].
  rewrite E. cbn [w_dev w_db]. split; [|exact Hs]. split; try done. intros b. by rewrite andb_true_r.
Qed.

Lemma demoUpload_ok : uploading 10 demoFree demoReq [1; 2; 3] demoUpload demoWorld.
Proof. split; try done; [apply demoWorld_ok|]. exists []. split; [constructor|done]. Qed.

Lemma Put_correct_witness :
  exists h' w' r, Put 0 demoUpload demoWorld [4; 5] = Some (h', w', r) /\ framed demoFree demoWorld w' /\ w_db w' = w_db demoWorld /\
    after_put 10 demoFree demoReq ([1; 2; 3] ++ [4; 5]) h' w' r /\
    (forall e, r = MetaError e -> reliable -> no_room (w_dev demoWorld) 5).
Proof.
  apply (Put_correct 0 10 demoFree demoReq [1; 2; 3] demoUpload demoWorld [4; 5]);
    [vm_compute; reflexivity|vm_compute; reflexivity|exact demoUpload_ok].
Defined.

(** A marshaller that never fails. *)
Definition totalMarshal : ProtoMarshal := fun meta => inr (fm_FileName meta).

Lemma demo_can_complete : can_complete (PM := totalMarshal) Background Background demoReq [1; 2; 3] demoUpload demoWorld.
Proof.
  split; [discriminate|exact MemDisk.ops_reliable|reflexivity|reflexivity| |intros infos; by eexists|].
  - assert (E : (count (ea_free (bd_allocator (w_dev demoWorld))) 0 (ea_total (bd_allocator (w_dev demoWorld))) <? (3 + BlockSize - 1) / BlockSize) = false)
      by (vm_compute; reflexivity). unfold no_room. change (pendingLen demoUpload) with 3. apply Z.ltb_ge in E. lia.
  - split; [by left|by left|exact (mem_healthy _)].
Qed.

Lemma Complete_correct_witness :
  exists h' w', Complete (PM := totalMarshal) 0 Background Background demoUpload demoWorld = Some (h', w', MetaSuccess) /\
    framed demoFree demoWorld w' /\
    outcome (PM := totalMarshal) 10 demoFree 1 (fun _ => false) demoReq [1; 2; 3] h' demoWorld w' MetaSuccess.
Proof.
  destruct (Complete_correct (PM := totalMarshal) 0 Background Background 10 demoFree 1 (fun _ => false) demoReq [1; 2; 3] demoUpload demoWorld)
    as (h' & w' & r & E & Hf & Ho & Hc);
    [vm_compute; reflexivity|lia|vm_compute; congruence|exact (proj2 demoWorld_ok)|reflexivity|exact demoUpload_ok|vm_compute; reflexivity|].
  pose proof (Hc demo_can_complete) as Hr. subst r. exists h', w'. split; [exact E|]. split; [exact Hf|exact Ho].
Defined.

Definition demoAnswer : option (list Z * Response) :=
  match Complete 0 Background Background demoUpload demoWorld with
  | Some (h, _, r) => Some (map fi_originalLen (blockInfoList h), r)
  | None => None
  end.

(** The demo upload succeeds, in one flush. *)
Lemma demo_succeeds : exists h' w', Complete 0 Background Background demoUpload demoWorld = Some (h', w', MetaSuccess) /\
  map fi_originalLen (blockInfoList h') = [3].
Proof.
  assert (E : demoAnswer = Some ([3], MetaSuccess)) by (vm_compute; reflexivity). unfold demoAnswer in E.
  destruct (Complete 0 Background Background demoUpload demoWorld) as [[[h' w'] r]|]; [|done]. injection E as E ->. eauto.
Qed.

Lemma metadata_content_witness :
  exists h' w' mb meta, Complete 0 Background Background demoUpload demoWorld = Some (h', w', MetaSuccess) /\
    DBGet (w_db w') (bs "#file") = inr (Some mb) /\ decodeFileMetaBinary mb = inr meta /\ fm_Size meta = 3 /\
    readFile (w_disk w') meta = [1; 2; 3].
Proof.
  destruct demo_succeeds as (h' & w' & E & H1).
  destruct (metadata_content 0 Background Background 10 demoFree 1 (fun _ => false) demoReq [1; 2; 3] demoUpload demoWorld h' w')
    as (mb & meta & pieces & Hg & Hu & _ & _ & Hsz & _ & HR & Hl & _ & Hc); [vm_compute; reflexivity|lia|vm_compute; congruence|exact (proj2 demoWorld_ok)|reflexivity|exact demoUpload_ok
    |vm_compute; reflexivity|left; reflexivity|exact E|].
  exists h', w', mb, meta. split; [exact E|]. split; [exact Hg|]. split; [exact Hu|]. split; [exact Hsz|].
  rewrite H1 in Hl. destruct pieces as [|p [|? ?]]; try discriminate Hl. apply (Hc [] p); [reflexivity|constructor].
Defined.

Lemma GetFileMetaKey_collision_witness :
  GetFileMetaKey (bs "alice/x/1") = GetFileMetaKey (bs "bob/x/2") /\ GetFileMetaKey (bs "alice/x/1") = GetFileMetaKey (bs "bob/x").
Proof.
  apply (GetFileMetaKey_collision (bs "alice") (bs "bob") (bs "x") (bs "1") (bs "2")); repeat constructor; discriminate.
Defined.

Lemma upload_not_queryable_witness :
  exists h' w', Complete 0 Background Background demoUpload demoWorld = Some (h', w', MetaSuccess) /\
  forall k, chain (w_db w') (fileMetaKey k) = chain (w_db demoWorld) (fileMetaKey k) /\
    (chain (w_db demoWorld) (fileMetaKey k) = [] -> QueryFileMeta (w_db w') k = inl "file meta not found"%string).
Proof.
  destruct demo_succeeds as (h' & w' & E & _). exists h', w'. split; [exact E|].
  apply (upload_not_queryable 0 Background Background 10 demoFree 1 (fun _ => false) demoReq [1; 2; 3] demoUpload demoWorld h' w' MetaSuccess);
    [vm_compute; reflexivity|lia|vm_compute; congruence|exact (proj2 demoWorld_ok)|reflexivity|exact demoUpload_ok
    |vm_compute; reflexivity|exact E].
Defined.
