(* ===== verification/RSocket.v ===== *)
(** * The upload channel

    [internal/network/rsocket]: the payload types and their decoding
    ([payload.go]) and [ErasureServer.RequestChannel], the loop that drives
    one upload handler from the payloads of a channel.

    The loop reads the payloads one by one and takes exactly one response from
    the handler after every call, so a session is a function of the payload
    list; the end of the list is the closed channel.  [proto.Unmarshal] is a
    parameter. *)

From stdpp Require Import base decidable list numbers option strings gmap.
From Stdlib Require Import ZArith Lia.
From S2P Require Import Prelude Words Bytes Moss MossJSON MossThms Allocator Extents AllocatorSpec SpaceBitmap Pebble WriteBatch BatchPebble BatchThms BlockDevice BlockDeviceSpec BlockDeviceThms FileMetaCodec AioChannel Crc32 Upload UploadInv UploadThms.

(** ** Payloads *)

(** [PayloadMetaType] *)
Definition Error : string := "ERROR".
Definition Success : string := "SUCCESS".
Definition Continue : string := "CONTINUE".
Definition StartPutObject : string := "START_PUT_OBJECT".
Definition PutObject : string := "PUT_OBJECT".
Definition CompletePutObject : string := "COMPLETE_PUT_OBJECT".
Definition PutAndCompleteObject : string := "PUT_AND_COMPLETE_PUT_OBJECT".
Definition StartPartUpload : string := "START_PART_UPLOAD".
Definition PartUpload : string := "PART_UPLOAD".
Definition CompletePartUpload : string := "COMPLETE_PART_UPLOAD".
Definition StartBatchPut : string := "START_BATCH_PUT".
Definition CPSSFile : string := "CP_SST_FILE".
Definition StartFileAsync : string := "START_FILE_ASYNC_CHANNEL".

Record RequestPayload := mkRequestPayload { MetaType : string; Data : bytes }.
Record ResponsePayload := mkResponsePayload { resp_MetaType : string; resp_Err : option error }.

(** [proto.Unmarshal] of a [pb.PutInitRequest], a third-party package. *)
Class ProtoUnmarshal := UnmarshalPutInit : bytes -> error + PutInitRequest.

(** [a == b || ...] over string constants *)
Definition isOneOf (s : string) (l : list string) : bool := existsb (String.eqb s) l.

Section decoding.
Context `{PU : ProtoUnmarshal}.

Definition decodePutInitRequest (data : bytes) : error + PutInitRequest :=
  match data with
  | [] => inl "empty PutInitRequest payload"%string
  | _ =>
      match UnmarshalPutInit data with
      | inl e => inl ("unmarshal PutInitRequest failed: " +:+ e)%string
      | inr req => inr req
      end
  end.

(** [None] is a panic. *)
Definition decodePutAndComplete (data : bytes) : option (error + PutInitRequest * bytes) :=
  if zlen data <? 8 then Some (inl "payload too short"%string)
  else
    head ← slice data 0 8;
    let startLen64 := le_value head in
    if u64 (zlen data - 8) <? startLen64 then Some (inl "start metadata length exceeds payload size"%string)
    else
      let startLen := i64 startLen64 in
      startBytes ← slice data 8 (8 + startLen);
      body ← slice data (8 + startLen) (zlen data);
      match decodePutInitRequest startBytes with
      | inl e => Some (inl e)
      | inr start => Some (inr (start, body))
      end.
End decoding.

(** ** The channel loop *)

Section channel.
Context {PO : PebbleOps} {J : JSONDecoder} {T : Type} `{EA : ExtentAllocator T} {AD : AioDisk} {PM : ProtoMarshal} {PU : ProtoUnmarshal}.

(** What surrounds one session: whether the server has a device of its own
    besides the registered one of the world, the addresses of the buffers,
    the state of [ctx] during the last write. *)
Record env := mkEnv { env_device : bool; env_addr : nat -> Z; env_ctx1 : nat -> option error; env_ctx2 : nat -> option error }.

(** The device is the one registered under [Lun], else the server's own; the
    world has a single device, registered under its name. *)
Definition startHandler (e : env) (w : world (T := T)) (req : PutInitRequest) : ResponsePayload + AioUploadServerHandler :=
  let found := negb (String.eqb (pi_Lun req) "") && String.eqb (pi_Lun req) (bd_name (w_dev w)) in
  if found || env_device e then inr (Start NewAioUploadServerHandler req)
  else inl (mkResponsePayload Error (Some ("missing block device for lun " +:+ pi_Lun req)%string)).

Definition forward (r : Response) : ResponsePayload * bool :=
  match r with
  | MetaContinue => (mkResponsePayload Continue None, true)
  | MetaSuccess => (mkResponsePayload Success None, true)
  | MetaError err => (mkResponsePayload Error (Some err), false)
  end.

Definition errorPayload (msg : string) : ResponsePayload := mkResponsePayload Error (Some msg).

(** The state when the goroutine ends: the handler, the world, the
    responses. *)
Definition ended : Type := option AioUploadServerHandler * world (T := T) * list ResponsePayload.

(** The iterations after the first. *)
Fixpoint channelLoop (e : env) (i : nat) (h : option AioUploadServerHandler) (w : world (T := T)) (payloads : list RequestPayload)
    (out : list ResponsePayload) : option ended :=
  match payloads with
  | [] => Some (h, w, out)
  | p :: payloads =>
      if isOneOf (MetaType p) [PutObject; PartUpload] then
        match h with
        | None => Some (h, w, out ++ [errorPayload "missing upload handler"])
        | Some h =>
            '(h, w, r) ← Put (env_addr e i) h w (Data p);
            let '(resp, ok) := forward r in
            if ok then channelLoop e (S i) (Some h) w payloads (out ++ [resp]) else Some (Some h, w, out ++ [resp])
        end
      else if isOneOf (MetaType p) [CompletePutObject; CompletePartUpload] then
        match h with
        | None => Some (h, w, out ++ [errorPayload "missing upload handler"])
        | Some h =>
            '(h, w, r) ← Complete (env_addr e i) (env_ctx1 e) (env_ctx2 e) h w;
            Some (Some h, w, out ++ [(forward r).1])
        end
      else if isOneOf (MetaType p) [Error] then
        match h with
        | None => Some (h, w, out ++ [errorPayload "channel timeout"])
        | Some h => '(h, w, r) ← TimeOut h w; Some (Some h, w, out ++ [(forward r).1])
        end
      else Some (h, w, out ++ [errorPayload ("unexpected meta type: " +:+ MetaType p)])
  end.

Definition putAndComplete (e : env) (w : world (T := T)) (data : bytes) : option ended :=
  d ← decodePutAndComplete data;
  match d with
  | inl err => Some (None, w, [errorPayload err])
  | inr (start, body) =>
      match startHandler e w start with
      | inl resp => Some (None, w, [resp])
      | inr h =>
          '(h, w, r) ← Put (env_addr e 0) h w body;
          let '(resp, ok) := forward r in
          if ok then
            '(h, w, r) ← Complete (env_addr e 1) (env_ctx1 e) (env_ctx2 e) h w;
            Some (Some h, w, [resp; (forward r).1])
          else Some (Some h, w, [resp])
      end
  end.

(** The first iteration, then the loop. *)
Definition RequestChannel (e : env) (w : world (T := T)) (payloads : list RequestPayload) : option ended :=
  match payloads with
  | [] => Some (None, w, [])
  | p :: payloads =>
      if isOneOf (MetaType p) [PutAndCompleteObject] then putAndComplete e w (Data p)
      else if isOneOf (MetaType p) [StartPutObject; StartPartUpload; StartBatchPut] then
        match decodePutInitRequest (Data p) with
        | inl err => Some (None, w, [errorPayload err])
        | inr start =>
            match startHandler e w start with
            | inl resp => Some (None, w, [resp])
            | inr h => channelLoop e 0 (Some h) w payloads []
            end
        end
      else if isOneOf (MetaType p) [CPSSFile; StartFileAsync] then
        Some (None, w, [errorPayload ("meta type " +:+ MetaType p +:+ " ignored in object mode")])
      else Some (None, w, [errorPayload ("unsupported first meta type: " +:+ MetaType p)])
  end.
End channel.
