(* ===== verification/RSocketThms.v ===== *)
(** * Theorems of the upload channel *)

From stdpp Require Import base decidable list numbers option strings gmap.
From Stdlib Require Import ZArith Lia.
From S2P Require Import Prelude Words Bytes Moss MossJSON MossThms Allocator Extents AllocatorSpec SpaceBitmap Pebble WriteBatch BatchPebble BatchThms BlockDevice BlockDeviceSpec BlockDeviceThms FileMetaCodec AioChannel Crc32 Upload UploadInv UploadThms RSocket.

(** ** Decoding *)

Section decoding.
Context `{PU : ProtoUnmarshal}.

Lemma decode_cases data :
  Forall byte_ok data -> zlen data < 2 ^ 63 ->
  (exists e, decodePutAndComplete data = Some (inl e)) \/
  (exists s start body, decodePutAndComplete data = Some (inr (start, body)) /\
     data = le_bytes 8 (zlen s) ++ s ++ body /\ decodePutInitRequest s = inr start).
Proof.
  intros Hb Hl. pose proof (zlen_nonneg data). unfold decodePutAndComplete. case_bool; [left; eauto|].
  pose proof (slice_take data 0 8 ltac:(lia) ltac:(lia) ltac:(lia)) as E0. change (0 + 8) with 8 in E0. rewrite E0. go_step. clear E0.
  rewrite drop_0. set (head := take (Z.to_nat 8) data).
  assert (Hlen : length head = 8%nat) by (unfold head; rewrite length_take; unfold zlen in *; lia).
  assert (Hhb : Forall byte_ok head) by (by apply Forall_take).
  pose proof (le_value_bound head Hhb) as Hv. rewrite u64_small by (unfold is_u64; lia). case_bool; [left; eauto|].
  set (m := le_value head) in *. rewrite i64_small by (unfold is_i64; lia). rewrite slice_take by lia. go_step.
  assert (Hbody : slice data (8 + m) (zlen data) = Some (drop (Z.to_nat (8 + m)) data)).
  { pose proof (slice_take data (8 + m) (zlen data - (8 + m)) ltac:(lia) ltac:(lia) ltac:(lia)) as E.
    replace (8 + m + (zlen data - (8 + m))) with (zlen data) in E by lia. rewrite E. f_equal. apply take_ge.
    rewrite length_drop. unfold zlen. lia. }
  rewrite Hbody. go_step.
  set (s := take (Z.to_nat m) (drop (Z.to_nat 8) data)).
  destruct (decodePutInitRequest s) as [e|start] eqn:Ed; [left; eauto|]. right. eexists s, start, _. split; [done|]. split; [|done].
  assert (Hs : zlen s = m) by (unfold s, zlen in *; rewrite length_take, length_drop; lia).
  rewrite Hs. unfold m at 1. rewrite <- Hlen at 1. rewrite le_bytes_value by done.
  replace (Z.to_nat (8 + m)) with (Z.to_nat 8 + Z.to_nat m)%nat by lia. rewrite <- drop_drop. unfold s, head. by rewrite !take_drop.
Qed.

Lemma decode_encoded s start body :
  zlen s + zlen body < 2 ^ 62 -> decodePutInitRequest s = inr start ->
  decodePutAndComplete (le_bytes 8 (zlen s) ++ s ++ body) = Some (inr (start, body)).
Proof.
  intros Hl Hd. pose proof (zlen_nonneg s). pose proof (zlen_nonneg body). unfold decodePutAndComplete.
  set (head := le_bytes 8 (zlen s)). assert (Hh : length head = 8%nat) by apply le_bytes_length.
  assert (Hz : zlen (head ++ s ++ body) = 8 + zlen s + zlen body) by (unfold zlen; rewrite !length_app, Hh; lia).
  rewrite Hz. rewrite (proj2 (Z.ltb_ge _ 8)) by lia.
  pose proof (slice_take (head ++ s ++ body) 0 8 ltac:(lia) ltac:(lia) ltac:(lia)) as E0. change (0 + 8) with 8 in E0. rewrite E0. go_step. clear E0.
  rewrite drop_0, take_app_length' by (rewrite Hh; done).
  assert (Hv : le_value head = zlen s) by (unfold head; rewrite le_value_bytes; apply Z.mod_small; change (2 ^ (8 * Z.of_nat 8)) with (2 ^ 64); lia).
  rewrite Hv, u64_small by (unfold is_u64; lia). rewrite (proj2 (Z.ltb_ge _ (zlen s))) by lia.
  rewrite i64_small by (unfold is_i64; lia). rewrite (slice_take _ 8 (zlen s)) by lia. go_step.
  rewrite drop_app_length', take_app_length' by (rewrite ?Hh; unfold zlen; lia).
  replace (8 + zlen s + zlen body) with ((8 + zlen s) + zlen body) by lia. rewrite slice_take by lia. go_step. rewrite Hd.
  do 4 f_equal. rewrite app_assoc, drop_app_length', take_ge by (rewrite ?length_app, ?Hh; unfold zlen; lia). done.
Qed.

(** C27: The single-payload form is decoded exactly.  [decodePutAndComplete]
    never panics; what it accepts is the length of the start message, the
    message and the body, in this order and nothing else, and every payload
    put together this way is accepted and taken apart again. *)
Theorem decodePutAndComplete_exact data :
  Forall byte_ok data -> zlen data < 2 ^ 62 ->
  ((exists e, decodePutAndComplete data = Some (inl e)) \/
   (exists s start body, decodePutAndComplete data = Some (inr (start, body)) /\
      data = le_bytes 8 (zlen s) ++ s ++ body /\ decodePutInitRequest s = inr start)) /\
  (forall s start body, data = le_bytes 8 (zlen s) ++ s ++ body -> decodePutInitRequest s = inr start ->
     decodePutAndComplete data = Some (inr (start, body))).
Proof.
  intros Hb Hl. split; [apply decode_cases; [done|lia]|]. intros s start body -> Hd. apply decode_encoded; [|done].
  unfold zlen in *. rewrite !length_app, le_bytes_length in Hl. lia.
Qed.
End decoding.

(** ** Sessions *)

Definition isPut (p : RequestPayload) : bool := isOneOf (MetaType p) [PutObject; PartUpload].
Definition isComplete (p : RequestPayload) : bool := isOneOf (MetaType p) [CompletePutObject; CompletePartUpload].
Definition isError (p : RequestPayload) : bool := isOneOf (MetaType p) [Error].

(** The bodies of the leading data payloads, and what follows them. *)
Fixpoint bodies (payloads : list RequestPayload) : list bytes :=
  match payloads with p :: ps => if isPut p then Data p :: bodies ps else [] | [] => [] end.

Fixpoint afterBodies (payloads : list RequestPayload) : list RequestPayload :=
  match payloads with p :: ps => if isPut p then afterBodies ps else payloads | [] => [] end.

Section session.
Context {PO : PebbleOps} `{L : !PebbleLaws PO} {J : JSONDecoder} {T : Type} `{EA : ExtentAllocator T} `{EL : !ExtentAllocatorLaws T}
  {AD : AioDisk} `{AL : !AioDiskLaws AD} {PM : ProtoMarshal} {PU : ProtoUnmarshal}.
Implicit Types (w : world (T := T)) (h : AioUploadServerHandler) (received : bytes).

(** The answers to data payloads that were taken. *)
Definition continues (k : nat) : list ResponsePayload := replicate k (mkResponsePayload Continue None).

(** Data payloads that [Put] took one after the other, each answered
    [CONTINUE]. *)
Inductive puts (e : env) : nat -> AioUploadServerHandler -> world (T := T) -> list bytes -> AioUploadServerHandler -> world (T := T) -> Prop :=
  | puts_none i h w : puts e i h w [] h w
  | puts_one i h w b bs h1 w1 h2 w2 :
      Put (env_addr e i) h w b = Some (h1, w1, MetaContinue) -> puts e (S i) h1 w1 bs h2 w2 -> puts e i h w (b :: bs) h2 w2.

(** How the session of an upload ends, from handler [h] in world [w] that
    received [received]: [datas] are the bodies of the data payloads, [rest]
    is what follows them, [out] the answers. *)
Inductive loop_end (tot : Z) (free0 : Z -> bool) (n : Z) (A : Z -> bool) (e : env) (i : nat) (req : PutInitRequest) received
    (datas : list bytes) (rest : list RequestPayload) h w h' w' (out : list ResponsePayload) : Prop :=
  | le_put_failed pre b post err h1 w1 :
      datas = pre ++ b :: post -> puts e i h w pre h1 w1 ->
      Put (env_addr e (i + length pre)) h1 w1 b = Some (h', w', MetaError err) ->
      (reliable -> no_room (w_dev w1) (pendingLen h1 + zlen b)) ->
      w_db w' = w_db w -> released tot free0 h' w' -> out = continues (length pre) ++ [errorPayload err] ->
      loop_end tot free0 n A e i req received datas rest h w h' w' out
  | le_completed p rest' h1 w1 r resp :
      rest = p :: rest' -> isComplete p = true -> puts e i h w datas h1 w1 ->
      Complete (env_addr e (i + length datas)) (env_ctx1 e) (env_ctx2 e) h1 w1 = Some (h', w', r) ->
      outcome tot free0 n A req (received ++ concat datas) h' w w' r ->
      (can_complete (env_ctx1 e) (env_ctx2 e) req (received ++ concat datas) h1 w1 -> r = MetaSuccess) ->
      out = continues (length datas) ++ [resp] ->
      (r = MetaSuccess /\ resp = mkResponsePayload Success None) \/ (exists err, r = MetaError err /\ resp = errorPayload err) ->
      loop_end tot free0 n A e i req received datas rest h w h' w' out
  | le_timeout p rest' h1 w1 :
      rest = p :: rest' -> isError p = true -> puts e i h w datas h1 w1 ->
      TimeOut h1 w1 = Some (h', w', MetaError "channel timeout"%string) ->
      w_db w' = w_db w -> released tot free0 h' w' -> out = continues (length datas) ++ [errorPayload "channel timeout"] ->
      loop_end tot free0 n A e i req received datas rest h w h' w' out
  | le_closed :
      rest = [] -> puts e i h w datas h' w' -> w_db w' = w_db w -> uploading tot free0 req (received ++ concat datas) h' w' ->
      out = continues (length datas) -> loop_end tot free0 n A e i req received datas rest h w h' w' out
  | le_unexpected p rest' :
      rest = p :: rest' -> isPut p = false -> isComplete p = false -> isError p = false -> puts e i h w datas h' w' ->
      w_db w' = w_db w -> uploading tot free0 req (received ++ concat datas) h' w' ->
      out = continues (length datas) ++ [errorPayload ("unexpected meta type: " +:+ MetaType p)] ->
      loop_end tot free0 n A e i req received datas rest h w h' w' out.

Lemma outcome_db tot free0 n A req received h' w w0 w' r :
  w_db w = w_db w0 -> outcome tot free0 n A req received h' w w' r -> outcome tot free0 n A req received h' w0 w' r.
Proof.
  intros E O. destruct O as [Hc Hh|H1 H2 H3 H4|e H1 H2|e b infos H1 H2 H3 H4]; rewrite E in *;
    [by eapply out_committed|by apply out_exists|by apply out_failed|by eapply out_commit_failed].
Qed.

(** A data payload that was taken, before the rest of the session. *)
Lemma loop_end_cons tot free0 n A e i req received b datas rest h w h1 w1 h' w' out :
  Put (env_addr e i) h w b = Some (h1, w1, MetaContinue) -> w_db w1 = w_db w ->
  loop_end tot free0 n A e (S i) req (received ++ b) datas rest h1 w1 h' w' out ->
  loop_end tot free0 n A e i req received (b :: datas) rest h w h' w' (mkResponsePayload Continue None :: out).
Proof.
  intros Ep E O.
  assert (Hcat : (received ++ b) ++ concat datas = received ++ concat (b :: datas)) by (simpl; by rewrite app_assoc).
  assert (Hidx : forall l : list bytes, (S i + length l)%nat = (i + length (b :: l))%nat) by (intros; simpl; lia).
  destruct O as [pre b' post err h2 w2 -> Hp Hput Hc Hdb Hrel ->|p rest' h2 w2 r resp -> Hp1 Hp Hcm Ho Hc -> Hr
    |p rest' h2 w2 -> Hp1 Hp Ht Hdb Hrel ->| -> Hp Hdb U ->|p rest' -> Hp1 Hp2 Hp3 Hp Hdb U ->].
  - eapply (le_put_failed _ _ _ _ _ _ _ _ _ _ _ _ _ _ _ (b :: pre) b' post err h2 w2); try done;
      [by eapply puts_one|rewrite <- Hidx; exact Hput|congruence].
  - eapply (le_completed _ _ _ _ _ _ _ _ _ _ _ _ _ _ _ p rest' h2 w2 r resp); try done; [by eapply puts_one|rewrite <- Hidx; exact Hcm|rewrite <- Hcat; by eapply outcome_db|by rewrite <- Hcat].
  - eapply le_timeout; try done; [by eapply puts_one|congruence].
  - apply le_closed; try done; [by eapply puts_one|congruence|by rewrite <- Hcat].
  - eapply le_unexpected; try done; [by eapply puts_one|congruence|by rewrite <- Hcat].
Qed.

Context (tot : Z) (free0 : Z -> bool) (n : Z) (A : Z -> bool).
Hypothesis Htot : tot * BlockSize < 2 ^ 63.
Hypothesis Hn : 0 <= n < 2 ^ 38.
Hypothesis Hcap : tot * BlockSize <= SpaceSize * n.
Hypothesis HA : forall b, free0 b = true -> A b = false.

(** The last payload of an upload that is not a data payload. *)
Lemma last_payload_spec e i req received h w p payloads out :
  stored_chains n (chain (w_db w)) A -> uploading tot free0 req received h w -> zlen received < 2 ^ 61 -> isPut p = false ->
  exists h' w' out', channelLoop e i (Some h) w (p :: payloads) out = Some (Some h', w', out ++ out') /\ framed free0 w w' /\
    loop_end tot free0 n A e i req received [] (p :: payloads) h w h' w' out'.
Proof.
  intros Hs U Hsz Ep. cbn [channelLoop]. fold (isPut p) (isComplete p) (isError p). rewrite Ep.
  assert (Happ : received = received ++ concat []) by (simpl; by rewrite app_nil_r).
  destruct (isComplete p) eqn:Ec; [|destruct (isError p) eqn:Ee].
  - destruct (Complete_spec (env_addr e i) (env_ctx1 e) (env_ctx2 e) tot free0 n A req received h w) as (h' & w' & r & E & Hf & Ho & Hc); try done.
    rewrite E. go_step. eexists _, _, [_]. split; [done|]. split; [done|].
    eapply (le_completed _ _ _ _ _ _ _ _ _ _ _ _ _ _ _ p payloads h w r); try done; rewrite <- ?Happ, ?Nat.add_0_r; try done; [constructor|].
    inversion Ho; subst; cbn [forward]; eauto.
  - destruct (TimeOut_spec tot free0 h w) as (h' & w' & E & Hf & Hdb & Hrel & _); [apply U|].
    rewrite E. go_step. eexists _, _, [_]. split; [done|]. split; [done|]. eapply le_timeout; try done. constructor.
  - eexists _, _, [_]. split; [done|]. split; [apply framed_refl|]. eapply le_unexpected; try done; rewrite <- ?Happ; try done. constructor.
Qed.

Lemma channelLoop_spec e payloads : forall i req received h w out,
  stored_chains n (chain (w_db w)) A -> uploading tot free0 req received h w ->
  zlen (received ++ concat (bodies payloads)) < 2 ^ 61 ->
  exists h' w' out', channelLoop e i (Some h) w payloads out = Some (Some h', w', out ++ out') /\ framed free0 w w' /\
    loop_end tot free0 n A e i req received (bodies payloads) (afterBodies payloads) h w h' w' out'.
Proof.
  induction payloads as [|p payloads IH]; intros i req received h w out Hs U Hsz; cbn [bodies afterBodies] in *.
  { exists h, w, []. cbn [channelLoop]. rewrite app_nil_r. split; [done|]. split; [apply framed_refl|].
    apply le_closed; try done; [constructor|]. simpl. by rewrite app_nil_r. }
  destruct (isPut p) eqn:Ep; [|apply last_payload_spec; try done; by rewrite app_nil_r in Hsz].
  cbn [channelLoop]. fold (isPut p). rewrite Ep.
  cbn [concat] in *. rewrite app_assoc in *. rewrite zlen_app_ in Hsz. pose proof (zlen_nonneg (concat (bodies payloads))).
  destruct (Put_spec (env_addr e i) tot free0 req received h w (Data p) Htot) as (h1 & w1 & r & E & Hf & Hdb & Hr & Hcause);
    [rewrite zlen_app_ in Hsz; lia|done|]. rewrite E. go_step.
  destruct Hr as [(-> & U1)|(err & -> & _ & _ & Hrel)]; cbn [forward].
  - destruct (IH (S i) req (received ++ Data p) h1 w1 (out ++ [mkResponsePayload Continue None])) as (h' & w' & out' & E' & Hf' & Hl);
      [by rewrite Hdb|done|rewrite zlen_app_; lia|]. rewrite E'. eexists h', w', (_ :: out'). rewrite <- app_assoc. split; [done|].
    split; [by eapply framed_trans|]. by eapply loop_end_cons.
  - eexists h1, w1, [_]. split; [done|]. split; [done|].
    eapply (le_put_failed _ _ _ _ _ _ _ _ _ _ _ _ _ _ _ [] (Data p) (bodies payloads) err h w); try done;
      [constructor|by rewrite Nat.add_0_r|by apply (Hcause err)].
Qed.

(** The upload a payload list asks for: the request, the bodies of the data
    payloads, and what follows them. *)
Definition session_of (payloads : list RequestPayload) : option (PutInitRequest * list bytes * list RequestPayload) :=
  match payloads with
  | [] => None
  | p :: ps =>
      if isOneOf (MetaType p) [PutAndCompleteObject] then
        match decodePutAndComplete (Data p) with
        | Some (inr (start, body)) => Some (start, [body], [mkRequestPayload CompletePutObject []])
        | _ => None
        end
      else if isOneOf (MetaType p) [StartPutObject; StartPartUpload; StartBatchPut] then
        match decodePutInitRequest (Data p) with
        | inr start => Some (start, bodies ps, afterBodies ps)
        | inl _ => None
        end
      else None
  end.

Lemma bodies_length payloads : zlen (concat (bodies payloads)) <= zlen (concat (map Data payloads)).
Proof.
  induction payloads as [|p ps IH]; cbn [bodies map concat]; [lia|]. rewrite (zlen_app_ (Data p)).
  pose proof (zlen_nonneg (Data p)). pose proof (zlen_nonneg (concat (map Data ps))).
  destruct (isPut p); cbn [concat]; [rewrite zlen_app_; lia|change (zlen (@nil Z)) with 0; lia].
Qed.

Lemma startHandler_uploading e w req h :
  holding tot free0 [] (w_dev w) -> startHandler e w req = inr h -> h = Start NewAioUploadServerHandler req /\ uploading tot free0 req [] h w.
Proof.
  unfold startHandler. case_bool; [|done]. intros Hh E. injection E as <-. split; [done|]. by apply Start_uploading.
Qed.

(** No device serves the upload. *)
Definition no_device (e : env) w (req : PutInitRequest) : Prop :=
  env_device e = false /\ (pi_Lun req = ""%string \/ pi_Lun req <> bd_name (w_dev w)).

Lemma startHandler_refuses e w req resp : startHandler e w req = inl resp -> no_device e w req /\ exists msg, resp = errorPayload msg.
Proof.
  unfold startHandler, no_device. destruct (env_device e); [by rewrite orb_true_r|]. rewrite orb_false_r.
  destruct (String.eqb_spec (pi_Lun req) ""); cbn [negb andb]; [|destruct (String.eqb_spec (pi_Lun req) (bd_name (w_dev w))); [done|]];
    intros [= <-]; (split; [by auto|by eexists]).
Qed.

(** What a run of the channel is: refused, or a session of the upload. *)
Definition session_result (e : env) w payloads (r : option (ended (T := T))) : Prop :=
  exists o w' out, r = Some (o, w', out) /\ framed free0 w w' /\
    match o with
    | None => w' = w /\
        ((payloads = [] /\ out = []) \/
         (payloads <> [] /\ (exists msg, out = [errorPayload msg]) /\
          (session_of payloads = None \/ exists req datas rest, session_of payloads = Some (req, datas, rest) /\ no_device e w req)))
    | Some h' => exists req datas rest, session_of payloads = Some (req, datas, rest) /\ ~ no_device e w req /\
        loop_end tot free0 n A e 0 req [] datas rest (Start NewAioUploadServerHandler req) w h' w' out
    end.

Lemma session_none e w p payloads msg :
  session_of (p :: payloads) = None \/ (exists req datas rest, session_of (p :: payloads) = Some (req, datas, rest) /\ no_device e w req) ->
  session_result e w (p :: payloads) (Some (None, w, [errorPayload msg])).
Proof. intros H. eexists None, w, _. split; [done|]. split; [apply framed_refl|]. split; [done|]. right. split; [done|]. eauto. Qed.

Lemma startHandler_serves e w req h : startHandler e w req = inr h -> ~ no_device e w req.
Proof.
  unfold startHandler. intros E [Hd Hl]. rewrite Hd, orb_false_r in E.
  destruct (String.eqb_spec (pi_Lun req) ""); cbn [negb andb] in E; [done|]. destruct Hl as [|Hl]; [done|].
  destruct (String.eqb_spec (pi_Lun req) (bd_name (w_dev w))); done.
Qed.

(** The one-payload form is a session of one data payload and a completion. *)
Lemma putAndComplete_session e w p payloads :
  isOneOf (MetaType p) [PutAndCompleteObject] = true ->
  Forall byte_ok (Data p) -> zlen (Data p) < 2 ^ 61 -> holding tot free0 [] (w_dev w) -> stored_chains n (chain (w_db w)) A ->
  session_result e w (p :: payloads) (putAndComplete e w (Data p)).
Proof.
  intros Hm Hb Hl Hh Hs. unfold putAndComplete.
  destruct (decode_cases (Data p) Hb ltac:(lia)) as [(er & Ed)|(s & start & body & Ed & Hd & _)]; rewrite Ed; go_step.
  { apply session_none. left. cbn [session_of]. by rewrite Hm, Ed. }
  assert (Hof : session_of (p :: payloads) = Some (start, [body], [mkRequestPayload CompletePutObject []]))
    by (cbn [session_of]; by rewrite Hm, Ed).
  destruct (startHandler e w start) as [resp|h] eqn:Eh.
  { apply startHandler_refuses in Eh as [Hno [msg ->]]. apply session_none. right. by eexists _, _, _. }
  pose proof (startHandler_serves e w start h Eh) as Hyes. apply (startHandler_uploading e w start h Hh) in Eh as [-> Eh].
  set (h := Start NewAioUploadServerHandler start) in *.
  assert (Hbl : zlen body < 2 ^ 61) by (rewrite Hd, !zlen_app_ in Hl; pose proof (zlen_nonneg s); pose proof (zlen_nonneg (le_bytes 8 (zlen s))); lia).
  destruct (Put_spec (env_addr e 0) tot free0 start [] h w body Htot) as (h1 & w1 & r & Ep & Hf & Hdb & Hr & Hcause); [done|done|]. rewrite Ep. go_step.
  destruct Hr as [(-> & U)|(err & -> & _ & _ & Hrel)]; cbn [forward].
  - destruct (last_payload_spec e 1 start body h1 w1 (mkRequestPayload CompletePutObject []) [] [mkResponsePayload Continue None])
      as (h' & w' & out' & El & Hf' & Hend); try done; [by rewrite Hdb|].
    change (channelLoop e 1 (Some h1) w1 [mkRequestPayload CompletePutObject []] [mkResponsePayload Continue None]) with
      ('(h, w, r) ← Complete (env_addr e 1) (env_ctx1 e) (env_ctx2 e) h1 w1; Some (Some h, w, [mkResponsePayload Continue None; (forward r).1])) in El.
    rewrite El. eexists _, _, _. split; [done|]. split; [by eapply framed_trans|]. eexists _, _, _. split; [exact Hof|]. split; [done|].
    by eapply (loop_end_cons _ _ _ _ _ _ _ [] body []).
  - eexists _, _, _. split; [done|]. split; [done|]. eexists _, _, _. split; [exact Hof|]. split; [done|].
    eapply (le_put_failed _ _ _ _ _ _ _ _ _ _ _ _ _ _ _ [] body [] err h w); try done; [constructor|by apply (Hcause err)].
Qed.

Lemma RequestChannel_spec e w payloads :
  Forall (fun p => Forall byte_ok (Data p)) payloads -> zlen (concat (map Data payloads)) < 2 ^ 61 ->
  holding tot free0 [] (w_dev w) -> stored_chains n (chain (w_db w)) A ->
  session_result e w payloads (RequestChannel e w payloads).
Proof.
  intros Hb Hl Hh Hs. destruct payloads as [|p ps].
  { eexists None, w, []. split; [done|]. split; [apply framed_refl|]. split; [done|by left]. }
  unfold RequestChannel. cbn [map concat] in Hl. rewrite zlen_app_ in Hl.
  pose proof (zlen_nonneg (concat (map Data ps))). pose proof (zlen_nonneg (Data p)). apply Forall_cons in Hb as [Hb _].
  destruct (isOneOf (MetaType p) [PutAndCompleteObject]) eqn:E1; [apply putAndComplete_session; (done || lia)|].
  assert (Hof : session_of (p :: ps) = if isOneOf (MetaType p) [StartPutObject; StartPartUpload; StartBatchPut] then
    match decodePutInitRequest (Data p) with inr start => Some (start, bodies ps, afterBodies ps) | inl _ => None end else None)
    by (cbn [session_of]; by rewrite E1).
  destruct (isOneOf (MetaType p) [StartPutObject; StartPartUpload; StartBatchPut]) eqn:E2; [|case_match; apply session_none; by left].
  destruct (decodePutInitRequest (Data p)) as [er|start] eqn:Ed; [apply session_none; by left|].
  destruct (startHandler e w start) as [resp|h] eqn:Eh.
  { apply startHandler_refuses in Eh as [Hno [msg ->]]. apply session_none. right. by eexists _, _, _. }
  pose proof (startHandler_serves e w start h Eh) as Hyes. apply (startHandler_uploading e w start h Hh) in Eh as [-> Eh]. pose proof (bodies_length ps).
  destruct (channelLoop_spec e ps 0 start [] _ w [] Hs Eh) as (h' & w' & out' & -> & Hf & Hr); [cbn [app]; lia|].
  eexists _, _, _. split; [done|]. split; [done|]. eexists _, _, _. split; [exact Hof|]. by split.
Qed.

(** C28: What a session does, payload by payload.  Whatever payloads a client
    sends, the server does not panic and changes no byte of a block that was
    in use.  It refuses the session, with one error and nothing changed,
    exactly if the first payload does not start an upload or no device serves
    it.  Otherwise it calls [Put] with the data payloads in order, answering
    [CONTINUE], up to the first that fails: that one is answered with its
    error, every block is free again, and the disk failed or had no room.  If
    none fails, the next payload decides: [COMPLETE] calls [Complete], whose
    outcome for exactly the received bytes is answered with [SUCCESS] or its
    error; [ERROR] calls [TimeOut] and every block is free again; at the end
    of the channel, or at any other payload, which is answered with an error,
    the upload still holds its blocks. *)
Theorem RequestChannel_session e w payloads :
  Forall (fun p => Forall byte_ok (Data p)) payloads -> zlen (concat (map Data payloads)) < 2 ^ 61 ->
  holding tot free0 [] (w_dev w) -> stored_chains n (chain (w_db w)) A ->
  exists o w' out, RequestChannel e w payloads = Some (o, w', out) /\ framed free0 w w' /\
    match o with
    | None => w' = w /\
        ((payloads = [] /\ out = []) \/
         (payloads <> [] /\ (exists msg, out = [errorPayload msg]) /\
          (session_of payloads = None \/ exists req datas rest, session_of payloads = Some (req, datas, rest) /\ no_device e w req)))
    | Some h' => exists req datas rest, session_of payloads = Some (req, datas, rest) /\ ~ no_device e w req /\
        loop_end tot free0 n A e 0 req [] datas rest (Start NewAioUploadServerHandler req) w h' w' out
    end.
Proof. apply RequestChannel_spec. Qed.
End session.

(** ** Witnesses *)

#[local] Existing Instances MemStore.ops MemStore.laws MemDisk.ops MemDisk.laws.
#[local] Existing Instances demoDecoder demoMarshal.

Definition demoUnmarshal : ProtoUnmarshal := fun data => inr (mkPutInitRequest "" data data true).
#[local] Existing Instance demoUnmarshal.

Definition demoPayload : bytes := le_bytes 8 1 ++ [97] ++ [1; 2].

Lemma decodePutAndComplete_exact_witness :
  ((exists e, decodePutAndComplete demoPayload = Some (inl e)) \/
   (exists s start body, decodePutAndComplete demoPayload = Some (inr (start, body)) /\
      demoPayload = le_bytes 8 (zlen s) ++ s ++ body /\ decodePutInitRequest s = inr start)) /\
  (forall s start body, demoPayload = le_bytes 8 (zlen s) ++ s ++ body -> decodePutInitRequest s = inr start ->
     decodePutAndComplete demoPayload = Some (inr (start, body))).
Proof.
  apply (decodePutAndComplete_exact demoPayload); [|vm_compute; reflexivity].
  apply Forall_app. split; [apply le_bytes_ok|]. repeat first [lia|constructor].
Defined.

Definition demoEnv : env := mkEnv true (fun _ => 0) Background Background.
Definition demoSession : list RequestPayload :=
  [mkRequestPayload StartPutObject [97]; mkRequestPayload PutObject [1; 2]; mkRequestPayload PutObject [3]; mkRequestPayload CompletePutObject []].

Lemma RequestChannel_session_witness :
  exists h' w' out, RequestChannel demoEnv demoWorld demoSession = Some (Some h', w', out) /\ framed demoFree demoWorld w' /\
    exists req datas rest, session_of demoSession = Some (req, datas, rest) /\
      loop_end 10 demoFree 1 (fun _ => false) demoEnv 0 req [] datas rest (Start NewAioUploadServerHandler req) demoWorld h' w' out.
Proof.
  destruct (RequestChannel_session 10 demoFree 1 (fun _ => false)) with (e := demoEnv) (w := demoWorld) (payloads := demoSession)
    as (o & w' & out & E & Hf & Ho);
    [vm_compute; reflexivity|lia|vm_compute; congruence|reflexivity|repeat first [lia|constructor]|vm_compute; reflexivity
    |exact (proj1 demoWorld_ok)|exact (proj2 demoWorld_ok)|].
  destruct o as [h'|].
  - exists h', w', out. split; [exact E|]. split; [exact Hf|]. destruct Ho as (req & datas & rest & H1 & _ & H2). exists req, datas, rest. split; [exact H1|exact H2].
  - exfalso. destruct Ho as [_ [[H1 _]|(_ & _ & [H1|(req & datas & rest & _ & H1 & _)])]]; discriminate H1.
Defined.
