(* ===== verification/GoAio.v ===== *)
(** * Linux AIO

    [internal/third_party/goaio/aio.go] and [aioPro.go]: control-block slots,
    the slot semaphore, submission and completion.

    A control block is identified by its index in [cbp] (the code uses its
    address).  A critical section of [dmtx] is one function on the state; the
    answers of the system calls are arguments.  Go's iteration order over
    [avail] is arbitrary, so [getNextReady] takes the choice as an argument. *)

From stdpp Require Import base decidable list numbers option gmap.
From Stdlib Require Import ZArith Lia.
From S2P Require Import Prelude Words Bytes.

Definition maxQueueDepth : Z := 1024.
Definition defaultQueueDepth : Z := 16.
Definition defaultPriority : Z := 1.

Definition iocb_cmd_pread : Z := 0.
Definition iocb_cmd_pwrite : Z := 1.

Definition EINTR : Z := 4.

Inductive aio_error :=
  | ErrInitFail | ErrNotInit | ErrIoSubFail | ErrInvalidBuffer | ErrWaitAllFailed
  | ErrNilCallback | ErrUntrackedEventKey | ErrInvalidEventPtr | ErrCompletion | ErrWhatTheHell
  | ErrNotFound | ErrNotDone | ErrInvalidQueueDepth | ErrShortWrite | ErrClosed
  | ErrStat (errno : Z)
  | ErrLookup (errno : Z)   (** [errLookup] of a system call's error *)
  | ErrNo (res : Z).        (** [lookupErrNo] of a request's result *)

(** ** State *)

Record aiocb := mkAiocb { cb_opcode : Z; cb_buffer : bytes; cb_nbytes : Z; cb_offset : Z }.

Record event := mkEvent { ev_cb : option nat; ev_res : Z }.

(** Channels are identified by a number. *)
Record activeEvent := mkActiveEvent {
  ae_data : bytes; ae_written : Z; ae_cb : nat; ae_id : Z; ae_doneCh : option nat }.

Record Completion := mkCompletion { comp_N : Z; comp_Err : option aio_error }.

Record requestState := mkRequestState { rs_cbKey : nat; rs_done : bool; rs_err : option aio_error; rs_byteCount : Z }.

(** [aio_open] is [ctx != 0 && f != nil]; [slotSem] is the number of tokens in
    the semaphore channel and [depth] its capacity, [len(cbp)] and
    [len(evt)]. *)
Record AIO := mkAIO {
  aio_open : bool;
  depth : Z;
  cbp : gmap nat aiocb;
  aio_end : Z;
  active : gmap nat activeEvent;
  avail : gset nat;
  requests : gmap Z requestState;
  reqId : Z;
  slotSem : Z;
}.

Definition set_open (a : AIO) (v : bool) : AIO :=
  mkAIO v (depth a) (cbp a) (aio_end a) (active a) (avail a) (requests a) (reqId a) (slotSem a).
Definition set_cbp (a : AIO) (v : gmap nat aiocb) : AIO :=
  mkAIO (aio_open a) (depth a) v (aio_end a) (active a) (avail a) (requests a) (reqId a) (slotSem a).
Definition set_end (a : AIO) (v : Z) : AIO :=
  mkAIO (aio_open a) (depth a) (cbp a) v (active a) (avail a) (requests a) (reqId a) (slotSem a).
Definition set_active (a : AIO) (v : gmap nat activeEvent) : AIO :=
  mkAIO (aio_open a) (depth a) (cbp a) (aio_end a) v (avail a) (requests a) (reqId a) (slotSem a).
Definition set_avail (a : AIO) (v : gset nat) : AIO :=
  mkAIO (aio_open a) (depth a) (cbp a) (aio_end a) (active a) v (requests a) (reqId a) (slotSem a).
Definition set_requests (a : AIO) (v : gmap Z requestState) : AIO :=
  mkAIO (aio_open a) (depth a) (cbp a) (aio_end a) (active a) (avail a) v (reqId a) (slotSem a).
Definition set_reqId (a : AIO) (v : Z) : AIO :=
  mkAIO (aio_open a) (depth a) (cbp a) (aio_end a) (active a) (avail a) (requests a) v (slotSem a).
Definition set_slotSem (a : AIO) (v : Z) : AIO :=
  mkAIO (aio_open a) (depth a) (cbp a) (aio_end a) (active a) (avail a) (requests a) (reqId a) v.

(** ** Opening *)

Definition fixupConfig (queueDepth : Z) : aio_error + Z :=
  let d := if queueDepth <=? 0 then defaultQueueDepth else queueDepth in
  if maxQueueDepth <? d then inl ErrInvalidQueueDepth else inr d.

(** [stat] is the size [Stat] reports or its error, [errno] what [io_setup]
    answers. *)
Definition New (queueDepth : Z) (stat : Z + Z) (errno : Z) : aio_error + AIO :=
  match fixupConfig queueDepth with
  | inl e => inl e
  | inr d =>
      match stat with
      | inl e => inl (ErrStat e)
      | inr size =>
          if negb (errno =? 0) then inl ErrInitFail
          else
            let slots := seq 0 (Z.to_nat d) in
            inr (mkAIO true d (list_to_map (map (fun i => (i, mkAiocb 0 [] 0 0)) slots)) size ∅ (list_to_set slots) ∅ 1 d)
      end
  end.

(** ** Slots *)

(** A send to a full semaphore is dropped. *)
Definition releaseSlot (a : AIO) : AIO :=
  if slotSem a <? depth a then set_slotSem a (slotSem a + 1) else a.

(** [<-a.slotSem]; [None] blocks. *)
Definition acquireSlot (a : AIO) : option AIO :=
  if 0 <? slotSem a then Some (set_slotSem a (slotSem a - 1)) else None.

(** The rest of [getNextReady]; [choice] is the first key of the range loop,
    [None] when [avail] is empty. *)
Definition takeSlot (a : AIO) (choice : option nat) : AIO * (aio_error + nat) :=
  match choice with
  | Some cb => (set_avail a (avail a ∖ {[cb]}), inr cb)
  | None => (releaseSlot a, inl ErrWhatTheHell)
  end.

(** What the range loop may choose. *)
Definition may_choose (a : AIO) (choice : option nat) : Prop :=
  match choice with Some cb => cb ∈ avail a | None => avail a = ∅ end.

(** ** Submission *)

(** [submit]: [x] and [errno] are the results of [io_submit]. *)
Definition submit (x errno : Z) : option aio_error :=
  if negb (errno =? 0) then Some (ErrLookup errno)
  else if negb (x =? 1) then Some ErrIoSubFail
  else None.

(** Filling the control block, before the lock is taken. *)
Definition fillSlot (a : AIO) (cb : nat) (opcode : Z) (b : bytes) (offset : Z) : AIO :=
  set_cbp a (<[cb := mkAiocb opcode b (zlen b) offset]> (cbp a)).

Definition giveBack (a : AIO) (cb : nat) : AIO := releaseSlot (set_avail a (avail a ∪ {[cb]})).

(** The locked part of [WriteAtNotify]. *)
Definition notifyLocked (a : AIO) (cb : nat) (b : bytes) (offset : Z) (doneCh : nat) (x errno : Z) : AIO * option aio_error :=
  match submit x errno with
  | Some e => (giveBack a cb, Some e)
  | None =>
      let a := set_active a (<[cb := mkActiveEvent b 0 cb 0 (Some doneCh)]> (active a)) in
      let newEnd := i64 (offset + zlen b) in
      (if aio_end a <? newEnd then set_end a newEnd else a, None)
  end.

(** Registering a request with an id, the locked part of [writeAt] and
    [ReadAt] up to the file size. *)
Definition registerLocked (a : AIO) (cb : nat) (b : bytes) (x errno : Z) : AIO * (aio_error + Z) :=
  match submit x errno with
  | Some e => (giveBack a cb, inl e)
  | None =>
      let id := u64 (reqId a + 1) in
      let a := set_reqId a id in
      let a := set_active a (<[cb := mkActiveEvent b 0 cb id None]> (active a)) in
      (set_requests a (<[id := mkRequestState cb false None 0]> (requests a)), inr id)
  end.

Definition writeAtLocked (a : AIO) (cb : nat) (b : bytes) (offset : Z) (x errno : Z) : AIO * (aio_error + Z) :=
  let '(a, r) := registerLocked a cb b x errno in
  match r with
  | inl e => (a, inl e)
  | inr id => (if aio_end a <? i64 (offset + zlen b) then set_end a (i64 (aio_end a + zlen b)) else a, inr id)
  end.

(** The whole calls, when nothing happens between their sections; [None]
    blocks on the semaphore. *)
Definition WriteAtNotify (a : AIO) (b : bytes) (offset : Z) (doneCh : nat) (choice : AIO -> option nat) (x errno : Z)
    : option (AIO * option aio_error) :=
  if zlen b <=? 0 then Some (a, Some ErrInvalidBuffer)
  else
    a ← acquireSlot a;
    let '(a, r) := takeSlot a (choice a) in
    match r with
    | inl e => Some (a, Some e)
    | inr cb => Some (notifyLocked (fillSlot a cb iocb_cmd_pwrite b offset) cb b offset doneCh x errno)
    end.

Definition writeAt (a : AIO) (b : bytes) (offset : Z) (choice : AIO -> option nat) (x errno : Z) : option (AIO * (aio_error + Z)) :=
  if zlen b <=? 0 then Some (a, inl ErrInvalidBuffer)
  else
    a ← acquireSlot a;
    let '(a, r) := takeSlot a (choice a) in
    match r with
    | inl e => Some (a, inl e)
    | inr cb => Some (writeAtLocked (fillSlot a cb iocb_cmd_pwrite b offset) cb b offset x errno)
    end.

Definition Write (a : AIO) (b : bytes) (choice : AIO -> option nat) (x errno : Z) : option (AIO * (aio_error + Z)) :=
  writeAt a b (aio_end a) choice x errno.

Definition WriteAt (a : AIO) (b : bytes) (offset : Z) (choice : AIO -> option nat) (x errno : Z) : option (AIO * (aio_error + Z)) :=
  '(a, r) ← writeAt a b offset choice x errno;
  match r with
  | inl e => Some (a, inl e)
  | inr id => Some (if aio_end a <? i64 (offset + zlen b) then set_end a (i64 (offset + zlen b)) else a, inr id)
  end.

Definition ReadAt (a : AIO) (b : bytes) (offset : Z) (choice : AIO -> option nat) (x errno : Z) : option (AIO * (aio_error + Z)) :=
  if zlen b <=? 0 then Some (a, inl ErrInvalidBuffer)
  else
    a ← acquireSlot a;
    let '(a, r) := takeSlot a (choice a) in
    match r with
    | inl e => Some (a, inl e)
    | inr cb => Some (registerLocked (fillSlot a cb iocb_cmd_pread b offset) cb b x errno)
    end.

(** ** Completion with a channel *)

Record notifyResult := mkNotifyResult { nr_ch : option nat; nr_res : Completion }.

(** [cb.buffer = nil] and the slot goes back. *)
Definition finishEventLocked (a : AIO) (ae : activeEvent) (cb : nat) (err : option aio_error) : AIO * notifyResult :=
  let a := set_active a (delete cb (active a)) in
  let a := set_cbp a (alter (fun c => mkAiocb (cb_opcode c) [] (cb_nbytes c) (cb_offset c)) cb (cbp a)) in
  (giveBack a cb, mkNotifyResult (ae_doneCh ae) (mkCompletion (i64 (ae_written ae)) err)).

Definition verifyResultPro (a : AIO) (evnt : event) : AIO * (aio_error + notifyResult) :=
  match ev_cb evnt with
  | None => (a, inl ErrNilCallback)
  | Some cb =>
      match active a !! cb with
      | None => (a, inl ErrUntrackedEventKey)
      | Some ae =>
          if negb (Nat.eqb (ae_cb ae) cb) then (a, inl ErrInvalidEventPtr)
          else if ev_res evnt <? 0 then
            let '(a, nr) := finishEventLocked a ae cb (Some (ErrNo (ev_res evnt))) in (a, inr nr)
          else
            let ae := mkActiveEvent (ae_data ae) (u64 (ae_written ae + u64 (ev_res evnt))) (ae_cb ae) (ae_id ae) (ae_doneCh ae) in
            let err := if negb (ae_written ae =? zlen (ae_data ae)) then Some ErrShortWrite else None in
            let '(a, nr) := finishEventLocked a ae cb err in (a, inr nr)
      end
  end.

(** The loop over the events: the results to send, or the error that ends it
    together with the number of results collected so far. *)
Fixpoint collectNotifies (a : AIO) (evs : list event) (notifies : list (nat * Completion))
    : AIO * (aio_error * Z + list (nat * Completion)) :=
  match evs with
  | [] => (a, inr notifies)
  | e :: evs =>
      let '(a, r) := verifyResultPro a e in
      match r with
      | inl err => (a, inl (err, zlen notifies))
      | inr nr =>
          collectNotifies a evs (match nr_ch nr with Some ch => notifies ++ [(ch, nr_res nr)] | None => notifies end)
      end
  end.

(** One answer of [io_getevents]: an error number or the events. *)
Definition geteventsAnswer : Type := Z + list event.

(** The kernel's answers to the repeated calls; [None] when they end while
    the loop goes on.  The result: the state, what was sent, the count and the
    error. *)
Fixpoint WaitAnyNotify (a : AIO) (answers : list geteventsAnswer) : option (AIO * list (nat * Completion) * (Z * option aio_error)) :=
  match answers with
  | [] => None
  | inl errno :: answers =>
      if errno =? EINTR then WaitAnyNotify a answers else Some (a, [], (0, Some (ErrLookup errno)))
  | inr [] :: _ => Some (a, [], (0, None))
  | inr evs :: _ =>
      let '(a, r) := collectNotifies a evs [] in
      match r with
      | inl (err, n) => Some (a, [], (n, Some err))
      | inr notifies => Some (a, notifies, (zlen notifies, None))
      end
  end.

(** ** Completion with a request id *)

Definition freeEvent (a : AIO) (ae : activeEvent) (cb : nat) (errno : Z) : AIO * option aio_error :=
  let a := set_active a (delete cb (active a)) in
  let a := set_avail a (avail a ∪ {[cb]}) in
  match requests a !! ae_id ae with
  | None => (a, Some ErrNotFound)
  | Some r =>
      let r := mkRequestState (rs_cbKey r) true (if errno <? 0 then Some (ErrNo errno) else rs_err r) (i64 (ae_written ae)) in
      (releaseSlot (set_requests a (<[ae_id ae := r]> (requests a))), None)
  end.

(** [completed] has room for [cap] ids; the code counts beyond that. *)
Definition verifyResult (a : AIO) (evnt : event) (compLen cap : Z) (completed : list Z)
    : AIO * (Z * list Z * option aio_error) :=
  match ev_cb evnt with
  | None => (a, (compLen, completed, Some ErrNilCallback))
  | Some cb =>
      match active a !! cb with
      | None => (a, (compLen, completed, Some ErrUntrackedEventKey))
      | Some ae =>
          if negb (Nat.eqb (ae_cb ae) cb) then (a, (compLen, completed, Some ErrInvalidEventPtr))
          else if ev_res evnt <? 0 then
            let '(a, e) := freeEvent a ae cb (ev_res evnt) in (a, (compLen, completed, e))
          else if negb (zlen (ae_data ae) =? u64 (u64 (ev_res evnt) + ae_written ae)) then
            (a, (compLen, completed, Some ErrShortWrite))
          else
            let ae := mkActiveEvent (ae_data ae) (u64 (ae_written ae + u64 (ev_res evnt))) (ae_cb ae) (ae_id ae) (ae_doneCh ae) in
            let completed := if compLen <? cap then completed ++ [ae_id ae] else completed in
            let '(a, e) := freeEvent a ae cb 0 in (a, (compLen + 1, completed, e))
      end
  end.

(** The loop over the events of [wait]: the first error is remembered. *)
Fixpoint verifyAll (a : AIO) (evs : list event) (compLen cap : Z) (completed : list Z) (err : option aio_error)
    : AIO * (Z * list Z * option aio_error) :=
  match evs with
  | [] => (a, (compLen, completed, err))
  | e :: evs =>
      let '(a, (compLen, completed, e')) := verifyResult a e compLen cap completed in
      verifyAll a evs compLen cap completed (match err with None => e' | _ => err end)
  end.

Fixpoint wait (a : AIO) (cap : Z) (answers : list geteventsAnswer) : option (AIO * (Z * list Z * option aio_error)) :=
  if decide (active a = ∅) then Some (a, (0, [], None))
  else
    match answers with
    | [] => None
    | inl errno :: answers =>
        if errno =? EINTR then wait a cap answers else Some (a, (0, [], Some (ErrLookup errno)))
    | inr [] :: _ => Some (a, (0, [], None))
    | inr evs :: _ =>
        if Z.of_nat (size (active a)) <? zlen evs then Some (a, (0, [], Some ErrWaitAllFailed))
        else Some (verifyAll a evs 0 cap [] None)
    end.

Definition Ready (a : AIO) : bool := negb (Z.of_nat (size (active a)) =? depth a).

Definition idDone (a : AIO) (id : Z) : aio_error + bool :=
  match requests a !! id with None => inl ErrNotFound | Some r => inr (rs_done r) end.

Definition ack (a : AIO) (id : Z) : AIO * (Z * option aio_error) :=
  match requests a !! id with
  | None => (a, (0, Some ErrNotFound))
  | Some st =>
      if rs_done st then (set_requests a (delete id (requests a)), (rs_byteCount st, rs_err st))
      else (a, (0, Some ErrNotDone))
  end.

(** ** Closing *)

(** The loop over [active], in some order; the channels that are told.  The
    send does not block, and it succeeds: every channel has room for the one
    completion it gets. *)
Fixpoint closeEvents (a : AIO) (evs : list (nat * activeEvent)) (told : list (nat * Completion)) : AIO * list (nat * Completion) :=
  match evs with
  | [] => (a, told)
  | (cb, ae) :: evs =>
      let a := giveBack (set_active a (delete cb (active a))) cb in
      closeEvents a evs
        (match ae_doneCh ae with Some ch => told ++ [(ch, mkCompletion (i64 (ae_written ae)) (Some ErrClosed))] | None => told end)
  end.

(** [destroyErrno] and [closeErr] are what [io_destroy] and closing the file
    answer. *)
Definition Close (a : AIO) (destroyErrno : Z) (closeErr : option aio_error) : AIO * list (nat * Completion) * option aio_error :=
  if negb (aio_open a) then (a, [], Some ErrNotInit)
  else
    let '(a, told) := closeEvents (set_open a false) (map_to_list (active a)) [] in
    (a, told, if negb (destroyErrno =? 0) then Some (ErrLookup destroyErrno) else closeErr).

(** ** The blocking operations on top *)

(** [rounds] are the kernel's answers to each call of [wait]. *)
Fixpoint waitAll (a : AIO) (rounds : list (list geteventsAnswer)) : option (AIO * option aio_error) :=
  if decide (active a = ∅) then Some (a, None)
  else
    match rounds with
    | [] => None
    | answers :: rounds =>
        '(a, (_, _, e)) ← wait a 0 answers;
        match e with Some err => Some (a, Some err) | None => waitAll a rounds end
    end.

Fixpoint WaitFor (a : AIO) (id : Z) (rounds : list (list geteventsAnswer)) : option (AIO * (Z * option aio_error)) :=
  match idDone a id with
  | inl e => Some (a, (0, Some e))
  | inr true => Some (ack a id)
  | inr false =>
      match rounds with
      | [] => None
      | answers :: rounds =>
          '(a, (_, _, e)) ← wait a 0 answers;
          match e with Some err => Some (a, (0, Some err)) | None => WaitFor a id rounds end
      end
  end.

(** [WaitAnyBlock] asks the kernel even with nothing in flight, and compares
    the number of events with the room for them. *)
Fixpoint WaitAnyBlock (a : AIO) (cap : Z) (answers : list geteventsAnswer) : option (AIO * (Z * list Z * option aio_error)) :=
  match answers with
  | [] => None
  | inl errno :: answers =>
      if errno =? EINTR then WaitAnyBlock a cap answers else Some (a, (0, [], Some (ErrLookup errno)))
  | inr [] :: _ => Some (a, (0, [], None))
  | inr evs :: _ =>
      if depth a <? zlen evs then Some (a, (0, [], Some ErrWaitAllFailed)) else Some (verifyAll a evs 0 cap [] None)
  end.

(** [WaitAny]: [cap] is the length of the caller's buffer. *)
Definition WaitAny (a : AIO) (cap : Z) (answers : list geteventsAnswer) : option (AIO * (Z * list Z * option aio_error)) :=
  if decide (active a = ∅) then Some (a, (0, [], None)) else wait a cap answers.

Definition Wait (a : AIO) (answers : list geteventsAnswer) : option (AIO * option aio_error) :=
  if decide (avail a = ∅) then '(a, (_, _, e)) ← wait a 0 answers; Some (a, e)
  else Some (a, None).

(** [syncErr] is what [fsync] answers. *)
Definition Flush (a : AIO) (rounds : list (list geteventsAnswer)) (syncErr : option aio_error) : option (AIO * option aio_error) :=
  '(a, e) ← waitAll a rounds;
  match e with Some err => Some (a, Some err) | None => Some (a, syncErr) end.

(** [truncErr] is what truncating the file answers. *)
Definition Truncate (a : AIO) (rounds : list (list geteventsAnswer)) (truncErr : option aio_error) : option (AIO * option aio_error) :=
  '(a, e) ← waitAll a rounds;
  match e with Some err => Some (a, Some err) | None => Some (a, truncErr) end.
