(* ===== verification/GoAioThms.v ===== *)
(** * Theorems of the AIO layer

    The channel-based half of the library, as the write channel uses it: any
    number of writers, the kernel, and the completion loop, interleaved at the
    granularity of the critical sections. *)

From stdpp Require Import base decidable list numbers option gmap relations.
From Stdlib Require Import ZArith Lia.
From S2P Require Import Prelude Words Bytes GoAio.

(** ** The system *)

(** A call of [WriteAtNotify] that holds a token, and a control block once it
    took one.  Every call has a channel of its own. *)
Record thread := mkThread { th_ch : nat; th_cb : option nat; th_data : bytes; th_off : Z }.

(** [WaitAnyNotify]: waiting for the kernel, looking at events, sending. *)
Inductive loopState :=
  | LIdle
  | LVerify (evs : list event) (notifies : list (nat * Completion))
  | LSend (notifies : list (nat * Completion)).

(** [s_kernel] are the control blocks the kernel works on, [s_calls] the
    channels of all calls so far, [s_sent] what arrived on the channels,
    [s_failed] the calls that returned an error. *)
Record sys := mkSys {
  s_aio : AIO; s_kernel : list nat; s_threads : list thread; s_loop : loopState;
  s_sent : list (nat * Completion); s_failed : list nat; s_calls : list nat }.

Definition mkEvents (evs : list (nat * Z)) : list event := map (fun e => mkEvent (Some e.1) e.2) evs.

Inductive aio_step : sys -> sys -> Prop :=
  | aio_call a a' k ts l sent failed calls ch data off :
      ch ∉ calls -> 0 < zlen data < 2 ^ 63 -> acquireSlot a = Some a' ->
      aio_step (mkSys a k ts l sent failed calls)
               (mkSys a' k (ts ++ [mkThread ch None data off]) l sent failed (ch :: calls))
  | aio_take a a' k ts1 ts2 l sent failed calls ch data off choice cb :
      may_choose a choice -> takeSlot a choice = (a', inr cb) ->
      aio_step (mkSys a k (ts1 ++ mkThread ch None data off :: ts2) l sent failed calls)
               (mkSys a' k (ts1 ++ mkThread ch (Some cb) data off :: ts2) l sent failed calls)
  | aio_take_failed a a' k ts1 ts2 l sent failed calls ch data off choice e :
      may_choose a choice -> takeSlot a choice = (a', inl e) ->
      aio_step (mkSys a k (ts1 ++ mkThread ch None data off :: ts2) l sent failed calls)
               (mkSys a' k (ts1 ++ ts2) l sent (ch :: failed) calls)
  | aio_submit a a' k ts1 ts2 l sent failed calls ch cb data off :
      aio_open a = true -> notifyLocked (fillSlot a cb iocb_cmd_pwrite data off) cb data off ch 1 0 = (a', None) ->
      aio_step (mkSys a k (ts1 ++ mkThread ch (Some cb) data off :: ts2) l sent failed calls)
               (mkSys a' (k ++ [cb]) (ts1 ++ ts2) l sent failed calls)
  | aio_submit_failed a a' k ts1 ts2 l sent failed calls ch cb data off x errno e :
      notifyLocked (fillSlot a cb iocb_cmd_pwrite data off) cb data off ch x errno = (a', Some e) ->
      aio_step (mkSys a k (ts1 ++ mkThread ch (Some cb) data off :: ts2) l sent failed calls)
               (mkSys a' k (ts1 ++ ts2) l sent (ch :: failed) calls)
  | aio_getevents a k k' ts sent failed calls evs :
      aio_open a = true -> k ≡ₚ map fst evs ++ k' -> evs <> [] -> Forall (fun e => is_i64 e.2) evs ->
      aio_step (mkSys a k ts LIdle sent failed calls)
               (mkSys a k' ts (LVerify (mkEvents evs) []) sent failed calls)
  | aio_verify a a' k ts sent failed calls e evs ns nr :
      verifyResultPro a e = (a', inr nr) ->
      aio_step (mkSys a k ts (LVerify (e :: evs) ns) sent failed calls)
               (mkSys a' k ts (LVerify evs (match nr_ch nr with Some ch => ns ++ [(ch, nr_res nr)] | None => ns end)) sent failed calls)
  | aio_verify_failed a a' k ts sent failed calls e evs ns err :
      verifyResultPro a e = (a', inl err) ->
      aio_step (mkSys a k ts (LVerify (e :: evs) ns) sent failed calls)
               (mkSys a' k ts LIdle sent failed calls)
  | aio_verified a k ts sent failed calls ns :
      aio_step (mkSys a k ts (LVerify [] ns) sent failed calls) (mkSys a k ts (LSend ns) sent failed calls)
  | aio_send a k ts sent failed calls ch c ns :
      aio_step (mkSys a k ts (LSend ((ch, c) :: ns)) sent failed calls)
               (mkSys a k ts (LSend ns) (sent ++ [(ch, c)]) failed calls)
  | aio_sent a k ts sent failed calls :
      aio_step (mkSys a k ts (LSend []) sent failed calls) (mkSys a k ts LIdle sent failed calls)
  | aio_close a a' k ts sent failed calls told destroyErrno closeErr err :
      aio_open a = true -> Close a destroyErrno closeErr = (a', told, err) ->
      aio_step (mkSys a k ts LIdle sent failed calls)
               (mkSys a' [] ts LIdle (sent ++ told) failed calls).

(** ** The invariant *)

Definition held (ts : list thread) : list nat := omap th_cb ts.
Definition waiting (ts : list thread) : nat := length (filter (fun t => th_cb t = None) ts).
Definition slots_of (a : AIO) : list nat := map fst (map_to_list (active a)).
Definition channels_of (a : AIO) : list nat := omap (fun e => ae_doneCh e.2) (map_to_list (active a)).
Definition pending_events (l : loopState) : list event := match l with LVerify evs _ => evs | _ => [] end.
Definition pending_results (l : loopState) : list (nat * Completion) :=
  match l with LIdle => [] | LVerify _ ns | LSend ns => ns end.

Record aio_inv (s : sys) : Prop := {
  ai_depth : 0 <= depth (s_aio s);
  (** every control block is available, active or with one thread *)
  ai_slots : elements (avail (s_aio s)) ++ slots_of (s_aio s) ++ held (s_threads s) ≡ₚ seq 0 (Z.to_nat (depth (s_aio s)));
  (** one token per available control block that no thread has claimed *)
  ai_tokens : slotSem (s_aio s) + Z.of_nat (waiting (s_threads s)) = Z.of_nat (length (elements (avail (s_aio s))));
  ai_sem : 0 <= slotSem (s_aio s);
  (** the kernel works on, or has reported, exactly the active ones *)
  ai_kernel : map Some (s_kernel s) ++ map ev_cb (pending_events (s_loop s)) ≡ₚ map Some (slots_of (s_aio s));
  ai_active : map_Forall (fun cb ae => ae_cb ae = cb /\ ae_written ae = 0 /\ 0 < zlen (ae_data ae) < 2 ^ 63 /\ ae_doneCh ae <> None)
    (active (s_aio s));
  ai_events : Forall (fun e => is_i64 (ev_res e)) (pending_events (s_loop s));
  ai_data : Forall (fun t => 0 < zlen (th_data t) < 2 ^ 63) (s_threads s);
  (** every call is in exactly one place *)
  ai_calls : map th_ch (s_threads s) ++ channels_of (s_aio s) ++ map fst (pending_results (s_loop s)) ++ map fst (s_sent s) ++ s_failed s
    ≡ₚ s_calls s;
  ai_nodup : NoDup (s_calls s);
}.

Lemma held_app ts ts' : held (ts ++ ts') = held ts ++ held ts'.
Proof. apply omap_app. Qed.

Lemma waiting_app ts ts' : waiting (ts ++ ts') = (waiting ts + waiting ts')%nat.
Proof. unfold waiting. by rewrite filter_app, length_app. Qed.

Lemma waiting_cons t ts : waiting (t :: ts) = (match th_cb t with Some _ => 0 | None => 1 end + waiting ts)%nat.
Proof. unfold waiting. rewrite filter_cons. destruct (th_cb t); simpl; done. Qed.

(** *** Effects on the lists of the invariant *)

Lemma active_insert a cb ae ch :
  active a !! cb = None -> ae_doneCh ae = Some ch ->
  slots_of (set_active a (<[cb := ae]> (active a))) ≡ₚ cb :: slots_of a /\
  channels_of (set_active a (<[cb := ae]> (active a))) ≡ₚ ch :: channels_of a.
Proof.
  intros Hn Hc. unfold slots_of, channels_of. cbn [active set_active].
  rewrite (map_to_list_insert (active a) cb ae Hn). split; [done|]. cbn [omap list_omap]. simpl. by rewrite Hc.
Qed.

Lemma active_delete (m : gmap nat activeEvent) cb ae ch :
  m !! cb = Some ae -> ae_doneCh ae = Some ch ->
  map fst (map_to_list m) ≡ₚ cb :: map fst (map_to_list (delete cb m)) /\
  omap (fun e => ae_doneCh e.2) (map_to_list m) ≡ₚ ch :: omap (fun e => ae_doneCh e.2) (map_to_list (delete cb m)).
Proof.
  intros Hl Hc. rewrite <- (map_to_list_delete m cb ae Hl). split; [done|]. cbn [omap list_omap]. simpl. by rewrite Hc.
Qed.

Lemma slots_of_lookup a cb : cb ∈ slots_of a <-> is_Some (active a !! cb).
Proof.
  unfold slots_of. rewrite list_elem_of_fmap. split.
  - intros ([cb' ae] & -> & Hin). apply elem_of_map_to_list in Hin. by eexists.
  - intros [ae Hl]. exists (cb, ae). split; [done|]. by apply elem_of_map_to_list.
Qed.

Lemma avail_take a cb : cb ∈ avail a -> elements (avail a) ≡ₚ cb :: elements (avail a ∖ {[cb]}).
Proof.
  intros Hin. rewrite <- elements_union_singleton by set_solver. apply elements_proper. intros x. destruct (decide (x = cb)); set_solver.
Qed.

Lemma avail_put a cb : cb ∉ avail a -> elements (avail a ∪ {[cb]}) ≡ₚ cb :: elements (avail a).
Proof. intros Hin. rewrite (comm_L (∪)). by apply elements_union_singleton. Qed.

(** A slot with a thread or in flight is not available, and the semaphore is
    then not full. *)
Lemma slots_disjoint s cb rest :
  aio_inv s -> slots_of (s_aio s) ++ held (s_threads s) ≡ₚ cb :: rest ->
  cb ∉ avail (s_aio s) /\ slotSem (s_aio s) < depth (s_aio s).
Proof.
  intros I HP. pose proof (ai_slots _ I) as Hs. rewrite HP in Hs.
  assert (HN : NoDup (elements (avail (s_aio s)) ++ cb :: rest)) by (rewrite Hs; apply NoDup_seq).
  apply NoDup_app in HN as (_ & HN & _). split.
  - intros Hin. apply elem_of_elements in Hin. apply (HN cb Hin). left.
  - pose proof (Permutation_length Hs) as Hl. rewrite length_app, length_seq in Hl. simpl in Hl.
    pose proof (ai_tokens _ I). pose proof (ai_depth _ I). lia.
Qed.

Lemma giveBack_spec a cb :
  cb ∉ avail a -> slotSem a < depth a ->
  giveBack a cb = set_slotSem (set_avail a (avail a ∪ {[cb]})) (slotSem a + 1).
Proof.
  intros _ Hs. unfold giveBack, releaseSlot. cbn [slotSem depth set_avail]. by rewrite (proj2 (Z.ltb_lt _ _) Hs).
Qed.

(** ** Completions *)

(** What a caller is told about a request of [data] with result [res]. *)
Definition completionOf (data : bytes) (res : Z) : Completion :=
  if res <? 0 then mkCompletion 0 (Some (ErrNo res))
  else mkCompletion res (if res =? zlen data then None else Some ErrShortWrite).

Lemma verifyResultPro_active a cb ae ch res :
  active a !! cb = Some ae -> ae_cb ae = cb -> ae_written ae = 0 -> ae_doneCh ae = Some ch ->
  0 < zlen (ae_data ae) < 2 ^ 63 -> is_i64 res -> cb ∉ avail a -> slotSem a < depth a ->
  exists a', verifyResultPro a (mkEvent (Some cb) res) = (a', inr (mkNotifyResult (Some ch) (completionOf (ae_data ae) res))) /\
    active a' = delete cb (active a) /\ avail a' = avail a ∪ {[cb]} /\ slotSem a' = slotSem a + 1 /\ depth a' = depth a /\
    aio_open a' = aio_open a.
Proof.
  intros Hl Hcb Hw Hch Hd Hr Hav Hs. unfold verifyResultPro, finishEventLocked. cbn [ev_cb ev_res].
  rewrite Hl, Hcb, Nat.eqb_refl. cbn [negb ae_data ae_written ae_doneCh]. unfold completionOf.
  assert (Hg : forall b : AIO, avail b = avail a -> slotSem b = slotSem a -> depth b = depth a ->
    giveBack b cb = set_slotSem (set_avail b (avail a ∪ {[cb]})) (slotSem a + 1))
    by (intros b E1 E2 E3; rewrite giveBack_spec; rewrite ?E1, ?E2, ?E3; done).
  destruct (res <? 0) eqn:En; bool_norm.
  - rewrite Hg by done. rewrite Hch, Hw. eexists. split; [done|]. by split_and!.
  - rewrite Hg by done. rewrite Hch, Hw, Z.add_0_l. unfold is_i64 in Hr. rewrite (u64_small res) by (unfold is_u64; lia).
    rewrite (u64_small res) by (unfold is_u64; lia). rewrite i64_small by done.
    eexists. split; [by destruct (res =? zlen (ae_data ae))|]. by split_and!.
Qed.

(** ** Preservation *)

Lemma inv_call a a' k ts l sent failed calls ch data off :
  aio_inv (mkSys a k ts l sent failed calls) -> ch ∉ calls -> 0 < zlen data < 2 ^ 63 -> acquireSlot a = Some a' ->
  aio_inv (mkSys a' k (ts ++ [mkThread ch None data off]) l sent failed (ch :: calls)).
Proof.
  intros [I0 I1 I2 I3 I4 I5 I6 I7 I8 I9] Hch Hd E. unfold acquireSlot in E. destruct (0 <? slotSem a) eqn:Es; [|done]. bool_norm.
  injection E as <-. split; simpl in *; try done.
  - rewrite held_app. simpl. by rewrite app_nil_r.
  - rewrite waiting_app, waiting_cons. simpl. unfold waiting in *. simpl. lia.
  - lia.
  - apply Forall_app. split; [done|]. by constructor.
  - rewrite map_app. simpl. rewrite <- I8. solve_Permutation.
  - by constructor.
Qed.

Lemma inv_take a k ts1 ts2 l sent failed calls ch data off cb :
  aio_inv (mkSys a k (ts1 ++ mkThread ch None data off :: ts2) l sent failed calls) -> cb ∈ avail a ->
  aio_inv (mkSys (set_avail a (avail a ∖ {[cb]})) k (ts1 ++ mkThread ch (Some cb) data off :: ts2) l sent failed calls).
Proof.
  intros [I0 I1 I2 I3 I4 I5 I6 I7 I8 I9] Hin. pose proof (avail_take a cb Hin) as Ha. split; simpl in *; try done.
  - unfold slots_of in *. cbn [active set_avail]. rewrite Ha in I1. rewrite held_app in *. simpl in *. rewrite <- I1. solve_Permutation.
  - rewrite Ha in I2. rewrite waiting_app, waiting_cons in *. simpl in *. lia.
  - apply Forall_app in I7 as [H1 H2]. apply Forall_app. split; [done|]. apply Forall_cons in H2 as [H2 H3]. by constructor.
  - rewrite map_app in *. simpl in *. exact I8.
Qed.

(** A thread gives its control block back. *)
Lemma inv_giveBack a k ts1 ts2 l sent failed calls ch data off cb c :
  aio_inv (mkSys a k (ts1 ++ mkThread ch (Some cb) data off :: ts2) l sent failed calls) ->
  aio_inv (mkSys (giveBack (set_cbp a c) cb) k (ts1 ++ ts2) l sent (ch :: failed) calls).
Proof.
  intros I. destruct (slots_disjoint _ cb (slots_of a ++ held ts1 ++ held ts2) I) as [Hav Hsem].
  { simpl. rewrite held_app. simpl. solve_Permutation. }
  rewrite giveBack_spec by done. destruct I as [I0 I1 I2 I3 I4 I5 I6 I7 I8 I9]. simpl in *.
  pose proof (avail_put a cb Hav) as Ha. split; simpl in *; try done.
  - rewrite Ha. unfold slots_of in *. cbn [active set_slotSem set_avail set_cbp]. rewrite held_app in *. simpl in *. rewrite <- I1. solve_Permutation.
  - rewrite Ha. rewrite waiting_app, ?waiting_cons in *. simpl in *. lia.
  - lia.
  - apply Forall_app in I7 as [H1 H2]. apply Forall_app. split; [done|]. by apply Forall_cons in H2 as [H2 H3].
  - rewrite map_app in *. simpl in *. rewrite <- I8. unfold channels_of. cbn [active set_slotSem set_avail set_cbp]. solve_Permutation.
Qed.

Lemma inv_submit a a' k ts1 ts2 l sent failed calls ch cb data off :
  aio_inv (mkSys a k (ts1 ++ mkThread ch (Some cb) data off :: ts2) l sent failed calls) ->
  notifyLocked (fillSlot a cb iocb_cmd_pwrite data off) cb data off ch 1 0 = (a', None) ->
  aio_inv (mkSys a' (k ++ [cb]) (ts1 ++ ts2) l sent failed calls).
Proof.
  intros I E. set (ae := mkActiveEvent data 0 cb 0 (Some ch)).
  assert (Hn : active a !! cb = None).
  { destruct (active a !! cb) as [x|] eqn:Ex; [|done]. exfalso. pose proof (ai_slots _ I) as Hs. simpl in Hs.
    assert (HN : NoDup (elements (avail a) ++ slots_of a ++ held (ts1 ++ mkThread ch (Some cb) data off :: ts2)))
      by (rewrite Hs; apply NoDup_seq).
    apply NoDup_app in HN as (_ & _ & HN). apply NoDup_app in HN as (_ & HN & _).
    apply (HN cb); [apply slots_of_lookup; by eexists|]. rewrite held_app. simpl. set_solver. }
  assert (Ha : active a' = <[cb := ae]> (active a) /\ avail a' = avail a /\ slotSem a' = slotSem a /\ depth a' = depth a).
  { unfold notifyLocked in E. simpl in E. destruct (aio_end a <? i64 (off + zlen data)); injection E as <-; done. }
  destruct Ha as (Ha & Hav & Hsem & Hdep). destruct I as [I0 I1 I2 I3 I4 I5 I6 I7 I8 I9]. simpl in *.
  destruct (active_insert a cb ae ch Hn eq_refl) as [HS HC]. unfold slots_of, channels_of in *. cbn [active set_active] in HS, HC.
  apply Forall_app in I7 as [H1 H2]. apply Forall_cons in H2 as [H2 H3]. cbn [th_data] in H2.
  split; simpl; unfold slots_of, channels_of; rewrite ?Ha, ?Hav, ?Hsem, ?Hdep; try done.
  - rewrite HS. rewrite held_app in *. simpl in *. rewrite <- I1. solve_Permutation.
  - rewrite waiting_app, ?waiting_cons in *. simpl in *. lia.
  - rewrite HS. rewrite map_app. simpl. rewrite <- I4. solve_Permutation.
  - apply map_Forall_insert_2; [|done]. split_and!; simpl; lia || done.
  - by apply Forall_app.
  - rewrite HC. rewrite map_app in *. simpl in *. rewrite <- I8. solve_Permutation.
Qed.

(** An event of the kernel is for an active control block: it is accepted, and
    the call it belongs to moves on. *)
Lemma inv_verify_ok a k ts sent failed calls e evs ns :
  aio_inv (mkSys a k ts (LVerify (e :: evs) ns) sent failed calls) ->
  exists cb ae ch a', e = mkEvent (Some cb) (ev_res e) /\ active a !! cb = Some ae /\ ae_doneCh ae = Some ch /\
    verifyResultPro a e = (a', inr (mkNotifyResult (Some ch) (completionOf (ae_data ae) (ev_res e)))) /\
    aio_open a' = aio_open a /\ aio_inv (mkSys a' k ts (LVerify evs (ns ++ [(ch, completionOf (ae_data ae) (ev_res e))])) sent failed calls).
Proof.
  intros I. pose proof (ai_kernel _ I) as Hk. simpl in Hk.
  assert (Hin : ev_cb e ∈ map Some (slots_of a)) by (rewrite <- Hk; apply elem_of_app; right; left).
  apply list_elem_of_fmap in Hin as (cb & Hcb & Hin). apply slots_of_lookup in Hin as [ae Hae].
  pose proof (ai_active _ I cb ae Hae) as (A1 & A2 & A3 & A4). destruct (ae_doneCh ae) as [ch|] eqn:Ech; [|done].
  destruct (active_delete (active a) cb ae ch Hae Ech) as [HS HC].
  destruct (slots_disjoint _ cb (map fst (map_to_list (delete cb (active a))) ++ held ts) I) as [Hav Hsem].
  { simpl. unfold slots_of. rewrite HS. done. }
  pose proof (ai_events _ I) as He. simpl in He. apply Forall_cons in He as [He Hes].
  assert (Hev : e = mkEvent (Some cb) (ev_res e)) by (destruct e; simpl in *; by subst).
  destruct (verifyResultPro_active a cb ae ch (ev_res e) Hae A1 A2 Ech A3 He Hav Hsem) as (a' & E & B1 & B2 & B3 & B4 & B5).
  rewrite <- Hev in E. exists cb, ae, ch, a'. do 5 (split; [done|]).
  destruct I as [I0 I1 I2 I3 I4 I5 I6 I7 I8 I9]. simpl in *. pose proof (avail_put a cb Hav) as Ha.
  unfold slots_of, channels_of in *. split; simpl; unfold slots_of, channels_of; rewrite ?B1, ?B2, ?B3, ?B4; try done.
  - rewrite Ha, <- I1, HS. solve_Permutation.
  - rewrite Ha. simpl in *. lia.
  - lia.
  - rewrite HS in Hk. simpl in Hk. rewrite Hcb in Hk. rewrite (comm (++)) in Hk. simpl in Hk. apply Permutation_cons_inv in Hk.
    rewrite <- Hk. solve_Permutation.
  - by apply map_Forall_delete.
  - rewrite map_app. simpl. rewrite <- I8, HC. solve_Permutation.
Qed.

Lemma inv_getevents a k k' ts sent failed calls evs :
  aio_inv (mkSys a k ts LIdle sent failed calls) -> k ≡ₚ map fst evs ++ k' -> Forall (fun e => is_i64 e.2) evs ->
  aio_inv (mkSys a k' ts (LVerify (mkEvents evs) []) sent failed calls).
Proof.
  intros [I0 I1 I2 I3 I4 I5 I6 I7 I8 I9] Hk He. split; simpl in *; try done.
  - rewrite app_nil_r in I4. rewrite <- I4, Hk. unfold mkEvents. rewrite map_map, map_app, map_map. simpl. solve_Permutation.
  - unfold mkEvents. apply Forall_map. exact He.
Qed.

(** The loop of [Close]: every active call is told. *)
Lemma closeEvents_spec evs a told :
  map_to_list (active a) ≡ₚ evs -> Forall (fun e => ae_doneCh e.2 <> None) evs ->
  NoDup (elements (avail a) ++ map fst evs) -> slotSem a + Z.of_nat (length evs) <= depth a ->
  exists a' told', closeEvents a evs told = (a', told ++ told') /\ active a' = ∅ /\
    elements (avail a') ≡ₚ elements (avail a) ++ map fst evs /\ slotSem a' = slotSem a + Z.of_nat (length evs) /\
    depth a' = depth a /\ map fst told' = omap (fun e => ae_doneCh e.2) evs.
Proof.
  revert a told. induction evs as [|[cb ae] evs IH]; intros a told Hm Hch Hnd Hs; cbn [closeEvents].
  { exists a, []. rewrite app_nil_r. split; [done|]. split; [by apply Permutation_nil_r, map_to_list_empty_iff in Hm|].
    simpl. rewrite app_nil_r. split_and!; done || lia. }
  apply Forall_cons in Hch as [Hc Hch]. simpl in Hc. destruct (ae_doneCh ae) as [ch|] eqn:Ech; [|done].
  assert (Hl : active a !! cb = Some ae) by (apply elem_of_map_to_list; rewrite Hm; left).
  assert (Hav : cb ∉ avail a).
  { intros Hin. apply NoDup_app in Hnd as (_ & Hnd & _). apply (Hnd cb); [by apply elem_of_elements|left]. }
  simpl in Hs. rewrite giveBack_spec by (simpl; done || lia).
  set (a1 := set_slotSem _ _).
  pose proof (avail_put a cb Hav) as Hput.
  destruct (IH a1 (told ++ [(ch, mkCompletion (i64 (ae_written ae)) (Some ErrClosed))])) as (a' & told' & E & B1 & B2 & B3 & B4 & B5).
  - simpl. rewrite <- (map_to_list_delete _ _ _ Hl) in Hm. by apply Permutation_cons_inv in Hm.
  - done.
  - cbn [avail a1 set_slotSem set_avail set_active]. rewrite Hput. cbn [app]. by rewrite Permutation_middle.
  - simpl. lia.
  - rewrite E. exists a', ((ch, mkCompletion (i64 (ae_written ae)) (Some ErrClosed)) :: told'). rewrite <- app_assoc. split; [done|].
    split; [done|]. split; [rewrite B2; cbn [avail a1 set_slotSem set_avail set_active]; rewrite Hput; simpl; by rewrite Permutation_middle|].
    split; [rewrite B3; simpl; lia|]. split; [done|]. simpl. by rewrite Ech, B5.
Qed.

Lemma inv_close a a' k ts sent failed calls told destroyErrno closeErr err :
  aio_inv (mkSys a k ts LIdle sent failed calls) -> aio_open a = true -> Close a destroyErrno closeErr = (a', told, err) ->
  aio_inv (mkSys a' [] ts LIdle (sent ++ told) failed calls).
Proof.
  intros [I0 I1 I2 I3 I4 I5 I6 I7 I8 I9] Ho E. simpl in *. unfold Close in E. rewrite Ho in E. cbn [negb] in E.
  assert (Hlen : (length (elements (avail a)) + length (slots_of a) + length (held ts) = Z.to_nat (depth a))%nat).
  { apply Permutation_length in I1. rewrite !length_app, length_seq in I1. lia. }
  destruct (closeEvents_spec (map_to_list (active a)) (set_open a false) []) as (a1 & told' & E1 & B1 & B2 & B3 & B4 & B5).
  - done.
  - apply Forall_forall. intros [cb ae] Hin. apply elem_of_map_to_list in Hin. by apply I5 in Hin as (_ & _ & _ & ?).
  - cbn [avail set_open]. assert (HN : NoDup (elements (avail a) ++ slots_of a ++ held ts)) by (rewrite I1; apply NoDup_seq).
    rewrite app_assoc in HN. by apply NoDup_app in HN as (HN & _).
  - cbn [slotSem depth set_open]. unfold slots_of in Hlen. rewrite length_map in Hlen. lia.
  - cbn [app] in E1. rewrite E1 in E. injection E as <- <- _. cbn [avail slotSem depth set_open] in *.
    split; simpl; unfold slots_of, channels_of; rewrite ?B1, ?map_to_list_empty, ?B4; try done.
    + rewrite B2. simpl. rewrite <- I1. unfold slots_of. solve_Permutation.
    + rewrite B2, B3, length_app. unfold slots_of in *. rewrite length_map in *. lia.
    + lia.
    + rewrite map_app, B5. rewrite <- I8. unfold channels_of. simpl. solve_Permutation.
Qed.

Lemma inv_take_total a k ts1 ts2 l sent failed calls ch data off choice :
  aio_inv (mkSys a k (ts1 ++ mkThread ch None data off :: ts2) l sent failed calls) -> may_choose a choice ->
  exists cb, choice = Some cb /\ cb ∈ avail a.
Proof.
  intros I Hc. destruct choice as [cb|]; [eauto|]. simpl in Hc. exfalso.
  pose proof (ai_tokens _ I) as Ht. pose proof (ai_sem _ I) as Hs. simpl in *. rewrite Hc, elements_empty in Ht.
  rewrite waiting_app, waiting_cons in Ht. simpl in Ht. lia.
Qed.

Lemma aio_step_inv s s' : aio_step s s' -> aio_inv s -> aio_inv s'.
Proof.
  intros HS I. destruct HS.
  - by eapply inv_call.
  - destruct (inv_take_total _ _ _ _ _ _ _ _ _ _ _ _ I H) as (cb' & -> & Hin). simpl in H0. injection H0 as <- <-. by apply inv_take.
  - destruct (inv_take_total _ _ _ _ _ _ _ _ _ _ _ _ I H) as (cb' & -> & Hin). simpl in H0. done.
  - by eapply inv_submit.
  - unfold notifyLocked in H. destruct (submit x errno); [|done]. injection H as <- _. by eapply inv_giveBack.
  - by eapply inv_getevents.
  - destruct (inv_verify_ok _ _ _ _ _ _ _ _ _ I) as (cb & ae & ch & a1 & _ & _ & _ & E & _ & I'). rewrite H in E. by injection E as -> ->.
  - destruct (inv_verify_ok _ _ _ _ _ _ _ _ _ I) as (cb & ae & ch & a1 & _ & _ & _ & E & _ & I'). by rewrite H in E.
  - destruct I as [I0 I1 I2 I3 I4 I5 I6 I7 I8 I9]. by split.
  - destruct I as [I0 I1 I2 I3 I4 I5 I6 I7 I8 I9]. split; simpl in *; try done. rewrite map_app. simpl. rewrite <- I8. solve_Permutation.
  - destruct I as [I0 I1 I2 I3 I4 I5 I6 I7 I8 I9]. by split.
  - by eapply inv_close.
Qed.

Definition aio_init (a : AIO) : sys := mkSys a [] [] LIdle [] [] [].

Lemma New_spec qd size a :
  New qd (inr size) 0 = inr a -> aio_open a = true /\ 0 < depth a <= maxQueueDepth /\ aio_inv (aio_init a).
Proof.
  unfold New, fixupConfig. set (d := if qd <=? 0 then defaultQueueDepth else qd).
  assert (Hd : 0 < d) by (unfold d, defaultQueueDepth; case_bool; lia).
  destruct (maxQueueDepth <? d) eqn:E; [done|]. bool_norm. cbn [negb Z.eqb]. intros H. injection H as <-.
  split; [done|]. split; [simpl; lia|]. split; simpl; try done; try lia.
  - unfold slots_of. simpl. rewrite map_to_list_empty. simpl. rewrite !app_nil_r. apply elements_list_to_set, NoDup_seq.
  - unfold waiting. simpl. rewrite (Permutation_length (elements_list_to_set (C := gset nat) _ (NoDup_seq 0 (Z.to_nat d)))), length_seq. lia.
  - constructor.
Qed.

Lemma aio_reachable qd size a s :
  New qd (inr size) 0 = inr a -> rtc aio_step (aio_init a) s -> aio_inv s.
Proof.
  intros H HR. apply New_spec in H as (_ & _ & H). revert H. induction HR as [|x y z Hxy _ IH]; [done|].
  intros H. apply IH. by eapply aio_step_inv.
Qed.

(** C38: The AIO layer neither loses nor duplicates a slot, a token or a
    completion.  In every state that writers, kernel, completion loop and
    [Close] can reach together: each control block is available, in flight or
    with one writer; the semaphore has one token per available block not yet
    claimed; each write call is exactly one of still submitting, in flight,
    collected, answered on its channel or failed, so no channel is sent to
    twice; a writer with a token always finds a control block; and every event
    the kernel reports is accepted and turned into the completion its result
    means. *)
Theorem aio_invariant qd size a0 s :
  New qd (inr size) 0 = inr a0 -> rtc aio_step (aio_init a0) s ->
  elements (avail (s_aio s)) ++ slots_of (s_aio s) ++ held (s_threads s) ≡ₚ seq 0 (Z.to_nat (depth (s_aio s))) /\
  slotSem (s_aio s) + Z.of_nat (waiting (s_threads s)) = Z.of_nat (length (elements (avail (s_aio s)))) /\
  (map th_ch (s_threads s) ++ channels_of (s_aio s) ++ map fst (pending_results (s_loop s)) ++ map fst (s_sent s) ++ s_failed s
     ≡ₚ s_calls s /\ NoDup (s_calls s)) /\
  (forall ts1 ch data off ts2 choice, s_threads s = ts1 ++ mkThread ch None data off :: ts2 -> may_choose (s_aio s) choice ->
     exists a' cb, takeSlot (s_aio s) choice = (a', inr cb)) /\
  (forall e evs ns, s_loop s = LVerify (e :: evs) ns ->
     exists cb ae ch a', e = mkEvent (Some cb) (ev_res e) /\ active (s_aio s) !! cb = Some ae /\ ae_doneCh ae = Some ch /\
       verifyResultPro (s_aio s) e = (a', inr (mkNotifyResult (Some ch) (completionOf (ae_data ae) (ev_res e))))).
Proof.
  intros H HR. pose proof (aio_reachable _ _ _ _ H HR) as I. split_and!; try apply I.
  - intros ts1 ch data off ts2 choice Ht Hc. destruct s as [a k ts l sent failed calls]. simpl in *. subst ts.
    destruct (inv_take_total _ _ _ _ _ _ _ _ _ _ _ _ I Hc) as (cb & -> & _). simpl. eauto.
  - intros e evs ns Hl. destruct s as [a k ts l sent failed calls]. simpl in *. subst l.
    destruct (inv_verify_ok _ _ _ _ _ _ _ _ _ I) as (cb & ae & ch & a1 & E0 & E1 & E2 & E3 & _). eauto 8.
Qed.

(** ** Progress *)

(** Steps of the kernel and the completion loop alone. *)
Definition loop_step (s s' : sys) : Prop :=
  aio_step s s' /\ s_calls s' = s_calls s /\ s_threads s' = s_threads s /\ s_failed s' = s_failed s.

Lemma loop_run_inv s s' : rtc loop_step s s' -> aio_inv s -> aio_inv s'.
Proof. induction 1 as [|x y z [Hxy _] _ IH]; [done|]. intros I. apply IH. by eapply aio_step_inv. Qed.

Lemma send_all a k ts ns : forall sent failed calls,
  rtc loop_step (mkSys a k ts (LSend ns) sent failed calls) (mkSys a k ts LIdle (sent ++ ns) failed calls).
Proof.
  induction ns as [|[ch c] ns IH]; intros sent failed calls.
  - rewrite app_nil_r. apply rtc_once. split; [constructor|done].
  - eapply rtc_l; [split; [apply aio_send|done]|]. replace (sent ++ (ch, c) :: ns) with ((sent ++ [(ch, c)]) ++ ns) by (by rewrite <- app_assoc).
    apply IH.
Qed.

Lemma verify_all k ts sent failed calls evs : forall a ns,
  aio_inv (mkSys a k ts (LVerify evs ns) sent failed calls) ->
  exists a' ns', rtc loop_step (mkSys a k ts (LVerify evs ns) sent failed calls) (mkSys a' k ts LIdle (sent ++ ns') failed calls) /\
    aio_open a' = aio_open a /\ aio_inv (mkSys a' k ts LIdle (sent ++ ns') failed calls).
Proof.
  induction evs as [|e evs IH]; intros a ns I.
  - exists a, ns. assert (HR : rtc loop_step (mkSys a k ts (LVerify [] ns) sent failed calls) (mkSys a k ts LIdle (sent ++ ns) failed calls))
      by (eapply rtc_l; [split; [apply aio_verified|done]|apply send_all]).
    split; [done|]. split; [done|]. by eapply loop_run_inv.
  - destruct (inv_verify_ok _ _ _ _ _ _ _ _ _ I) as (cb & ae & ch & a1 & _ & _ & _ & E & Ho & I').
    destruct (IH a1 _ I') as (a' & ns' & HR & Ho' & If). exists a', ns'. split; [|split; [congruence|done]].
    eapply rtc_l; [split; [by eapply aio_verify|done]|]. exact HR.
Qed.

(** The loop, then one more round over everything the kernel has. *)
Lemma drain s :
  aio_inv s -> aio_open (s_aio s) = true ->
  exists s', rtc loop_step s s' /\ s_loop s' = LIdle /\ active (s_aio s') = ∅ /\ aio_inv s'.
Proof.
  intros I Ho.
  assert (H1 : exists s1, rtc loop_step s s1 /\ s_loop s1 = LIdle /\ aio_open (s_aio s1) = true /\ aio_inv s1).
  { destruct s as [a k ts [|evs ns|ns] sent failed calls]; simpl in *.
    - eexists. split; [apply rtc_refl|done].
    - destruct (verify_all _ _ _ _ _ _ _ _ I) as (a' & ns' & HR & Ho' & If). eexists. split; [exact HR|]. simpl. split; [done|].
      split; [congruence|done].
    - eexists. split; [apply send_all|]. split; [done|]. split; [done|].
      eapply loop_run_inv; [apply send_all|done]. }
  destruct H1 as ([a k ts l sent failed calls] & HR & Hl & Ho1 & I1). simpl in *. subst l.
  destruct k as [|cb k].
  - eexists. split; [exact HR|]. split; [done|]. split; [|done]. pose proof (ai_kernel _ I1) as Hk. simpl in *.
    apply Permutation_nil_l in Hk. symmetry in Hk. apply map_eq_nil in Hk. unfold slots_of in Hk. apply map_eq_nil in Hk.
    by apply map_to_list_empty_iff in Hk.
  - set (evs := map (fun cb => (cb, 0)) (cb :: k)).
    assert (Hg : loop_step (mkSys a (cb :: k) ts LIdle sent failed calls) (mkSys a [] ts (LVerify (mkEvents evs) []) sent failed calls)).
    { split; [|done]. apply aio_getevents; [done| |done|].
      - unfold evs. rewrite map_map, app_nil_r. simpl. by rewrite map_id.
      - unfold evs. apply Forall_map, Forall_true. intros x. unfold is_i64. simpl. lia. }
    assert (I2 : aio_inv (mkSys a [] ts (LVerify (mkEvents evs) []) sent failed calls)) by (eapply loop_run_inv; [by apply rtc_once|done]).
    destruct (verify_all _ _ _ _ _ _ _ _ I2) as (a' & ns' & HR' & _ & If).
    eexists. split; [etrans; [exact HR|]; eapply rtc_l; [exact Hg|exact HR']|]. split; [done|]. split; [|done].
    pose proof (ai_kernel _ If) as Hk. simpl in *. apply Permutation_nil_l in Hk. symmetry in Hk. apply map_eq_nil in Hk.
    unfold slots_of in Hk. apply map_eq_nil in Hk. by apply map_to_list_empty_iff in Hk.
Qed.


(** ** The id-based half *)

(** Events that do not concern a control block leave its request alone. *)
Lemma freeEvent_other a ae cb cb' errno a' e :
  freeEvent a ae cb errno = (a', e) -> cb <> cb' -> active a' !! cb' = active a !! cb'.
Proof.
  unfold freeEvent. cbn [requests set_active set_avail]. intros E Hne.
  destruct (requests a !! ae_id ae); injection E as <- _; unfold releaseSlot; simpl; [case_bool; simpl|]; by rewrite lookup_delete_ne.
Qed.

Lemma verifyResult_other a e compLen cap completed a' r cb :
  verifyResult a e compLen cap completed = (a', r) -> ev_cb e <> Some cb -> active a' !! cb = active a !! cb.
Proof.
  unfold verifyResult. intros E Hne. destruct (ev_cb e) as [cb'|]; [|by injection E as <- _].
  destruct (active a !! cb') as [ae|]; [|by injection E as <- _].
  repeat (revert E; case_bool; intros E); try (by injection E as <- _);
    match type of E with context [freeEvent ?x ?y ?z ?n] => destruct (freeEvent x y z n) as [a1 e1] eqn:Ef end;
    injection E as <- _; eapply freeEvent_other; try done; congruence.
Qed.

Lemma verifyAll_other evs cb : forall a compLen cap completed err a' r,
  verifyAll a evs compLen cap completed err = (a', r) -> Forall (fun e => ev_cb e <> Some cb) evs -> active a' !! cb = active a !! cb.
Proof.
  induction evs as [|e evs IH]; intros a compLen cap completed err a' r E HF; cbn [verifyAll] in E; [by injection E as <- _|].
  apply Forall_cons in HF as [He HF]. destruct (verifyResult a e compLen cap completed) as [a1 [[n c] e1]] eqn:E1.
  rewrite (IH _ _ _ _ _ _ _ E HF). by eapply verifyResult_other.
Qed.

(** A short transfer is lost by the id-based calls.  When the kernel
    reports fewer bytes than requested, [verifyResult] only returns an error:
    the control block stays active, and as the kernel has no further event for
    it, it stays active whatever else completes, so its slot and its token are
    never returned. *)
Theorem id_short_write_leaks a cb ae res compLen cap completed :
  active a !! cb = Some ae -> ae_cb ae = cb -> ae_written ae = 0 -> 0 <= res < zlen (ae_data ae) -> zlen (ae_data ae) < 2 ^ 63 ->
  verifyResult a (mkEvent (Some cb) res) compLen cap completed = (a, (compLen, completed, Some ErrShortWrite)) /\
  forall evs compLen' cap' completed' err' a' r, Forall (fun e => ev_cb e <> Some cb) evs ->
    verifyAll a evs compLen' cap' completed' err' = (a', r) -> active a' !! cb = Some ae.
Proof.
  intros Hl Hcb Hw Hr Hd. split.
  - unfold verifyResult. cbn [ev_cb ev_res]. rewrite Hl, Hcb, Nat.eqb_refl. cbn [negb].
    rewrite (proj2 (Z.ltb_ge res 0)) by lia. rewrite Hw, Z.add_0_r, !(u64_small res) by (unfold is_u64; lia).
    by rewrite (proj2 (Z.eqb_neq _ _)) by lia.
  - intros evs compLen' cap' completed' err' a' r HF E. rewrite <- Hl. by eapply verifyAll_other.
Qed.

(** A submission with an id into an idle device. *)
Lemma writeAt_idle a b offset cb :
  active a = ∅ -> 0 < slotSem a -> 0 < zlen b -> 0 <= reqId a < 2 ^ 63 ->
  exists a1, writeAt a b offset (fun _ => Some cb) 1 0 = Some (a1, inr (reqId a + 1)) /\
    active a1 = {[cb := mkActiveEvent b 0 cb (reqId a + 1) None]} /\ avail a1 = avail a ∖ {[cb]} /\ slotSem a1 = slotSem a - 1 /\
    depth a1 = depth a /\ requests a1 = <[reqId a + 1 := mkRequestState cb false None 0]> (requests a).
Proof.
  intros Hact Hsem Hb Hid. unfold writeAt, acquireSlot. rewrite (proj2 (Z.leb_gt (zlen b) 0)), (proj2 (Z.ltb_lt 0 _)) by lia.
  go_step. cbn [takeSlot]. unfold writeAtLocked, registerLocked, submit. cbn [Z.eqb Pos.eqb negb].
  cbn [reqId set_avail set_slotSem fillSlot set_cbp]. rewrite (u64_small (reqId a + 1)) by (unfold is_u64; lia).
  eexists. split; [done|]. case_bool; cbn; rewrite Hact; done.
Qed.

(** A full transfer of the only request in flight. *)
Lemma wait_single a cb b id r :
  active a = {[cb := mkActiveEvent b 0 cb id None]} -> requests a !! id = Some r -> 0 <= zlen b < 2 ^ 63 -> slotSem a < depth a ->
  exists a2, wait a 0 [inr [mkEvent (Some cb) (zlen b)]] = Some (a2, (1, [], None)) /\
    active a2 = ∅ /\ avail a2 = avail a ∪ {[cb]} /\ slotSem a2 = slotSem a + 1 /\
    requests a2 = <[id := mkRequestState (rs_cbKey r) true (rs_err r) (zlen b)]> (requests a).
Proof.
  intros Ha Hr Hb Hs. cbn [wait]. rewrite decide_False by (rewrite Ha; apply map_non_empty_singleton).
  rewrite Ha, map_size_singleton. change (Z.of_nat 1 <? zlen [mkEvent (Some cb) (zlen b)]) with false. cbn [verifyAll].
  unfold verifyResult. cbn [ev_cb ev_res]. rewrite Ha, lookup_singleton_eq. cbn [ae_cb ae_data ae_written ae_id ae_doneCh].
  rewrite Nat.eqb_refl. cbn [negb]. rewrite (proj2 (Z.ltb_ge (zlen b) 0)) by lia.
  rewrite Z.add_0_r, !(u64_small (zlen b)) by (unfold is_u64; lia). rewrite Z.eqb_refl. cbn [negb].
  rewrite Z.add_0_l, (u64_small (zlen b)) by (unfold is_u64; lia). change (0 <? 0) with false.
  unfold freeEvent. cbn [requests set_avail set_active ae_id]. rewrite Hr. unfold releaseSlot. cbn [slotSem depth set_requests set_avail set_active].
  rewrite (proj2 (Z.ltb_lt (slotSem a) _)) by lia. eexists. split; [done|]. cbn. rewrite Ha, delete_singleton_eq, i64_small by (unfold is_i64; lia).
  change (0 <? 0) with false. done.
Qed.

(** Writing with an id: on an idle device the request is submitted under
    the next id, a full transfer makes [WaitFor] return the number of bytes
    without an error, and afterwards the slot is available again, its token is
    back and the request is forgotten. *)
Theorem id_write_roundtrip a b offset cb :
  cb ∈ avail a -> active a = ∅ -> 0 < slotSem a <= depth a -> 0 < zlen b < 2 ^ 63 -> 0 <= reqId a < 2 ^ 63 ->
  exists a1 a2, writeAt a b offset (fun _ => Some cb) 1 0 = Some (a1, inr (reqId a + 1)) /\
    active a1 !! cb = Some (mkActiveEvent b 0 cb (reqId a + 1) None) /\
    WaitFor a1 (reqId a + 1) [[inr [mkEvent (Some cb) (zlen b)]]] = Some (a2, (zlen b, None)) /\
    active a2 = ∅ /\ avail a2 = avail a /\ slotSem a2 = slotSem a /\ requests a2 !! (reqId a + 1) = None.
Proof.
  intros Hav Hact Hsem Hb Hid. set (id := reqId a + 1).
  destruct (writeAt_idle a b offset cb) as (a1 & E1 & A1 & A2 & A3 & A4 & A5); try lia; try done. fold id in E1, A1, A5.
  destruct (wait_single a1 cb b id (mkRequestState cb false None 0)) as (a2 & E2 & B1 & B2 & B3 & B4);
    [done|by rewrite A5, lookup_insert_eq|lia|lia|].
  exists a1, (set_requests a2 (delete id (requests a2))). split; [done|]. split; [by rewrite A1, lookup_singleton_eq|].
  split.
  { cbn [WaitFor]. unfold idDone at 1. rewrite A5, lookup_insert_eq. cbn [rs_done]. rewrite E2. go_step.
    unfold idDone, ack. by rewrite B4, lookup_insert_eq. }
  cbn. split_and!; [done| |lia|by rewrite lookup_delete_eq].
  rewrite B2, A2. apply set_eq. intros x. destruct (decide (x = cb)); set_solver.
Qed.

(** ** Concrete runs *)

(** A device with two control blocks, one write submitted and reported, a
    second one still on its way to the kernel. *)
Definition ex_aio : AIO := match New 2 (inr 0) 0 with inr a => a | inl _ => mkAIO false 0 ∅ 0 ∅ ∅ ∅ 0 0 end.

Lemma ex_run :
  exists s, rtc aio_step (aio_init ex_aio) s /\ aio_open (s_aio s) = true /\
    s_loop s = LVerify [mkEvent (Some 0%nat) 3] [] /\ channels_of (s_aio s) = [7%nat] /\ map th_ch (s_threads s) = [8%nat] /\ s_sent s = [].
Proof.
  eexists. split.
  { eapply rtc_l; [eapply (aio_call _ _ _ _ _ _ _ _ 7%nat [65; 66; 67] 4096); [set_solver|vm_compute; split; congruence|vm_compute; reflexivity]|].
    eapply rtc_l; [eapply (aio_take _ _ _ [] _ _ _ _ _ _ _ _ (Some 0%nat)); [vm_compute; reflexivity|vm_compute; reflexivity]|].
    eapply rtc_l; [eapply (aio_call _ _ _ _ _ _ _ _ 8%nat [68] 8192); [set_solver|vm_compute; split; congruence|vm_compute; reflexivity]|].
    eapply rtc_l; [eapply (aio_submit _ _ _ []); [vm_compute; reflexivity|vm_compute; reflexivity]|].
    eapply rtc_l; [eapply (aio_getevents _ _ [] _ _ _ _ [(0%nat, 3)]); [reflexivity|reflexivity|done|by repeat constructor]|].
    apply rtc_refl. }
  vm_compute. split_and!; reflexivity.
Defined.

(** The claims hold of that run. *)
Lemma aio_invariant_witness :
  exists s, rtc aio_step (aio_init ex_aio) s /\ channels_of (s_aio s) = [7%nat] /\
    elements (avail (s_aio s)) ++ slots_of (s_aio s) ++ held (s_threads s) ≡ₚ seq 0 (Z.to_nat (depth (s_aio s))) /\
    exists ae ch a', verifyResultPro (s_aio s) (mkEvent (Some 0%nat) 3) = (a', inr (mkNotifyResult (Some ch) (completionOf (ae_data ae) 3))).
Proof.
  destruct ex_run as (s & HR & _ & Hl & Hc & _). exists s. split; [exact HR|]. split; [exact Hc|].
  destruct (aio_invariant 2 0 ex_aio s eq_refl HR) as (H1 & _ & _ & _ & H5). split; [exact H1|].
  destruct (H5 _ _ _ Hl) as (cb & ae & ch & a' & _ & _ & _ & H). eauto.
Defined.


Definition ex_aio_busy : AIO :=
  match writeAt ex_aio [65; 66; 67] 0 (fun _ => Some 0%nat) 1 0 with Some (a, _) => a | None => ex_aio end.

Lemma id_short_write_leaks_witness :
  verifyResult ex_aio_busy (mkEvent (Some 0%nat) 2) 0 0 [] = (ex_aio_busy, (0, [], Some ErrShortWrite)) /\
  wait ex_aio_busy 0 [inr [mkEvent (Some 0%nat) 2]] = Some (ex_aio_busy, (0, [], Some ErrShortWrite)).
Proof.
  split; [|vm_compute; reflexivity].
  destruct (id_short_write_leaks ex_aio_busy 0%nat (mkActiveEvent [65; 66; 67] 0 0%nat 2 None) 2 0 0 []) as [H _];
    [vm_compute; reflexivity|reflexivity|reflexivity|vm_compute; split; congruence|vm_compute; reflexivity|exact H].
Defined.

Lemma id_write_roundtrip_witness :
  exists a1 a2, writeAt ex_aio [65; 66; 67] 4096 (fun _ => Some 1%nat) 1 0 = Some (a1, inr 2) /\
    WaitFor a1 2 [[inr [mkEvent (Some 1%nat) 3]]] = Some (a2, (3, None)) /\ avail a2 = avail ex_aio.
Proof.
  destruct (id_write_roundtrip ex_aio [65; 66; 67] 4096 1%nat) as (a1 & a2 & H1 & _ & H3 & _ & H5 & _);
    [vm_compute; reflexivity|vm_compute; reflexivity|vm_compute; split; congruence|vm_compute; split; congruence|vm_compute; split; congruence|].
  exists a1, a2. split; [exact H1|]. split; [exact H3|exact H5].
Defined.
