(* ===== verification/ChannelIO.v ===== *)
(** * Reading through the channel, and whole writes

    The rest of [internal/fs/aio_channel.go]: [Write], which allocates, writes
    and rolls back; [Read] with its pool of buffers; [Close].  Buffers are
    arrays in a heap, so that two readers that share one would be visible.
    Also [readResults] and [splitResults] of [cmd/aio_channel_bench], the code
    that reads extents back. *)

From stdpp Require Import base decidable list numbers option strings gmap.
From Stdlib Require Import ZArith Lia.
From S2P Require Import Prelude Words Bytes Moss MossJSON Allocator Extents SpaceBitmap Pebble WriteBatch BatchPebble BlockDevice AioChannel.

Definition maxPoolBufSize : Z := 4 * 1024 * 1024.

(** ** The channel *)

(** A slice that starts at the first byte of its array; [None] is nil. *)
Record goSlice := mkSlice { sl_arr : option nat; sl_len : Z; sl_cap : Z }.

(** [ch_heap] holds the arrays, [ch_next] is the next fresh one.  [ch_pool]
    holds the pooled arrays with their capacity; [ch_open] is [aio != nil],
    which [Close] changes together with [file]. *)
Record Channel := mkChannel {
  ch_heap : gmap nat bytes; ch_next : nat; ch_pool : list (nat * Z); ch_open : bool; ch_stopped : bool }.

Definition set_heap (c : Channel) (h : gmap nat bytes) : Channel := mkChannel h (ch_next c) (ch_pool c) (ch_open c) (ch_stopped c).
Definition set_pool (c : Channel) (p : list (nat * Z)) : Channel := mkChannel (ch_heap c) (ch_next c) p (ch_open c) (ch_stopped c).

Definition newChannel : Channel := mkChannel ∅ 0 [] true false.

(** [make([]byte, n)]. *)
Definition newArray (c : Channel) (n : Z) : Channel * goSlice :=
  (mkChannel (<[ch_next c := zmake n 0]> (ch_heap c)) (S (ch_next c)) (ch_pool c) (ch_open c) (ch_stopped c),
   mkSlice (Some (ch_next c)) n n).

(** [readPool.Get]: a pooled buffer of the pool's choosing, or a new empty one;
    the pool may forget buffers at any time, so a miss is always possible. *)
Definition poolGet (c : Channel) (pick : option nat) : Channel * goSlice :=
  match pick ≫= fun i => (fun e => (i, e)) <$> ch_pool c !! i with
  | Some (i, (arr, cap)) => (set_pool c (take i (ch_pool c) ++ drop (S i) (ch_pool c)), mkSlice (Some arr) 0 cap)
  | None => newArray c 0
  end.

Definition getReadBuffer (c : Channel) (length : Z) (pick : option nat) : Channel * goSlice :=
  if length =? 0 then (c, mkSlice None 0 0)
  else if maxPoolBufSize <? length then newArray c length
  else
    let '(c, b) := poolGet c pick in
    if sl_cap b <? length then newArray c length else (c, mkSlice (sl_arr b) length (sl_cap b)).

Definition PutReadBuffer (c : Channel) (buf : goSlice) : Channel :=
  if (sl_len buf =? 0) || (maxPoolBufSize <? sl_cap buf) then c
  else match sl_arr buf with
  | Some arr => set_pool c (ch_pool c ++ [(arr, sl_cap buf)])
  | None => c
  end.

(** The bytes of a slice. *)
Definition contents (c : Channel) (s : goSlice) : bytes :=
  match sl_arr s with
  | Some arr => take (Z.to_nat (sl_len s)) (default [] (ch_heap c !! arr))
  | None => []
  end.

(** ** The file *)

Inductive ioErr := EOF | IOErr (e : error).

(** [os.File.ReadAt]: the bytes read from an offset and the error. *)
Class FileReader (A : AioDisk) := fileReadAt : disk -> Z -> Z -> bytes * option ioErr.

(** What the documentation of [ReadAt] promises: the bytes are those of the
    file, at most as many as asked for, and fewer only with an error. *)
Class FileReaderLaws (A : AioDisk) (F : FileReader A) := {
  readAt_bytes : forall d off n bs_ err, 0 <= n -> fileReadAt d off n = (bs_, err) ->
    zlen bs_ <= n /\ bs_ = readRange d off (zlen bs_);
  readAt_full : forall d off n bs_, 0 <= n -> fileReadAt d off n = (bs_, None) -> zlen bs_ = n;
}.

Definition errInvalid : error := "invalid argument"%string.
Definition errUnexpectedEOF : error := "unexpected EOF"%string.
Definition errNotInitialized : error := "aio channel is not initialized"%string.
Definition errReadLength : error := "read length must be >= 0"%string.

Section reading.
Context `{FR : FileReader}.

(** [ReadAt] on a nil file is an error. *)
Definition readFile (c : Channel) (d : disk) (off n : Z) : bytes * option ioErr :=
  if ch_open c then fileReadAt d off n else ([], Some (IOErr errInvalid)).

(** The array after [n] bytes were read into it. *)
Definition fill (c : Channel) (s : goSlice) (bs_ : bytes) : Channel :=
  match sl_arr s with
  | Some arr => set_heap c (alter (fun old => bs_ ++ drop (length bs_) old) arr (ch_heap c))
  | None => c
  end.

Definition Read (ctxErr : option error) (c : Channel) (d : disk) (offset length : Z) (pick : option nat)
    : Channel * (error + goSlice) :=
  match ctxErr with
  | Some e => (c, inl e)
  | None =>
      if length <? 0 then (c, inl errReadLength)
      else
        let '(c, buf) := getReadBuffer c length pick in
        let '(bs_, err) := readFile c d offset length in
        let c := fill c buf bs_ in
        match err with
        | Some (IOErr e) => (PutReadBuffer c buf, inl e)
        | _ => if negb (zlen bs_ =? length) then (PutReadBuffer c buf, inl errUnexpectedEOF) else (c, inr buf)
        end
  end.

(** [copy(out[cursor:cursor+need], part)]. *)
Definition copyInto (out : bytes) (cursor need : Z) (part : bytes) : option bytes :=
  dst ← slice out cursor (cursor + need);
  Some (take (Z.to_nat cursor) out ++ take (length dst) part ++ drop (Z.to_nat cursor + Nat.min (length dst) (length part)) out).

(** [readResults] of the benchmark: [ctx] and [ctxr] are the answers of
    [ctx.Err()] in the loop and in [Read]; [inl] of the result is the error. *)
Fixpoint readLoop (ctx ctxr : nat -> option error) (picks : nat -> option nat) (i : nat) (c : Channel) (d : disk)
    (results : list Result) (length cursor : Z) (out : bytes) : option (Channel * (error + (Z * bytes))) :=
  match results with
  | [] => Some (c, inr (cursor, out))
  | r :: results =>
      match ctx i with
      | Some e => Some (c, inl e)
      | None =>
          if length <=? cursor then Some (c, inr (cursor, out))
          else
            let need := if length - cursor <? Size r then length - cursor else Size r in
            let '(c, rr) := Read (ctxr i) c d (Offset r) need (picks i) in
            match rr with
            | inl e => Some (c, inl e)
            | inr part =>
                out ← copyInto out cursor need (contents c part);
                readLoop ctx ctxr picks (S i) (PutReadBuffer c part) d results length (cursor + need) out
            end
      end
  end.

Definition readResults (ctx ctxr : nat -> option error) (picks : nat -> option nat) (c : Channel) (d : disk)
    (results : list Result) (length : Z) : option (Channel * (error + bytes)) :=
  out ← makeSlice length 0;
  '(c, r) ← readLoop ctx ctxr picks 0 c d results length 0 out;
  match r with
  | inl e => Some (c, inl e)
  | inr (cursor, out) => Some (c, if negb (cursor =? length) then inl errUnexpectedEOF else inr out)
  end.
End reading.

(** [splitResults]: the inner loop, [fuel] iterations at most; each one takes
    [maxSize] bytes off [left]. *)
Fixpoint splitOne (fuel : nat) (maxSize offset left : Z) : option (list Result) :=
  if left <=? 0 then Some []
  else match fuel with
  | O => None
  | S fuel =>
      let n := if left <? maxSize then left else maxSize in
      rest ← splitOne fuel maxSize (offset + n) (left - n);
      Some (mkResult offset n :: rest)
  end.

Definition splitResults (results : list Result) (maxSize : Z) : option (list Result) :=
  if maxSize <=? 0 then Some results
  else
    foldr (fun r rest => rest ← rest; one ← splitOne (Z.to_nat (Size r)) maxSize (Offset r) (Size r); Some (one ++ rest))
      (Some []) results.

(** ** Writing *)

Section writing.
Context `{AD : AioDisk}.
Context {T : Type} `{EA : ExtentAllocator T}.

(** [WriteAllocated] with the check for a closed channel. *)
Definition writeAllocatedOn (c : Channel) (ctx1 ctx2 : nat -> option error) (d : disk) (b : buffer) (results : list Result)
    : option (disk * (Z * option error)) :=
  if zlen (buf_data b) =? 0 then Some (d, (0, None))
  else if negb (ch_open c) then Some (d, (0, Some errNotInitialized))
  else WriteAllocated ctx1 ctx2 d b results.

(** [addr] is the address of the block [make] returns. *)
Definition Write (c : Channel) (ctx1 ctx2 : nat -> option error) (addr : Z) (dev : @BlockDevice T) (d : disk) (data : bytes)
    : option (@BlockDevice T * disk * (error + list Result * list Result)) :=
  let alignedSize := AlignBlockSize (zlen data) in
  b ← NewAlignedBlockBuffer addr alignedSize;
  let b := mkBuffer (buf_addr b) (take (length (buf_data b)) data ++ drop (length data) (buf_data b)) in
  '(dev, r) ← Alloc dev alignedSize;
  match r with
  | inl e => Some (dev, d, inl e)
  | inr (results, token) =>
      '(d, (_, err)) ← writeAllocatedOn c ctx1 ctx2 d b results;
      match err with
      | Some e => dev ← RollbackAlloc dev token; Some (dev, d, inl e)
      | None => Some (dev, d, inr (results, token))
      end
  end.
End writing.

(** [closeErr] is what closing the AIO context answers. *)
Definition Close (c : Channel) (closeErr : option error) : Channel * option error :=
  if ch_stopped c then (c, None)
  else if negb (ch_open c) then (mkChannel (ch_heap c) (ch_next c) (ch_pool c) false true, None)
  else (mkChannel (ch_heap c) (ch_next c) (ch_pool c) false true, closeErr).
