(* ===== verification/ChannelThms.v ===== *)
(** * Theorems of reading and writing through the channel

    Read buffers are never shared, reads return the bytes of the device, and
    what [Write] stored is what reading its extents returns. *)

From stdpp Require Import base decidable list numbers option strings gmap.
From Stdlib Require Import ZArith Lia.
From S2P Require Import Prelude Words Bytes Moss MossJSON Allocator Extents SpaceBitmap Pebble WriteBatch BatchPebble BlockDevice BlockDeviceSpec BlockDeviceThms AioChannel Upload UploadInv ChannelIO.

(** ** The pool of read buffers *)

(** [used] are the arrays in the hands of callers. *)
Record pool_ok (used : list nat) (c : Channel) : Prop := {
  po_nodup : NoDup (used ++ map fst (ch_pool c));
  po_old : Forall (fun arr => (arr < ch_next c)%nat) (used ++ map fst (ch_pool c));
  po_cap : Forall (fun e => exists bs_, ch_heap c !! e.1 = Some bs_ /\ zlen bs_ = e.2) (ch_pool c);
  po_fresh : forall arr, (ch_next c <= arr)%nat -> ch_heap c !! arr = None;
}.

Lemma pool_ok_weaken arr used c : pool_ok (arr :: used) c -> pool_ok used c.
Proof. intros [H1 H2 H3 H4]. split; try done; [by apply NoDup_cons in H1 as [_ ?]|by apply Forall_cons in H2 as [_ ?]]. Qed.

Lemma pool_ok_perm u u' c : u ≡ₚ u' -> pool_ok u c -> pool_ok u' c.
Proof. intros HP [H1 H2 H3 H4]. split; try done; by rewrite <- HP. Qed.

Lemma newArray_spec used c n :
  0 <= n -> pool_ok used c ->
  exists c', newArray c n = (c', mkSlice (Some (ch_next c)) n n) /\ pool_ok (ch_next c :: used) c' /\
    ch_heap c' !! ch_next c = Some (zmake n 0) /\ ch_open c' = ch_open c /\
    forall arr, arr ∈ used -> ch_heap c' !! arr = ch_heap c !! arr.
Proof.
  intros Hn [H1 H2 H3 H4]. eexists. split; [done|].
  assert (Hnew : ch_next c ∉ used ++ map fst (ch_pool c)) by (intros Hin; rewrite Forall_forall in H2; specialize (H2 _ Hin); lia).
  split; [split; simpl|].
  - by constructor.
  - constructor; [lia|]. eapply Forall_impl; [exact H2|]. simpl. lia.
  - rewrite Forall_forall in *. intros [arr cap] Hin. destruct (H3 _ Hin) as (bs_ & E & Hz). exists bs_. split; [|done]. simpl in *.
    rewrite lookup_insert_ne; [done|]. intros <-. apply Hnew, elem_of_app. right. apply list_elem_of_fmap. by exists (ch_next c, cap).
  - intros arr Harr. rewrite lookup_insert_ne by lia. apply H4. lia.
  - simpl. split; [by rewrite lookup_insert_eq|]. split; [done|]. intros arr Hin. rewrite lookup_insert_ne; [done|].
    intros <-. apply Hnew, elem_of_app. by left.
Qed.

Lemma poolGet_spec used c pick :
  pool_ok used c ->
  exists c' arr bs_, poolGet c pick = (c', mkSlice (Some arr) 0 (zlen bs_)) /\ pool_ok (arr :: used) c' /\
    ch_heap c' !! arr = Some bs_ /\ ch_open c' = ch_open c /\ forall a, a ∈ used -> ch_heap c' !! a = ch_heap c !! a.
Proof.
  intros HP. unfold poolGet. destruct (pick ≫= _) as [[i [arr cap]]|] eqn:E.
  - destruct pick as [i'|]; [|done]. simpl in E. destruct (ch_pool c !! i') as [e|] eqn:El; [|done]. simpl in E. injection E as -> ->.
    destruct HP as [H1 H2 H3 H4]. pose proof (take_drop_middle _ _ _ El) as Hsplit. rewrite <- Hsplit in H1, H2, H3.
    assert (Hperm : used ++ map fst (take i (ch_pool c) ++ (arr, cap) :: drop (S i) (ch_pool c)) ≡ₚ
      (arr :: used) ++ map fst (take i (ch_pool c) ++ drop (S i) (ch_pool c)))
      by (rewrite !map_app; simpl; by rewrite <- !Permutation_middle).
    rewrite Hperm in H1, H2. apply Forall_app in H3 as [H3a H3b]. apply Forall_cons in H3b as [(bs_ & Eb & Hz) H3b]. simpl in *. subst cap.
    eexists _, arr, bs_. split; [done|]. split; [|done]. split; simpl; try done. by apply Forall_app.
  - destruct (newArray_spec used c 0) as (c' & -> & HP' & Hh & Ho & Hf); [lia|done|]. exists c', (ch_next c), []. done.
Qed.

Lemma getReadBuffer_spec used c n pick :
  pool_ok used c -> 0 < n ->
  exists c' arr bs_, getReadBuffer c n pick = (c', mkSlice (Some arr) n (zlen bs_)) /\ n <= zlen bs_ /\ pool_ok (arr :: used) c' /\
    ch_heap c' !! arr = Some bs_ /\ ch_open c' = ch_open c /\ forall a, a ∈ used -> ch_heap c' !! a = ch_heap c !! a.
Proof.
  intros HP Hn. unfold getReadBuffer. rewrite (proj2 (Z.eqb_neq n 0)) by lia. case_bool.
  { destruct (newArray_spec used c n) as (c' & -> & HP' & Hh & Ho & Hf); [lia|done|].
    exists c', (ch_next c), (zmake n 0). rewrite zlen_make by lia. split_and!; done || lia. }
  destruct (poolGet_spec used c pick HP) as (c1 & arr & bs_ & -> & HP1 & Hh1 & Ho1 & Hf1). cbn [sl_cap sl_arr]. case_bool.
  - apply pool_ok_weaken in HP1. destruct (newArray_spec used c1 n) as (c' & -> & HP' & Hh & Ho & Hf); [lia|done|].
    exists c', (ch_next c1), (zmake n 0). rewrite zlen_make by lia. split_and!; try done || lia; [congruence|].
    intros a Ha. by rewrite Hf, Hf1.
  - exists c1, arr, bs_. split_and!; done || lia.
Qed.

Lemma PutReadBuffer_spec used c arr n bs_ :
  pool_ok (arr :: used) c -> ch_heap c !! arr = Some bs_ ->
  pool_ok used (PutReadBuffer c (mkSlice (Some arr) n (zlen bs_))) /\
  ch_heap (PutReadBuffer c (mkSlice (Some arr) n (zlen bs_))) = ch_heap c /\
  ch_open (PutReadBuffer c (mkSlice (Some arr) n (zlen bs_))) = ch_open c.
Proof.
  intros HP Hh. unfold PutReadBuffer. cbn [sl_len sl_cap sl_arr]. case_bool; [split; [by eapply pool_ok_weaken|done]|].
  split; [|done]. destruct HP as [H1 H2 H3 H4].
  assert (Hperm : used ++ map fst (ch_pool c ++ [(arr, zlen bs_)]) ≡ₚ (arr :: used) ++ map fst (ch_pool c))
    by (rewrite map_app; simpl; by rewrite <- Permutation_cons_append, <- Permutation_middle).
  split; simpl; [by rewrite Hperm|by rewrite Hperm| |done]. apply Forall_app. split; [done|]. repeat constructor. eauto.
Qed.

Lemma fill_spec u c arr n cap bs_ old :
  pool_ok u c -> ch_heap c !! arr = Some old -> zlen bs_ <= zlen old ->
  let c' := fill c (mkSlice (Some arr) n cap) bs_ in
  pool_ok u c' /\ ch_heap c' !! arr = Some (bs_ ++ drop (length bs_) old) /\ zlen (bs_ ++ drop (length bs_) old) = zlen old /\
  ch_open c' = ch_open c /\ forall a, a <> arr -> ch_heap c' !! a = ch_heap c !! a.
Proof.
  intros [H1 H2 H3 H4] Hh Hz c'.
  assert (Hlen : zlen (bs_ ++ drop (length bs_) old) = zlen old) by (unfold zlen in *; rewrite length_app, length_drop; lia).
  split; [|split; [|split; [done|split; [done|]]]].
  - split; simpl; try done.
    + eapply Forall_impl; [exact H3|]. intros [a k] (b & E & Hk). simpl in *. destruct (decide (a = arr)) as [->|Hne].
      * rewrite lookup_alter_eq, E. eexists. split; [done|]. rewrite E in Hh. injection Hh as ->. by rewrite Hlen.
      * rewrite lookup_alter_ne by done. eauto.
    + intros a Ha. destruct (decide (a = arr)) as [->|Hne]; [by rewrite H4 in Hh|]. rewrite lookup_alter_ne by done. by apply H4.
  - simpl. by rewrite lookup_alter_eq, Hh.
  - intros a Ha. simpl. by rewrite lookup_alter_ne.
Qed.

(** The arrays a slice occupies. *)
Definition arrays (s : goSlice) : list nat := match sl_arr s with Some arr => [arr] | None => [] end.

(** The contents of the slices over [used] are the same in both states. *)
Definition same_contents (used : list nat) (c c' : Channel) : Prop :=
  forall arr, arr ∈ used -> ch_heap c' !! arr = ch_heap c !! arr.

Section read.
Context `{FL : FileReaderLaws}.

(** What makes a read succeed. *)
Definition can_read (ctxErr : option error) (c : Channel) (d : disk) (offset n : Z) : Prop :=
  ctxErr = None /\ 0 <= n /\ ch_open c = true /\ zlen (fileReadAt d offset n).1 = n /\
  forall e, (fileReadAt d offset n).2 <> Some (IOErr e).

(** The outcome of a read into the array [arr] of capacity [cap]. *)
Definition read_into (used : list nat) (c c' : Channel) (d : disk) (offset n : Z) (arr : nat) (cap : Z) (r : error + goSlice) : Prop :=
  ch_open c' = ch_open c /\ same_contents used c c' /\ ((exists s, r = inr s) <-> can_read None c d offset n) /\
  match r with
  | inl _ => pool_ok used c'
  | inr s => s = mkSlice (Some arr) n cap /\ pool_ok (arr :: used) c' /\ contents c' s = readRange d offset n /\
      exists bs_, ch_heap c' !! arr = Some bs_ /\ zlen bs_ = cap
  end.

Lemma readFile_spec c d offset n bs_ err :
  0 <= n -> readFile c d offset n = (bs_, err) ->
  zlen bs_ <= n /\ bs_ = readRange d offset (zlen bs_) /\
  forall c0, ch_open c = ch_open c0 -> (can_read None c0 d offset n <-> zlen bs_ = n /\ forall e, err <> Some (IOErr e)).
Proof.
  intros Hn. unfold readFile, can_read. destruct (ch_open c) eqn:Eo; intros Er.
  - destruct (readAt_bytes d offset n bs_ err Hn Er) as [H1 H2]. split; [done|]. split; [done|]. intros c0 <-. rewrite Er. simpl.
    split; [intros (_ & _ & _ & H); done|intros [H3 H4]; split_and!; done || lia].
  - injection Er as <- <-. split; [done|]. split; [done|]. intros c0 <-. split; [by intros (_ & _ & ? & _)|]. intros [_ H].
    by destruct (H errInvalid).
Qed.

(** The tail of [Read], once it has a buffer. *)
Lemma read_tail used c0 c d offset n arr old c' r :
  pool_ok (arr :: used) c -> ch_heap c !! arr = Some old -> 0 <= n <= zlen old -> ch_open c = ch_open c0 -> same_contents used c0 c ->
  (let buf := mkSlice (Some arr) n (zlen old) in
   let '(bs_, err) := readFile c d offset n in
   let c := fill c buf bs_ in
   match err with
   | Some (IOErr e) => (PutReadBuffer c buf, inl e)
   | _ => if negb (zlen bs_ =? n) then (PutReadBuffer c buf, inl errUnexpectedEOF) else (c, inr buf)
   end) = (c', r) ->
  read_into used c0 c' d offset n arr (zlen old) r.
Proof.
  intros HP Hh Hn Ho Hs. cbv zeta. destruct (readFile c d offset n) as [bs_ err] eqn:Er.
  destruct (readFile_spec c d offset n bs_ err (proj1 Hn) Er) as (Hb1 & Hb2 & Hcan). specialize (Hcan c0 Ho).
  assert (Hne : arr ∉ used) by (destruct HP as [H1 _ _ _]; apply NoDup_cons in H1 as [H1 _]; rewrite elem_of_app in H1; tauto).
  destruct (fill_spec (arr :: used) c arr n (zlen old) bs_ old HP Hh ltac:(lia)) as (HP1 & Hh1 & Hz1 & Ho1 & Hf1).
  set (c1 := fill c (mkSlice (Some arr) n (zlen old)) bs_) in *.
  assert (Hs1 : same_contents used c0 c1) by (intros a Ha; rewrite Hf1 by (by intros ->); by apply Hs).
  destruct (PutReadBuffer_spec used c1 arr n _ HP1 Hh1) as (HP2 & Hh2 & Ho2). rewrite Hz1 in HP2, Hh2, Ho2.
  assert (Hfail : forall e : error, (zlen bs_ <> n \/ exists e, err = Some (IOErr e)) ->
    read_into used c0 (PutReadBuffer c1 (mkSlice (Some arr) n (zlen old))) d offset n arr (zlen old) (inl e)).
  { intros e Hc. split; [congruence|]. split; [intros a Ha; rewrite Hh2; by apply Hs1|]. split; [|done]. rewrite Hcan.
    split; [intros [s Hx]; done|]. intros [H1 H2]. destruct Hc as [Hc|[e' Hc]]; [done|]. by destruct (H2 e'). }
  assert (Hok : zlen bs_ = n -> (forall e, err <> Some (IOErr e)) ->
    read_into used c0 c1 d offset n arr (zlen old) (inr (mkSlice (Some arr) n (zlen old)))).
  { intros <- He. split; [congruence|]. split; [done|]. rewrite Hcan. split; [split; [done|eauto]|]. split; [done|]. split; [done|]. split; [|eauto].
    unfold contents. cbn [sl_arr sl_len]. rewrite Hh1. cbn [default]. unfold default, id. rewrite take_app_length'; [done|unfold zlen; lia]. }
  destruct err as [[|e]|]; [|intros E; injection E as <- <-; eauto|];
    (destruct (zlen bs_ =? n) eqn:En; cbn [negb]; bool_norm; intros E; injection E as <- <-; [by apply Hok|apply Hfail; by left]).
Qed.

(** [Read] with a positive length goes through a buffer. *)
Lemma Read_positive used c d offset n pick c' r :
  pool_ok used c -> 0 < n -> Read None c d offset n pick = (c', r) ->
  exists arr cap, n <= cap /\ read_into used c c' d offset n arr cap r.
Proof.
  intros HP Hn. unfold Read. rewrite (proj2 (Z.ltb_ge n 0)) by lia.
  destruct (getReadBuffer_spec used c n pick HP Hn) as (c1 & arr & old & -> & Hz & HP1 & Hh1 & Ho1 & Hf1). intros E.
  exists arr, (zlen old). split; [done|]. eapply read_tail; [exact HP1|exact Hh1|lia|done|done|exact E].
Qed.

(** A read of nothing touches nothing. *)
Lemma Read_empty c d offset pick c' r :
  Read None c d offset 0 pick = (c', r) ->
  c' = c /\ ((exists s, r = inr s) <-> can_read None c d offset 0) /\ forall s, r = inr s -> s = mkSlice None 0 0.
Proof.
  unfold Read, getReadBuffer. cbn [Z.ltb Z.eqb Z.compare]. destruct (readFile c d offset 0) as [bs_ err] eqn:Er.
  destruct (readFile_spec c d offset 0 bs_ err ltac:(lia) Er) as (Hb1 & Hb2 & Hcan). rewrite (Hcan c eq_refl).
  unfold fill, PutReadBuffer. cbn [sl_arr sl_len Z.eqb orb]. pose proof (zlen_nonneg bs_) as Hz0.
  assert (zlen bs_ = 0) as -> by lia. cbn [Z.eqb negb].
  destruct err as [[|e]|]; intros E; injection E as <- <-; (split; [done|]); (split; [|by intros s [= <-]]);
    (split; [intros [s Hx]|intros [_ H]]); try (by destruct (H e)); eauto; done.
Qed.

(** The buffer a read of [n] bytes uses, with the pool it leaves: a pooled
    one that is large enough; or a new one, when the length is not pooled, the
    pool has none to give, or the one it gives is too small, which is then
    dropped. *)
Inductive takes (c : Channel) (n : Z) (pick : option nat) : list (nat * Z) -> nat -> Z -> Prop :=
  | tk_pooled l1 arr cap l2 :
      n <= maxPoolBufSize -> pick = Some (length l1) -> ch_pool c = l1 ++ (arr, cap) :: l2 -> n <= cap ->
      takes c n pick (l1 ++ l2) arr cap
  | tk_small l1 arr0 cap0 l2 arr :
      n <= maxPoolBufSize -> pick = Some (length l1) -> ch_pool c = l1 ++ (arr0, cap0) :: l2 -> cap0 < n -> ch_heap c !! arr = None ->
      takes c n pick (l1 ++ l2) arr n
  | tk_new arr :
      maxPoolBufSize < n \/ (forall i, pick = Some i -> (length (ch_pool c) <= i)%nat) -> ch_heap c !! arr = None ->
      takes c n pick (ch_pool c) arr n.

Lemma getReadBuffer_takes used c n pick c1 buf :
  pool_ok used c -> 0 < n -> getReadBuffer c n pick = (c1, buf) ->
  exists arr cap, buf = mkSlice (Some arr) n cap /\ takes c n pick (ch_pool c1) arr cap.
Proof.
  intros [_ _ _ Hf] Hn. unfold getReadBuffer. rewrite (proj2 (Z.eqb_neq n 0)) by lia. case_bool.
  { intros [= <- <-]. eexists _, _. split; [done|]. cbn [ch_pool]. apply tk_new; [by left|]. by apply Hf. }
  unfold poolGet. destruct (pick ≫= _) as [[i [arr cap]]|] eqn:E.
  - destruct pick as [i'|]; [|done]. simpl in E. destruct (ch_pool c !! i') as [e|] eqn:El; [|done]. simpl in E. injection E as -> ->.
    pose proof (take_drop_middle _ _ _ El) as Hsplit. symmetry in Hsplit.
    assert (Hi : Some i = Some (length (take i (ch_pool c)))) by (rewrite length_take_le; [done|]; apply lookup_lt_Some in El; lia).
    cbn [sl_cap sl_arr]. case_bool; intros [= <- <-]; eexists _, _; (split; [done|]); cbn [ch_pool set_pool].
    + eapply tk_small; try done. by apply Hf.
    + by eapply tk_pooled.
  - assert (Hmiss : forall i, pick = Some i -> (length (ch_pool c) <= i)%nat).
    { intros i ->. simpl in E. destruct (ch_pool c !! i) eqn:El; [done|]. by apply lookup_ge_None in El. }
    cbn [newArray sl_cap]. rewrite (proj2 (Z.ltb_lt 0 n)) by lia. intros [= <- <-]. eexists _, _. split; [done|].
    cbn [ch_pool ch_next]. apply tk_new; [by right|]. apply Hf. lia.
Qed.

(** Where the buffer of a read is afterwards. *)
Lemma Read_takes used c d offset n pick c' r :
  pool_ok used c -> 0 < n -> Read None c d offset n pick = (c', r) ->
  exists rest arr cap, takes c n pick rest arr cap /\
    match r with
    | inl _ => ch_pool c' = rest ++ (if cap <=? maxPoolBufSize then [(arr, cap)] else [])
    | inr s => s = mkSlice (Some arr) n cap /\ ch_pool c' = rest
    end.
Proof.
  intros HP Hn. unfold Read. rewrite (proj2 (Z.ltb_ge n 0)) by lia. destruct (getReadBuffer c n pick) as [c1 buf] eqn:Eg.
  destruct (getReadBuffer_takes used c n pick c1 buf HP Hn Eg) as (arr & cap & -> & Ht). destruct (readFile c1 d offset n) as [bs_ err].
  set (c2 := fill c1 (mkSlice (Some arr) n cap) bs_). assert (Hp2 : ch_pool c2 = ch_pool c1) by done.
  assert (Hput : ch_pool (PutReadBuffer c2 (mkSlice (Some arr) n cap)) = ch_pool c1 ++ (if cap <=? maxPoolBufSize then [(arr, cap)] else [])).
  { unfold PutReadBuffer. cbn [sl_len sl_cap sl_arr]. rewrite (proj2 (Z.eqb_neq n 0)) by lia. cbn [orb].
    rewrite Z.ltb_antisym. destruct (cap <=? maxPoolBufSize); cbn [negb]; [done|by rewrite app_nil_r]. }
  intros E. exists (ch_pool c1), arr, cap. split; [done|].
  destruct err as [[|e]|]; [|by injection E as <- <-|];
    (destruct (negb (zlen bs_ =? n)); injection E as <- <-; [done|]; by split).
Qed.

(** C32: Reading.  [Read] succeeds exactly when the context is live, the
    length is not negative, the channel is open and the file delivers all the
    bytes; then the slice holds the bytes of the device and no other caller has
    its array.  A read that fails before it needs a buffer, or reads nothing,
    changes nothing.  Otherwise the buffer it takes leaves the pool; on
    success it is the caller's, and on an error it is put back, unless it is
    larger than the pool keeps.  A pooled buffer that is too small for the
    read is dropped for a new one.  The buffers in the hands of other callers
    keep their contents. *)
Theorem Read_correct used ctxErr c d offset n pick c' r :
  pool_ok used c -> Read ctxErr c d offset n pick = (c', r) ->
  ((exists s, r = inr s) <-> can_read ctxErr c d offset n) /\ same_contents used c c' /\
  match r with
  | inl _ => pool_ok used c'
  | inr s => sl_len s = n /\ contents c' s = readRange d offset n /\ pool_ok (arrays s ++ used) c'
  end /\
  (ctxErr <> None \/ n <= 0 -> c' = c) /\
  (ctxErr = None -> 0 < n -> exists rest arr cap, takes c n pick rest arr cap /\
     match r with
     | inl _ => ch_pool c' = rest ++ (if cap <=? maxPoolBufSize then [(arr, cap)] else [])
     | inr s => s = mkSlice (Some arr) n cap /\ ch_pool c' = rest
     end).
Proof.
  intros HP E. destruct ctxErr as [e|].
  { injection E as <- <-. split; [split; [intros [s Hs]; done|by intros (? & _)]|]. by split_and!. }
  destruct (Z.ltb_spec n 0) as [Hn|Hn].
  { unfold Read in E. rewrite (proj2 (Z.ltb_lt n 0)) in E by lia. injection E as <- <-.
    split; [split; [intros [s Hs]; done|intros (_ & ? & _); lia]|]. split_and!; try done. lia. }
  destruct (decide (n = 0)) as [->|Hnz].
  - apply Read_empty in E as (-> & Hc & Hs). split; [done|]. split; [done|]. split; [destruct r as [e|s]; [done|by rewrite (Hs s)]|].
    split; [done|lia].
  - destruct (Read_positive used c d offset n pick c' r HP) as (arr & cap & _ & _ & Hs & Hc & Hr); [lia|done|].
    split; [done|]. split; [done|]. split; [destruct r as [e|s]; [done|]; by destruct Hr as (-> & HP' & Hr & _)|].
    split; [intros [?|?]; [done|lia]|]. intros _ Hn'. by eapply Read_takes.
Qed.
End read.

(** ** Reading extents back *)

Section extents.
Context `{FL : FileReaderLaws}.

(** The file delivers every piece of every extent. *)
Definition readable (d : disk) (results : list Result) : Prop :=
  forall r n, r ∈ results -> 0 < n <= Size r ->
    zlen (fileReadAt d (Offset r) n).1 = n /\ forall e, (fileReadAt d (Offset r) n).2 <> Some (IOErr e).

Lemma copyInto_spec out cursor part :
  0 <= cursor -> cursor + zlen part <= zlen out ->
  copyInto out cursor (zlen part) part = Some (take (Z.to_nat cursor) out ++ part ++ drop (Z.to_nat cursor + length part) out).
Proof.
  intros Hc Hl. pose proof (zlen_nonneg part). unfold copyInto. rewrite slice_take by lia. go_step.
  assert (Hd : length (take (Z.to_nat (zlen part)) (drop (Z.to_nat cursor) out)) = length part)
    by (unfold zlen in *; rewrite length_take, length_drop; lia).
  by rewrite Hd, firstn_all, Nat.min_id.
Qed.

(** The part of the output that has been filled grows by the extents read. *)
Lemma readLoop_spec used ctx ctxr picks d n results : forall i c cursor out,
  Forall positive results -> pool_ok used c -> 0 <= cursor <= n -> zlen out = n ->
  exists c' r, readLoop ctx ctxr picks i c d results n cursor out = Some (c', r) /\ pool_ok used c' /\ same_contents used c c' /\
    (forall k out', r = inr (k, out') -> k <= n /\ zlen out' = n /\
       out' = take (Z.to_nat cursor) out ++ readExtents d results (n - cursor) ++ drop (Z.to_nat k) out /\
       zlen (readExtents d results (n - cursor)) = k - cursor) /\
    ((forall j, ctx j = None) -> (forall j, ctxr j = None) -> ch_open c = true -> readable d results ->
       n - cursor <= sizes results -> exists out', r = inr (n, out')).
Proof.
  induction results as [|r results IH]; intros i c cursor out HF HP Hc Ho; cbn [readLoop readExtents].
  { eexists _, _. split; [done|]. split; [done|]. split; [done|]. split.
    - intros k out' [= <- <-]. split; [lia|]. split; [done|]. rewrite app_nil_l, take_drop. unfold zlen at 1. simpl. split; [done|lia].
    - intros _ _ _ _ Hs. unfold sizes in Hs. simpl in Hs. assert (cursor = n) as <- by lia. eauto. }
  apply Forall_cons in HF as [Hr HF]. unfold positive in Hr.
  destruct (ctx i) as [e|] eqn:Ec.
  { eexists _, _. split; [done|]. split; [done|]. split; [done|]. split; [done|]. intros H _ _ _ _. by rewrite H in Ec. }
  destruct (n <=? cursor) eqn:En; bool_norm.
  { assert (cursor = n) as -> by lia. eexists _, _. split; [done|]. split; [done|]. split; [done|]. rewrite Z.sub_diag. cbn [Z.leb Z.compare].
    split; [|eauto]. intros k out' [= <- <-]. split; [lia|]. split; [done|]. rewrite app_nil_l, take_drop. unfold zlen. simpl. split; [done|lia]. }
  rewrite (proj2 (Z.leb_gt (n - cursor) 0)) by lia.
  set (need := if n - cursor <? Size r then n - cursor else Size r).
  assert (Hneed : 0 < need /\ need = Z.min (Size r) (n - cursor)) by (unfold need; case_bool; lia). destruct Hneed as [Hn0 Hneed].
  destruct (Read (ctxr i) c d (Offset r) need (picks i)) as [c1 rr] eqn:Er.
  destruct (ctxr i) as [e|] eqn:Ecr.
  { injection Er as <- <-. eexists _, _. split; [done|]. split; [done|]. split; [done|]. split; [done|].
    intros _ H _ _ _. by rewrite H in Ecr. }
  destruct (Read_positive used c d (Offset r) need (picks i) c1 rr HP Hn0 Er) as (arr & cap & Hcap & Ho1 & Hs1 & Hcan & Hrr).
  destruct rr as [e|s].
  { eexists _, _. split; [done|]. split; [done|]. split; [done|]. split; [done|]. intros _ _ Hop Hrd Hsz. exfalso.
    destruct (Hrd r need) as [G1 G2]; [by left|lia|]. destruct (proj2 Hcan) as [s Hs]; [|done].
    split_and!; done || lia. }
  destruct Hrr as (-> & HP1 & Hcont & old & Hh & Hz). rewrite Hcont.
  assert (Hrl : zlen (readRange d (Offset r) need) = need) by (apply zlen_readRange; lia).
  set (part := readRange d (Offset r) need) in *.
  assert (Ecopy : copyInto out cursor need part = Some (take (Z.to_nat cursor) out ++ part ++ drop (Z.to_nat cursor + length part) out)).
  { rewrite <- Hrl at 1. apply copyInto_spec; lia. }
  rewrite Ecopy. go_step.
  subst cap. destruct (PutReadBuffer_spec used c1 arr need old HP1 Hh) as (HP2 & Hh2 & Ho2).
  set (out1 := take (Z.to_nat cursor) out ++ part ++ drop (Z.to_nat cursor + length part) out) in *.
  assert (Hlo : zlen out1 = n) by (unfold out1, zlen in *; rewrite !length_app, length_take, length_drop; lia).
  destruct (IH (S i) _ (cursor + need) out1 HF HP2 ltac:(lia) Hlo) as (c' & r' & E & HP' & Hs' & Hr' & Ht').
  rewrite E. eexists _, _. split; [done|]. split; [done|].
  split; [intros a Ha; rewrite Hs', Hh2 by done; by apply Hs1|]. rewrite <- Hneed. fold part. split.
  - intros k out' ->. destruct (Hr' k out' eq_refl) as (K1 & K2 & K3 & K4). split; [done|]. split; [done|].
    replace (n - cursor - need) with (n - (cursor + need)) by lia. pose proof (zlen_nonneg (readExtents d results (n - (cursor + need)))).
    split; [|unfold zlen in *; rewrite length_app; lia].
    rewrite K3. assert (Ht : take (Z.to_nat (cursor + need)) out1 = take (Z.to_nat cursor) out ++ part).
    { unfold out1. rewrite app_assoc. apply take_app_length'. unfold zlen in *. rewrite length_app, length_take. lia. }
    assert (Hdp : drop (Z.to_nat k) out1 = drop (Z.to_nat k) out).
    { unfold out1. rewrite app_assoc, drop_app_ge by (unfold zlen in *; rewrite length_app, length_take; lia).
      rewrite drop_drop. f_equal. unfold zlen in *. rewrite length_app, length_take. lia. }
    rewrite Ht, Hdp. by rewrite <- !app_assoc.
  - intros C1 C2 Hop Hrd Hsz. pose proof (sizes_positive results HF). apply Ht'; try done; [congruence| |unfold sizes in *; simpl in Hsz; lia].
    intros r0 m Hin Hm. apply Hrd; [by right|done].
Qed.

Lemma readResults_spec used ctx ctxr picks c d results n :
  Forall positive results -> pool_ok used c -> 0 <= n ->
  exists c' r, readResults ctx ctxr picks c d results n = Some (c', r) /\ pool_ok used c' /\ same_contents used c c' /\
    (forall out, r = inr out -> out = readExtents d results n) /\
    ((forall j, ctx j = None) -> (forall j, ctxr j = None) -> ch_open c = true -> readable d results ->
       n <= sizes results -> r = inr (readExtents d results n)).
Proof.
  intros HF HP Hn. unfold readResults. rewrite makeSlice_some by lia. go_step.
  destruct (readLoop_spec used ctx ctxr picks d n results 0 c 0 (zmake n 0) HF HP) as (c' & r & E & HP' & Hs & Hr & Ht);
    [lia|by apply zlen_make|]. rewrite E. go_step. rewrite Z.sub_0_r in *.
  destruct r as [e|[k out']].
  { eexists _, _. split; [done|]. split; [done|]. split; [done|]. split; [done|]. intros C1 C2 C3 C4 C5. by destruct (Ht C1 C2 C3 C4 C5). }
  destruct (Hr k out' eq_refl) as (K1 & K2 & K3 & K4). eexists _, _. split; [done|]. split; [done|]. split; [done|].
  assert (Hout : k = n -> out' = readExtents d results n).
  { intros ->. rewrite K3, take_0, app_nil_l, drop_ge, app_nil_r; [done|]. unfold zmake. rewrite length_replicate. lia. }
  split.
  - intros out. destruct (k =? n) eqn:Ek; cbn [negb]; [|done]. bool_norm. intros [= <-]. by apply Hout.
  - intros C1 C2 C3 C4 C5. destruct (Ht C1 C2 C3 C4 C5) as [out'' [= -> ->]]. rewrite Z.eqb_refl. cbn [negb]. by rewrite Hout.
Qed.
End extents.

(** ** Whole writes *)

Section write.
Context `{FL : FileReaderLaws} `{AL : !AioDiskLaws A} {T : Type} `{EA : ExtentAllocator T} `{EL : !ExtentAllocatorLaws T}.

(** The buffer [Write] submits: the data and zeros up to a whole block. *)
Lemma write_buffer addr data :
  zlen data < 2 ^ 61 ->
  exists b, NewAlignedBlockBuffer addr (AlignBlockSize (zlen data)) = Some b /\
    take (length (buf_data b)) data ++ drop (length data) (buf_data b) = data ++ zmake (AlignBlockSize (zlen data) - zlen data) 0.
Proof.
  intros Hn. pose proof (zlen_nonneg data). destruct (AlignBlockSize_spec (zlen data) ltac:(lia)) as (Ha & _).
  destruct (NewAlignedBlockBuffer_spec addr (AlignBlockSize (zlen data)) ltac:(lia)) as (b & -> & Eb & _). exists b. split; [done|].
  rewrite Eb. unfold zmake. rewrite length_replicate, drop_replicate, take_ge by (unfold zlen in *; lia). do 2 f_equal. unfold zlen. lia.
Qed.

(** Whether the channel is open or not. *)
Lemma writeAllocatedOn_spec c ctx1 ctx2 (d : disk) b rs :
  Forall positive rs -> disjoint_extents rs ->
  exists d' wr er, writeAllocatedOn c ctx1 ctx2 d b rs = Some (d', (wr, er)) /\
    (forall p, covers rs p = false -> diskByte d' p = diskByte d p) /\
    (er = None -> readExtents d' rs (zlen (buf_data b)) = buf_data b).
Proof.
  intros HP HD. unfold writeAllocatedOn. case_bool.
  { eexists _, _, _. split; [done|]. split; [done|]. intros _. rewrite Heqb0. destruct (buf_data b); [by destruct rs|].
    unfold zlen in *. simpl in *. lia. }
  destruct (ch_open c); cbn [negb]; [|by eexists _, _, _].
  destruct (WriteAllocated_total ctx1 ctx2 d b rs) as [[d' [wr er]] Ew]. exists d', wr, er. split; [done|].
  split; [intros p Hp; by eapply WriteAllocated_frame|]. intros ->. pose proof Ew as Ew'.
  apply WriteAllocated_stores in Ew' as (-> & Hrd & _); done.
Qed.

(** Newly held blocks were free. *)
Lemma holding_fresh tot free0 held tk (dev dev' : @BlockDevice T) p :
  holding tot free0 held dev -> holding tot free0 (held ++ tk) dev' ->
  ea_free (bd_allocator dev) (p / BlockSize) = false -> covers (map byteResult tk) p = false.
Proof.
  intros Hh Hh' Hp. rewrite covers_byteResult. destruct (covers tk (p / BlockSize)) eqn:E; [|done].
  rewrite (ho_free _ _ _ _ Hh), (ho_was_free _ _ _ _ Hh') in Hp by (by rewrite covers_app, E, orb_true_r). simpl in Hp.
  apply negb_false_iff in Hp. pose proof (ho_disjoint _ _ _ _ Hh') as HD.
  apply (disjoint_app_covers tot _ _ (ho_in _ _ _ _ Hh')) in HD as (_ & _ & HD). specialize (HD _ Hp). congruence.
Qed.

(** What [Write] leaves: the blocks of the token hold the data, or nothing is
    held. *)
Lemma Write_spec tot free0 held c ctx1 ctx2 addr (dev : @BlockDevice T) (d : disk) data :
  holding tot free0 held dev -> tot * BlockSize < 2 ^ 63 -> zlen data < 2 ^ 61 ->
  exists dev' d' r, Write c ctx1 ctx2 addr dev d data = Some (dev', d', r) /\
    (forall p, ea_free (bd_allocator dev) (p / BlockSize) = false -> diskByte d' p = diskByte d p) /\
    match r with
    | inl _ => holding tot free0 held dev'
    | inr (results, token) =>
        holding tot free0 (held ++ token) dev' /\ results = map byteResult token /\ Forall positive results /\
        readExtents d' results (zlen data) = data /\ zlen data <= sizes results
    end.
Proof.
  intros Hh Htot Hn. pose proof (zlen_nonneg data) as Hz. destruct (AlignBlockSize_spec (zlen data) ltac:(lia)) as (Ha & Hm).
  unfold Write. destruct (write_buffer addr data Hn) as (b0 & -> & Eb). go_step. rewrite Eb.
  set (b := mkBuffer (buf_addr b0) (data ++ zmake (AlignBlockSize (zlen data) - zlen data) 0)).
  assert (Hbz : zlen (buf_data b) = AlignBlockSize (zlen data))
    by (unfold b, zlen in *; simpl; rewrite length_app; unfold zmake; rewrite length_replicate; lia).
  destruct (decide (data = [])) as [->|Hne].
  { unfold Alloc. cbn [zlen length Z.of_nat AlignBlockSize Z.leb Z.compare]. go_step. eexists _, _, _. split; [done|]. done. }
  assert (Hpos : 0 < zlen data) by (destruct data; [done|unfold zlen; simpl; lia]).
  destruct (Alloc_holding tot free0 held dev (AlignBlockSize (zlen data)) Hh Htot) as [[e ->]|(dev' & tk & -> & Hh' & Hsz & Nd & Sd)];
    [change BlockSize with 4096 in *; lia| |]; go_step.
  { eexists _, _, _. split; [done|]. done. }
  assert (Hin : Forall (extent_in tot) (held ++ tk)) by apply Hh'. pose proof Hin as Hin'. apply Forall_app in Hin' as [_ Hin2].
  assert (HP : Forall positive (map byteResult tk)) by (by eapply positive_byteResult).
  assert (Hfree : forall p, ea_free (bd_allocator dev) (p / BlockSize) = false -> covers (map byteResult tk) p = false)
    by (intros p; by apply (holding_fresh tot free0 held tk dev dev')).
  destruct (writeAllocatedOn_spec c ctx1 ctx2 d b (map byteResult tk) HP) as (d' & wr & er & -> & Hfr & Hst).
  { apply disjoint_byteResult. by apply (disjoint_app_covers tot _ _ Hin), Hh'. }
  rewrite Hbz in Hst. go_step. destruct er as [e|].
  - destruct (RollbackAlloc_holding _ _ _ _ _ (holding_perm _ _ _ _ _ (Permutation_app_comm _ _) Hh')) as (dev2 & -> & Hh2 & _). go_step.
    eexists _, _, _. split; [done|]. split; [intros p Hp; by apply Hfr, Hfree|done].
  - eexists _, _, _. split; [done|]. split; [intros p Hp; by apply Hfr, Hfree|]. split; [done|]. split; [done|]. split; [done|].
    specialize (Hst eq_refl). split.
    + apply (readExtents_padded _ _ _ (AlignBlockSize (zlen data) - zlen data)); [done|lia|].
      replace (zlen data + _) with (AlignBlockSize (zlen data)) by lia. done.
    + rewrite sizes_byteResult, Hsz. change BlockSize with 4096 in *. dlia.
Qed.

(** C33: What is written is what is read.  On a sound allocator [Write] always
    returns, and changes no byte of a block that was not free.  With an error
    it has released the blocks it took.  Otherwise it holds exactly the blocks
    of the token, and reading the extents back, however the pool and the
    contexts behave, never yields anything but the data, and yields the data
    when nothing fails; readers lose no buffer. *)
Theorem Write_read_roundtrip tot free0 held c ctx1 ctx2 addr (dev : @BlockDevice T) (d : disk) data :
  holding tot free0 held dev -> tot * BlockSize < 2 ^ 63 -> zlen data < 2 ^ 61 ->
  exists dev' d' r, Write c ctx1 ctx2 addr dev d data = Some (dev', d', r) /\
    (forall p, ea_free (bd_allocator dev) (p / BlockSize) = false -> diskByte d' p = diskByte d p) /\
    match r with
    | inl _ => holding tot free0 held dev'
    | inr (results, token) =>
        holding tot free0 (held ++ token) dev' /\ results = map byteResult token /\
        forall used cr ctx ctxr picks, pool_ok used cr ->
          exists cr' r', readResults ctx ctxr picks cr d' results (zlen data) = Some (cr', r') /\
            pool_ok used cr' /\ same_contents used cr cr' /\ (forall out, r' = inr out -> out = data) /\
            ((forall j, ctx j = None) -> (forall j, ctxr j = None) -> ch_open cr = true -> readable d' results -> r' = inr data)
    end.
Proof.
  intros Hh Htot Hn. destruct (Write_spec tot free0 held c ctx1 ctx2 addr dev d data Hh Htot Hn) as (dev' & d' & r & E & Hfr & Hr).
  eexists _, _, _. split; [exact E|]. split; [done|]. destruct r as [e|[results token]]; [done|]. destruct Hr as (Hh' & Er & HP & Hrd & Hsz).
  split; [done|]. split; [done|]. intros used cr ctx ctxr picks HPc.
  destruct (readResults_spec used ctx ctxr picks cr d' results (zlen data) HP HPc (zlen_nonneg data)) as (cr' & r' & E' & H1 & H2 & H3 & H4).
  rewrite Hrd in *. exists cr', r'. split; [done|]. split; [done|]. split; [done|]. split; [done|]. intros C1 C2 C3 C4. by apply H4.
Qed.
End write.

(** ** Splitting extents *)

Lemma readRange_add `{AD : AioDisk} (d : disk) off a b :
  0 <= a -> 0 <= b -> readRange d off (a + b) = readRange d off a ++ readRange d (off + a) b.
Proof.
  intros Ha Hb. unfold readRange. rewrite seqZ_app, map_app by lia. f_equal.
  replace (0 + a) with (a + 0) by lia. rewrite <- (fmap_add_seqZ a 0), <- list_fmap_compose. apply list_fmap_ext. intros i j _. simpl.
  f_equal. lia.
Qed.

(** The pieces of one extent read like the extent. *)
Lemma splitOne_spec `{AD : AioDisk} maxSize fuel : forall offset left,
  0 < maxSize -> 0 < left <= Z.of_nat fuel ->
  exists out, splitOne fuel maxSize offset left = Some out /\ Forall (fun r => 0 < Size r <= maxSize) out /\ sizes out = left /\
    forall (d : disk) n rest, readExtents d (out ++ rest) n = readExtents d (mkResult offset left :: rest) n.
Proof.
  induction fuel as [|fuel IH]; intros offset left Hm Hl; [lia|]. cbn [splitOne]. rewrite (proj2 (Z.leb_gt left 0)) by lia.
  case_bool.
  { rewrite Z.sub_diag. destruct fuel; cbn [splitOne]; go_step; (eexists; split; [done|]); (split; [by repeat constructor; simpl; lia|]);
      (split; [unfold sizes; simpl; lia|done]). }
  destruct (decide (left = maxSize)) as [->|Hne].
  { rewrite Z.sub_diag. destruct fuel; cbn [splitOne]; go_step; (eexists; split; [done|]); (split; [by repeat constructor; simpl; lia|]);
      (split; [unfold sizes; simpl; lia|done]). }
  destruct (IH (offset + maxSize) (left - maxSize) Hm ltac:(lia)) as (out & -> & HF & Hs & Hr). go_step.
  eexists. split; [done|]. split; [constructor; [simpl; lia|done]|]. split; [unfold sizes in *; simpl; lia|].
  intros d n rest. cbn [app readExtents Size Offset]. case_bool; [done|]. rewrite Hr. cbn [readExtents Size Offset]. case_bool.
  - rewrite app_nil_r. rewrite (Z.min_r maxSize n), (Z.min_r left n) by lia. rewrite Z.sub_diag. destruct rest; cbn [readExtents]; by rewrite app_nil_r.
  - rewrite (Z.min_l maxSize n) by lia. rewrite app_assoc, <- readRange_add by lia. f_equal; f_equal; lia.
Qed.

Lemma splitResults_spec `{AD : AioDisk} maxSize results :
  0 < maxSize -> Forall positive results ->
  exists out, splitResults results maxSize = Some out /\ Forall (fun r => 0 < Size r <= maxSize) out /\ sizes out = sizes results /\
    forall (d : disk) n, readExtents d out n = readExtents d results n.
Proof.
  intros Hm HF. unfold splitResults. rewrite (proj2 (Z.leb_gt maxSize 0)) by lia. induction HF as [|r results Hr HF IH]; cbn [foldr].
  { eexists. split; [done|]. done. }
  destruct IH as (out & -> & HFo & Hs & Hrd). go_step. unfold positive in Hr.
  destruct (splitOne_spec maxSize (Z.to_nat (Size r)) (Offset r) (Size r) Hm ltac:(lia)) as (one & -> & H1 & H2 & H3). go_step.
  eexists. split; [done|]. split; [by apply Forall_app|]. split; [rewrite sizes_app; unfold sizes in *; simpl; lia|].
  intros d n. rewrite H3. destruct r as [o z]. cbn [readExtents Size Offset]. case_bool; [done|]. by rewrite Hrd.
Qed.

(** ** Concrete runs *)

#[local] Existing Instances MemDisk.ops MemDisk.laws.

#[local] Instance memReader : FileReader MemDisk.ops := fun d off n => (readRange (AD := MemDisk.ops) d off n, None).

#[local] Instance memReaderLaws : FileReaderLaws MemDisk.ops memReader.
Proof.
  split; unfold fileReadAt, memReader; intros d off n bs_; [intros err|]; intros Hn E; injection E as <-; try subst; rewrite zlen_readRange by done; [|done].
  split; [lia|done].
Qed.

Lemma newChannel_ok : pool_ok [] newChannel.
Proof. by split; simpl; try constructor. Qed.

Definition demoDisk : @disk MemDisk.ops := MemDisk.writeAll ∅ [1; 2; 3] 10.

Lemma Read_correct_witness :
  exists c' s, Read None newChannel demoDisk 11 2 None = (c', inr s) /\
    contents c' s = [2; 3] /\ pool_ok (arrays s ++ []) c' /\ ch_pool c' = [].
Proof.
  destruct (Read None newChannel demoDisk 11 2 None) as [c' r] eqn:E.
  destruct (Read_correct [] None newChannel demoDisk 11 2 None c' r newChannel_ok E) as (Hc & _ & Hr & _ & Ht).
  assert (Hcan : can_read None newChannel demoDisk 11 2) by (split_and!; done).
  apply Hc in Hcan as [s ->].
  destruct Hr as (_ & Hs & HP). exists c', s. split; [reflexivity|]. split; [rewrite Hs; vm_compute; reflexivity|]. split; [exact HP|].
  destruct (Ht eq_refl eq_refl) as (rest & arr & cap & [l1 a k l2 _ H _ _|l1 a k l2 a' _ H _ _ _|a _ _] & _ & Hp); [discriminate H|discriminate H|exact Hp].
Defined.

Lemma demoDevice_holding : holding 10 (ea_free (bd_allocator demoDevice)) [] demoDevice.
Proof.
  destruct demoDevice_ok as [H1 H2]. split; try done. intros b. by rewrite andb_true_r.
Qed.

Lemma Write_read_roundtrip_witness :
  exists dev' d' results token,
    Write newChannel (fun _ => None) (fun _ => None) 100 demoDevice (∅ : @disk MemDisk.ops) [1; 2; 3] = Some (dev', d', inr (results, token)) /\
    exists cr', readResults (fun _ => None) (fun _ => None) (fun _ => None) newChannel d' results 3 = Some (cr', inr [1; 2; 3]).
Proof.
  destruct (Write_read_roundtrip 10 (ea_free (bd_allocator demoDevice)) [] newChannel (fun _ => None) (fun _ => None) 100 demoDevice
    (∅ : @disk MemDisk.ops) [1; 2; 3] demoDevice_holding) as (dev' & d' & r & E & _ & Hr); [reflexivity|reflexivity|].
  assert (Ev : match Write newChannel (fun _ => None) (fun _ => None) 100 demoDevice (∅ : @disk MemDisk.ops) [1; 2; 3] with
    | Some (_, _, inr _) => true | _ => false end = true) by (vm_compute; reflexivity).
  rewrite E in Ev. destruct r as [e|[results token]]; [discriminate|]. destruct Hr as (_ & _ & Hr).
  exists dev', d', results, token. split; [exact E|].
  destruct (Hr [] newChannel (fun _ => None) (fun _ => None) (fun _ => None) newChannel_ok) as (cr' & r' & E' & _ & _ & _ & H').
  exists cr'. rewrite <- H'; [exact E'|done|done|done|]. intros q n Hq Hn. unfold fileReadAt, memReader. split; [apply zlen_readRange; lia|discriminate].
Defined.
