(* ===== verification/GoStrings.v ===== *)
(** * Strings, numbers and paths

    The functions of [strings], [strconv], [bufio] and [path/filepath] that the
    device discovery uses, on byte strings.  A multi-byte space is recognised
    by its UTF-8 encoding: its first byte starts no other rune and occurs
    inside none, so looking at every byte position finds the runes the library
    finds. *)

From stdpp Require Import base decidable list numbers option strings.
From Stdlib Require Import ZArith Lia.
From S2P Require Import Prelude Words Bytes.

(** [string(b)] of ASCII bytes. *)
Definition strOf (b : bytes) : string := String.string_of_list_ascii (map (fun c => Ascii.ascii_of_N (Z.to_N c)) b).

(** ** [strings] *)

Fixpoint hasPrefix (s p : bytes) {struct p} : bool :=
  match p, s with
  | [], _ => true
  | _, [] => false
  | c :: p, x :: s => (x =? c) && hasPrefix s p
  end.

Definition trimPrefix (s p : bytes) : bytes := if hasPrefix s p then drop (length p) s else s.

(** [strings.SplitN(s, sep, 2)]: the parts around the first [sep]. *)
Fixpoint splitFirst (s sep : bytes) : option (bytes * bytes) :=
  if hasPrefix s sep then Some ([], drop (length sep) s)
  else match s with
  | [] => None
  | c :: s => '(l, r) ← splitFirst s sep; Some (c :: l, r)
  end.

(** [unicode.IsSpace] on bytes, last byte of the rune first when [rev]: the
    ASCII spaces, U+0085, U+00A0, U+1680, U+2000 to U+200A, U+2028, U+2029,
    U+202F, U+205F and U+3000. *)
Definition asciiSpace (c : Z) : bool := ((9 <=? c) && (c <=? 13)) || (c =? 32).

Definition space2 (a b : Z) : bool := (a =? 194) && ((b =? 133) || (b =? 160)).

Definition space3 (a b c : Z) : bool :=
  ((a =? 225) && (b =? 154) && (c =? 128)) ||
  ((a =? 226) && (b =? 128) && (((128 <=? c) && (c <=? 138)) || (c =? 168) || (c =? 169) || (c =? 175))) ||
  ((a =? 226) && (b =? 129) && (c =? 159)) ||
  ((a =? 227) && (b =? 128) && (c =? 128)).

(** The length of the space [s] starts with, 0 if it starts with none. *)
Definition spaceWidth (s : bytes) : nat :=
  match s with
  | a :: s1 =>
      if asciiSpace a then 1 else
      match s1 with
      | b :: s2 =>
          if space2 a b then 2 else
          match s2 with c :: _ => if space3 a b c then 3 else 0 | [] => 0 end
      | [] => 0
      end
  | [] => 0
  end%nat.

(** The same for the end of a string, given reversed. *)
Definition spaceWidthRev (s : bytes) : nat :=
  match s with
  | a :: s1 =>
      if asciiSpace a then 1 else
      match s1 with
      | b :: s2 =>
          if space2 b a then 2 else
          match s2 with c :: _ => if space3 c b a then 3 else 0 | [] => 0 end
      | [] => 0
      end
  | [] => 0
  end%nat.

(** [skip] bytes of a space are left to pass over. *)
Fixpoint fieldsFrom (skip : nat) (s cur : bytes) : list bytes :=
  let emit rest := match cur with [] => rest | _ => cur :: rest end in
  match s with
  | [] => emit []
  | c :: s' =>
      match skip with
      | S k => fieldsFrom k s' cur
      | O =>
          match spaceWidth s with
          | O => fieldsFrom 0 s' (cur ++ [c])
          | S k => emit (fieldsFrom k s' [])
          end
      end
  end.

Definition Fields (s : bytes) : list bytes := fieldsFrom 0 s [].

Fixpoint dropSpaces (width : bytes -> nat) (skip : nat) (s : bytes) : bytes :=
  match s with
  | [] => []
  | _ :: s' =>
      match skip with
      | S k => dropSpaces width k s'
      | O => match width s with O => s | S k => dropSpaces width k s' end
      end
  end.

Definition TrimSpace (s : bytes) : bytes :=
  rev (dropSpaces spaceWidthRev 0 (rev (dropSpaces spaceWidth 0 s))).

(** ** [strconv] *)

Definition digitIn (base c : Z) : bool := (48 <=? c) && (c <? 48 + base).

(** The value of a string of digits, [None] if it is empty or has another
    character. *)
Definition digitsValue (base : Z) (s : bytes) : option Z :=
  match s with
  | [] => None
  | _ => if forallb (digitIn base) s then Some (fold_left (fun n c => base * n + (c - 48)) s 0) else None
  end.

(** [ParseInt(s, 10, 64)], which is also [Atoi] on a 64-bit machine. *)
Definition ParseInt (s : bytes) : option Z :=
  match s with
  | 43 :: s => n ← digitsValue 10 s; if n <? 2 ^ 63 then Some n else None
  | 45 :: s => n ← digitsValue 10 s; if n <=? 2 ^ 63 then Some (- n) else None
  | s => n ← digitsValue 10 s; if n <? 2 ^ 63 then Some n else None
  end.

(** [ParseUint(s, 8, 8)]. *)
Definition ParseUint8 (s : bytes) : option Z := n ← digitsValue 8 s; if n <? 256 then Some n else None.

(** ** [bufio.Scanner] *)

(** Lines without their newline; nothing after the last newline is no line. *)
Fixpoint splitLines (s cur : bytes) : list bytes :=
  match s with
  | [] => match cur with [] => [] | _ => [cur] end
  | c :: s => if c =? 10 then cur :: splitLines s [] else splitLines s (cur ++ [c])
  end.

(** The carriage return that [ScanLines] drops. *)
Definition dropCR (line : bytes) : bytes :=
  match last line with Some c => if c =? 13 then take (length line - 1) line else line | None => line end.

Definition MaxScanTokenSize : Z := 64 * 1024.

(** All lines, or [None] for a line that does not fit the scanner's buffer. *)
Definition scanLines (s : bytes) : option (list bytes) :=
  let raw := splitLines s [] in
  if forallb (fun l => zlen l <? MaxScanTokenSize) raw then Some (map dropCR raw) else None.

(** ** [path/filepath] on Unix *)

Definition slash : Z := 47.

Fixpoint splitOn (sep : Z) (s cur : bytes) : list bytes :=
  match s with
  | [] => [cur]
  | c :: s => if c =? sep then cur :: splitOn sep s [] else splitOn sep s (cur ++ [c])
  end.

Fixpoint joinWith (sep : bytes) (l : list bytes) : bytes :=
  match l with
  | [] => []
  | [x] => x
  | x :: l => x ++ sep ++ joinWith sep l
  end.

Definition dot : bytes := [46].
Definition dotdot : bytes := [46; 46].

(** The elements of a clean path, last one first: an empty element or "." is
    dropped, ".." removes the element before it, and is dropped at the root. *)
Definition cleanStep (rooted : bool) (acc : list bytes) (e : bytes) : list bytes :=
  if decide (e = []) then acc
  else if decide (e = dot) then acc
  else if decide (e = dotdot) then
    match acc with
    | x :: acc' => if decide (x = dotdot) then e :: acc else acc'
    | [] => if rooted then [] else [e]
    end
  else e :: acc.

Definition Clean (path : bytes) : bytes :=
  match path with
  | [] => dot
  | c :: _ =>
      let rooted := c =? slash in
      let elems := rev (fold_left (cleanStep rooted) (splitOn slash path []) []) in
      let body := joinWith [slash] elems in
      if rooted then slash :: body else match elems with [] => dot | _ => body end
  end.

(** Trailing slashes removed, then the part after the last slash. *)
Definition Base (path : bytes) : bytes :=
  match path with
  | [] => dot
  | _ =>
      match rev (dropSpaces (fun s => match s with c :: _ => if c =? slash then 1%nat else 0%nat | [] => 0%nat end) 0 (rev path)) with
      | [] => [slash]
      | p => default [] (last (splitOn slash p []))
      end
  end.

(** The part up to and with the last slash. *)
Fixpoint upToSlash (s : bytes) : bytes :=
  match s with
  | [] => []
  | c :: s => match upToSlash s with [] => if c =? slash then [c] else [] | p => c :: p end
  end.

Definition Dir (path : bytes) : bytes := Clean (upToSlash path).

Definition Join (elems : list bytes) : bytes :=
  match filter (fun e => e <> []) elems with
  | [] => []
  | l => Clean (joinWith [slash] l)
  end.
