(* ===== verification/DeviceScan.v ===== *)
(** * Device discovery

    [internal/fs/block_device_scan.go]: parsing the mount table, and finding
    the disks that have a mounted metadata partition and a raw data partition.
    The operating system is a parameter: the answers of the system calls the
    code makes. *)

From stdpp Require Import base decidable list numbers option strings gmap.
From Stdlib Require Import ZArith Lia.
From S2P Require Import Prelude Words Bytes Allocator SpaceBitmap Pebble GoStrings.

(** ** The operating system *)

(** [os_stat] answers whether the path is a regular file and its size,
    [os_blkSize] what opening the device and asking for BLKGETSIZE64 gives. *)
Class OS := {
  os_mountinfo : error + bytes;
  os_evalSymlinks : bytes -> error + bytes;
  os_readFile : bytes -> error + bytes;
  os_readlink : bytes -> error + bytes;
  os_readDir : bytes -> error + list bytes;
  os_stat : bytes -> error + bool * Z;
  os_blkSize : bytes -> error + Z;
}.

Definition blockDeviceMountPrefix : bytes := bs "fs-SP0-".

Record BlockDeviceCandidate := mkCandidate {
  Lun : bytes; MountDir : bytes; MetaPartition : bytes; DataPartition : bytes; Disk : bytes; cand_Size : Z }.

Record mountInfo := mkMountInfo { mountPoint : bytes; source : bytes }.

Record partition := mkPartition { part_name : bytes; part_disk : bytes; part_number : Z }.

(** ** The mount table *)

Fixpoint unescapeMountField (s : bytes) : bytes :=
  match s with
  | c :: (a :: b :: d :: rest) as tl =>
      if c =? 92 then
        match ParseUint8 [a; b; d] with
        | Some v => v :: unescapeMountField rest
        | None => c :: unescapeMountField tl
        end
      else c :: unescapeMountField tl
  | c :: tl => c :: unescapeMountField tl
  | [] => []
  end.

(** The body of the loop: [None] for a line that is skipped. *)
Definition parseMountLine (line : bytes) : option mountInfo :=
  '(l, r) ← splitFirst line (bs " - ");
  let left := Fields l in
  let right := Fields r in
  if (zlen left <? 5) || (zlen right <? 2) then None
  else
    m ← left.[4];
    d ← right.[1];
    Some (mkMountInfo (unescapeMountField m) (unescapeMountField d)).

Definition errTooLong : error := "bufio.Scanner: token too long"%string.

Definition readMountInfo `{OS} : error + list mountInfo :=
  match os_mountinfo with
  | inl e => inl e
  | inr content =>
      match scanLines content with
      | None => inl errTooLong
      | Some lines => inr (omap parseMountLine lines)
      end
  end.

Definition isFSBlockMount (mp : bytes) : bool :=
  hasPrefix (trimPrefix (Clean mp) [slash]) blockDeviceMountPrefix || hasPrefix (Base mp) blockDeviceMountPrefix.

(** ** Partitions *)

Definition sysBlock : bytes := bs "/sys/class/block".

Definition errNotDev : error := "not a /dev block source"%string.
Definition errSyntax : error := "invalid syntax"%string.

Section scan.
Context `{O : OS}.

Definition resolve (path : bytes) : bytes := match os_evalSymlinks path with inr p => p | inl _ => path end.

Definition blockPartition (src : bytes) : error + partition :=
  if negb (hasPrefix src (bs "/dev/")) then inl errNotDev
  else
    let name := Base (resolve src) in
    match os_readFile (Join [sysBlock; name; bs "partition"]) with
    | inl e => inl e
    | inr numberBytes =>
        match ParseInt (TrimSpace numberBytes) with
        | None => inl errSyntax
        | Some number =>
            match os_readlink (Join [sysBlock; name]) with
            | inl e => inl e
            | inr link => inr (mkPartition name (Base (Dir link)) number)
            end
        end
    end.

(** The body of the loop of [diskPartitions]. *)
Definition entryPartition (disk name : bytes) : option partition :=
  match os_readFile (Join [sysBlock; name; bs "partition"]), os_readlink (Join [sysBlock; name]) with
  | inr numberBytes, inr link =>
      if decide (Base (Dir link) = disk) then
        number ← ParseInt (TrimSpace numberBytes);
        Some (mkPartition name disk number)
      else None
  | _, _ => None
  end.

(** [sort.Slice] by number.  The order of equal numbers only matters for more
    than two partitions, which the caller rejects. *)
Fixpoint insertPart (p : partition) (l : list partition) : list partition :=
  match l with
  | [] => [p]
  | q :: l => if part_number p <=? part_number q then p :: q :: l else q :: insertPart p l
  end.

Definition sortParts (l : list partition) : list partition := foldr insertPart [] l.

Definition diskPartitions (disk : bytes) : error + list partition :=
  match os_readDir sysBlock with
  | inl e => inl e
  | inr entries => inr (sortParts (omap (entryPartition disk) entries))
  end.

Definition blockDeviceSize (path : bytes) : error + Z :=
  match os_readFile (Join [sysBlock; Base (resolve path); bs "size"]) with
  | inr sectorsBytes =>
      match ParseInt (TrimSpace sectorsBytes) with
      | None => inl errSyntax
      | Some sectors => inr (i64 (sectors * 512))
      end
  | inl _ =>
      match os_stat path with
      | inl e => inl e
      | inr (true, size) => inr size
      | inr (false, _) =>
          match os_blkSize path with
          | inl e => inl e
          | inr size => inr (i64 size)
          end
      end
  end.

(** ** Candidates *)

(** The loop that picks [p1] and [p2]: a later partition with the number
    replaces an earlier one; the zero value has an empty name. *)
Definition pick (number : Z) (parts : list partition) : partition :=
  fold_left (fun acc p => if part_number p =? number then p else acc) parts (mkPartition [] [] 0).

(** The LUN of a mount the scan accepts, its partition, [p1] and [p2]. *)
Definition acceptMount (m : mountInfo) : option (bytes * partition * partition * partition) :=
  if negb (isFSBlockMount (mountPoint m)) then None
  else
    match blockPartition (source m) with
    | inl _ => None
    | inr part =>
        if negb (part_number part =? 1) then None
        else
          match diskPartitions (part_disk part) with
          | inl _ => None
          | inr parts =>
              if negb (zlen parts =? 2) then None
              else
                let p1 := pick 1 parts in
                let p2 := pick 2 parts in
                if decide (part_name p1 = []) then None
                else if decide (part_name p2 = []) then None
                else if decide (part_name p1 = part_name part) then Some (Base (mountPoint m), part, p1, p2)
                else None
          end
    end.

Definition devPath (name : bytes) : bytes := Join [bs "/dev"; name].

Fixpoint scanMounts (mounts : list mountInfo) (seen : list bytes) (candidates : list BlockDeviceCandidate)
    : error + list BlockDeviceCandidate :=
  match mounts with
  | [] => inr candidates
  | m :: mounts =>
      match acceptMount m with
      | None => scanMounts mounts seen candidates
      | Some (lun, part, p1, p2) =>
          if decide (lun ∈ seen) then scanMounts mounts seen candidates
          else
            match blockDeviceSize (devPath (part_name p2)) with
            | inl e => inl e
            | inr size =>
                let c := mkCandidate lun (mountPoint m) (devPath (part_name p1)) (devPath (part_name p2)) (part_disk part)
                  (i64 (size ÷ BlockSize * BlockSize)) in
                scanMounts mounts (lun :: seen) (candidates ++ [c])
            end
      end
  end.

Definition ScanBlockDeviceCandidates : error + list BlockDeviceCandidate :=
  match readMountInfo with
  | inl e => inl e
  | inr mounts => scanMounts mounts [] []
  end.
End scan.
