(* ===== verification/DeviceScanThms.v ===== *)
(** * Theorems of the device discovery *)

From stdpp Require Import base decidable list numbers option strings gmap.
From Stdlib Require Import ZArith Lia Sorting.Sorted.
From S2P Require Import Prelude Words Bytes Allocator SpaceBitmap Pebble GoStrings DeviceScan.

(** ** Tokens separated by single spaces *)

(** No space starts anywhere in the string. *)
Fixpoint noSpace (s : bytes) : bool :=
  match s with
  | [] => true
  | _ :: s' => Nat.eqb (spaceWidth s) 0 && noSpace s'
  end.

Definition token (t : bytes) : Prop := t <> [] /\ noSpace t = true.

(** The separator completes no multi-byte space. *)
Lemma spaceWidth_app t rest : t <> [] -> spaceWidth (t ++ 32 :: rest) = spaceWidth t.
Proof.
  intros Ht. destruct t as [|a [|b [|c t]]]; [done| | |done].
  - simpl. case_bool; [done|]. unfold space2, space3. destruct rest; [by rewrite andb_false_r|].
    rewrite andb_false_r. by rewrite !andb_false_r.
  - simpl. repeat case_bool; try done. exfalso. unfold space3 in *. bool_norm.
    repeat match goal with H : _ \/ _ |- _ => destruct H end; bool_norm; lia.
Qed.

Lemma noSpace_cons c t : noSpace (c :: t) = true -> spaceWidth (c :: t) = 0%nat /\ noSpace t = true.
Proof. cbn [noSpace]. intros H. apply andb_true_iff in H as [H1 H2]. apply Nat.eqb_eq in H1. done. Qed.

Lemma fields_token t : forall cur rest, noSpace t = true ->
  fieldsFrom 0 (t ++ 32 :: rest) cur =
  match cur ++ t with [] => fieldsFrom 0 rest [] | tok => tok :: fieldsFrom 0 rest [] end.
Proof.
  induction t as [|c t IH]; intros cur rest Ht.
  - rewrite app_nil_r. cbn. by destruct cur.
  - apply noSpace_cons in Ht as [H1 H2]. cbn [app fieldsFrom]. change (c :: t ++ 32 :: rest) with ((c :: t) ++ 32 :: rest).
    rewrite spaceWidth_app, H1 by done. rewrite IH by done. by rewrite <- app_assoc.
Qed.

Lemma fields_last t cur : noSpace t = true -> fieldsFrom 0 t cur = match cur ++ t with [] => [] | tok => [tok] end.
Proof.
  revert cur. induction t as [|c t IH]; intros cur Ht; [rewrite app_nil_r; by destruct cur|].
  apply noSpace_cons in Ht as [H1 H2]. cbn [fieldsFrom]. rewrite H1, IH by done. by rewrite <- app_assoc.
Qed.

Lemma joinWith_cons t t2 toks : joinWith [32] (t :: t2 :: toks) = t ++ 32 :: joinWith [32] (t2 :: toks).
Proof. done. Qed.

Lemma Fields_join toks : Forall token toks -> Fields (joinWith [32] toks) = toks.
Proof.
  unfold Fields. induction 1 as [|t toks [Hne Ht] HF IH]; [done|]. destruct toks as [|t2 toks].
  - cbn [joinWith]. rewrite fields_last by done. simpl. by destruct t.
  - rewrite joinWith_cons, fields_token by done. cbn [app]. rewrite IH. by destruct t.
Qed.

(** ** The separator between the two halves of a line *)

Lemma splitFirst_skip c s sep : hasPrefix (c :: s) sep = false ->
  splitFirst (c :: s) sep = ('(l, r) ← splitFirst s sep; Some (c :: l, r)).
Proof. intros H. cbn [splitFirst]. by rewrite H. Qed.

Lemma noSpace_not32 c t : noSpace (c :: t) = true -> (c =? 32) = false.
Proof. intros H. apply noSpace_cons in H as [H _]. destruct (c =? 32) eqn:E; [|done]. bool_norm. subst c. done. Qed.

(** Nothing of a token starts the separator. *)
Lemma splitFirst_token t rest :
  noSpace t = true -> splitFirst (t ++ rest) (bs " - ") = ('(l, r) ← splitFirst rest (bs " - "); Some (t ++ l, r)).
Proof.
  induction t as [|c t IH]; intros Ht; cbn [app]; [by destruct (splitFirst rest _) as [[l r]|]|].
  rewrite splitFirst_skip by (change (bs " - ") with [32; 45; 32]; cbn [hasPrefix]; by rewrite (noSpace_not32 c t Ht)).
  apply noSpace_cons in Ht as [_ Ht]. rewrite IH by done. by destruct (splitFirst rest _) as [[l r]|].
Qed.

(** A space before a token other than the hyphen does not start it either. *)
Lemma splitFirst_space t rest :
  token t -> t <> [45] -> splitFirst (32 :: t ++ 32 :: rest) (bs " - ") = ('(l, r) ← splitFirst (t ++ 32 :: rest) (bs " - "); Some (32 :: l, r)).
Proof.
  intros [Hne Ht] Hh. apply splitFirst_skip. change (bs " - ") with [32; 45; 32]. destruct t as [|c [|c2 t]]; [done| |].
  - cbn. destruct (c =? 45) eqn:E; [|done]. bool_norm. subst c. done.
  - cbn. apply noSpace_cons in Ht as [_ Ht]. rewrite (noSpace_not32 c2 t Ht). by rewrite andb_false_r.
Qed.

Lemma splitFirst_line left right :
  left <> [] -> Forall (fun t => token t /\ t <> [45]) left ->
  splitFirst (joinWith [32] left ++ [32; 45; 32] ++ right) (bs " - ") = Some (joinWith [32] left, right).
Proof.
  intros Hne HF. induction HF as [|t left [Ht Hh] HF IH]; [done|]. destruct left as [|t2 left].
  - cbn [joinWith]. rewrite splitFirst_token by apply Ht. change (splitFirst ([32; 45; 32] ++ right) (bs " - ")) with (Some ([] : bytes, right)). go_step. by rewrite app_nil_r.
  - rewrite joinWith_cons, <- app_assoc, splitFirst_token by apply Ht. cbn [app].
    specialize (IH ltac:(done)). apply Forall_cons in HF as [[Ht2 Hh2] _]. cbn [app] in IH.
    assert (E : exists rest, joinWith [32] (t2 :: left) ++ 32 :: 45 :: 32 :: right = t2 ++ 32 :: rest).
    { destruct left; [by eexists|]. rewrite joinWith_cons, <- app_assoc. cbn [app]. by eexists. }
    destruct E as [rest E]. rewrite E in *. rewrite splitFirst_space by done. rewrite IH. by go_step.
Qed.

(** ** Escapes *)

(** How the kernel writes a name: the bytes in [esc] as a backslash and three
    octal digits. *)
Definition octal3 (c : Z) : bytes := [48 + c / 64; 48 + (c / 8) mod 8; 48 + c mod 8].

Definition escapeField (esc : Z -> bool) (s : bytes) : bytes := concat (map (fun c => if esc c then 92 :: octal3 c else [c]) s).

Lemma ParseUint8_octal3 c : byte_ok c -> ParseUint8 (octal3 c) = Some c.
Proof.
  intros Hc. unfold byte_ok in Hc. unfold ParseUint8, digitsValue, octal3. cbn [forallb fold_left]. unfold digitIn.
  rewrite !(proj2 (Z.leb_le _ _)), !(proj2 (Z.ltb_lt _ (48 + 8))) by dlia. cbn [andb]. go_step.
  rewrite (proj2 (Z.ltb_lt _ 256)) by dlia. f_equal. dlia.
Qed.

Lemma unescape_other c s : (c =? 92) = false -> unescapeMountField (c :: s) = c :: unescapeMountField s.
Proof. intros Hc. destruct s as [|a [|b [|d s]]]; [done..|]. cbn [unescapeMountField]. by rewrite Hc. Qed.

Lemma unescape_octal3 c s : byte_ok c -> unescapeMountField (92 :: octal3 c ++ s) = c :: unescapeMountField s.
Proof.
  intros Hc. cbn [unescapeMountField octal3 app]. change [48 + c / 64; 48 + (c / 8) mod 8; 48 + c mod 8] with (octal3 c).
  by rewrite Z.eqb_refl, ParseUint8_octal3.
Qed.

Lemma unescape_escape esc s : esc 92 = true -> Forall byte_ok s -> unescapeMountField (escapeField esc s) = s.
Proof.
  intros He. induction 1 as [|c s Hc HF IH]; [done|]. unfold escapeField in *. cbn [map concat]. destruct (esc c) eqn:E.
  - change ((92 :: octal3 c) ++ ?x) with (92 :: octal3 c ++ x). by rewrite unescape_octal3, IH.
  - cbn [app]. rewrite unescape_other, IH; [done|]. destruct (c =? 92) eqn:E'; [|done]. bool_norm. subst c. congruence.
Qed.

(** ** The mount table *)

(** The escapes of the mount point and of the source in mountinfo. *)
Definition escMount (c : Z) : bool := (c =? 32) || (c =? 9) || (c =? 10) || (c =? 92).
Definition escSource (c : Z) : bool := escMount c || (c =? 35).

(** An entry of the table: the four fields before the mount point, the
    options and tags after it, the type, and the options at the end. *)
Record mountEntry := mkEntry {
  e_head : bytes * bytes * bytes * bytes; e_mount : bytes; e_opts : list bytes; e_type : bytes; e_source : bytes; e_super : list bytes }.

Definition leftFields (e : mountEntry) : list bytes :=
  let '(a, b, c, d) := e_head e in [a; b; c; d; escapeField escMount (e_mount e)] ++ e_opts e.

Definition rightFields (e : mountEntry) : list bytes := [e_type e; escapeField escSource (e_source e)] ++ e_super e.

Definition printEntry (e : mountEntry) : bytes :=
  joinWith [32] (leftFields e) ++ [32; 45; 32] ++ joinWith [32] (rightFields e).

(** The fields have no spaces but those that are escaped, none before the
    separator is a hyphen, and the line fits the scanner's buffer. *)
Record entry_ok (e : mountEntry) : Prop := {
  eo_left : Forall (fun t => token t /\ t <> [45]) (leftFields e);
  eo_right : Forall token (rightFields e);
  eo_mount : Forall byte_ok (e_mount e);
  eo_source : Forall byte_ok (e_source e);
  eo_len : zlen (printEntry e) < MaxScanTokenSize;
}.

Lemma parse_print e : entry_ok e -> parseMountLine (printEntry e) = Some (mkMountInfo (e_mount e) (e_source e)).
Proof.
  intros [H1 H2 H3 H4 _]. unfold parseMountLine, printEntry. rewrite splitFirst_line; [|by unfold leftFields; destruct (e_head e) as [[[? ?] ?] ?]|done].
  go_step. rewrite !Fields_join; [|done|eapply Forall_impl; [exact H1|]; by intros t [? _]].
  unfold leftFields, rightFields. destruct (e_head e) as [[[a b] c] d].
  rewrite (proj2 (Z.ltb_ge _ 5)), (proj2 (Z.ltb_ge _ 2)) by (unfold zlen; simpl; lia). cbn [orb].
  change (zget ([a; b; c; d; escapeField escMount (e_mount e)] ++ e_opts e) 4) with (Some (escapeField escMount (e_mount e))).
  change (zget ([e_type e; escapeField escSource (e_source e)] ++ e_super e) 1) with (Some (escapeField escSource (e_source e))). go_step.
  by rewrite !unescape_escape.
Qed.

(** Tokens contain neither newlines nor carriage returns. *)
Definition inline (c : Z) : Prop := c <> 10 /\ c <> 13.

Lemma token_inline t : noSpace t = true -> Forall inline t.
Proof.
  induction t as [|c t IH]; intros Ht; [done|]. apply noSpace_cons in Ht as [H1 H2]. constructor; [|by apply IH].
  split; intros ->; done.
Qed.

Lemma join_inline toks : Forall token toks -> Forall inline (joinWith [32] toks).
Proof.
  induction 1 as [|t toks [_ Ht] HF IH]; [done|]. destruct toks; [by apply token_inline|]. rewrite joinWith_cons.
  apply Forall_app. split; [by apply token_inline|]. constructor; [done|done].
Qed.

Lemma splitLines_line l rest cur : Forall inline l -> splitLines (l ++ 10 :: rest) cur = (cur ++ l) :: splitLines rest [].
Proof.
  intros HF. revert cur. induction HF as [|c l [Hc _] HF IH]; intros cur; cbn [app splitLines]; [by rewrite app_nil_r|].
  rewrite (proj2 (Z.eqb_neq c 10)), IH by done. by rewrite <- app_assoc.
Qed.

Lemma dropCR_inline l : Forall inline l -> dropCR l = l.
Proof.
  intros HF. unfold dropCR. destruct (last l) as [c|] eqn:E; [|done]. rewrite Forall_forall in HF.
  destruct (HF c) as [_ Hc]; [by apply last_Some_elem_of|]. by rewrite (proj2 (Z.eqb_neq c 13)).
Qed.

Lemma print_inline e : entry_ok e -> Forall inline (printEntry e).
Proof.
  intros [H1 H2 _ _ _]. unfold printEntry. apply Forall_app. split; [apply join_inline; eapply Forall_impl; [exact H1|]; by intros t [? _]|].
  repeat (constructor; [done|]). by apply join_inline.
Qed.

(** C36: Reading the mount table back.  Whatever mounts the kernel lists, in
    its format and with its escapes, [readMountInfo] returns their mount points
    and sources, in order and unescaped. *)
Theorem mountinfo_roundtrip `{O : OS} es :
  Forall entry_ok es -> os_mountinfo = inr (concat (map (fun e => printEntry e ++ [10]) es)) ->
  readMountInfo = inr (map (fun e => mkMountInfo (e_mount e) (e_source e)) es).
Proof.
  intros HF Hm. unfold readMountInfo. rewrite Hm. unfold scanLines.
  assert (E : splitLines (concat (map (fun e => printEntry e ++ [10]) es)) [] = map printEntry es).
  { clear Hm. induction HF as [|e es He HF IH]; [done|]. cbn [map concat]. rewrite <- app_assoc. cbn [app].
    rewrite splitLines_line by (by apply print_inline). cbn [app]. by rewrite IH. }
  rewrite E. clear E Hm. assert (Hlen : forallb (fun l => zlen l <? MaxScanTokenSize) (map printEntry es) = true).
  { apply forallb_forall. intros l Hl. apply in_map_iff in Hl as (e & <- & He). apply list_elem_of_In in He. rewrite Forall_forall in HF.
    apply Z.ltb_lt, HF, He. }
  rewrite Hlen. f_equal. clear Hlen. induction HF as [|e es He HF IH]; [done|]. cbn [map].
  rewrite dropCR_inline by (by apply print_inline). cbn [omap list_omap]. simpl. rewrite parse_print by done. by rewrite IH.
Qed.

(** ** Paths of devices *)

(** A name of a directory entry. *)
Definition plain_name (n : bytes) : Prop := n <> [] /\ (slash ∉ n) /\ n <> dot /\ n <> dotdot.

Lemma splitOn_none sep s cur : sep ∉ s -> splitOn sep s cur = [cur ++ s].
Proof.
  revert cur. induction s as [|c s IH]; intros cur Hs; cbn [splitOn]; [by rewrite app_nil_r|].
  rewrite (proj2 (Z.eqb_neq c sep)) by set_solver. rewrite IH by set_solver. by rewrite <- app_assoc.
Qed.

Lemma devPath_plain n : plain_name n -> devPath n = bs "/dev/" ++ n.
Proof.
  intros (H1 & H2 & H3 & H4). unfold devPath, Join.
  assert (E : filter (fun e : bytes => e <> []) [bs "/dev"; n] = [bs "/dev"; n])
    by (rewrite filter_cons_True by done; by rewrite filter_cons_True).
  rewrite E. change (joinWith [slash] [bs "/dev"; n]) with (47 :: 100 :: 101 :: 118 :: 47 :: n). unfold Clean.
  change (47 =? slash) with true.
  change (splitOn slash (47 :: 100 :: 101 :: 118 :: 47 :: n) []) with ([] :: [100; 101; 118] :: splitOn slash n []).
  rewrite splitOn_none by done. cbn [app fold_left]. unfold cleanStep at 1. rewrite (decide_False (P := n = [])), (decide_False (P := n = dot)), (decide_False (P := n = dotdot)) by done.
  reflexivity.
Qed.

Lemma devPath_inj n n' : plain_name n -> plain_name n' -> devPath n = devPath n' -> n = n'.
Proof. intros H H' E. rewrite !devPath_plain in E by done. by apply app_inv_head in E. Qed.

(** ** Candidates *)

Section scan.
Context `{O : OS}.

(** The number in the partition file of a block device. *)
Definition partNumber (name : bytes) : option Z :=
  match os_readFile (Join [sysBlock; name; bs "partition"]) with inr b => ParseInt (TrimSpace b) | inl _ => None end.

Lemma entryPartition_spec disk name p :
  entryPartition disk name = Some p -> part_name p = name /\ part_disk p = disk /\ partNumber name = Some (part_number p).
Proof.
  unfold entryPartition, partNumber. destruct (os_readFile _) as [e|b]; [done|]. destruct (os_readlink _) as [e|l]; [done|].
  case_decide; [|done]. destruct (ParseInt (TrimSpace b)) as [n|]; [|done]. go_step. by intros [= <-].
Qed.

Lemma insertPart_perm p l : insertPart p l ≡ₚ p :: l.
Proof. induction l as [|q l IH]; cbn [insertPart]; [done|]. case_bool; [done|]. rewrite IH. apply perm_swap. Qed.

Lemma sortParts_perm l : sortParts l ≡ₚ l.
Proof. unfold sortParts. induction l as [|p l IH]; cbn [foldr]; [done|]. by rewrite insertPart_perm, IH. Qed.

Definition by_number : relation partition := fun p q => part_number p <= part_number q.

Lemma insertPart_sorted p l : StronglySorted by_number l -> StronglySorted by_number (insertPart p l).
Proof.
  induction 1 as [|q l HS IH HF]; cbn [insertPart]; [by repeat constructor|]. unfold by_number in *. case_bool.
  - constructor; [by constructor|]. constructor; [done|]. eapply Forall_impl; [exact HF|]. simpl. lia.
  - constructor; [done|]. rewrite insertPart_perm. constructor; [lia|done].
Qed.

Lemma sortParts_sorted l : StronglySorted by_number (sortParts l).
Proof. unfold sortParts. induction l as [|p l IH]; cbn [foldr]; [constructor|]. by apply insertPart_sorted. Qed.

Lemma diskPartitions_spec disk parts :
  diskPartitions disk = inr parts ->
  StronglySorted by_number parts /\
  Forall (fun p => part_disk p = disk /\ partNumber (part_name p) = Some (part_number p) /\
    exists entries, os_readDir sysBlock = inr entries /\ part_name p ∈ entries) parts.
Proof.
  unfold diskPartitions. destruct (os_readDir sysBlock) as [e|entries]; [done|]. intros [= <-]. split; [apply sortParts_sorted|].
  rewrite sortParts_perm. apply Forall_forall. intros p Hp. apply list_elem_of_omap in Hp as (name & Hin & Hp).
  apply entryPartition_spec in Hp as (H1 & H2 & H3). rewrite H1. eauto.
Qed.

Lemma pick_spec n parts : part_name (pick n parts) <> [] -> pick n parts ∈ parts /\ part_number (pick n parts) = n.
Proof.
  unfold pick. induction parts as [|p parts IH] using rev_ind; [done|]. rewrite fold_left_app. cbn [fold_left].
  rewrite elem_of_app. case_bool; [intros _; split; [right; by left|done]|]. intros H. destruct (IH H) as [H1 H2]. auto.
Qed.

(** What the scan promises of a candidate: it is a mounted first partition of
    a disk with exactly two partitions, and the data goes to the second. *)
Definition candidate_ok (mounts : list mountInfo) (c : BlockDeviceCandidate) : Prop :=
  exists m part p1 p2 size,
    m ∈ mounts /\ isFSBlockMount (mountPoint m) = true /\ Lun c = Base (mountPoint m) /\ MountDir c = mountPoint m /\
    blockPartition (source m) = inr part /\ part_number part = 1 /\ Disk c = part_disk part /\
    diskPartitions (part_disk part) = inr [p1; p2] /\ part_name p1 = part_name part /\ part_number p1 = 1 /\ part_number p2 = 2 /\
    MetaPartition c = devPath (part_name p1) /\ DataPartition c = devPath (part_name p2) /\
    blockDeviceSize (DataPartition c) = inr size /\ cand_Size c = i64 (size ÷ BlockSize * BlockSize).

Lemma acceptMount_spec m lun part p1 p2 :
  acceptMount m = Some (lun, part, p1, p2) ->
  isFSBlockMount (mountPoint m) = true /\ lun = Base (mountPoint m) /\ blockPartition (source m) = inr part /\ part_number part = 1 /\
  diskPartitions (part_disk part) = inr [p1; p2] /\ part_name p1 = part_name part /\ part_number p1 = 1 /\ part_number p2 = 2.
Proof.
  unfold acceptMount. destruct (isFSBlockMount (mountPoint m)); [|done]. cbn [negb]. destruct (blockPartition (source m)) as [e|part']; [done|].
  destruct (part_number part' =? 1) eqn:En; [|done]. cbn [negb]. destruct (diskPartitions (part_disk part')) as [e|parts] eqn:Ed; [done|].
  destruct (zlen parts =? 2) eqn:El; [|done]. cbn [negb]. bool_norm. repeat (case_decide; try done). intros [= <- <- <- <-].
  destruct (pick_spec 1 parts) as [P1 P2]; [done|]. destruct (pick_spec 2 parts) as [Q1 Q2]; [done|].
  destruct (diskPartitions_spec _ _ Ed) as [HS _]. destruct parts as [|a [|b [|x parts]]]; try (unfold zlen in El; simpl in El; lia).
  apply StronglySorted_inv in HS as [_ HS]. apply Forall_cons in HS as [HS _]. unfold by_number in HS.
  assert (a = pick 1 [a; b] /\ b = pick 2 [a; b]) as [Ea Eb].
  { apply list_elem_of_In in P1, Q1. destruct P1 as [P1|[P1|[]]], Q1 as [Q1|[Q1|[]]]; rewrite <- P1 in P2; rewrite <- Q1 in Q2; done || lia. }
  rewrite <- Ea, <- Eb in *. split_and!; done.
Qed.

Lemma scanMounts_spec all mounts : forall seen cs cs',
  scanMounts mounts seen cs = inr cs' -> (forall m, m ∈ mounts -> m ∈ all) ->
  Forall (candidate_ok all) cs -> NoDup (map Lun cs) -> seen ≡ₚ map Lun cs ->
  Forall (candidate_ok all) cs' /\ NoDup (map Lun cs') /\ (forall l, l ∈ map Lun cs -> l ∈ map Lun cs') /\
  forall m lun part p1 p2, m ∈ mounts -> acceptMount m = Some (lun, part, p1, p2) -> lun ∈ map Lun cs'.
Proof.
  induction mounts as [|m mounts IH]; intros seen cs cs' E Hall HF HN HP; cbn [scanMounts] in E.
  { injection E as <-. split_and!; try done. intros m lun part p1 p2 Hm. by apply not_elem_of_nil in Hm. }
  assert (Hall' : forall m0, m0 ∈ mounts -> m0 ∈ all) by (intros m0 H; apply Hall; by right).
  destruct (acceptMount m) as [[[[lun part] p1] p2]|] eqn:Ea.
  2:{ destruct (IH _ _ _ E Hall' HF HN HP) as (R1 & R2 & R3 & R4). split_and!; try done.
      intros m0 l0 q0 q1 q2 Hm Hac. apply elem_of_cons in Hm as [->|Hm]; [congruence|eauto]. }
  case_decide as Hs.
  { destruct (IH _ _ _ E Hall' HF HN HP) as (R1 & R2 & R3 & R4). split_and!; try done.
    intros m0 l0 q0 q1 q2 Hm Hac. apply elem_of_cons in Hm as [->|Hm]; [|eauto]. rewrite Ea in Hac. injection Hac as <- <- <- <-.
    apply R3. by rewrite <- HP. }
  destruct (blockDeviceSize (devPath (part_name p2))) as [e|size] eqn:Eb; [done|].
  destruct (acceptMount_spec _ _ _ _ _ Ea) as (A1 & A2 & A3 & A4 & A5 & A6 & A7 & A8).
  destruct (IH _ _ _ E Hall') as (R1 & R2 & R3 & R4).
  - apply Forall_app. split; [done|]. repeat constructor. exists m, part, p1, p2, size. cbn. split_and!; try done. apply Hall. by left.
  - rewrite map_app. cbn [map Lun]. rewrite <- Permutation_cons_append. constructor; [by rewrite <- HP|done].
  - rewrite map_app. cbn [map Lun]. by rewrite <- Permutation_cons_append, HP.
  - assert (Hlun : lun ∈ map Lun cs') by (apply R3; rewrite map_app, elem_of_app; right; by left).
    split_and!; try done; [intros l Hl; apply R3; rewrite map_app, elem_of_app; by left|].
    intros m0 l0 q0 q1 q2 Hm Hac. apply elem_of_cons in Hm as [->|Hm]; [congruence|eauto].
Qed.

(** C37: Discovery is safe and complete.  Every candidate is a mounted first
    partition of a disk with exactly two partitions, with the second one for
    data; no LUN is listed twice; every mount that qualifies is represented;
    and no partition that holds some LUN's metadata is offered for data. *)
Theorem scan_correct mounts cs :
  readMountInfo = inr mounts -> ScanBlockDeviceCandidates = inr cs ->
  (forall entries, os_readDir sysBlock = inr entries -> Forall plain_name entries) ->
  Forall (candidate_ok mounts) cs /\ NoDup (map Lun cs) /\
  (forall m lun part p1 p2, m ∈ mounts -> acceptMount m = Some (lun, part, p1, p2) -> lun ∈ map Lun cs) /\
  forall c c', c ∈ cs -> c' ∈ cs -> DataPartition c <> MetaPartition c'.
Proof.
  intros Hm Hs Hplain. unfold ScanBlockDeviceCandidates in Hs. rewrite Hm in Hs.
  destruct (scanMounts_spec mounts mounts [] [] cs Hs) as (R1 & R2 & _ & R4); try done; [constructor|].
  split_and!; try done. intros c c' Hc Hc' E. rewrite Forall_forall in R1.
  destruct (R1 c Hc) as (m & part & p1 & p2 & size & _ & _ & _ & _ & _ & _ & _ & Ed & _ & _ & N2 & _ & D & _).
  destruct (R1 c' Hc') as (m' & part' & p1' & p2' & size' & _ & _ & _ & _ & _ & _ & _ & Ed' & _ & N1 & _ & M' & _).
  rewrite D, M' in E. apply diskPartitions_spec in Ed as [_ F]. apply diskPartitions_spec in Ed' as [_ F'].
  apply Forall_cons in F as [_ F]. apply Forall_cons in F as [(_ & K2 & en & He & Hin) _]. apply Forall_cons in F' as [(_ & K1 & en' & He' & Hin') _].
  pose proof (Hplain _ He) as HP. rewrite He in He'. injection He' as <-. rewrite Forall_forall in HP.
  apply devPath_inj in E; [|by apply HP..]. rewrite E, K1 in K2. injection K2 as K2. lia.
Qed.
End scan.

(** ** A concrete machine *)

(** One disk whose first partition is mounted twice, the second time under a
    name with a space. *)
Definition demoEntries : list mountEntry :=
  [ mkEntry (bs "36", bs "35", bs "8:1", bs "/") (bs "/fs-SP0-0") [bs "rw"; bs "shared:1"] (bs "ext4") (bs "/dev/sda1") [bs "rw"];
    mkEntry (bs "37", bs "35", bs "8:1", bs "/") (bs "/mnt/fs-SP0-b b") [bs "rw"] (bs "ext4") (bs "/dev/sda1") [bs "rw"] ].

Definition demoFiles (sectors : bytes) : list (bytes * bytes) :=
  [ (bs "/sys/class/block/sda1/partition", bs "1" ++ [10]); (bs "/sys/class/block/sda2/partition", bs "2" ++ [10]);
    (bs "/sys/class/block/sda2/size", sectors ++ [10]) ].

Definition demoLinks : list (bytes * bytes) :=
  [ (bs "/sys/class/block/sda", bs "../../devices/pci0/block/sda"); (bs "/sys/class/block/sda1", bs "../../devices/pci0/block/sda/sda1");
    (bs "/sys/class/block/sda2", bs "../../devices/pci0/block/sda/sda2") ].

Definition assoc (l : list (bytes * bytes)) (k : bytes) : error + bytes :=
  match list_find (fun e => e.1 = k) l with Some (_, (_, v)) => inr v | None => inl "no such file"%string end.

Definition demoMachine (sectors : bytes) : OS := {|
  os_mountinfo := inr (concat (map (fun e => printEntry e ++ [10]) demoEntries));
  os_evalSymlinks p := inr p;
  os_readFile := assoc (demoFiles sectors);
  os_readlink := assoc demoLinks;
  os_readDir _ := inr [bs "sda"; bs "sda1"; bs "sda2"];
  os_stat _ := inl "no such file"%string;
  os_blkSize _ := inl "no such file"%string;
|}.

#[local] Instance demoOS : OS := demoMachine (bs "2097160").

Definition demoMounts : list mountInfo := [mkMountInfo (bs "/fs-SP0-0") (bs "/dev/sda1"); mkMountInfo (bs "/mnt/fs-SP0-b b") (bs "/dev/sda1")].

Definition demoCandidates : list BlockDeviceCandidate :=
  [ mkCandidate (bs "fs-SP0-0") (bs "/fs-SP0-0") (bs "/dev/sda1") (bs "/dev/sda2") (bs "sda") 1073745920;
    mkCandidate (bs "fs-SP0-b b") (bs "/mnt/fs-SP0-b b") (bs "/dev/sda1") (bs "/dev/sda2") (bs "sda") 1073745920 ].

Lemma demoEntries_ok : Forall entry_ok demoEntries.
Proof.
  repeat constructor; try (vm_compute; discriminate); try (vm_compute; reflexivity);
    try (apply Forall_forall; intros x Hx; vm_compute in Hx; repeat (apply elem_of_cons in Hx as [->|Hx]; [split; done|]); by apply not_elem_of_nil in Hx).
Qed.

Lemma mountinfo_roundtrip_witness : readMountInfo = inr demoMounts.
Proof. exact (mountinfo_roundtrip demoEntries demoEntries_ok eq_refl). Defined.

Lemma demo_plain entries : os_readDir sysBlock = inr entries -> Forall plain_name entries.
Proof.
  intros [= <-]. repeat constructor; try done; vm_compute; intros H;
    repeat (apply elem_of_cons in H as [H|H]; [discriminate|]); by apply not_elem_of_nil in H.
Qed.

Lemma scan_correct_witness :
  ScanBlockDeviceCandidates = inr demoCandidates /\ Forall (candidate_ok demoMounts) demoCandidates /\ NoDup (map Lun demoCandidates).
Proof.
  assert (Hs : ScanBlockDeviceCandidates = inr demoCandidates) by (vm_compute; reflexivity).
  assert (Hm : readMountInfo = inr demoMounts) by (vm_compute; reflexivity).
  destruct (scan_correct demoMounts demoCandidates Hm Hs demo_plain) as (H1 & H2 & _).
  split; [exact Hs|split; [exact H1|exact H2]].
Defined.

(** The LUN, not the partition, decides what is a duplicate: one partition
    that is mounted under two names gives two candidates with the same data
    partition. *)
Theorem scan_shares_partition :
  exists cs c c', ScanBlockDeviceCandidates (O := demoOS) = inr cs /\ c ∈ cs /\ c' ∈ cs /\ Lun c <> Lun c' /\ DataPartition c = DataPartition c'.
Proof.
  eexists demoCandidates, _, _. split; [vm_compute; reflexivity|]. split; [left|]. split; [right; left|]. split; [discriminate|reflexivity].
Qed.
