(* ===== verification/Lifecycle.v ===== *)
(** * Opening and closing devices

    [OpenDataDB] and the [MSPebble] handle of
    [internal/database/pebble/ms_pebble.go], the registry of batch writers of
    [batch_pebble.go], [OpenPartitionBlockDevice] and [Close] of
    [internal/fs/block_device.go], and the registry of devices of
    [block_device_scan.go].

    The process state counts what is open: databases, batch processors, files
    and AIO contexts, each under a number of its own. *)

From stdpp Require Import base decidable list numbers option strings gmap.
From Stdlib Require Import ZArith Lia.
From S2P Require Import Prelude Words Bytes Moss MossJSON Allocator SpaceBitmap Pebble WriteBatch BatchPebble BlockDevice GoStrings DeviceScan GoAio.

(** ** The database handle *)

Definition errClosed : error := "MSPebble is closed"%string.
Definition errAlreadyClosed : error := "MSPebble already closed"%string.

Section handle.
Context `{PO : PebbleOps}.

(** A write of one key, which Pebble runs as a batch of its own. *)
Definition dbWrite (db : DB) (op : Batch -> error + Batch) : DB * option error :=
  match op (NewIndexedBatch db) with
  | inl e => (db, Some e)
  | inr b => BatchCommit db b
  end.

Definition ms_Get (closed : bool) (db : DB) (key : bytes) : error + option bytes :=
  if closed then inl errClosed else DBGet db key.

Definition ms_Set (closed : bool) (db : DB) (key value : bytes) : DB * option error :=
  if closed then (db, Some errClosed) else dbWrite db (fun b => BatchSet b key value).

Definition ms_Delete (closed : bool) (db : DB) (key : bytes) : DB * option error :=
  if closed then (db, Some errClosed) else dbWrite db (fun b => BatchDelete b key).

Definition ms_Merge (closed : bool) (db : DB) (key value : bytes) : DB * option error :=
  if closed then (db, Some errClosed) else dbWrite db (fun b => BatchMerge b key value).
End handle.

(** ** The process *)

Section process.
Context `{PO : PebbleOps} `{J : JSONDecoder} {T : Type} `{EA : ExtentAllocator T} `{O : OS}.

(** The parts of a [BlockDevice]: the model of its space, the numbers of its
    database handle, file and AIO context. *)
Record device := mkDevice { dv_block : @BlockDevice T; dv_lun : bytes; dv_db : nat; dv_file : nat; dv_aio : nat }.

(** [p_dbs] are the open databases with their paths, [p_stores] the contents
    on disk by path; [p_batchMap] maps a LUN to its batch processor. *)
Record process := mkProcess {
  p_next : nat;
  p_dbs : gmap nat bytes;
  p_procs : gset nat;
  p_files : gset nat;
  p_aios : gset nat;
  p_stores : gmap bytes DB;
  p_batchMap : gmap bytes nat;
  p_devices : gmap bytes device;
}.

Definition set_dbs (p : process) (v : gmap nat bytes) : process :=
  mkProcess (p_next p) v (p_procs p) (p_files p) (p_aios p) (p_stores p) (p_batchMap p) (p_devices p).
Definition set_files (p : process) (v : gset nat) : process :=
  mkProcess (p_next p) (p_dbs p) (p_procs p) v (p_aios p) (p_stores p) (p_batchMap p) (p_devices p).
Definition set_aios (p : process) (v : gset nat) : process :=
  mkProcess (p_next p) (p_dbs p) (p_procs p) (p_files p) v (p_stores p) (p_batchMap p) (p_devices p).
Definition set_stores (p : process) (v : gmap bytes DB) : process :=
  mkProcess (p_next p) (p_dbs p) (p_procs p) (p_files p) (p_aios p) v (p_batchMap p) (p_devices p).
Definition set_batches (p : process) (procs : gset nat) (v : gmap bytes nat) : process :=
  mkProcess (p_next p) (p_dbs p) procs (p_files p) (p_aios p) (p_stores p) v (p_devices p).
Definition set_devices (p : process) (v : gmap bytes device) : process :=
  mkProcess (p_next p) (p_dbs p) (p_procs p) (p_files p) (p_aios p) (p_stores p) (p_batchMap p) v.
Definition fresh (p : process) : process * nat :=
  (mkProcess (S (p_next p)) (p_dbs p) (p_procs p) (p_files p) (p_aios p) (p_stores p) (p_batchMap p) (p_devices p), p_next p).

(** What the calls that can fail answer while a device is opened:
    [os.MkdirAll], [pebble.Open], [unix.Open], [io_setup]; [oe_new] is a new
    database and [oe_left] what a failed formatting left in it. *)
Record openEnv := mkOpenEnv {
  oe_mkdir : option error; oe_pebble : option error; oe_open : option error; oe_stat : Z + Z; oe_setup : Z;
  oe_new : DB; oe_left : DB -> DB }.

(** What closing answers. *)
Record closeEnv := mkCloseEnv { ce_db : option error; ce_aio : option error }.

Definition PebbleDirName : bytes := bs "pepple".

Definition errLocked : error := "lock held by current process"%string.
Definition errAio : error := "aio"%string.

(** The path is locked while it is open. *)
Definition OpenDataDB (env : openEnv) (p : process) (mountDir : bytes) : process * (error + nat) :=
  let path := Join [mountDir; PebbleDirName] in
  match oe_mkdir env with
  | Some e => (p, inl e)
  | None =>
      if decide (path ∈ (map_to_list (p_dbs p)).*2) then (p, inl errLocked)
      else
        match oe_pebble env with
        | Some e => (p, inl e)
        | None =>
            let '(p, id) := fresh p in
            (set_dbs p (<[id := path]> (p_dbs p)), inr id)
        end
  end.

(** [MSPebble.Close]: a handle is closed when its number is gone. *)
Definition closeDB (env : closeEnv) (p : process) (id : nat) : process * option error :=
  match p_dbs p !! id with
  | None => (p, Some errAlreadyClosed)
  | Some _ => (set_dbs p (base.delete id (p_dbs p)), ce_db env)
  end.

(** [batchMap.Store] replaces a writer that is already there. *)
Definition AddDataBatch (p : process) (lun : bytes) : process :=
  let '(p, id) := fresh p in
  set_batches p (p_procs p ∪ {[id]}) (<[lun := id]> (p_batchMap p)).

(** [stop] waits until the processor has returned. *)
Definition RemoveBatch (p : process) (lun : bytes) : process :=
  match p_batchMap p !! lun with
  | None => p
  | Some id => set_batches p (p_procs p ∖ {[id]}) (base.delete lun (p_batchMap p))
  end.

(** The [closeDB] closure of [OpenPartitionBlockDevice]. *)
Definition closeFunc (env : closeEnv) (p : process) (lun : bytes) (db : nat) : process * option error :=
  closeDB env (RemoveBatch p lun) db.

Definition storeAt (env : openEnv) (p : process) (path : bytes) : DB := default (oe_new env) (p_stores p !! path).

(** The rest of [newBlockDevice]; [None] is a panic. *)
Definition newDevice (env : openEnv) (cenv : closeEnv) (p : process) (lun mountDir : bytes) (file db : nat) (size : Z)
    : option (process * (error + device)) :=
  let path := Join [mountDir; PebbleDirName] in
  let fail p e := Some ((closeFunc cenv (set_files p (p_files p ∖ {[file]})) lun db).1, inl e) in
  r ← newBlockDevice (strOf lun) size (storeAt env p path);
  match r with
  | inl e => fail (set_stores p (<[path := oe_left env (storeAt env p path)]> (p_stores p))) e
  | inr (d, store) =>
      let p := set_stores p (<[path := store]> (p_stores p)) in
      match GoAio.New 1024 (oe_stat env) (oe_setup env) with
      | inl _ => fail p errAio
      | inr _ =>
          let '(p, aio) := fresh p in
          Some (set_aios p (p_aios p ∪ {[aio]}), inr (mkDevice d lun db file aio))
      end
  end.

Definition errBadSize : error := "invalid block device size"%string.
Definition errSmall : error := "smaller than one block"%string.

Definition OpenPartitionBlockDevice (env : openEnv) (cenv : closeEnv) (p : process) (lun mountDir dataPath : bytes)
    : option (process * (error + device)) :=
  match blockDeviceSize dataPath with
  | inl e => Some (p, inl e)
  | inr size =>
      if size <=? 0 then Some (p, inl errBadSize)
      else
        let size := i64 (size ÷ BlockSize * BlockSize) in
        if size =? 0 then Some (p, inl errSmall)
        else
          let '(p, r) := OpenDataDB env p mountDir in
          match r with
          | inl e => Some (p, inl e)
          | inr db =>
              let p := AddDataBatch p lun in
              match oe_open env with
              | Some e => Some ((closeFunc cenv p lun db).1, inl e)
              | None =>
                  let '(p, file) := fresh p in
                  newDevice env cenv (set_files p (p_files p ∪ {[file]})) lun mountDir file db size
              end
          end
  end.

(** [BlockDevice.Close]: closing the channel closes the AIO context, and with
    it the file. *)
Definition Close (cenv : closeEnv) (p : process) (d : device) : process * option error :=
  let '(p, err) :=
    if decide (dv_aio d ∈ p_aios p) then
      (set_files (set_aios p (p_aios p ∖ {[dv_aio d]})) (p_files p ∖ {[dv_file d]}), ce_aio cenv)
    else (p, None) in
  let '(p, closeErr) := closeFunc cenv p (dv_lun d) (dv_db d) in
  (p, match err with None => closeErr | Some e => Some e end).

(** ** The registry of devices *)

Definition Get (p : process) (lun : bytes) : option device := p_devices p !! lun.

Definition Remove (cenv : closeEnv) (p : process) (lun : bytes) : process * option error :=
  match p_devices p !! lun with
  | None => (p, None)
  | Some d => Close cenv (set_devices p (base.delete lun (p_devices p))) d
  end.

(** The loop of [Init], with the errors joined. *)
Fixpoint initLoop (env : bytes -> openEnv) (cenv : closeEnv) (p : process) (testMountdir : bytes) (cs : list BlockDeviceCandidate)
    (errs : list error) : option (process * list error) :=
  match cs with
  | [] => Some (p, errs)
  | c :: cs =>
      if bool_decide (testMountdir <> []) && bool_decide (MountDir c <> testMountdir) then initLoop env cenv p testMountdir cs errs
      else
        match p_devices p !! Lun c with
        | Some _ => initLoop env cenv p testMountdir cs errs
        | None =>
            '(p, r) ← OpenPartitionBlockDevice (env (Lun c)) cenv p (Lun c) (MountDir c) (DataPartition c);
            match r with
            | inl e => initLoop env cenv p testMountdir cs (errs ++ [e])
            | inr d => initLoop env cenv (set_devices p (<[Lun c := d]> (p_devices p))) testMountdir cs errs
            end
        end
  end.

Definition Init (env : bytes -> openEnv) (cenv : closeEnv) (p : process) (testMountdir : bytes) : option (process * list error) :=
  match ScanBlockDeviceCandidates with
  | inl e => Some (p, [e])
  | inr cs => initLoop env cenv p testMountdir cs []
  end.
End process.
