(* ===== verification/LifecycleThms.v ===== *)
(** * Theorems of opening and closing

    Whatever fails while devices are opened and closed, the process holds
    exactly the resources of its registered devices. *)

From stdpp Require Import base decidable list numbers option strings gmap relations.
From Stdlib Require Import ZArith Lia.
From S2P Require Import Prelude Words Bytes Moss MossJSON Allocator SpaceBitmap Pebble WriteBatch BatchPebble BlockDevice GoStrings DeviceScan DeviceScanThms BatchThms Lifecycle.

Abbreviation delete := base.delete.

(** ** Registries *)

Section registry.
Context {V : Type}.
Implicit Types (m : gmap bytes V) (X : gset nat).

(** [X] holds the number [f] gives for the entries of [m], and no other. *)
Definition owners (f : V -> nat) m X : Prop := forall id, id ∈ X <-> exists k v, m !! k = Some v /\ f v = id.

(** Different entries have different numbers. *)
Definition distinct (ns : V -> list nat) m : Prop :=
  forall k k' v v' id, m !! k = Some v -> m !! k' = Some v' -> id ∈ ns v -> id ∈ ns v' -> k = k'.

Lemma owners_insert f m X k v : m !! k = None -> owners f m X -> owners f (<[k := v]> m) (X ∪ {[f v]}).
Proof.
  intros Hk HX id. rewrite elem_of_union, elem_of_singleton, (HX id). split.
  - intros [(l & w & Hl & Hf)| ->]; [|exists k, v; by rewrite lookup_insert_eq]. exists l, w. rewrite lookup_insert_ne; [done|]. congruence.
  - intros (l & w & Hl & Hf). destruct (decide (l = k)) as [->|Hne].
    + rewrite lookup_insert_eq in Hl. injection Hl as <-. by right.
    + rewrite lookup_insert_ne in Hl by done. left. eauto.
Qed.

Lemma owners_delete f ns m X k v :
  (forall w, f w ∈ ns w) -> distinct ns m -> m !! k = Some v -> owners f m X -> owners f (delete k m) (X ∖ {[f v]}).
Proof.
  intros Hf HD Hk HX id. rewrite elem_of_difference, elem_of_singleton, (HX id). split.
  - intros [(l & w & Hl & Hw) Hne]. exists l, w. rewrite lookup_delete_ne; [done|]. intros <-. congruence.
  - intros (l & w & Hl & Hw). destruct (decide (l = k)) as [->|Hne]; [by rewrite lookup_delete_eq in Hl|].
    rewrite lookup_delete_ne in Hl by done. split; [eauto|]. intros ->. apply Hne. eapply (HD _ _ _ _ (f v)); [exact Hl|exact Hk|rewrite <- Hw; apply Hf|apply Hf].
Qed.

Lemma distinct_insert ns m k v :
  distinct ns m -> (forall k' v' id, m !! k' = Some v' -> id ∈ ns v' -> id ∉ ns v) -> distinct ns (<[k := v]> m).
Proof.
  intros HD Hnew l l' w w' id. destruct (decide (l = k)) as [->|Hl], (decide (l' = k)) as [->|Hl'];
    rewrite ?lookup_insert_eq, ?lookup_insert_ne by done; intros Hw Hw' Hid Hid'; try done.
  - injection Hw as <-. by destruct (Hnew _ _ _ Hw' Hid').
  - injection Hw' as <-. by destruct (Hnew _ _ _ Hw Hid).
  - by eapply HD.
Qed.

Lemma distinct_delete ns m k : distinct ns m -> distinct ns (delete k m).
Proof.
  intros HD l l' w w' id Hw Hw'. apply lookup_delete_Some in Hw as [_ Hw]. apply lookup_delete_Some in Hw' as [_ Hw']. by eapply HD.
Qed.
End registry.

Lemma add_remove (X : gset nat) n : n ∉ X -> (X ∪ {[n]}) ∖ {[n]} = X.
Proof.
  intros. apply set_eq. intros x. rewrite elem_of_difference, elem_of_union, elem_of_singleton.
  split; [tauto|]. intros Hx. split; [by left|by intros ->].
Qed.

Section lifecycle.
Context `{PO : PebbleOps} `{J : JSONDecoder} {T : Type} `{EA : ExtentAllocator T} `{O : OS}.
Implicit Types (p : process (T := T)) (d : device (T := T)).

(** ** Ownership *)

(** A number in use is below the next fresh one. *)
Definition numbers_old p : Prop :=
  forall id, id ∈ dom (p_dbs p) \/ id ∈ p_procs p \/ id ∈ p_files p \/ id ∈ p_aios p -> (id < p_next p)%nat.

Definition device_numbers d : list nat := [dv_db d; dv_file d; dv_aio d].

(** Every open resource belongs to one registered device, and a registered
    device has its database, its batch processor, its file and its AIO context
    open. *)
Record owned p : Prop := {
  ow_old : numbers_old p;
  ow_dbs : owners dv_db (p_devices p) (dom (p_dbs p));
  ow_files : owners dv_file (p_devices p) (p_files p);
  ow_aios : owners dv_aio (p_devices p) (p_aios p);
  ow_procs : owners id (p_batchMap p) (p_procs p);
  ow_batch : dom (p_batchMap p) = dom (p_devices p);
  ow_lun : map_Forall (fun lun d => dv_lun d = lun) (p_devices p);
  ow_distinct : distinct device_numbers (p_devices p);
  ow_processor : distinct (fun id => [id]) (p_batchMap p);
}.

(** The same resources are open and registered. *)
Record same_resources p p' : Prop := {
  sr_next : (p_next p <= p_next p')%nat;
  sr_dbs : p_dbs p' = p_dbs p;
  sr_procs : p_procs p' = p_procs p;
  sr_files : p_files p' = p_files p;
  sr_aios : p_aios p' = p_aios p;
  sr_batchMap : p_batchMap p' = p_batchMap p;
  sr_devices : p_devices p' = p_devices p;
}.

Lemma same_resources_refl p : same_resources p p.
Proof. done. Qed.

Lemma owned_same p p' : same_resources p p' -> owned p -> owned p'.
Proof.
  intros [Hn E1 E2 E3 E4 E5 E6] [H1 H2 H3 H4 H5 H6 H7 H8 H9]. split; rewrite ?E1, ?E2, ?E3, ?E4, ?E5, ?E6; try done.
  intros id. rewrite E1, E2, E3, E4. intros H. specialize (H1 id H). lia.
Qed.

(** ** Opening *)

(** The process once the database is open, the batch writer registered and
    the file open, and what undoing it gives. *)
Lemma closeFunc_undoes cenv p q lun path :
  owned p -> p_devices p !! lun = None ->
  p_dbs q = <[p_next p := path]> (p_dbs p) -> p_procs q = p_procs p ∪ {[S (p_next p)]} -> p_batchMap q = <[lun := S (p_next p)]> (p_batchMap p) ->
  (p_next p <= p_next q)%nat -> p_files q = p_files p -> p_aios q = p_aios p -> p_devices q = p_devices p ->
  same_resources p (closeFunc cenv q lun (p_next p)).1.
Proof.
  intros HO Hlun E1 E2 E3 E4 E5 E6 E7. unfold closeFunc, closeDB, RemoveBatch. rewrite E3, lookup_insert_eq.
  cbn [p_dbs set_batches]. rewrite E1, lookup_insert_eq. pose proof (ow_old _ HO) as Hold.
  assert (Hb : p_batchMap p !! lun = None) by (apply not_elem_of_dom; rewrite (ow_batch _ HO); by apply not_elem_of_dom).
  split; cbn; try done.
  - rewrite ?E1. apply delete_insert_id. apply not_elem_of_dom. intros Hin. specialize (Hold (p_next p) ltac:(auto)). lia.
  - rewrite ?E2. apply add_remove. intros Hin. specialize (Hold (S (p_next p)) ltac:(auto)). lia.
  - rewrite ?E3. by apply delete_insert_id.
Qed.

(** The result of a successful opening: four new numbers. *)
Record opened p p' (lun path : bytes) d : Prop := {
  op_next : p_next p' = (p_next p + 4)%nat;
  op_dbs : p_dbs p' = <[p_next p := path]> (p_dbs p);
  op_procs : p_procs p' = p_procs p ∪ {[S (p_next p)]};
  op_files : p_files p' = p_files p ∪ {[S (S (p_next p))]};
  op_aios : p_aios p' = p_aios p ∪ {[S (S (S (p_next p)))]};
  op_batchMap : p_batchMap p' = <[lun := S (p_next p)]> (p_batchMap p);
  op_devices : p_devices p' = p_devices p;
  op_device : dv_lun d = lun /\ dv_db d = p_next p /\ dv_file d = S (S (p_next p)) /\ dv_aio d = S (S (S (p_next p)));
}.

Lemma newDevice_spec env cenv p q lun mountDir path size p' r :
  owned p -> p_devices p !! lun = None ->
  p_dbs q = <[p_next p := path]> (p_dbs p) -> p_procs q = p_procs p ∪ {[S (p_next p)]} -> p_batchMap q = <[lun := S (p_next p)]> (p_batchMap p) ->
  p_next q = S (S (S (p_next p))) -> p_files q = p_files p ∪ {[S (S (p_next p))]} -> p_aios q = p_aios p -> p_devices q = p_devices p ->
  newDevice env cenv q lun mountDir (S (S (p_next p))) (p_next p) size = Some (p', r) ->
  match r with
  | inl _ => same_resources p p'
  | inr d => opened p p' lun path d
  end.
Proof.
  intros HO Hlun E1 E2 E3 E4 E5 E6 E7. unfold newDevice. generalize (GoAio.New 1024 (oe_stat env) (oe_setup env)) as an. intros an.
  assert (Hfile : S (S (p_next p)) ∉ p_files p) by (intros Hin; pose proof (ow_old _ HO (S (S (p_next p))) ltac:(auto)); lia).
  assert (Hfail : forall st, same_resources p
    (closeFunc cenv (set_files (set_stores q st) (p_files (set_stores q st) ∖ {[S (S (p_next p))]})) lun (p_next p)).1).
  { intros st. apply closeFunc_undoes with path; cbn; try done; [lia|]. rewrite E5. by apply add_remove. }
  destruct (newBlockDevice _ _ _) as [[e|[blk store]]|]; go_step; [| |done].
  { intros E. injection E as <- <-. apply Hfail. }
  destruct an as [e|a]; intros E; injection E as <- <-; [apply Hfail|]. split; cbn; rewrite ?E4, ?E6; try done. lia.
Qed.

Lemma OpenPartition_spec env cenv p lun mountDir dataPath p' r :
  owned p -> p_devices p !! lun = None ->
  OpenPartitionBlockDevice env cenv p lun mountDir dataPath = Some (p', r) ->
  match r with
  | inl _ => same_resources p p'
  | inr d => opened p p' lun (Join [mountDir; PebbleDirName]) d
  end.
Proof.
  intros HO Hlun. unfold OpenPartitionBlockDevice, OpenDataDB. set (path := Join [mountDir; PebbleDirName]).
  destruct (blockDeviceSize dataPath) as [e|size]; [intros E; injection E as <- <-; apply same_resources_refl|].
  case_bool; [intros E; injection E as <- <-; apply same_resources_refl|]. case_bool; [intros E; injection E as <- <-; apply same_resources_refl|].
  destruct (oe_mkdir env); [intros E; injection E as <- <-; apply same_resources_refl|].
  case_decide; [intros E; injection E as <- <-; apply same_resources_refl|].
  destruct (oe_pebble env); [intros E; injection E as <- <-; apply same_resources_refl|].
  cbn [fresh]. destruct (oe_open env) as [e|].
  - intros E. injection E as <- <-. apply closeFunc_undoes with path; try done; cbn; lia.
  - cbn [fresh AddDataBatch]. apply newDevice_spec; done.
Qed.

(** The numbers of a registered device are in use. *)
Lemma device_old p lun d id : owned p -> p_devices p !! lun = Some d -> id ∈ device_numbers d -> (id < p_next p)%nat.
Proof.
  intros HO Hd Hid. apply (ow_old _ HO). unfold device_numbers in Hid. rewrite !elem_of_cons in Hid.
  destruct Hid as [->|[->|[->|Hid]]]; [| | |by apply not_elem_of_nil in Hid].
  - left. apply (ow_dbs _ HO). eauto.
  - right. right. left. apply (ow_files _ HO). eauto.
  - right. right. right. apply (ow_aios _ HO). eauto.
Qed.

(** A new device brings its resources along. *)
Lemma owned_open p p' lun path d :
  owned p -> p_devices p !! lun = None -> opened p p' lun path d -> owned (set_devices p' (<[lun := d]> (p_devices p'))).
Proof.
  intros HO Hlun [E1 E2 E3 E4 E5 E6 E7 (D1 & D2 & D3 & D4)]. pose proof HO as [H1 H2 H3 H4 H5 H6 H7 H8 H9].
  assert (Hb : p_batchMap p !! lun = None) by (apply not_elem_of_dom; rewrite H6; by apply not_elem_of_dom).
  split; cbn; rewrite ?E1, ?E2, ?E3, ?E4, ?E5, ?E6, ?E7.
  - intros id. cbn. rewrite E1, E2, E3, E4, E5, dom_insert, !elem_of_union, !elem_of_singleton. intros H.
    assert (id < p_next p \/ p_next p <= id < p_next p + 4)%nat; [|lia].
    destruct H as [[->|H]|[[H| ->]|[[H| ->]|[H| ->]]]]; try (right; lia); left; apply H1; auto.
  - rewrite dom_insert_L, union_comm_L, <- D2. by apply owners_insert.
  - rewrite <- D3. by apply owners_insert.
  - rewrite <- D4. by apply owners_insert.
  - by apply (owners_insert id).
  - by rewrite !dom_insert_L, H6.
  - by apply map_Forall_insert_2.
  - apply distinct_insert; [done|]. intros k' d' id Hd Hid Hin. pose proof (device_old _ _ _ _ HO Hd Hid).
    unfold device_numbers in Hin. rewrite D2, D3, D4, !elem_of_cons in Hin. destruct Hin as [->|[->|[->|Hin]]]; [lia..|by apply not_elem_of_nil in Hin].
  - apply distinct_insert; [done|]. intros k' w id Hw Hid Hin. apply list_elem_of_singleton in Hid, Hin. subst.
    assert (S (p_next p) < p_next p)%nat by (apply H1; right; left; apply H5; eauto). lia.
Qed.

(** ** Closing *)

Lemma owned_remove cenv p lun p' err :
  owned p -> Remove cenv p lun = (p', err) -> owned p' /\ p_devices p' = delete lun (p_devices p).
Proof.
  intros HO. pose proof HO as [H1 H2 H3 H4 H5 H6 H7 H8 H9]. unfold Remove. destruct (p_devices p !! lun) as [d|] eqn:Ed.
  2:{ intros [= <- <-]. split; [done|]. by rewrite delete_id. }
  assert (Haio : dv_aio d ∈ p_aios p) by (apply H4; eauto).
  assert (Hdb : dv_db d ∈ dom (p_dbs p)) by (apply H2; eauto). apply elem_of_dom in Hdb as [path Hdb].
  assert (Hl : dv_lun d = lun) by (by apply (H7 lun d)).
  assert (Hbatch : is_Some (p_batchMap p !! lun)) by (apply elem_of_dom; rewrite H6; apply elem_of_dom; eauto). destruct Hbatch as [pr Hpr].
  unfold Close, closeFunc, closeDB, RemoveBatch. cbn [p_aios set_devices]. rewrite decide_True by done.
  rewrite Hl. cbn. rewrite Hpr. cbn. rewrite Hdb. intros [= <- <-]. split; [|done].
  assert (Hin : forall (f : device -> nat), f = dv_db \/ f = dv_file \/ f = dv_aio -> forall w, f w ∈ device_numbers w)
    by (intros f [->|[->| ->]] w; unfold device_numbers; rewrite !elem_of_cons; auto).
  split; cbn.
  - intros id. cbn. rewrite dom_delete, !elem_of_difference. intros H. apply H1. tauto.
  - rewrite dom_delete_L. apply (owners_delete _ device_numbers); auto.
  - apply (owners_delete _ device_numbers); auto.
  - apply (owners_delete _ device_numbers); auto.
  - apply (owners_delete (fun x => x) (fun x => [x])); [intros w; by left|done|done|done].
  - by rewrite !dom_delete_L, H6.
  - by apply map_Forall_delete.
  - by apply distinct_delete.
  - by apply distinct_delete.
Qed.

(** ** Runs *)

Lemma initLoop_owned env cenv dir cs : forall p errs p' errs',
  owned p -> initLoop env cenv p dir cs errs = Some (p', errs') ->
  owned p' /\ (forall lun d, p_devices p !! lun = Some d -> p_devices p' !! lun = Some d).
Proof.
  induction cs as [|c cs IH]; intros p errs p' errs' HO; cbn [initLoop]; [by intros [= <- <-]|].
  case_bool; [by apply IH|]. destruct (p_devices p !! Lun c) as [d|] eqn:Ed; [by apply IH|].
  destruct (OpenPartitionBlockDevice _ _ _ _ _ _) as [[p1 r]|] eqn:Eo; go_step; [|done].
  apply OpenPartition_spec in Eo; [|done|done]. destruct r as [e|d]; intros E.
  - destruct (IH _ _ _ _ (owned_same _ _ Eo HO) E) as [R1 R2]. split; [done|]. intros lun d Hd. apply R2. by rewrite (sr_devices _ _ Eo).
  - destruct (IH _ _ _ _ (owned_open _ _ _ _ _ HO Ed Eo) E) as [R1 R2]. split; [done|]. intros lun d0 Hd. apply R2. cbn.
    rewrite (op_devices _ _ _ _ _ Eo), lookup_insert_ne; [done|]. congruence.
Qed.

(** The calls a program makes: [Init] and [Remove], in any order. *)
Inductive life_step : process (T := T) -> process (T := T) -> Prop :=
  | life_init env cenv p dir p' errs : Init env cenv p dir = Some (p', errs) -> life_step p p'
  | life_remove cenv p lun p' err : Remove cenv p lun = (p', err) -> life_step p p'.

Definition startProcess : process (T := T) := mkProcess 0 ∅ ∅ ∅ ∅ ∅ ∅ ∅.

Lemma startProcess_owned : owned startProcess.
Proof.
  split; try done; cbn; intros id; [|split; [by intros ?%not_elem_of_empty|intros (k & v & Hk & _); done]..].
  cbn. intros [H|[H|[H|H]]]; by apply not_elem_of_empty in H.
Qed.

Lemma life_owned p p' : rtc life_step p p' -> owned p -> owned p'.
Proof.
  induction 1 as [|x y z Hs _ IH]; [done|]. intros HO. apply IH. clear IH.
  destruct Hs as [env cenv q dir q' errs E|cenv q lun q' err E]; [|by eapply owned_remove].
  unfold Init in E. destruct ScanBlockDeviceCandidates as [e|cs]; [by injection E as <- <-|]. by eapply initLoop_owned.
Qed.

(** C34: Nothing leaks.  However [Init] and [Remove] are called and whichever
    of the steps of opening and closing fail, the open databases, batch
    processors, files and AIO contexts are exactly those of the registered
    devices, each belonging to one device; so a device that failed to open has
    left nothing behind, and a program that has removed its devices holds
    nothing. *)
Theorem resources_owned p :
  rtc life_step startProcess p -> owned p /\
  (p_devices p = ∅ -> p_dbs p = ∅ /\ p_procs p = ∅ /\ p_files p = ∅ /\ p_aios p = ∅ /\ p_batchMap p = ∅).
Proof.
  intros HR. assert (HO : owned p) by (eapply life_owned; [exact HR|apply startProcess_owned]). split; [done|]. intros E.
  assert (Hempty : forall f X, owners f (p_devices p) X -> X = ∅).
  { intros f X HX. apply set_eq. intros id. rewrite (HX id), E. split; [intros (k & v & Hk & _); done|by intros ?%not_elem_of_empty]. }
  pose proof (ow_batch _ HO) as Hb. rewrite E, dom_empty_L in Hb. apply dom_empty_iff_L in Hb. split_and!; try done.
  - eapply dom_empty_iff_L, Hempty, HO.
  - apply set_eq. intros id. rewrite (ow_procs _ HO id), Hb. split; [intros (k & v & Hk & _); done|by intros ?%not_elem_of_empty].
  - eapply Hempty, HO.
  - eapply Hempty, HO.
Qed.
End lifecycle.

(** ** A concrete run *)

#[local] Existing Instances MemStore.ops MemStore.laws.
#[local] Existing Instance demoDecoder.
#[local] Instance demoSmall : OS := demoMachine (bs "80").

Definition demoOpen : openEnv := mkOpenEnv None None None (inr 0) 0 (∅ : @DB MemStore.ops) (fun db => db).
Definition demoClose : closeEnv := mkCloseEnv None None.

(** The second candidate fails to open its file. *)
Definition demoEnv (lun : bytes) : openEnv :=
  if decide (lun = bs "fs-SP0-0") then demoOpen
  else mkOpenEnv None None (Some "device busy"%string) (inr 0) 0 (∅ : @DB MemStore.ops) (fun db => db).

Definition demoInit : option (process (T := AllocatorV3) * list error) := Init demoEnv demoClose startProcess [].

Lemma resources_owned_witness :
  exists p errs, demoInit = Some (p, errs) /\ owned p /\ size (p_devices p) = 1%nat /\ size (p_files p) = 1%nat /\ errs = ["device busy"%string].
Proof.
  assert (Ev : match demoInit with
    | Some (p, errs) => bool_decide (size (p_devices p) = 1%nat /\ size (p_files p) = 1%nat /\ errs = ["device busy"%string])
    | None => false end = true) by (vm_compute; reflexivity).
  destruct demoInit as [[p errs]|] eqn:E; [|discriminate]. apply bool_decide_eq_true in Ev. exists p, errs. split; [reflexivity|].
  split; [|exact Ev]. apply (resources_owned p). apply rtc_once. exact (life_init demoEnv demoClose startProcess [] p errs E).
Defined.
