(* ===== verification/Client.v ===== *)
(** * The upload client and the wire format

    [cmd/aio_upload_client]: [uploadOnce] with the payloads of an upload and
    the check of the server's answers, the generated names and data; and [DecodePayload] and
    [EncodePayload] of [internal/network/rsocket/payload.go], which the server
    puts between the wire and a session. *)

From stdpp Require Import base decidable list numbers option strings gmap.
From Stdlib Require Import ZArith Lia.
From S2P Require Import Prelude Words Bytes Moss Allocator Pebble WriteBatch BatchPebble BlockDevice AioChannel Upload RSocket GoStrings.

(** ** The wire *)

(** An RSocket payload; the metadata may be missing. *)
Record wire := mkWire { wire_data : bytes; wire_meta : option bytes }.

Definition errMissingMeta : error := "missing payload metadata"%string.

Definition DecodePayload (p : wire) : error + RequestPayload :=
  match wire_meta p with
  | None => inl errMissingMeta
  | Some meta =>
      match TrimSpace meta with
      | [] => inl errMissingMeta
      | t => inr (mkRequestPayload (strOf t) (wire_data p))
      end
  end.

Definition EncodePayload (resp : ResponsePayload) : wire :=
  mkWire (match resp_Err resp with Some e => bs e | None => [] end) (Some (bs (resp_MetaType resp))).

(** ** Names *)

Definition hexDigit (n : Z) : Z := if n <? 10 then 48 + n else 87 + n.

(** [hex.Encode]. *)
Definition hexEncode (b : bytes) : bytes := concat (map (fun c => [hexDigit (c / 16); hexDigit (c mod 16)]) b).

(** [rnd] is what [rand.Read] puts into the sixteen bytes, or its error. *)
Definition newUUIDV4 (rnd : error + bytes) : error + bytes :=
  match rnd with
  | inl e => inl e
  | inr b =>
      let b := alter (fun c => Z.lor (Z.land c 15) 64) 6%nat b in
      let b := alter (fun c => Z.lor (Z.land c 63) 128) 8%nat b in
      let part lo n := hexEncode (take n (drop lo b)) in
      inr (part 0%nat 4%nat ++ [45] ++ part 4%nat 2%nat ++ [45] ++ part 6%nat 2%nat ++ [45] ++ part 8%nat 2%nat ++ [45] ++ part 10%nat 6%nat)
  end.

(** [%d] of an [int64]. *)
Definition sprintfD (n : Z) : bytes := if n <? 0 then 45 :: decimal 19 (Z.abs n) else decimal 19 n.

(** ** Payloads *)

(** The fields of [config] an upload uses. *)
Record config := mkConfig { cfg_lun : string; cfg_blockSize : Z; cfg_chunks : Z; cfg_metaPrefix : bytes }.

(** [proto.Marshal] of a [pb.PutInitRequest]. *)
Class ProtoMarshalInit := MarshalPutInit : PutInitRequest -> error + bytes.

Section client.
Context `{MI : ProtoMarshalInit}.

(** The request of upload [id]; [now] is the clock in nanoseconds. *)
Definition startRequest (cfg : config) (id now : Z) (uuid : bytes) : PutInitRequest :=
  mkPutInitRequest (cfg_lun cfg) (bs "/9698_bk1_" ++ uuid) (cfg_metaPrefix cfg ++ [45] ++ sprintfD now ++ [45] ++ sprintfD id) false.

Definition encodeStartPayloadProtoBuf (cfg : config) (id now : Z) (rnd : error + bytes) : error + bytes :=
  match newUUIDV4 rnd with
  | inl e => inl ("generate uuid: " +:+ e)%string
  | inr uuid =>
      match MarshalPutInit (startRequest cfg id now uuid) with
      | inl e => inl ("marshal PutInitRequest: " +:+ e)%string
      | inr data => inr data
      end
  end.

Definition encodePutAndCompletePayload (start : PutInitRequest) (body : bytes) : error + bytes :=
  match MarshalPutInit start with
  | inl e => inl ("marshal PutInitRequest: " +:+ e)%string
  | inr startBytes => inr (le_bytes 8 (zlen startBytes) ++ startBytes ++ body)
  end.
End client.

(** One round of the generator. *)
Definition patternStep (x : Z) : Z :=
  let x := Z.lxor x (Z.shiftr x 12) in
  let x := Z.lxor x (shl64 x 25) in
  Z.lxor x (Z.shiftr x 27).

Fixpoint patternFrom (n : nat) (x : Z) : bytes :=
  match n with
  | O => []
  | S n => let x := patternStep x in Z.shiftr (u64 (x * 2685821657736338717)) 56 :: patternFrom n x
  end.

(** [None] is the panic of a negative length. *)
Definition makePattern (size seed : Z) : option bytes :=
  if size <? 0 then None
  else Some (patternFrom (Z.to_nat size) (u64 (u64 (seed * 11400714819323198485) + 15111065706836454659))).

Definition chunkData (cfg : config) (id chunk : Z) : option bytes :=
  makePattern (cfg_blockSize cfg) (u64 (id * cfg_chunks cfg + chunk)).

(** The loop of the sending flux over the chunks [cs], and what follows it;
    [ctx] is what the flux's context answers before each chunk.  The payloads
    given to the sink, and the error the sink ends with, if any. *)
Fixpoint sendChunks (ctx : Z -> option error) (cfg : config) (id : Z) (cs : list Z) : option (list wire * option error) :=
  match cs with
  | [] => Some ([mkWire [] (Some (bs CompletePutObject))], None)
  | chunk :: cs =>
      match ctx chunk with
      | Some err => Some ([], Some err)
      | None =>
          data ← chunkData cfg id chunk;
          '(ps, err) ← sendChunks ctx cfg id cs;
          Some (mkWire data (Some (bs PutObject)) :: ps, err)
      end
  end.

Definition uploadSend (ctx : Z -> option error) (cfg : config) (id : Z) (startData : bytes) : option (list wire * option error) :=
  '(ps, err) ← sendChunks ctx cfg id (seqZ 0 (cfg_chunks cfg));
  Some (mkWire startData (Some (bs StartPutObject)) :: ps, err).

(** ** Checking the answers *)

Definition errNoMeta : error := "response missing metadata"%string.
Definition errServer (text : bytes) : error := ("server error: " +:+ strOf text)%string.
Definition errCount : error := "unexpected number of responses"%string.
Definition errWant : error := "unexpected response"%string.

(** The first loop: no answer without metadata, none an error. *)
Fixpoint checkErrors (responses : list wire) : option error :=
  match responses with
  | [] => None
  | r :: responses =>
      match wire_meta r with
      | None => Some errNoMeta
      | Some meta => if decide (meta = bs Error) then Some (errServer (wire_data r)) else checkErrors responses
      end
  end.

Definition metaIs (r : wire) (s : string) : bool := bool_decide (default [] (wire_meta r) = bs s).

(** The checks of [uploadOnce] on the answers; [None] is the nil error. *)
Definition checkResponses (cfg : config) (responses : list wire) : option error :=
  match checkErrors responses with
  | Some e => Some e
  | None =>
      if negb (zlen responses =? cfg_chunks cfg + 1) then Some errCount
      else if negb (forallb (fun r => metaIs r Continue) (take (Z.to_nat (cfg_chunks cfg)) responses)) then Some errWant
      else match last responses with
      | Some r => if metaIs r Success then None else Some errWant
      | None => Some errWant
      end
  end.

Section upload.
Context `{MI : ProtoMarshalInit}.

Definition errChannel (e : error) : error := ("request channel: " +:+ e)%string.

(** [channel] is [client.RequestChannel(send).BlockSlice(ctx)] of the rsocket
    library: the answers to what was sent, or the error of the connection or
    of the context.  [None] is a panic. *)
Definition uploadOnce (ctx : Z -> option error) (channel : list wire * option error -> error + list wire) (cfg : config) (id now : Z)
    (rnd : error + bytes) : option (option error) :=
  match encodeStartPayloadProtoBuf cfg id now rnd with
  | inl err => Some (Some err)
  | inr startData =>
      send ← uploadSend ctx cfg id startData;
      match channel send with
      | inl err => Some (Some (errChannel err))
      | inr responses => Some (checkResponses cfg responses)
      end
  end.
End upload.
