(* ===== verification/ClientThms.v ===== *)
(** * Theorems of the upload client

    The client and the server together: what the client reports is what the
    server did, and the names it generates do not collide. *)

From stdpp Require Import base decidable list numbers option strings gmap.
From Stdlib Require Import ZArith Lia.
From S2P Require Import Prelude Words Bytes Moss MossJSON MossThms Allocator Extents AllocatorSpec SpaceBitmap SpaceBitmapSpec Pebble WriteBatch BatchPebble BatchThms BlockDevice BlockDeviceSpec BlockDeviceThms FileMetaCodec AioChannel Crc32 Upload UploadInv UploadThms RSocket RSocketThms GoStrings Client.

(** What the protobuf library promises of the two messages. *)
Class ProtoInitLaws (MI : ProtoMarshalInit) (PU : ProtoUnmarshal) := {
  marshal_unmarshal : forall r b, MarshalPutInit r = inr b -> UnmarshalPutInit b = inr r;
  marshal_nonempty : forall r, MarshalPutInit r = inr [] -> pi_FileName r = [];
}.

(** ** The server's answers *)

Lemma checkErrors_continues k rest : checkErrors (map EncodePayload (continues k) ++ rest) = checkErrors rest.
Proof.
  induction k as [|k IH]; [done|]. cbn [continues replicate map app checkErrors EncodePayload wire_meta resp_MetaType].
  rewrite decide_False by (vm_compute; discriminate). apply IH.
Qed.

(** An error among the answers is reported. *)
Lemma check_error cfg pre e rest : checkResponses cfg (pre ++ EncodePayload (errorPayload e) :: rest) <> None.
Proof.
  assert (Hc : exists err, checkErrors (pre ++ EncodePayload (errorPayload e) :: rest) = Some err).
  { induction pre as [|r pre IH]; cbn [app checkErrors].
    - cbn [EncodePayload wire_meta errorPayload resp_MetaType]. rewrite decide_True by done. eauto.
    - destruct (wire_meta r); [|eauto]. case_decide; eauto. }
  destruct Hc as [err Hc]. unfold checkResponses. by rewrite Hc.
Qed.

Lemma check_success cfg :
  0 <= cfg_chunks cfg ->
  checkResponses cfg (map EncodePayload (continues (Z.to_nat (cfg_chunks cfg)) ++ [mkResponsePayload Success None])) = None.
Proof.
  intros Hc. unfold checkResponses. rewrite map_app, checkErrors_continues.
  assert (E : checkErrors (map EncodePayload [mkResponsePayload Success None]) = None) by (vm_compute; reflexivity). rewrite E.
  assert (Hl : length (map EncodePayload (continues (Z.to_nat (cfg_chunks cfg)))) = Z.to_nat (cfg_chunks cfg))
    by (unfold continues; by rewrite length_map, length_replicate).
  assert (Hz : (zlen (map EncodePayload (continues (Z.to_nat (cfg_chunks cfg))) ++ map EncodePayload [mkResponsePayload Success None]) =? cfg_chunks cfg + 1) = true)
    by (apply Z.eqb_eq; unfold zlen; rewrite length_app, Hl; simpl; lia).
  rewrite Hz. cbn [negb]. rewrite take_app_length' by done.
  assert (HF : forallb (fun r => metaIs r Continue) (map EncodePayload (continues (Z.to_nat (cfg_chunks cfg)))) = true).
  { apply forallb_forall. intros r Hr. apply in_map_iff in Hr as (x & <- & Hx). apply list_elem_of_In, elem_of_replicate in Hx as [-> _].
    vm_compute. reflexivity. }
  rewrite HF. cbn [negb map]. rewrite last_snoc. vm_compute. reflexivity.
Qed.

(** A nil verdict has seen a [SUCCESS]. *)
Lemma check_nil cfg responses : checkResponses cfg responses = None -> exists r, r ∈ responses /\ metaIs r Success = true.
Proof.
  unfold checkResponses. destruct (checkErrors responses); [done|]. destruct (negb _); [done|]. destruct (negb _); [done|].
  destruct (last responses) as [r|] eqn:El; [|done]. destruct (metaIs r Success) eqn:Em; [|done]. intros _. exists r. split; [|done].
  by apply last_Some_elem_of in El.
Qed.

(** What the client may receive when the server answered [out]: the answers,
    perhaps cut short, perhaps with an error at the end that the stream
    runtime adds; or an error of the connection or of the context. *)
Definition receives (out : list ResponsePayload) (res : error + list wire) : Prop :=
  match res with
  | inl _ => True
  | inr responses => exists got lost tail, map EncodePayload out = got ++ lost /\ responses = got ++ tail /\
      (tail = [] \/ exists err, tail = [EncodePayload (errorPayload err)])
  end.

Lemma receives_nil cfg out responses :
  receives out (inr responses) -> checkResponses cfg responses = None -> exists x, x ∈ out /\ metaIs (EncodePayload x) Success = true.
Proof.
  intros (got & lost & tail & Eo & -> & Ht) Hc. destruct Ht as [->|[err ->]]; [|by apply check_error in Hc]. rewrite app_nil_r in Hc.
  destruct (check_nil _ _ Hc) as (r & Hr & Hm). assert (Hin : r ∈ map EncodePayload out) by (rewrite Eo; apply elem_of_app; by left).
  apply list_elem_of_In, in_map_iff in Hin as (x & <- & Hx). exists x. split; [by apply list_elem_of_In|done].
Qed.

(** Continues and errors are no success. *)
Lemma no_success k rest x :
  x ∈ continues k ++ rest -> metaIs (EncodePayload x) Success = true -> x ∈ rest.
Proof.
  intros Hx Hm. apply elem_of_app in Hx as [Hx|Hx]; [|done]. apply elem_of_replicate in Hx as [-> _]. vm_compute in Hm. discriminate.
Qed.

Lemma error_no_success msg : metaIs (EncodePayload (errorPayload msg)) Success = false.
Proof. reflexivity. Qed.

(** ** A session of the client *)

Section session.
Context {PO : PebbleOps} `{L : !PebbleLaws PO} {J : JSONDecoder} {T : Type} `{EA : ExtentAllocator T} `{EL : !ExtentAllocatorLaws T}
  {AD : AioDisk} `{AL : !AioDiskLaws AD} {PM : ProtoMarshal} {PU : ProtoUnmarshal} {MI : ProtoMarshalInit} `{PL : !ProtoInitLaws MI PU}.
Implicit Types (w : world (T := T)) (h : AioUploadServerHandler) (received : bytes).
Context (tot : Z) (free0 : Z -> bool) (n : Z) (A : Z -> bool).
Hypothesis Htot : tot * BlockSize < 2 ^ 63.
Hypothesis Hn : 0 <= n < 2 ^ 38.
Hypothesis Hcap : tot * BlockSize <= SpaceSize * n.
Hypothesis HA : forall b, free0 b = true -> A b = false.

Definition putPayload (d : bytes) : RequestPayload := mkRequestPayload PutObject d.
Definition completePayload : RequestPayload := mkRequestPayload CompletePutObject [].

(** The data payloads of an upload. *)
Definition uploadChunks (cfg : config) (id : Z) : list bytes :=
  map (fun c => default [] (chunkData cfg id c)) (seqZ 0 (cfg_chunks cfg)).

Lemma length_uploadChunks cfg id : length (uploadChunks cfg id) = Z.to_nat (cfg_chunks cfg).
Proof. unfold uploadChunks. by rewrite length_map, length_seqZ. Qed.

(** What the server gets of the first [k] data payloads and, perhaps, the
    completion. *)
Definition seenPayloads startData (datas : list bytes) (completed : bool) : list RequestPayload :=
  mkRequestPayload StartPutObject startData :: map putPayload datas ++ (if completed then [completePayload] else []).

Lemma sendChunks_spec ctx cfg id cs :
  0 <= cfg_blockSize cfg ->
  exists ps err, sendChunks ctx cfg id cs = Some (ps, err) /\
    exists k, let datas := take k (map (fun c => default [] (chunkData cfg id c)) cs) in
      map DecodePayload ps = map inr (map putPayload datas ++ (if decide (err = None) then [completePayload] else [])) /\
      (err = None -> datas = map (fun c => default [] (chunkData cfg id c)) cs).
Proof.
  intros Hb. induction cs as [|c cs (ps & err & E & k & Hd & Hk)]; cbn [sendChunks map].
  { exists [mkWire [] (Some (bs CompletePutObject))], None. split; [done|]. exists 0%nat. split; [|done]. vm_compute. reflexivity. }
  destruct (ctx c) as [er|].
  { exists [], (Some er). split; [done|]. exists 0%nat. split; [|done]. rewrite take_0, decide_False by done. done. }
  assert (Hc : chunkData cfg id c = Some (default [] (chunkData cfg id c)))
    by (unfold chunkData, makePattern; by rewrite (proj2 (Z.ltb_ge _ 0)) by lia).
  rewrite Hc. cbn [default]. go_step. rewrite E. go_step. eexists _, err. split; [done|]. exists (S k). cbn [take map app]. split.
  - f_equal. exact Hd.
  - intros He. f_equal. by apply Hk.
Qed.

(** The server sees a prefix of the payloads. *)
Lemma seen_cases ctx cfg id startData :
  0 <= cfg_blockSize cfg ->
  exists ps err, uploadSend ctx cfg id startData = Some (ps, err) /\
    (err = None -> map DecodePayload ps = map inr (seenPayloads startData (uploadChunks cfg id) true)) /\
    forall seen, map inr seen `prefix_of` map DecodePayload ps ->
      seen = [] \/ (exists k, seen = seenPayloads startData (take k (uploadChunks cfg id)) false) \/
      (err = None /\ seen = seenPayloads startData (uploadChunks cfg id) true).
Proof.
  intros Hb. destruct (sendChunks_spec ctx cfg id (seqZ 0 (cfg_chunks cfg)) Hb) as (ps & err & E & k & Hd & Hk).
  fold (uploadChunks cfg id) in Hd, Hk. unfold uploadSend. rewrite E. go_step. eexists _, err. split; [done|].
  set (datas := take k (uploadChunks cfg id)) in *. split.
  { intros He. cbn [map]. rewrite Hd, decide_True, (Hk He) by done. done. }
  intros seen Hp. destruct seen as [|p seen]; [by left|]. right. cbn [map] in Hp. rewrite Hd in Hp.
  pose proof (prefix_cons_inv_1 _ _ _ _ Hp) as Ep. apply prefix_cons_inv_2 in Hp.
  assert (p = mkRequestPayload StartPutObject startData) as -> by (by injection Ep).
  assert (Hs : seen `prefix_of` map putPayload datas ++ (if decide (err = None) then [completePayload] else [])).
  { destruct Hp as [l Hl]. exists (drop (length seen) (map putPayload datas ++ (if decide (err = None) then [completePayload] else []))).
    assert (Ht : seen = take (length seen) (map putPayload datas ++ (if decide (err = None) then [completePayload] else []))).
    { apply (f_equal (take (length (map (inr (A := error)) seen)))) in Hl. rewrite take_app_length, length_map, firstn_map in Hl. symmetry in Hl.
      clear -Hl. revert Hl. generalize (take (length seen) (map putPayload datas ++ (if decide (err = None) then [completePayload] else []))).
      induction seen as [|x seen IH]; intros [|y l] Hl; try done. injection Hl as -> Hl. f_equal. by apply IH. }
    rewrite Ht at 1. by rewrite take_drop. }
  clear Hp Hd. destruct (decide (length seen <= length datas)%nat) as [Hl|Hl].
  - left. exists (length seen `min` k)%nat. unfold seenPayloads. rewrite app_nil_r. f_equal.
    destruct Hs as [l Hs]. apply (f_equal (take (length seen))) in Hs. rewrite take_app_length, take_app_le in Hs by (by rewrite length_map).
    rewrite firstn_map in Hs. unfold datas in Hs. rewrite take_take in Hs. by rewrite Hs.
  - right. case_decide as He; [|rewrite app_nil_r in Hs; apply prefix_length in Hs; rewrite length_map in Hs; lia]. split; [done|].
    destruct Hs as [l Hs]. assert (l = []) as ->.
    { apply (f_equal length) in Hs. rewrite !length_app, length_map in Hs. simpl in Hs. destruct l; [done|]. simpl in Hs. lia. }
    rewrite app_nil_r in Hs. unfold seenPayloads. rewrite <- Hs. by rewrite (Hk He).
Qed.

Lemma bodies_puts datas rest : bodies rest = [] -> bodies (map putPayload datas ++ rest) = datas /\ afterBodies (map putPayload datas ++ rest) = afterBodies rest.
Proof. intros Hr. induction datas as [|d datas [IH1 IH2]]; cbn [map app bodies afterBodies]; [done|]. split; [|done]. change (isPut (putPayload d)) with true. cbn [Data putPayload]. by rewrite IH1. Qed.

(** What the server does with what it sees of an upload, and its answers. *)
Inductive served (req : PutInitRequest) (datas : list bytes) (completed : bool) w : option AioUploadServerHandler -> world (T := T) -> list ResponsePayload -> Prop :=
  | sv_failed o w' k msg :
      w_db w' = w_db w -> holding tot free0 [] (w_dev w') -> served req datas completed w o w' (continues k ++ [errorPayload msg])
  | sv_done h' w' :
      completed = true -> outcome tot free0 n A req (concat datas) h' w w' MetaSuccess ->
      served req datas completed w (Some h') w' (continues (length datas) ++ [mkResponsePayload Success None])
  | sv_error h' w' err :
      completed = true -> outcome tot free0 n A req (concat datas) h' w w' (MetaError err) ->
      served req datas completed w (Some h') w' (continues (length datas) ++ [errorPayload err])
  | sv_open o w' k : completed = false -> served req datas completed w o w' (continues k).

Lemma served_upload e w req startData datas completed :
  decodePutInitRequest startData = inr req -> zlen (concat datas) < 2 ^ 61 ->
  holding tot free0 [] (w_dev w) -> stored_chains n (chain (w_db w)) A ->
  exists o w' out, RequestChannel e w (seenPayloads startData datas completed) = Some (o, w', out) /\ served req datas completed w o w' out.
Proof.
  intros Hdec Hsz Hh Hs. unfold seenPayloads, RequestChannel.
  change (isOneOf (MetaType (mkRequestPayload StartPutObject startData)) [PutAndCompleteObject]) with false.
  change (isOneOf (MetaType (mkRequestPayload StartPutObject startData)) [StartPutObject; StartPartUpload; StartBatchPut]) with true. cbv iota.
  cbn [Data]. rewrite Hdec. destruct (startHandler e w req) as [resp|h] eqn:Eh.
  { apply startHandler_refuses in Eh as [_ [msg ->]]. eexists _, _, _. split; [done|]. by apply (sv_failed _ _ _ _ _ _ 0). }
  apply (startHandler_uploading tot free0 e w _ h Hh) in Eh as [_ U].
  destruct (bodies_puts datas (if completed then [completePayload] else [])) as [Hb1 Hb2]; [by destruct completed|].
  destruct (channelLoop_spec tot free0 n A Htot Hn Hcap HA e (map putPayload datas ++ (if completed then [completePayload] else [])) 0 req [] h w [] Hs U)
    as (h' & w' & out & E & _ & Hl); [by rewrite Hb1|]. rewrite E. cbn [app]. eexists _, _, _. split; [done|]. rewrite Hb1, Hb2 in Hl.
  destruct Hl as [pre b post err h1 w1 _ _ _ _ Hdb Hrel ->|p rest' h1 w1 r resp Er _ _ _ Ho _ -> Hr|p rest' h1 w1 Er Hp _ _ _ _ _
    |Er _ _ _ ->|p rest' Er _ Hp1 Hp2 _ _ _ _].
  - by apply sv_failed; [|apply Hrel].
  - destruct completed; [|done]. destruct Hr as [[-> ->]|(err & -> & ->)]; [by apply sv_done|by apply sv_error].
  - destruct completed; [|done]. by injection Er as <- _.
  - destruct completed; [done|]. by apply sv_open.
  - destruct completed; [|done]. by injection Er as <- _.
Qed.

(** A session whose answers hold a [SUCCESS]. *)
Lemma served_success req datas completed w o w' out x :
  served req datas completed w o w' out -> x ∈ out -> metaIs (EncodePayload x) Success = true ->
  completed = true /\ exists h', o = Some h' /\ outcome tot free0 n A req (concat datas) h' w w' MetaSuccess.
Proof.
  intros S Hx Hm. destruct S as [o w' k msg|h' w' Hc Ho|h' w' err|o w' k].
  - pose proof (no_success _ _ _ Hx Hm) as Hx'. apply list_elem_of_singleton in Hx' as ->. by rewrite error_no_success in Hm.
  - eauto.
  - pose proof (no_success _ _ _ Hx Hm) as Hx'. apply list_elem_of_singleton in Hx' as ->. by rewrite error_no_success in Hm.
  - rewrite <- (app_nil_r (continues k)) in Hx. by apply (no_success _ _ _ Hx) in Hm; apply elem_of_nil in Hm.
Qed.

Lemma decode_start cfg id now rnd uuid startData :
  newUUIDV4 rnd = inr uuid -> encodeStartPayloadProtoBuf cfg id now rnd = inr startData ->
  decodePutInitRequest startData = inr (startRequest cfg id now uuid).
Proof.
  intros Hu He. unfold encodeStartPayloadProtoBuf in He. rewrite Hu in He.
  destruct (MarshalPutInit (startRequest cfg id now uuid)) as [er|b] eqn:Em; [done|]. injection He as ->.
  unfold decodePutInitRequest. destruct startData as [|x sd]; [by apply marshal_nonempty in Em|]. by rewrite (marshal_unmarshal _ _ Em).
Qed.

Lemma zlen_concat_take k (l : list bytes) : zlen (concat (take k l)) <= zlen (concat l).
Proof.
  pose proof (zlen_nonneg (concat (drop k l))). rewrite <- (take_drop k l) at 2. rewrite concat_app, zlen_app_. lia.
Qed.

(** The server does not fall over any prefix of the payloads. *)
Lemma served_prefix e w req cfg id startData ps (serr : option error) seen :
  decodePutInitRequest startData = inr req -> zlen (concat (uploadChunks cfg id)) < 2 ^ 61 ->
  holding tot free0 [] (w_dev w) -> stored_chains n (chain (w_db w)) A ->
  seen = [] \/ (exists k, seen = seenPayloads startData (take k (uploadChunks cfg id)) false) \/
    (serr = None /\ seen = seenPayloads startData (uploadChunks cfg id) true) ->
  (serr = None -> map DecodePayload ps = map inr (seenPayloads startData (uploadChunks cfg id) true)) ->
  exists o w' out, RequestChannel e w seen = Some (o, w', out) /\
    (forall x, x ∈ out -> metaIs (EncodePayload x) Success = true -> served req (uploadChunks cfg id) true w o w' out) /\
    (map DecodePayload ps = map inr seen -> serr = None -> served req (uploadChunks cfg id) true w o w' out).
Proof.
  intros Hdec Hsz Hh Hs Hseen Hps.
  assert (Hinj : forall l l' : list RequestPayload, map (inr (A := error)) l = map inr l' -> l = l').
  { induction l as [|a l IH]; intros [|a' l'] E; try done. injection E as -> E. f_equal. by apply IH. }
  destruct Hseen as [->|[[k ->]|[_ ->]]].
  - exists None, w, []. split; [done|]. split; [intros x Hx; by apply elem_of_nil in Hx|]. intros H1 H2. rewrite (Hps H2) in H1. done.
  - pose proof (zlen_concat_take k (uploadChunks cfg id)).
    destruct (served_upload e w req startData (take k (uploadChunks cfg id)) false Hdec ltac:(lia) Hh Hs) as (o & w' & out & E & S).
    exists o, w', out. split; [done|]. split.
    + intros x Hx Hm. by destruct (served_success _ _ _ _ _ _ _ _ S Hx Hm).
    + intros H1 H2. rewrite (Hps H2) in H1. apply Hinj in H1. unfold seenPayloads in H1. injection H1 as H1. rewrite app_nil_r in H1.
      exfalso. apply (f_equal length) in H1. rewrite length_app, !length_map, length_take in H1. simpl in H1. lia.
  - destruct (served_upload e w req startData (uploadChunks cfg id) true Hdec Hsz Hh Hs) as (o & w' & out & E & S). eauto 10.
Qed.

(** C8: What the client's verdict is worth.  Whatever prefix of the payloads
    reaches the server and whatever the client's context does, the server
    runs the session without a panic, and: (1) if the client, having received
    the answers in full or cut short, reports success, the server has seen
    the whole upload and committed exactly its bytes, or has found the name
    taken; (2) if everything was delivered in both directions and the client
    reports an error, no block is held and every key has what it had, or the
    store's commit failed after it was applied; (3) if the connection or the
    context fails, the client reports that error whatever the server did, so
    such an error says nothing about the file. *)
Theorem upload_verdict ctx e w cfg id now rnd uuid startData :
  0 <= cfg_chunks cfg -> 0 <= cfg_blockSize cfg -> zlen (concat (uploadChunks cfg id)) < 2 ^ 61 ->
  newUUIDV4 rnd = inr uuid -> encodeStartPayloadProtoBuf cfg id now rnd = inr startData ->
  holding tot free0 [] (w_dev w) -> stored_chains n (chain (w_db w)) A ->
  let req := startRequest cfg id now uuid in
  exists ps serr, uploadSend ctx cfg id startData = Some (ps, serr) /\
    (forall err channel, channel (ps, serr) = inl err -> uploadOnce ctx channel cfg id now rnd = Some (Some (errChannel err))) /\
    forall seen, map inr seen `prefix_of` map DecodePayload ps ->
    exists o w' out, RequestChannel e w seen = Some (o, w', out) /\
      (forall channel, receives out (channel (ps, serr)) -> uploadOnce ctx channel cfg id now rnd = Some None ->
         exists h', o = Some h' /\ outcome tot free0 n A req (concat (uploadChunks cfg id)) h' w w' MetaSuccess) /\
      (forall channel, serr = None -> map inr seen = map DecodePayload ps -> channel (ps, serr) = inr (map EncodePayload out) ->
         uploadOnce ctx channel cfg id now rnd <> Some None ->
         holding tot free0 [] (w_dev w') /\
         ((forall k, chain (w_db w') k = chain (w_db w) k) \/
          exists h' infos b err, o = Some h' /\ BatchCommit (w_db w) b = (w_db w', Some err) /\
            file_stored n A req (concat (uploadChunks cfg id)) infos (w_disk w') (w_db w) (w_db w'))).
Proof.
  intros Hc Hb Hsz Hu He Hh Hs req. pose proof (decode_start cfg id now rnd uuid startData Hu He) as Hdec.
  destruct (seen_cases ctx cfg id startData Hb) as (ps & serr & Es & Hps & Hseen). exists ps, serr. split; [done|].
  assert (Hup : forall channel, uploadOnce ctx channel cfg id now rnd =
    match channel (ps, serr) with inl err => Some (Some (errChannel err)) | inr responses => Some (checkResponses cfg responses) end).
  { intros channel. unfold uploadOnce. rewrite He, Es. by go_step. }
  split; [intros err channel Ec; by rewrite Hup, Ec|]. intros seen Hp.
  destruct (served_prefix e w req cfg id startData ps serr seen Hdec Hsz Hh Hs (Hseen seen Hp) Hps) as (o & w' & out & E & S1 & S2).
  exists o, w', out. split; [done|]. split.
  - intros channel Hr. rewrite Hup. destruct (channel (ps, serr)) as [err|responses]; [done|]. intros [= Hn'].
    destruct (receives_nil cfg out responses Hr Hn') as (x & Hx & Hm). by destruct (served_success _ _ _ _ _ _ _ _ (S1 x Hx Hm) Hx Hm).
  - intros channel Hse Hall Ec. rewrite Hup, Ec. intros Hne. destruct (S2 ltac:(done) Hse) as [o' w'' k msg Hdb Hrel|h' w'' _ Ho|h' w'' err _ Ho|]; [| | |done].
    + split; [done|]. left. by rewrite Hdb.
    + rewrite length_uploadChunks, check_success in Hne by done. done.
    + inversion Ho as [| |? Hch Hrel|? b infos Hcm Hi Hst Hrel]; subst; (split; [apply Hrel|]); [by left|]. right. eauto 10.
Qed.
End session.

(** ** The one-payload upload *)

(** What the client packs into one payload the server takes apart again. *)
Theorem putAndComplete_roundtrip {PU : ProtoUnmarshal} {MI : ProtoMarshalInit} `{PL : !ProtoInitLaws MI PU} start body data :
  pi_FileName start <> [] -> encodePutAndCompletePayload start body = inr data -> zlen data < 2 ^ 62 ->
  decodePutAndComplete data = Some (inr (start, body)).
Proof.
  unfold encodePutAndCompletePayload. intros Hf. destruct (MarshalPutInit start) as [e|b] eqn:Em; [done|]. intros E Hl.
  assert (data = le_bytes 8 (zlen b) ++ b ++ body) as -> by congruence.
  apply decode_encoded; [rewrite !zlen_app_ in Hl; pose proof (zlen_nonneg (le_bytes 8 (zlen b))); lia|]. unfold decodePutInitRequest.
  destruct b as [|x b]; [by apply marshal_nonempty in Em|]. by rewrite (marshal_unmarshal _ _ Em).
Qed.

(** ** Names *)

(** A generated name has hexadecimal digits and hyphens only. *)
Definition name_char (c : Z) : Prop := c = 45 \/ 48 <= c <= 57 \/ 97 <= c <= 102.

Lemma hexDigit_char n : 0 <= n < 16 -> name_char (hexDigit n).
Proof. intros. unfold name_char, hexDigit. case_bool; lia. Qed.

Lemma hexDigit_inj m n : 0 <= m < 16 -> 0 <= n < 16 -> hexDigit m = hexDigit n -> m = n.
Proof. unfold hexDigit. repeat case_bool; lia. Qed.

Lemma hexEncode_chars b : Forall byte_ok b -> Forall name_char (hexEncode b).
Proof.
  unfold hexEncode. induction 1 as [|c b Hc HF IH]; [done|]. unfold byte_ok in Hc. cbn [map concat app].
  constructor; [apply hexDigit_char; dlia|]. constructor; [apply hexDigit_char; dlia|done].
Qed.

Lemma hexEncode_inj b b' : Forall byte_ok b -> Forall byte_ok b' -> hexEncode b = hexEncode b' -> b = b'.
Proof.
  unfold hexEncode. intros HF. revert b'. induction HF as [|c b Hc HF IH]; intros b' HF' E; [by destruct HF'|].
  destruct HF' as [|c' b' Hc' HF']; [done|]. cbn [map concat app] in E. injection E as E1 E2 E3. unfold byte_ok in *.
  apply hexDigit_inj in E1; [|dlia..]. apply hexDigit_inj in E2; [|dlia..]. f_equal; [dlia|by apply IH].
Qed.

Lemma length_hexEncode b : length (hexEncode b) = (2 * length b)%nat.
Proof. unfold hexEncode. induction b as [|c b IH]; [done|]. cbn [map concat app length]. lia. Qed.

(** The random bytes with the version and the variant put in. *)
Definition stamped (b : bytes) : bytes := alter (fun c => Z.lor (Z.land c 63) 128) 8%nat (alter (fun c => Z.lor (Z.land c 15) 64) 6%nat b).

Lemma stamped_ok b : Forall byte_ok b -> Forall byte_ok (stamped b).
Proof.
  intros HF. unfold stamped. do 2 (apply Forall_alter; [|intros c _ Hc; apply byte_ok_lor; [by apply byte_ok_land|unfold byte_ok; lia]]). done.
Qed.

Definition part (b : bytes) (lo n : nat) : bytes := hexEncode (take n (drop lo b)).

Lemma uuid_spec b :
  newUUIDV4 (inr b) = inr (part (stamped b) 0 4 ++ [45] ++ part (stamped b) 4 2 ++ [45] ++ part (stamped b) 6 2 ++ [45] ++
    part (stamped b) 8 2 ++ [45] ++ part (stamped b) 10 6).
Proof. done. Qed.

Lemma length_part b lo n : length b = 16%nat -> (lo + n <= 16)%nat -> length (part b lo n) = (2 * n)%nat.
Proof. intros. unfold part. rewrite length_hexEncode, length_take, length_drop. lia. Qed.

Lemma app_inj_len {A} (l1 l1' l2 l2' : list A) : length l1 = length l1' -> l1 ++ l2 = l1' ++ l2' -> l1 = l1' /\ l2 = l2'.
Proof. intros Hl E. by apply app_inj_1 in E. Qed.

Lemma uuid_inj b b' u :
  length b = 16%nat -> length b' = 16%nat -> Forall byte_ok b -> Forall byte_ok b' ->
  newUUIDV4 (inr b) = inr u -> newUUIDV4 (inr b') = inr u -> stamped b = stamped b'.
Proof.
  intros Hl Hl' HF HF'. rewrite !uuid_spec. intros [= <-] [= E]. apply stamped_ok in HF, HF'.
  assert (L : length (stamped b) = 16%nat) by (unfold stamped; by rewrite !length_alter).
  assert (L' : length (stamped b') = 16%nat) by (unfold stamped; by rewrite !length_alter).
  symmetry in E. set (s := stamped b) in *. set (s' := stamped b') in *. clearbody s s'.
  assert (Hpart : forall lo k r r', (lo + k <= 16)%nat -> part s lo k ++ r = part s' lo k ++ r' -> take k (drop lo s) = take k (drop lo s') /\ r = r').
  { intros lo k r r' Hk Ep. apply app_inj_len in Ep as [Ep ->]; [|by rewrite !length_part]. split; [|done].
    apply hexEncode_inj in Ep; [done|by apply Forall_take, Forall_drop..]. }
  apply Hpart in E as [E1 E]; [|lia]. injection E as E. apply Hpart in E as [E2 E]; [|lia]. injection E as E. apply Hpart in E as [E3 E]; [|lia].
  injection E as E. apply Hpart in E as [E4 E]; [|lia]. injection E as E. rewrite <- (app_nil_r (part s 10 6)), <- (app_nil_r (part s' 10 6)) in E.
  apply Hpart in E as [E5 _]; [|lia].
  assert (Hsplit : forall x : bytes, length x = 16%nat -> x = take 4 (drop 0 x) ++ take 2 (drop 4 x) ++ take 2 (drop 6 x) ++ take 2 (drop 8 x) ++ take 6 (drop 10 x)).
  { intros x Hx. do 16 (destruct x as [|? x]; [done|]). by destruct x. }
  rewrite (Hsplit s L), (Hsplit s' L'). congruence.
Qed.

Lemma uuid_chars b u : Forall byte_ok b -> newUUIDV4 (inr b) = inr u -> Forall name_char u.
Proof.
  intros HF. rewrite uuid_spec. intros [= <-]. apply stamped_ok in HF.
  assert (Hp : forall lo k, Forall name_char (part (stamped b) lo k)) by (intros; by apply hexEncode_chars, Forall_take, Forall_drop).
  repeat (apply Forall_app; split; [apply Hp|]; constructor; [by left|]). apply Hp.
Qed.

(** Uploads with different random bytes, apart from the six bits the format
    fixes, have different metadata keys: they do not overwrite each other. *)
Theorem client_keys_distinct cfg cfg' id id' now now' b b' u u' :
  length b = 16%nat -> length b' = 16%nat -> Forall byte_ok b -> Forall byte_ok b' -> stamped b <> stamped b' ->
  newUUIDV4 (inr b) = inr u -> newUUIDV4 (inr b') = inr u' ->
  GetFileMetaKey (pi_FileName (startRequest cfg id now u)) <> GetFileMetaKey (pi_FileName (startRequest cfg' id' now' u')).
Proof.
  intros Hl Hl' HF HF' Hne Hu Hu'.
  assert (Hkey : forall v, Forall name_char v -> forall c i t, GetFileMetaKey (pi_FileName (startRequest c i t v)) = bs "#9698_bk1_" ++ v).
  { intros v Hv c i t. unfold GetFileMetaKey, startRequest. cbn [pi_FileName].
    change (bs "/9698_bk1_" ++ v) with ([] ++ 47 :: (bs "9698_bk1_" ++ v)). rewrite splitSlash_component by done.
    rewrite splitSlash_noslash; [done|]. apply Forall_app. split; [vm_compute; repeat constructor; discriminate|].
    eapply Forall_impl; [exact Hv|]. unfold name_char. simpl. lia. }
  rewrite (Hkey u), (Hkey u') by eauto using uuid_chars. intros E. apply app_inv_head in E. subst u'. apply Hne. by eapply uuid_inj.
Qed.

(** ** Witnesses *)

#[local] Existing Instances MemStore.ops MemStore.laws MemDisk.ops MemDisk.laws.
#[local] Existing Instances demoDecoder demoMarshal.

Lemma strOf_bs s : strOf (bs s) = s.
Proof.
  unfold strOf, bs. rewrite map_map, (map_ext _ id), map_id; [apply String.string_of_list_ascii_of_string|].
  intros c. by rewrite N2Z.id, Ascii.ascii_N_embedding.
Qed.

(** A message format with the promised laws. *)
Definition demoMarshalInit : ProtoMarshalInit := fun r =>
  inr ([Z.b2z (pi_NoGet r); zlen (bs (pi_Lun r)); zlen (pi_FileName r)] ++ bs (pi_Lun r) ++ pi_FileName r ++ pi_MetaKey r).
Definition demoUnmarshalInit : ProtoUnmarshal := fun data =>
  match data with
  | g :: l :: f :: rest =>
      let l := Z.to_nat l in let f := Z.to_nat f in
      inr (mkPutInitRequest (strOf (take l rest)) (take f (drop l rest)) (drop f (drop l rest)) (g =? 1))
  | _ => inl "short message"%string
  end.
#[local] Existing Instances demoMarshalInit demoUnmarshalInit.

#[local] Instance demoInitLaws : ProtoInitLaws demoMarshalInit demoUnmarshalInit.
Proof.
  split; [|done]. intros [lun name key g] b E. injection E as <-. unfold UnmarshalPutInit, demoUnmarshalInit. cbn [app].
  cbn [pi_Lun pi_FileName pi_MetaKey pi_NoGet]. unfold zlen. rewrite !Nat2Z.id, take_app_length, drop_app_length, take_app_length, drop_app_length.
  rewrite strOf_bs. by destruct g.
Qed.

Definition demoConfig : config := mkConfig "lun" 3 2 (bs "m").
Definition demoRandom : bytes := map (fun k => 15 * k) (seqZ 0 16).
Definition demoUUID : bytes := Eval vm_compute in match newUUIDV4 (inr demoRandom) with inr u => u | inl _ => [] end.
Definition demoStart : bytes := Eval vm_compute in match encodeStartPayloadProtoBuf demoConfig 1 7 (inr demoRandom) with inr d => d | inl _ => [] end.

(** The server of the witness. *)
Definition demoServed : option (list ResponsePayload) :=
  match RequestChannel demoEnv demoWorld (seenPayloads demoStart (uploadChunks demoConfig 1) true) with Some (_, _, out) => Some out | None => None end.
Definition demoReplies : list ResponsePayload := [mkResponsePayload Continue None; mkResponsePayload Continue None; mkResponsePayload Success None].

(** The upload of the witness succeeds at the server; a client that gets the
    answers says so, one whose connection breaks reports an error. *)
Lemma upload_verdict_witness :
  exists h' w', RequestChannel demoEnv demoWorld (seenPayloads demoStart (uploadChunks demoConfig 1) true) = Some (Some h', w', demoReplies) /\
    outcome 10 demoFree 1 (fun _ => false) (startRequest demoConfig 1 7 demoUUID) (concat (uploadChunks demoConfig 1)) h' demoWorld w' MetaSuccess /\
    uploadOnce (fun _ => None) (fun _ => inr (map EncodePayload demoReplies)) demoConfig 1 7 (inr demoRandom) = Some None /\
    uploadOnce (fun _ => None) (fun _ => inl "broken pipe"%string) demoConfig 1 7 (inr demoRandom) = Some (Some (errChannel "broken pipe")).
Proof.
  destruct (upload_verdict 10 demoFree 1 (fun _ => false) ltac:(vm_compute; reflexivity) ltac:(lia) ltac:(vm_compute; congruence)
    ltac:(reflexivity) (fun _ => None) demoEnv demoWorld demoConfig 1 7 (inr demoRandom) demoUUID demoStart)
    as (ps & serr & Es & He & Hv);
    [vm_compute; congruence|vm_compute; congruence|vm_compute; reflexivity..|exact (proj1 demoWorld_ok)|exact (proj2 demoWorld_ok)|].
  assert (Ed : map DecodePayload ps = map inr (seenPayloads demoStart (uploadChunks demoConfig 1) true))
    by (vm_compute in Es; injection Es as <- <-; vm_compute; reflexivity).
  destruct (Hv (seenPayloads demoStart (uploadChunks demoConfig 1) true)) as (o & w' & out & E & H1 & _); [rewrite Ed; reflexivity|].
  assert (Eo : demoServed = Some demoReplies) by (vm_compute; reflexivity). unfold demoServed in Eo. rewrite E in Eo. injection Eo as ->.
  assert (Eu : uploadOnce (fun _ => None) (fun _ => inr (map EncodePayload demoReplies)) demoConfig 1 7 (inr demoRandom) = Some None) by (vm_compute; reflexivity).
  destruct (H1 (fun _ => inr (map EncodePayload demoReplies))) as (h' & -> & Ho); [|exact Eu|].
  - exists (map EncodePayload demoReplies), [], []. split; [by rewrite app_nil_r|]. split; [by rewrite app_nil_r|by left].
  - exists h', w'. split; [exact E|]. split; [exact Ho|]. split; [exact Eu|]. by apply (He "broken pipe"%string (fun _ => inl "broken pipe"%string)).
Defined.
