(* ===== verification/ServerRuntime.v ===== *)
(** * The stream runtime of the server

    [internal/network/rsocket/server_runtime.go]: [requestChannelFlux] joins
    the payload stream of a client to a session of [ErasureServer].  Four
    parties run concurrently: the rsocket library, which feeds the incoming
    channels; the reading goroutine; the goroutine of [RequestChannel]; and
    the writing goroutine.  They share four channels, the [finished] signal,
    the [sync.Once] and the sink, and every step of one of them is a rule of
    [flux_step].  A [select] with several ready cases may take any of them. *)

From stdpp Require Import base decidable list numbers option strings gmap.
From Stdlib Require Import ZArith Lia.
From S2P Require Import Prelude Words Bytes Moss MossJSON MossThms Allocator Extents AllocatorSpec SpaceBitmap Pebble WriteBatch BatchPebble BatchThms BlockDevice BlockDeviceSpec BlockDeviceThms FileMetaCodec AioChannel Crc32 Upload UploadInv UploadThms RSocket GoStrings Client.

(** The handler of single requests in [newResponder]. *)
Definition requestResponse (p : wire) : wire :=
  let meta := default [] (wire_meta p) in
  if decide (meta = bs "PING") then EncodePayload (mkResponsePayload Success None)
  else EncodePayload (errorPayload ("unsupported request-response meta type: " +:+ strOf meta)).

(** ** Shared objects *)

(** A buffered channel. *)
Record chan (A : Type) := mkChan { ch_buf : list A; ch_closed : bool }.
Arguments mkChan {A} _ _.
Arguments ch_buf {A} _.
Arguments ch_closed {A} _.

Definition send {A} (c : chan A) (x : A) : chan A := mkChan (ch_buf c ++ [x]) (ch_closed c).
Definition close {A} (c : chan A) : chan A := mkChan (ch_buf c) true.
Definition chanCap : nat := 64.
Definition room {A} (c : chan A) : Prop := (length (ch_buf c) < chanCap)%nat.

(** What reaches the sink. *)
Inductive sinkEvent := SinkNext (p : wire) | SinkComplete.

(** The bodies [finishOnce.Do] runs, as the actions left to do. *)
Inductive action := ActNext (p : wire) | ActClose | ActComplete.
Inductive party := Reader | Writer.
Inductive once := OnceFree | OnceRun (who : party) (todo : list action) | OnceDone.

Definition completeBody : list action := [ActClose; ActComplete].
Definition emitErrorBody (err : error) : list action := [ActNext (EncodePayload (errorPayload err)); ActClose; ActComplete].

(** ** The session goroutine, one payload at a time *)

Section session.
Context {PO : PebbleOps} {J : JSONDecoder} {T : Type} `{EA : ExtentAllocator T} {AD : AioDisk} {PM : ProtoMarshal} {PU : ProtoUnmarshal}.

(** The variables of the goroutine; [g_i] counts the calls of the handler. *)
Record gstate := mkG { g_first : bool; g_i : nat; g_h : option AioUploadServerHandler; g_w : world (T := T) }.

Definition gstart (w : world (T := T)) : gstate := mkG true 0 None w.

(** One iteration of the loop over the payloads: the responses it sends and
    whether it returns. *)
Definition onFirst (e : env) (g : gstate) (p : RequestPayload) : option (gstate * list ResponsePayload * bool) :=
  if isOneOf (MetaType p) [PutAndCompleteObject] then
    '(h, w, out) ← putAndComplete e (g_w g) (Data p); Some (mkG true 0 h w, out, true)
  else if isOneOf (MetaType p) [StartPutObject; StartPartUpload; StartBatchPut] then
    match decodePutInitRequest (Data p) with
    | inl err => Some (g, [errorPayload err], true)
    | inr start =>
        match startHandler e (g_w g) start with
        | inl resp => Some (g, [resp], true)
        | inr h => Some (mkG false 0 (Some h) (g_w g), [], false)
        end
    end
  else if isOneOf (MetaType p) [CPSSFile; StartFileAsync] then
    Some (g, [errorPayload ("meta type " +:+ MetaType p +:+ " ignored in object mode")], true)
  else Some (g, [errorPayload ("unsupported first meta type: " +:+ MetaType p)], true).

Definition onNext (e : env) (g : gstate) (p : RequestPayload) : option (gstate * list ResponsePayload * bool) :=
  if isOneOf (MetaType p) [PutObject; PartUpload] then
    match g_h g with
    | None => Some (g, [errorPayload "missing upload handler"], true)
    | Some h =>
        '(h, w, r) ← Put (env_addr e (g_i g)) h (g_w g) (Data p);
        let '(resp, ok) := forward r in Some (mkG false (S (g_i g)) (Some h) w, [resp], negb ok)
    end
  else if isOneOf (MetaType p) [CompletePutObject; CompletePartUpload] then
    match g_h g with
    | None => Some (g, [errorPayload "missing upload handler"], true)
    | Some h =>
        '(h, w, r) ← Complete (env_addr e (g_i g)) (env_ctx1 e) (env_ctx2 e) h (g_w g);
        Some (mkG false (g_i g) (Some h) w, [(forward r).1], true)
    end
  else if isOneOf (MetaType p) [Error] then
    match g_h g with
    | None => Some (g, [errorPayload "channel timeout"], true)
    | Some h => '(h, w, r) ← TimeOut h (g_w g); Some (mkG false (g_i g) (Some h) w, [(forward r).1], true)
    end
  else Some (g, [errorPayload ("unexpected meta type: " +:+ MetaType p)], true).

Definition onPayload (e : env) (g : gstate) (p : RequestPayload) : option (gstate * list ResponsePayload * bool) :=
  if g_first g then onFirst e g p else onNext e g p.

(** ** The states of the goroutines *)

(** [ReadLoop inOpen errOpen]: at the [select], with [incoming != nil] and
    [incomingErr != nil]; [ReadSend p errOpen]: at the inner [select];
    [ReadFail err]: calling [emitError]; [ReadOnce]: running its body. *)
Inductive reader :=
  | ReadLoop (inOpen errOpen : bool)
  | ReadSend (p : RequestPayload) (errOpen : bool)
  | ReadFail (err : error)
  | ReadOnce
  | ReadDone.

(** [SessRecv]: receiving a payload; [SessSend]: sending the responses of one
    iteration, after which it returns or goes on. *)
Inductive session :=
  | SessRecv (g : gstate)
  | SessSend (g : gstate) (todo : list ResponsePayload) (ends : bool)
  | SessDone (g : gstate).

Inductive writer :=
  | WriteLoop
  | WriteEmit (r : ResponsePayload)
  | WriteFinish
  | WriteOnce
  | WriteDone.

(** The whole stream.  [f_src] and [f_errs] are what the library has still to
    deliver. *)
Record flux := mkFlux {
  f_src : list wire; f_errs : list (option error); f_cancelled : bool;
  f_incoming : chan wire; f_incomingErr : chan (option error);
  f_requests : chan RequestPayload; f_responses : chan ResponsePayload;
  f_finished : bool; f_once : once; f_sink : list sinkEvent;
  f_reader : reader; f_session : session; f_writer : writer }.

Definition empty {A} : chan A := mkChan [] false.

Definition requestChannelFlux (w : world (T := T)) (src : list wire) (errs : list (option error)) : flux :=
  mkFlux src errs false empty empty empty empty false OnceFree [] (ReadLoop true true) (SessRecv (gstart w)) WriteLoop.

(** ** Setters *)

Definition set_source (s : flux) src errs inc ierr : flux :=
  mkFlux src errs (f_cancelled s) inc ierr (f_requests s) (f_responses s) (f_finished s) (f_once s) (f_sink s) (f_reader s) (f_session s) (f_writer s).
Definition set_reader (s : flux) (inc : chan wire) ierr (reqs : chan RequestPayload) (r : reader) : flux :=
  mkFlux (f_src s) (f_errs s) (f_cancelled s) inc ierr reqs (f_responses s) (f_finished s) (f_once s) (f_sink s) r (f_session s) (f_writer s).
Definition set_session (s : flux) (reqs : chan RequestPayload) (resps : chan ResponsePayload) (g : session) : flux :=
  mkFlux (f_src s) (f_errs s) (f_cancelled s) (f_incoming s) (f_incomingErr s) reqs resps (f_finished s) (f_once s) (f_sink s) (f_reader s) g (f_writer s).
Definition set_writer (s : flux) (resps : chan ResponsePayload) (sink : list sinkEvent) (x : writer) : flux :=
  mkFlux (f_src s) (f_errs s) (f_cancelled s) (f_incoming s) (f_incomingErr s) (f_requests s) resps (f_finished s) (f_once s) sink (f_reader s) (f_session s) x.
Definition set_once (s : flux) (o : once) : flux :=
  mkFlux (f_src s) (f_errs s) (f_cancelled s) (f_incoming s) (f_incomingErr s) (f_requests s) (f_responses s) (f_finished s) o (f_sink s) (f_reader s) (f_session s) (f_writer s).
Definition set_finish (s : flux) (fin : bool) (sink : list sinkEvent) : flux :=
  mkFlux (f_src s) (f_errs s) (f_cancelled s) (f_incoming s) (f_incomingErr s) (f_requests s) (f_responses s) fin (f_once s) sink (f_reader s) (f_session s) (f_writer s).
Definition set_cancelled (s : flux) : flux :=
  mkFlux (f_src s) (f_errs s) true (f_incoming s) (f_incomingErr s) (f_requests s) (f_responses s) (f_finished s) (f_once s) (f_sink s) (f_reader s) (f_session s) (f_writer s).

(** The reading goroutine returns; its [defer] closes [requests]. *)
Definition readReturn (s : flux) : flux := set_reader s (f_incoming s) (f_incomingErr s) (close (f_requests s)) ReadDone.

(** One action of a running body. *)
Definition act (s : flux) (a : action) : flux :=
  match a with
  | ActNext p => set_finish s (f_finished s) (f_sink s ++ [SinkNext p])
  | ActClose => set_finish s true (f_sink s)
  | ActComplete => set_finish s (f_finished s) (f_sink s ++ [SinkComplete])
  end.

(** [finishOnce.Do] returns to its caller. *)
Definition onceReturn (s : flux) (who : party) : flux :=
  match who with
  | Reader => readReturn s
  | Writer => set_writer s (f_responses s) (f_sink s) WriteDone
  end.

(** ** The steps *)

(** [mayCancel]: whether the context may be cancelled. *)
Inductive flux_step (e : env) (mayCancel : bool) : flux -> flux -> Prop :=
  (** the library: [payloads.ToChan] and the context *)
  | src_item s p src : f_src s = p :: src -> room (f_incoming s) ->
      flux_step e mayCancel s (set_source s src (f_errs s) (send (f_incoming s) p) (f_incomingErr s))
  | src_error s err errs : f_src s = [] -> f_errs s = err :: errs ->
      flux_step e mayCancel s (set_source s [] errs (f_incoming s) (send (f_incomingErr s) err))
  | src_close s : f_src s = [] -> f_errs s = [] -> ch_closed (f_incoming s) = false ->
      flux_step e mayCancel s (set_source s [] [] (close (f_incoming s)) (f_incomingErr s))
  | src_close_err s : f_src s = [] -> f_errs s = [] -> ch_closed (f_incomingErr s) = false ->
      flux_step e mayCancel s (set_source s [] [] (f_incoming s) (close (f_incomingErr s)))
  | src_abort s err : f_cancelled s = true -> f_src s <> [] -> flux_step e mayCancel s (set_source s [] [err] (f_incoming s) (f_incomingErr s))
  | ctx_cancel s : mayCancel = true -> f_cancelled s = false -> flux_step e mayCancel s (set_cancelled s)
  (** the reading goroutine *)
  | read_end s : f_reader s = ReadLoop false false -> flux_step e mayCancel s (readReturn s)
  | read_stop s i o : f_reader s = ReadLoop i o -> i || o = true -> f_cancelled s || f_finished s = true ->
      flux_step e mayCancel s (readReturn s)
  | read_item s o p buf req : f_reader s = ReadLoop true o -> ch_buf (f_incoming s) = p :: buf -> DecodePayload p = inr req ->
      flux_step e mayCancel s (set_reader s (mkChan buf (ch_closed (f_incoming s))) (f_incomingErr s) (f_requests s) (ReadSend req o))
  | read_bad s o p buf err : f_reader s = ReadLoop true o -> ch_buf (f_incoming s) = p :: buf -> DecodePayload p = inl err ->
      flux_step e mayCancel s (set_reader s (mkChan buf (ch_closed (f_incoming s))) (f_incomingErr s) (f_requests s) (ReadFail err))
  | read_closed s o : f_reader s = ReadLoop true o -> ch_buf (f_incoming s) = [] -> ch_closed (f_incoming s) = true ->
      flux_step e mayCancel s (set_reader s (f_incoming s) (f_incomingErr s) (f_requests s) (ReadLoop false o))
  | read_err s i err buf : f_reader s = ReadLoop i true -> ch_buf (f_incomingErr s) = Some err :: buf ->
      flux_step e mayCancel s (set_reader s (f_incoming s) (mkChan buf (ch_closed (f_incomingErr s))) (f_requests s) (ReadFail err))
  | read_nil s i buf : f_reader s = ReadLoop i true -> ch_buf (f_incomingErr s) = None :: buf ->
      flux_step e mayCancel s (set_reader s (f_incoming s) (mkChan buf (ch_closed (f_incomingErr s))) (f_requests s) (ReadLoop i true))
  | read_err_closed s i : f_reader s = ReadLoop i true -> ch_buf (f_incomingErr s) = [] -> ch_closed (f_incomingErr s) = true ->
      flux_step e mayCancel s (set_reader s (f_incoming s) (f_incomingErr s) (f_requests s) (ReadLoop i false))
  | read_send s p o : f_reader s = ReadSend p o -> room (f_requests s) ->
      flux_step e mayCancel s (set_reader s (f_incoming s) (f_incomingErr s) (send (f_requests s) p) (ReadLoop true o))
  | read_send_stop s p o : f_reader s = ReadSend p o -> f_cancelled s || f_finished s = true -> flux_step e mayCancel s (readReturn s)
  | read_fail s err : f_reader s = ReadFail err -> f_once s = OnceFree ->
      flux_step e mayCancel s (set_once (set_reader s (f_incoming s) (f_incomingErr s) (f_requests s) ReadOnce) (OnceRun Reader (emitErrorBody err)))
  | read_fail_done s err : f_reader s = ReadFail err -> f_once s = OnceDone -> flux_step e mayCancel s (readReturn s)
  (** the goroutine of [RequestChannel] *)
  | sess_payload s g p buf g' rs ends : f_session s = SessRecv g -> ch_buf (f_requests s) = p :: buf -> onPayload e g p = Some (g', rs, ends) ->
      flux_step e mayCancel s (set_session s (mkChan buf (ch_closed (f_requests s))) (f_responses s) (SessSend g' rs ends))
  | sess_closed s g : f_session s = SessRecv g -> ch_buf (f_requests s) = [] -> ch_closed (f_requests s) = true ->
      flux_step e mayCancel s (set_session s (f_requests s) (close (f_responses s)) (SessDone g))
  | sess_send s g r rs ends : f_session s = SessSend g (r :: rs) ends -> room (f_responses s) ->
      flux_step e mayCancel s (set_session s (f_requests s) (send (f_responses s) r) (SessSend g rs ends))
  | sess_next s g : f_session s = SessSend g [] false -> flux_step e mayCancel s (set_session s (f_requests s) (f_responses s) (SessRecv g))
  | sess_return s g : f_session s = SessSend g [] true ->
      flux_step e mayCancel s (set_session s (f_requests s) (close (f_responses s)) (SessDone g))
  (** the writing goroutine *)
  | write_stop s : f_writer s = WriteLoop -> f_cancelled s || f_finished s = true ->
      flux_step e mayCancel s (set_writer s (f_responses s) (f_sink s) WriteDone)
  | write_recv s r buf : f_writer s = WriteLoop -> ch_buf (f_responses s) = r :: buf ->
      flux_step e mayCancel s (set_writer s (mkChan buf (ch_closed (f_responses s))) (f_sink s) (WriteEmit r))
  | write_closed s : f_writer s = WriteLoop -> ch_buf (f_responses s) = [] -> ch_closed (f_responses s) = true ->
      flux_step e mayCancel s (set_writer s (f_responses s) (f_sink s) WriteFinish)
  | write_emit s r : f_writer s = WriteEmit r ->
      flux_step e mayCancel s (set_writer s (f_responses s) (f_sink s ++ [SinkNext (EncodePayload r)]) WriteLoop)
  | write_finish s : f_writer s = WriteFinish -> f_once s = OnceFree ->
      flux_step e mayCancel s (set_once (set_writer s (f_responses s) (f_sink s) WriteOnce) (OnceRun Writer completeBody))
  | write_finish_done s : f_writer s = WriteFinish -> f_once s = OnceDone ->
      flux_step e mayCancel s (set_writer s (f_responses s) (f_sink s) WriteDone)
  (** the body of the [sync.Once] *)
  | once_act s who a todo : f_once s = OnceRun who (a :: todo) -> flux_step e mayCancel s (act (set_once s (OnceRun who todo)) a)
  | once_return s who : f_once s = OnceRun who [] -> flux_step e mayCancel s (onceReturn (set_once s OnceDone) who).
End session.
