(* ===== verification/ServerRuntimeThms.v ===== *)
(** * Theorems of the stream runtime

    Whatever the schedule of the goroutines and whatever fails on the wire,
    the session runs on a prefix of the client's payloads and the client sees
    its answers in order; without a failure every schedule ends, with all the
    answers delivered. *)

From stdpp Require Import base decidable list numbers option strings gmap.
From Stdlib Require Import ZArith Lia.
From S2P Require Import Prelude Schedules Words Bytes Moss MossJSON MossThms Allocator Extents AllocatorSpec SpaceBitmap SpaceBitmapSpec Pebble WriteBatch BatchPebble BatchThms BlockDevice BlockDeviceSpec BlockDeviceThms FileMetaCodec AioChannel Crc32 Upload UploadInv UploadThms RSocket RSocketThms GoStrings Client ClientThms ServerRuntime.

(** ** Interleavings *)

(** [interleave l1 l2 l]: [l] has the elements of [l1] and of [l2], each in
    order. *)
Inductive interleave {A} : list A -> list A -> list A -> Prop :=
  | il_nil : interleave [] [] []
  | il_left l1 l2 l x : interleave l1 l2 l -> interleave (l1 ++ [x]) l2 (l ++ [x])
  | il_right l1 l2 l x : interleave l1 l2 l -> interleave l1 (l2 ++ [x]) (l ++ [x]).

Lemma interleave_nil_r {A} (l1 l2 l : list A) : interleave l1 l2 l -> l2 = [] -> l = l1.
Proof. induction 1 as [|l1 l2 l x _ IH|l1 l2 l x _ _]; intros E; [done|by rewrite IH|]. by destruct l2. Qed.

(** ** The session goroutine is [RequestChannel] *)

Section runtime.
Context {PO : PebbleOps} {J : JSONDecoder} {T : Type} `{EA : ExtentAllocator T} {AD : AioDisk} {PM : ProtoMarshal} {PU : ProtoUnmarshal}.
Implicit Types (w : world (T := T)) (s : flux (T := T)) (g : gstate (T := T)).
Context (e : env).

(** The iterations over a list of payloads, none of which but the last
    returns. *)
Inductive runs (g0 : gstate) : list RequestPayload -> gstate -> list ResponsePayload -> bool -> Prop :=
  | runs_nil : runs g0 [] g0 [] false
  | runs_snoc ps g o p g' rs ends : runs g0 ps g o false -> onPayload e g p = Some (g', rs, ends) -> runs g0 (ps ++ [p]) g' (o ++ rs) ends.

Definition loopOf g (o : list ResponsePayload) (more : list RequestPayload) : option ended :=
  channelLoop e (g_i g) (g_h g) (g_w g) more o.

(** One iteration of [channelLoop]. *)
Lemma loop_onNext g o p more :
  g_first g = false ->
  loopOf g o (p :: more) = '(g', rs, ends) ← onNext e g p; if ends : bool then Some (g_h g', g_w g', o ++ rs) else loopOf g' (o ++ rs) more.
Proof.
  intros Hf. unfold loopOf, onNext. cbn [channelLoop].
  destruct (isOneOf _ _).
  { destruct (g_h g) as [h|] eqn:Eh; [|cbn; by rewrite Eh]. destruct (Put _ _ _ _) as [[[h' w'] r]|]; [|done]. cbn.
    by destruct r. }
  destruct (isOneOf _ _).
  { destruct (g_h g) as [h|] eqn:Eh; [|cbn; by rewrite Eh]. by destruct (Complete _ _ _ _ _) as [[[h' w'] r]|]. }
  destruct (isOneOf _ _); [|done].
  destruct (g_h g) as [h|] eqn:Eh; [|cbn; by rewrite Eh]. by destruct (TimeOut _ _) as [[[h' w'] r]|].
Qed.

Lemma onNext_first g p g' rs : onNext e g p = Some (g', rs, false) -> g_first g' = false.
Proof.
  unfold onNext. intros E. repeat (case_match || destruct (Put _ _ _ _) as [[[? ?] ?]|] || destruct (Complete _ _ _ _ _) as [[[? ?] ?]|] || destruct (TimeOut _ _) as [[[? ?] ?]|]);
    simpl in E; try destruct (forward _) as [? []]; simpl in E; by simplify_eq.
Qed.

(** The first iteration. *)
Lemma channel_onFirst w p more :
  RequestChannel e w (p :: more) =
    '(g', rs, ends) ← onFirst e (gstart w) p; if ends : bool then Some (g_h g', g_w g', rs) else loopOf g' rs more.
Proof.
  unfold RequestChannel, onFirst. cbn [g_w gstart]. destruct (isOneOf _ _).
  { by destruct (putAndComplete e w (Data p)) as [[[h w'] out]|]. }
  destruct (isOneOf _ _); [|by destruct (isOneOf _ _)].
  destruct (decodePutInitRequest _); [done|]. by destruct (startHandler _ _ _).
Qed.

Lemma onFirst_first g p g' rs : onFirst e g p = Some (g', rs, false) -> g_first g' = false /\ rs = [].
Proof.
  unfold onFirst. intros E. repeat (case_match || destruct (putAndComplete _ _ _) as [[[? ?] ?]|]); simpl in E; by simplify_eq.
Qed.

(** What a run of iterations says of [RequestChannel] on the payloads so far
    and any that follow. *)
Lemma runs_channel w ps g o ends :
  runs (gstart w) ps g o ends ->
  (ends = false -> (g = gstart w /\ ps = [] /\ o = []) \/
     (g_first g = false /\ forall more, RequestChannel e w (ps ++ more) = loopOf g o more)) /\
  (ends = true -> forall more, RequestChannel e w (ps ++ more) = Some (g_h g, g_w g, o)).
Proof.
  induction 1 as [|ps g o p g' rs ends _ [IH _] Hp]; [split; [by left|done]|].
  destruct (IH eq_refl) as [(-> & -> & ->)|[Hf IH']]; unfold onPayload in Hp.
  - cbn [g_first gstart] in Hp. split.
    + intros ->. right. destruct (onFirst_first _ _ _ _ Hp) as [Hf ->]. split; [done|]. intros more.
      cbn [app]. rewrite channel_onFirst, Hp. done.
    + intros -> more. cbn [app]. by rewrite channel_onFirst, Hp.
  - rewrite Hf in Hp. split.
    + intros ->. right. split; [by eapply onNext_first|]. intros more. rewrite <- app_assoc, IH'. cbn [app]. by rewrite loop_onNext, Hp.
    + intros -> more. rewrite <- app_assoc, IH'. cbn [app]. by rewrite loop_onNext, Hp.
Qed.

Lemma runs_result w ps g o ends : runs (gstart w) ps g o ends -> RequestChannel e w ps = Some (g_h g, g_w g, o).
Proof.
  intros Hr. apply runs_channel in Hr as [H0 H1]. rewrite <- (app_nil_r ps). destruct ends; [by apply H1|].
  destruct (H0 eq_refl) as [(-> & -> & ->)|[_ H]]; [done|]. by rewrite H.
Qed.

(** A session that does not panic takes every payload it comes to. *)
Lemma runs_progress w ps g o p more r :
  runs (gstart w) ps g o false -> RequestChannel e w (ps ++ p :: more) = Some r -> is_Some (onPayload e g p).
Proof.
  intros Hr Hc. apply runs_channel in Hr as [H0 _]. destruct (H0 eq_refl) as [(-> & -> & ->)|[Hf H]]; unfold onPayload.
  - cbn [app] in Hc. rewrite channel_onFirst in Hc. cbn [g_first gstart]. destruct (onFirst e (gstart w) p); [eauto|done].
  - rewrite H, loop_onNext in Hc by done. rewrite Hf. destruct (onNext e g p); [eauto|done].
Qed.

(** ** The invariant of every schedule *)

Definition nxt (r : ResponsePayload) : sinkEvent := SinkNext (EncodePayload r).

(** The events of the actions of a body. *)
Definition eventsOf (todo : list action) : list sinkEvent :=
  omap (fun a => match a with ActNext p => Some (SinkNext p) | ActComplete => Some SinkComplete | ActClose => None end) todo.

Inductive is_body : list action -> Prop :=
  | body_complete : is_body completeBody
  | body_error err : is_body (emitErrorBody err).

Definition pendW (x : writer) : list ResponsePayload := match x with WriteEmit r => [r] | _ => [] end.
Definition todoOf (x : session (T := T)) : list ResponsePayload := match x with SessSend _ todo _ => todo | _ => [] end.
Definition gOf (x : session (T := T)) : gstate := match x with SessRecv g | SessSend g _ _ | SessDone g => g end.

Ltac fields := cbn [f_src f_errs f_cancelled f_incoming f_incomingErr f_requests f_responses f_finished f_once f_sink f_reader f_session f_writer
  set_source set_reader set_session set_writer set_once set_finish set_cancelled readReturn act onceReturn send close ch_buf ch_closed
  pendW todoOf] in *.

(** Use what the rule of a step says of the state. *)
Ltac use_rule := repeat match goal with
  | Hx : f_src _ = _ |- _ => rewrite Hx in * | Hx : f_errs _ = _ |- _ => rewrite Hx in * | Hx : f_cancelled _ = _ |- _ => rewrite Hx in *
  | Hx : f_reader _ = _ |- _ => rewrite Hx in * | Hx : f_session _ = _ |- _ => rewrite Hx in * | Hx : f_writer _ = _ |- _ => rewrite Hx in *
  | Hx : f_once _ = _ |- _ => rewrite Hx in * | Hx : ch_buf _ = _ |- _ => rewrite Hx in * | Hx : ch_closed _ = _ |- _ => rewrite Hx in *
  end.

Section invariant.
Context (w0 : world (T := T)) (src0 : list wire).

(** What the reading goroutine has still to read; the library drops payloads
    only on a cancelled context. *)
Definition unread_ok s (rest : list wire) : Prop :=
  exists dropped, rest = ch_buf (f_incoming s) ++ f_src s ++ dropped /\ (f_cancelled s = false -> dropped = []).

(** The payloads [dw] have been read, and of those the session has taken
    [consumed]; while the goroutine reads, nothing else is missing. *)
Definition src_ok s (consumed : list RequestPayload) : Prop :=
  exists dw more rest, src0 = dw ++ rest /\ map DecodePayload dw = map inr (consumed ++ ch_buf (f_requests s) ++ more) /\
    match f_reader s with
    | ReadLoop _ _ => more = [] /\ unread_ok s rest
    | ReadSend p _ => more = [p] /\ unread_ok s rest
    | _ => True
    end.

Definition run_ok s consumed o : Prop :=
  match f_session s with
  | SessRecv g => runs (gstart w0) consumed g o false
  | SessSend g _ ends => runs (gstart w0) consumed g o ends
  | SessDone g => exists ends, runs (gstart w0) consumed g o ends
  end.

Definition sink_ok s em : Prop :=
  exists bd, interleave (map nxt em) bd (f_sink s) /\
    match f_once s with
    | OnceFree => bd = []
    | OnceRun _ todo => exists body, is_body body /\ bd ++ eventsOf todo = eventsOf body
    | OnceDone => exists body, is_body body /\ bd = eventsOf body
    end.

Record flux_inv s consumed o em : Prop := {
  fi_src : src_ok s consumed;
  fi_run : run_ok s consumed o;
  fi_out : o = em ++ pendW (f_writer s) ++ ch_buf (f_responses s) ++ todoOf (f_session s);
  fi_sink : sink_ok s em;
  fi_who : match f_once s with OnceRun Writer _ => f_writer s = WriteOnce | _ => True end;
}.

Lemma flux_inv_init errs : flux_inv (requestChannelFlux w0 src0 errs) [] [] [].
Proof.
  split; [|constructor|done| |done].
  - exists [], [], src0. split; [done|]. split; [done|]. split; [done|]. exists []. by rewrite app_nil_r.
  - exists []. split; [constructor|done].
Qed.

(** Steps of the library. *)
Lemma src_ok_library s s' consumed :
  f_reader s' = f_reader s -> ch_buf (f_requests s') = ch_buf (f_requests s) -> (forall rest, unread_ok s rest -> unread_ok s' rest) ->
  src_ok s consumed -> src_ok s' consumed.
Proof.
  intros Er Eq Hu (dw & more & rest & E & Ed & Hr). exists dw, more, rest. rewrite Er, Eq. split; [done|]. split; [done|].
  destruct (f_reader s); by intuition.
Qed.

(** The goroutine stops reading. *)
Lemma src_ok_stop s s' consumed :
  match f_reader s' with ReadLoop _ _ | ReadSend _ _ => False | _ => True end -> ch_buf (f_requests s') = ch_buf (f_requests s) ->
  src_ok s consumed -> src_ok s' consumed.
Proof.
  intros Hr Eq (dw & more & rest & E & Ed & _). exists dw, more, rest. rewrite Eq. split; [done|]. split; [done|]. by destruct (f_reader s').
Qed.

(** The loop goes on with the same payloads to read. *)
Lemma src_ok_loop s s' i o i' o' consumed :
  f_reader s = ReadLoop i o -> f_reader s' = ReadLoop i' o' -> ch_buf (f_requests s') = ch_buf (f_requests s) ->
  (forall rest, unread_ok s rest -> unread_ok s' rest) -> src_ok s consumed -> src_ok s' consumed.
Proof.
  intros Er Er' Eq Hu (dw & more & rest & E & Ed & Hr). exists dw, more, rest. rewrite Er in Hr. rewrite Er', Eq. by intuition.
Qed.

(** A payload is read and decoded. *)
Lemma src_ok_item s o p buf req consumed :
  f_reader s = ReadLoop true o -> ch_buf (f_incoming s) = p :: buf -> DecodePayload p = inr req -> src_ok s consumed ->
  src_ok (set_reader s (mkChan buf (ch_closed (f_incoming s))) (f_incomingErr s) (f_requests s) (ReadSend req o)) consumed.
Proof.
  intros Er Eb Hd (dw & more & rest & E & Ed & Hr). rewrite Er in Hr. destruct Hr as (-> & dropped & Er' & Hc). subst rest. rewrite app_nil_r in Ed.
  exists (dw ++ [p]), [req], (buf ++ f_src s ++ dropped). fields. split; [by rewrite E, Eb, <- app_assoc|].
  split; [by rewrite map_app, Ed, app_assoc, (map_app _ _ [req]); cbn [map]; rewrite Hd|]. split; [done|]. by exists dropped.
Qed.

(** A decoded payload is handed to the session. *)
Lemma src_ok_send s p o consumed :
  f_reader s = ReadSend p o -> src_ok s consumed ->
  src_ok (set_reader s (f_incoming s) (f_incomingErr s) (send (f_requests s) p) (ReadLoop true o)) consumed.
Proof.
  intros Er (dw & more & rest & E & Ed & Hr). rewrite Er in Hr. destruct Hr as (-> & Hu).
  exists dw, [], rest. fields. split; [done|]. by rewrite app_nil_r.
Qed.

(** The session takes a payload. *)
Lemma src_ok_payload s p buf (g : session (T := T)) consumed :
  ch_buf (f_requests s) = p :: buf -> src_ok s consumed ->
  src_ok (set_session s (mkChan buf (ch_closed (f_requests s))) (f_responses s) g) (consumed ++ [p]).
Proof.
  intros Eb (dw & more & rest & E & Ed & Hr). exists dw, more, rest. fields. split; [done|]. split; [|done].
  by rewrite Ed, Eb, <- app_assoc.
Qed.

(** The sink part. *)
Lemma sink_ok_emit s r em : sink_ok s em -> sink_ok (set_writer s (f_responses s) (f_sink s ++ [nxt r]) WriteLoop) (em ++ [r]).
Proof. intros (bd & Hi & Ho). exists bd. fields. rewrite map_app. split; [by apply (il_left _ _ _ (nxt r))|done]. Qed.

Lemma sink_ok_act s who a todo em : f_once s = OnceRun who (a :: todo) -> sink_ok s em -> sink_ok (act (set_once s (OnceRun who todo)) a) em.
Proof.
  intros Eo (bd & Hi & Ho). rewrite Eo in Ho. destruct Ho as (body & Hb & E).
  destruct a; fields; eexists; (split; [first [by apply il_right|exact Hi]|]); fields; exists body; (split; [done|]);
    rewrite <- ?app_assoc; exact E.
Qed.

(** A step other than the session taking a payload. *)
Lemma src_step mc s s' consumed :
  flux_step e mc s s' -> src_ok s consumed -> (length (ch_buf (f_requests s)) <= length (ch_buf (f_requests s')))%nat -> src_ok s' consumed.
Proof.
  intros Hs H Hl. destruct Hs; try exact H;
    try solve [eapply src_ok_library; [..|exact H]; [done|done|];
      intros rest (dr & -> & Hd); unfold unread_ok; fields;
      repeat match goal with Hx : f_src _ = _ |- _ => rewrite Hx in * end; eexists; split; [by rewrite <- ?app_assoc|]; intros; try done; by apply Hd];
    try solve [eapply src_ok_stop; [..|exact H]; done];
    try solve [eapply src_ok_loop; [..|exact H]; [done|done|done|]; intros rest (dr & -> & Hd); by exists dr].
  - eapply src_ok_library; [..|exact H]; [done|done|]. intros rest (dr & -> & _). exists (f_src s ++ dr). fields. split; [done|congruence].
  - by eapply src_ok_item.
  - by eapply src_ok_send.
  - fields. match goal with Hx : ch_buf (f_requests s) = _ |- _ => rewrite Hx in Hl end. simpl in Hl. lia.
  - by destruct a.
  - destruct who; [by eapply src_ok_stop; [..|exact H]|exact H].
Qed.

Lemma flux_inv_step mc s s' consumed o em :
  flux_step e mc s s' -> flux_inv s consumed o em -> exists consumed' o' em', flux_inv s' consumed' o' em'.
Proof.
  intros Hs [Hsrc Hrun Hout Hsink Hwho]. pose proof (src_step _ _ _ _ Hs Hsrc) as Hsrc'. unfold run_ok in Hrun.
  destruct Hs; fields; repeat match goal with Hx : f_writer _ = _ |- _ => rewrite Hx in * | Hx : f_session _ = _ |- _ => rewrite Hx in * end; fields;
    try solve [exists consumed, o, em; split; unfold run_ok; fields;
      [apply Hsrc'; rewrite ?length_app; lia|first [exact Hrun|by eexists]|by rewrite Hout, <- ?app_assoc|exact Hsink
      |first [exact Hwho|by destruct (f_once s) as [|[]|]]]].
  - exists consumed, o, em. split; [by apply Hsrc'|exact Hrun|exact Hout| |done].
    destruct Hsink as (bd & Hi & Ho). match goal with Hx : f_once s = _ |- _ => rewrite Hx in Ho end. subst bd.
    exists []. fields. split; [done|]. exists (emitErrorBody err). split; [constructor|done].
  - exists (consumed ++ [p]), (o ++ rs), em. split; [by apply src_ok_payload|by eapply runs_snoc| |exact Hsink|exact Hwho].
    fields. by rewrite Hout, app_nil_r, <- !app_assoc.
  - exists consumed, o, em. split; [by apply Hsrc'|exact Hrun| |exact Hsink|fields; by destruct (f_once s) as [|[]|]].
    fields. rewrite Hout. by match goal with Hx : ch_buf (f_responses s) = _ |- _ => rewrite Hx end.
  - exists consumed, o, (em ++ [r]). split; [by apply Hsrc'|exact Hrun|by rewrite Hout, <- app_assoc|by apply sink_ok_emit|fields; by destruct (f_once s) as [|[]|]].
  - exists consumed, o, em. split; [by apply Hsrc'|exact Hrun|exact Hout| |done].
    destruct Hsink as (bd & Hi & Ho). match goal with Hx : f_once s = _ |- _ => rewrite Hx in Ho end. subst bd.
    exists []. fields. split; [done|]. exists completeBody. split; [constructor|done].
  - match goal with Hx : f_once s = _ |- _ => rename Hx into Eo end. exists consumed, o, em. split; [apply Hsrc'; by destruct a|by destruct a|by destruct a|by apply sink_ok_act|].
    rewrite Eo in Hwho. by destruct a, who.
  - match goal with Hx : f_once s = _ |- _ => rename Hx into Eo end. rewrite Eo in Hwho. exists consumed, o, em.
    split; [apply Hsrc'; by destruct who|by destruct who|destruct who; fields; [done|by rewrite Hwho in Hout]| |by destruct who].
    destruct Hsink as (bd & Hi & Ho). rewrite Eo in Ho. exists bd. destruct who; fields; (split; [done|]);
      destruct Ho as (body & Hb & E); exists body; split; try done; by rewrite <- E, app_nil_r.
Qed.

Lemma flux_reachable mc errs s :
  rtc (flux_step e mc) (requestChannelFlux w0 src0 errs) s -> exists consumed o em, flux_inv s consumed o em.
Proof.
  revert s. apply rtc_ind_r; [eexists _, _, _; apply flux_inv_init|].
  intros y z _ Hs (consumed & o & em & Hi). by eapply flux_inv_step.
Qed.
End invariant.

(** ** Termination *)

Definition b2n (b : bool) : nat := if b then 1 else 0.

(** No step can be undone: each one uses up some of this. *)
Definition weight_reader (r : reader) : nat :=
  match r with ReadLoop i o => 4 + b2n i + b2n o | ReadSend _ o => 23 + b2n o | ReadFail _ => 3 | ReadOnce => 2 | ReadDone => 0 end.
Definition weight_session (x : session (T := T)) : nat :=
  match x with SessRecv _ => 1 | SessSend _ todo _ => 2 + 4 * length todo | SessDone _ => 0 end.
Definition weight_writer (x : writer) : nat :=
  match x with WriteLoop => 4 | WriteEmit _ => 6 | WriteFinish => 3 | WriteOnce => 2 | WriteDone => 0 end.
Definition weight_once (o : once) : nat :=
  match o with OnceFree => 10 | OnceRun _ todo => 1 + length todo | OnceDone => 0 end.
Definition weight s : nat :=
  20 * length (f_src s) + 3 * length (f_errs s) + b2n (negb (f_cancelled s)) +
  19 * length (ch_buf (f_incoming s)) + b2n (negb (ch_closed (f_incoming s))) +
  2 * length (ch_buf (f_incomingErr s)) + b2n (negb (ch_closed (f_incomingErr s))) +
  17 * length (ch_buf (f_requests s)) + 3 * length (ch_buf (f_responses s)) +
  weight_once (f_once s) + weight_reader (f_reader s) + weight_session (f_session s) + weight_writer (f_writer s).

(** An iteration sends at most two responses. *)
Lemma onPayload_length g p g' rs ends : onPayload e g p = Some (g', rs, ends) -> (length rs <= 2)%nat.
Proof.
  assert (Hpc : forall w d h w' out, putAndComplete e w d = Some (h, w', out) -> (length out <= 2)%nat).
  { intros w d h w' out. unfold putAndComplete. destruct (decodePutAndComplete d) as [[?|[start body]]|]; simpl; [by intros [= <- <- <-]; simpl; lia| |done].
    destruct (startHandler e w start); [by intros [= <- <- <-]; simpl; lia|]. destruct (Put _ _ _ _) as [[[? ?] r]|]; simpl; [|done].
    destruct (forward r) as [? []]; [|by intros [= <- <- <-]; simpl; lia]. destruct (Complete _ _ _ _ _) as [[[? ?] ?]|]; simpl; [|done].
    intros [= <- <- <-]. simpl. lia. }
  unfold onPayload, onFirst, onNext. intros E.
  destruct (putAndComplete e (g_w g) (Data p)) as [[[h w'] out]|] eqn:Epc; [apply Hpc in Epc|clear Epc];
  repeat (case_match || destruct (Put _ _ _ _) as [[[? ?] ?]|] || destruct (Complete _ _ _ _ _) as [[[? ?] ?]|] || destruct (TimeOut _ _) as [[[? ?] ?]|]);
    simpl in E; try destruct (forward _) as [? ?]; simpl in E; simplify_eq; simpl; lia.
Qed.

Lemma flux_decreases mc s s' : flux_step e mc s s' -> (weight s' < weight s)%nat.
Proof.
  intros Hs. destruct Hs; try destruct a; try destruct who; unfold weight; cbn [f_src f_errs f_cancelled f_incoming f_incomingErr f_requests f_responses f_finished f_once f_sink f_reader f_session f_writer
    set_source set_reader set_session set_writer set_once set_finish set_cancelled readReturn act onceReturn send close ch_buf ch_closed];
    repeat match goal with
    | Hx : f_src _ = _ |- _ => rewrite Hx | Hx : f_errs _ = _ |- _ => rewrite Hx | Hx : f_cancelled _ = _ |- _ => rewrite Hx
    | Hx : f_reader _ = _ |- _ => rewrite Hx | Hx : f_session _ = _ |- _ => rewrite Hx | Hx : f_writer _ = _ |- _ => rewrite Hx
    | Hx : f_once _ = _ |- _ => rewrite Hx | Hx : ch_buf _ = _ |- _ => rewrite Hx | Hx : ch_closed _ = _ |- _ => rewrite Hx
    | Hx : onPayload _ _ _ = _ |- _ => apply onPayload_length in Hx end;
    rewrite ?length_app; cbn [weight_reader weight_session weight_writer weight_once b2n negb length app emitErrorBody completeBody]; try lia.
  destruct (f_src s); [done|simpl; lia].
Qed.

(** No schedule runs forever. *)
Lemma flux_terminates mc s : Acc (flip (flux_step e mc)) s.
Proof. apply (Acc_measure _ weight), flux_decreases. Qed.

(** ** Delivery *)

Section delivery.
Context (w0 : world (T := T)) (src0 : list wire) (reqs : list RequestPayload) (h' : option AioUploadServerHandler) (w' : world (T := T))
  (out : list ResponsePayload).
Hypothesis Hd : map DecodePayload src0 = map inr reqs.
Hypothesis Hc : RequestChannel e w0 reqs = Some (h', w', out).

Definition sessDone s : Prop := match f_session s with SessDone _ => ch_buf (f_responses s) = [] | _ => False end.

(** The library reports no error and closes a channel when it has delivered
    everything. *)
Definition lib_ok s : Prop :=
  f_errs s = [] /\ ch_buf (f_incomingErr s) = [] /\ f_cancelled s = false /\ (ch_closed (f_incoming s) = true -> f_src s = []).

(** Every payload is on its way, in order, until the stream is finished. *)
Definition read_ok s consumed : Prop :=
  match f_reader s with
  | ReadLoop i o =>
      ch_closed (f_requests s) = false /\ (i = false -> ch_closed (f_incoming s) = true /\ ch_buf (f_incoming s) = []) /\
      exists rest, reqs = consumed ++ ch_buf (f_requests s) ++ rest /\ map DecodePayload (ch_buf (f_incoming s) ++ f_src s) = map inr rest
  | ReadSend p o =>
      ch_closed (f_requests s) = false /\
      exists rest, reqs = consumed ++ ch_buf (f_requests s) ++ p :: rest /\ map DecodePayload (ch_buf (f_incoming s) ++ f_src s) = map inr rest
  | ReadDone => ch_closed (f_requests s) = true /\ exists rest, reqs = consumed ++ ch_buf (f_requests s) ++ rest /\ (f_finished s = true \/ rest = [])
  | _ => False
  end.

(** The answers reach the sink in order; it is completed when all have. *)
Definition write_ok s em : Prop :=
  match f_once s, f_writer s with
  | OnceFree, (WriteLoop | WriteEmit _) => f_finished s = false /\ f_sink s = map nxt em
  | OnceFree, WriteFinish => f_finished s = false /\ f_sink s = map nxt em /\ sessDone s
  | OnceRun Writer todo, WriteOnce => sessDone s /\
      ((todo = completeBody /\ f_finished s = false /\ f_sink s = map nxt em) \/
       (todo = [ActComplete] /\ f_finished s = true /\ f_sink s = map nxt em) \/
       (todo = [] /\ f_finished s = true /\ f_sink s = map nxt em ++ [SinkComplete]))
  | OnceDone, WriteDone => sessDone s /\ f_finished s = true /\ f_sink s = map nxt em ++ [SinkComplete]
  | _, _ => False
  end.

Definition sess_ok s consumed o : Prop :=
  match f_session s with
  | SessRecv g => runs (gstart w0) consumed g o false /\ ch_closed (f_responses s) = false
  | SessSend g _ ends => runs (gstart w0) consumed g o ends /\ ch_closed (f_responses s) = false
  | SessDone g => ch_closed (f_responses s) = true /\ exists ends, runs (gstart w0) consumed g o ends /\ (ends = true \/ consumed = reqs)
  end.

Record delivering s consumed o em : Prop := {
  dl_lib : lib_ok s;
  dl_read : read_ok s consumed;
  dl_sess : sess_ok s consumed o;
  dl_out : o = em ++ pendW (f_writer s) ++ ch_buf (f_responses s) ++ todoOf (f_session s);
  dl_write : write_ok s em;
}.

Lemma delivering_init : delivering (requestChannelFlux w0 src0 []) [] [] [].
Proof.
  split; try done; [|by split; [constructor|]].
  split; [done|]. split; [done|]. by exists reqs.
Qed.

(** Only the writing goroutine ends the stream, after the session. *)
Lemma finished_done s em : write_ok s em -> f_finished s = true -> exists g, f_session s = SessDone g.
Proof.
  unfold write_ok, sessDone. intros Hw Hf. destruct (f_session s); [..|eauto];
    repeat (case_match; try done); destruct_and?; try congruence; naive_solver.
Qed.
Lemma lib_step s s' : flux_step e false s s' -> lib_ok s -> lib_ok s'.
Proof.
  intros Hs H. destruct Hs; try exact H; try by destruct a.
  all: try solve [destruct H as (He & Heb & Hcn & Hcl); unfold lib_ok; fields; use_rule; done].
  - destruct H as (He & Heb & Hcn & Hcl). split; [done|]. split; [done|]. split; [done|]. fields. intros Hx. apply Hcl in Hx. congruence.
  - by destruct who.
Qed.

Lemma map_inr_nil {A B} (l : list B) : @nil (A + B) = map inr l -> l = [].
Proof. by destruct l. Qed.

(** The next payload to read is the next of the session. *)
Lemma read_next (p : wire) buf (src : list wire) rest :
  map DecodePayload ((p :: buf) ++ src) = map inr rest ->
  exists req rest', rest = req :: rest' /\ DecodePayload p = inr req /\ map DecodePayload (buf ++ src) = map inr rest'.
Proof. destruct rest as [|req rest']; [done|]. intros E. cbn [map app] in E. injection E as E1 E2. eauto. Qed.

Lemma read_step s s' consumed :
  flux_step e false s s' -> lib_ok s -> (forall todo, f_once s <> OnceRun Reader todo) -> read_ok s consumed ->
  (length (ch_buf (f_requests s)) <= length (ch_buf (f_requests s')))%nat -> read_ok s' consumed.
Proof.
  intros Hs (He & Heb & Hcn & Hcl) Hno H Hl. destruct Hs; try exact H; unfold read_ok in *; fields; use_rule; try done.
  - rewrite <- app_assoc. destruct (f_reader s) as [i ?|? ?|?| |]; try done. destruct H as (Hq & Hi & H). split; [done|]. split; [|done].
    intros ->. destruct (Hi eq_refl) as [Hx _]. apply Hcl in Hx. done.
  - destruct (f_reader s) as [i ?|? ?|?| |]; try done; by intuition.
  - destruct H as (_ & Hi & rest & E & Hm). destruct (Hi eq_refl) as [Hx Hb]. apply Hcl in Hx. rewrite Hb, Hx in Hm. apply map_inr_nil in Hm.
    split; [done|]. exists rest. auto.
  - destruct H as (_ & _ & rest & E & Hm). split; [done|]. exists rest. split; [done|]. by left.
  - destruct H as (Hq & _ & rest & E & Hm). apply read_next in Hm as (req' & rest' & -> & Ep & Hm).
    assert (req' = req) as -> by congruence. split; [done|]. by exists rest'.
  - destruct H as (Hq & _ & rest & E & Hm). apply read_next in Hm as (req' & rest' & -> & Ep & Hm). congruence.
  - destruct H as (Hq & _ & H). done.
  - destruct H as (Hq & rest & E & Hm). split; [done|]. split; [done|]. exists rest. by rewrite <- !app_assoc.
  - destruct H as (_ & rest & E & Hm). split; [done|]. eexists. split; [done|]. by left.
  - simpl in Hl. lia.
  - destruct a; try exact H. fields. destruct (f_reader s); try done. destruct H as (Hq & rest & E & _). split; [done|]. exists rest. auto.
  - destruct who; [by destruct (Hno [])|exact H].
Qed.

Lemma sess_step s s' consumed o em :
  flux_step e false s s' -> sess_ok s consumed o -> read_ok s consumed -> write_ok s em ->
  (length (ch_buf (f_requests s)) <= length (ch_buf (f_requests s')))%nat -> sess_ok s' consumed o.
Proof.
  intros Hs H Hr Hw Hl. pose proof (finished_done _ _ Hw) as Hfd. destruct Hs; try exact H; try by destruct a.
  all: unfold sess_ok in *; fields; use_rule; try done; try by destruct who.
  - simpl in Hl. lia.
  - split; [done|]. exists false. split; [apply H|]. right. unfold read_ok in Hr.
    destruct (f_reader s); try done; destruct Hr as [Hq Hr]; [congruence|congruence|]. destruct Hr as (rest & E & Hx). use_rule. destruct Hx as [Hx| ->]; [apply Hfd in Hx as [? ?]; congruence|]. by rewrite E, !app_nil_r.
  - split; [done|]. exists true. split; [apply H|by left].
Qed.

(** The answers on their way stay the same, until the session adds some. *)
Definition onTheWay s em : list ResponsePayload := em ++ pendW (f_writer s) ++ ch_buf (f_responses s) ++ todoOf (f_session s).

(** Before the session ends the writing goroutine is in its loop. *)
Lemma write_ok_session s em rq rp (x : session (T := T)) :
  write_ok s em -> (forall g, f_session s <> SessDone g) -> write_ok (set_session s rq rp x) em.
Proof.
  unfold write_ok, sessDone. fields. intros H Hn.
  destruct (f_once s) as [|[]|]; try done; destruct (f_writer s); try done; destruct (f_session s); try by intuition.
  all: by destruct (Hn _ eq_refl).
Qed.

Lemma write_ok_loop s em :
  write_ok s em -> (f_writer s = WriteLoop \/ exists r, f_writer s = WriteEmit r) ->
  f_once s = OnceFree /\ f_finished s = false /\ f_sink s = map nxt em.
Proof. unfold write_ok. intros H [E|[r E]]; rewrite E in H; by destruct (f_once s) as [|[]|]. Qed.

Lemma write_ok_act s todo a em :
  f_once s = OnceRun Writer (a :: todo) -> write_ok s em -> write_ok (act (set_once s (OnceRun Writer todo)) a) em.
Proof.
  unfold write_ok. intros E H. rewrite E in H. destruct (f_writer s) eqn:Ew; try done. destruct H as (Hs & [H|[H|H]]); destruct H as (Et & Hf & Hk).
  - injection Et as -> ->. fields. rewrite Ew. split; [exact Hs|]. auto.
  - injection Et as -> ->. fields. rewrite Ew. split; [exact Hs|]. rewrite Hk. auto.
  - done.
Qed.

Lemma write_step s s' consumed o em :
  flux_step e false s s' -> lib_ok s -> read_ok s consumed -> sess_ok s consumed o -> write_ok s em ->
  (length (ch_buf (f_requests s)) <= length (ch_buf (f_requests s')))%nat ->
  exists em', write_ok s' em' /\ onTheWay s' em' = onTheWay s em.
Proof.
  intros Hs (_ & _ & Hcn & _) Hr Hss H Hl. destruct Hs; try (exists em; split; [exact H|done]);
    try (exists em; split; [apply write_ok_session; [done|congruence]|unfold onTheWay; fields; use_rule; by rewrite <- ?app_assoc]).
  all: try match goal with Hx : f_writer _ = WriteLoop |- _ => destruct (write_ok_loop _ _ H (or_introl Hx)) as (Ho & Hf & Hk) end.
  - unfold read_ok in Hr. use_rule. done.
  - fields. use_rule. simpl in Hl. lia.
  - match goal with Hx : _ || _ = true |- _ => by rewrite Hcn, Hf in Hx end.
  - exists em. unfold write_ok, onTheWay. fields. use_rule. done.
  - exists em. unfold write_ok, onTheWay, sessDone, sess_ok in *. fields. use_rule.
    destruct (f_session s); [by destruct Hss..|done].
  - destruct (write_ok_loop _ _ H) as (Ho & Hf & Hk); [by eauto|]. exists (em ++ [r]). unfold write_ok, onTheWay. fields. use_rule.
    rewrite Hk, map_app, <- app_assoc. done.
  - exists em. unfold write_ok, onTheWay, sessDone in *. fields. use_rule. destruct H as (Hf & Hk & Hd'). split; [|done]. auto.
  - unfold write_ok in H. use_rule. done.
  - destruct who; [unfold write_ok in H; use_rule; done|]. exists em. split; [by apply write_ok_act|]. by destruct a.
  - destruct who; [unfold write_ok in H; use_rule; done|]. exists em. unfold write_ok, onTheWay, sessDone in *. fields. use_rule.
    destruct (f_writer s); try done. destruct H as (Hd' & [H|[H|H]]); destruct H as (Et & Hf & Hk); by try discriminate Et.
Qed.

Lemma reader_not_once s em : write_ok s em -> forall todo, f_once s <> OnceRun Reader todo.
Proof. unfold write_ok. intros H todo E. by rewrite E in H. Qed.

Lemma delivering_step s s' consumed o em :
  flux_step e false s s' -> delivering s consumed o em -> exists consumed' o' em', delivering s' consumed' o' em'.
Proof.
  intros Hs [Hl Hr Hss Ho Hw]. destruct (decide (length (ch_buf (f_requests s)) <= length (ch_buf (f_requests s')))%nat) as [Hle|Hgt].
  { destruct (write_step _ _ _ _ _ Hs Hl Hr Hss Hw Hle) as (em' & Hw' & Hway). exists consumed, o, em'. split; [by eapply lib_step| | | |done].
    - eapply read_step; [done|done|by eapply reader_not_once|done|done].
    - by eapply sess_step.
    - rewrite Ho. symmetry. exact Hway. }
  destruct Hs; try destruct a; try destruct who; fields; rewrite ?length_app in Hgt; try (exfalso; lia).
  exists (consumed ++ [p]), (o ++ rs), em. split; [exact Hl| | | |apply write_ok_session; [done|congruence]].
  - unfold read_ok in *. fields. use_rule. destruct (f_reader s); try done; by setoid_rewrite <- app_assoc.
  - unfold sess_ok in *. fields. use_rule. destruct Hss as [Hss Hcl]. split; [by eapply runs_snoc|done].
  - fields. use_rule. fields. by rewrite Ho, !app_nil_r, <- !app_assoc.
Qed.

(** The session has taken a prefix of the payloads. *)
Lemma delivering_prefix s consumed : read_ok s consumed -> exists rest, reqs = consumed ++ ch_buf (f_requests s) ++ rest.
Proof.
  unfold read_ok. intros H. destruct (f_reader s); try done.
  - destruct H as (_ & _ & rest & E & _). eauto.
  - destruct H as (_ & rest & E & _). eauto.
  - destruct H as (_ & rest & E & _). eauto.
Qed.

(** A session that has ended has given all its answers. *)
Lemma delivered_result s consumed o g :
  read_ok s consumed -> sess_ok s consumed o -> f_session s = SessDone g -> g_h g = h' /\ g_w g = w' /\ o = out.
Proof.
  intros Hr Hss E. unfold sess_ok in Hss. rewrite E in Hss. destruct Hss as (_ & ends & Hrun & Hx).
  assert (Hres : RequestChannel e w0 reqs = Some (g_h g, g_w g, o)).
  { destruct Hx as [-> | <-]; [|by eapply runs_result]. destruct (delivering_prefix _ _ Hr) as [rest ->]. by eapply runs_channel. }
  rewrite Hc in Hres. by injection Hres as -> -> ->.
Qed.

(** ** Progress *)

Definition can_step s : Prop := exists s', flux_step e false s s'.

Lemma room_empty {A} (c : chan A) : ch_buf c = [] -> room c.
Proof. unfold room. intros ->. unfold chanCap. simpl. lia. Qed.

(** While the goroutine reads, it or the library can go on. *)
Lemma reader_progress s consumed :
  lib_ok s -> read_ok s consumed -> f_reader s <> ReadDone -> ch_buf (f_requests s) = [] \/ f_finished s = true -> can_step s.
Proof.
  intros (He & Heb & Hcn & Hcl) Hr Hnd Hq. unfold read_ok in Hr. destruct (f_reader s) as [i o|p o|?| |] eqn:Er; try done.
  - destruct Hr as (_ & Hi & rest & _ & Hm). destruct i.
    + destruct (ch_buf (f_incoming s)) as [|p buf] eqn:Eb.
      * destruct (ch_closed (f_incoming s)) eqn:Ecl; [eexists; by eapply read_closed|].
        destruct (f_src s) as [|p src] eqn:Es; [eexists; by eapply src_close|]. eexists. eapply src_item; [done|by apply room_empty].
      * apply read_next in Hm as (req & rest' & _ & Ep & _). eexists. by eapply read_item.
    + destruct (Hi eq_refl) as [Hx _]. apply Hcl in Hx. destruct o; [|eexists; by eapply read_end].
      destruct (ch_closed (f_incomingErr s)) eqn:Ecl; eexists; [by eapply read_err_closed|by eapply src_close_err].
  - destruct Hq as [Hq|Hf]; eexists; [eapply read_send; [done|by apply room_empty]|eapply read_send_stop; [done|]].
    by rewrite Hf, orb_true_r.
Qed.

(** The session can go on when its responses are taken. *)
Lemma session_progress s consumed o :
  lib_ok s -> read_ok s consumed -> sess_ok s consumed o -> (forall g, f_session s <> SessDone g) -> ch_buf (f_responses s) = [] -> can_step s.
Proof.
  intros Hl Hr Hss Hn Hb. destruct (f_session s) as [g|g [|r rs] []|g] eqn:Es; [| | | | |by destruct (Hn g)].
  - destruct (ch_buf (f_requests s)) as [|p buf] eqn:Eq.
    + destruct (f_reader s) as [?i ?o|?p ?o|?er| |] eqn:Er; try (eapply reader_progress; [done|done|congruence|by left]).
      eexists. eapply sess_closed; [done|done|]. unfold read_ok in Hr. rewrite Er in Hr. apply Hr.
    + unfold sess_ok in Hss. rewrite Es in Hss. destruct (delivering_prefix _ _ Hr) as [rest E]. rewrite Eq in E.
      destruct (runs_progress w0 consumed g o p (buf ++ rest) (h', w', out)) as [[[g' rs] ends] Hp]; [apply Hss|by rewrite E in Hc|].
      eexists. by eapply sess_payload.
  - eexists. by eapply sess_return.
  - eexists. by eapply sess_next.
  - eexists. eapply sess_send; [done|by apply room_empty].
  - eexists. eapply sess_send; [done|by apply room_empty].
Qed.

Definition all_done s : Prop := f_reader s = ReadDone /\ f_session s = SessDone (gOf (f_session s)) /\ f_writer s = WriteDone.

Lemma delivering_progress s consumed o em : delivering s consumed o em -> can_step s \/ all_done s.
Proof.
  intros [Hl Hr Hss Ho Hw]. pose proof Hw as Hw'. unfold write_ok in Hw. destruct (f_once s) as [|[] todo|] eqn:Eo; try done.
  - left. destruct (f_writer s) eqn:Ew; try done; [|eexists; by eapply write_emit|eexists; by eapply write_finish].
    destruct (ch_buf (f_responses s)) as [|r buf] eqn:Eb; [|eexists; by eapply write_recv].
    destruct (f_session s) as [g|g rs ends|g] eqn:Es; [by eapply session_progress; try done; congruence..|].
    eexists. eapply write_closed; [done|done|]. unfold sess_ok in Hss. rewrite Es in Hss. apply Hss.
  - left. destruct todo as [|a todo]; eexists; [by eapply once_return|by eapply once_act].
  - destruct (f_writer s) eqn:Ew; try done. destruct Hw as (Hd' & Hf & _). destruct (f_reader s) eqn:Er;
      try (left; eapply reader_progress; [done|done|congruence|by right]).
    right. unfold all_done, sessDone in *. by destruct (f_session s).
Qed.

Lemma delivering_reachable s :
  rtc (flux_step e false) (requestChannelFlux w0 src0 []) s -> exists consumed o em, delivering s consumed o em.
Proof.
  revert s. apply rtc_ind_r; [eexists _, _, _; apply delivering_init|].
  intros y z _ Hs (consumed & o & em & Hi). by eapply delivering_step.
Qed.
End delivery.

(** C30: Whatever happens on the wire, the stream is a session.  In every
    state that any schedule of the library and the three goroutines reaches,
    also after a malformed payload, a transport error or a cancelled context,
    the server has run [RequestChannel] on a prefix [reqs] of the payloads
    that were read, which the client sent in this order; and the sink has
    received a prefix of the answers of that session in order, interleaved
    with at most one error of the runtime and at most one completion. *)
Theorem flux_session mayCancel w src errs s :
  rtc (flux_step e mayCancel) (requestChannelFlux w src errs) s ->
  exists read rest reqs more out em body,
    src = read ++ rest /\ map DecodePayload read = map inr (reqs ++ more) /\
    RequestChannel e w reqs = Some (g_h (gOf (f_session s)), g_w (gOf (f_session s)), out) /\
    em `prefix_of` out /\ interleave (map nxt em) body (f_sink s) /\
    (body `prefix_of` [SinkComplete] \/ exists err, body `prefix_of` [nxt (errorPayload err); SinkComplete]).
Proof.
  intros Hr. destruct (flux_reachable w src mayCancel errs s Hr) as (consumed & o & em & [Hsrc Hrun Hout Hsink _]).
  destruct Hsrc as (dw & more & rest & -> & Ed & _). destruct Hsink as (bd & Hi & Ho).
  exists dw, rest, consumed, (ch_buf (f_requests s) ++ more), o, em, bd. split; [done|]. split; [done|]. split.
  { unfold run_ok in Hrun. destruct (f_session s); [| |destruct Hrun as [ends Hrun]]; by eapply runs_result. }
  split; [rewrite Hout; by apply prefix_app_r|]. split; [done|].
  assert (Hpre : forall body tl, is_body body -> bd ++ tl = eventsOf body ->
    bd `prefix_of` [SinkComplete] \/ exists err, bd `prefix_of` [nxt (errorPayload err); SinkComplete]).
  { intros body tl Hb E. destruct Hb as [|err]; [left|right; exists err]; by exists tl. }
  destruct (f_once s) as [|who todo|].
  - subst bd. left. apply prefix_nil.
  - destruct Ho as (body & Hb & E). by eapply Hpre.
  - destruct Ho as (body & Hb & ->). eapply (Hpre body []); [done|apply app_nil_r].
Qed.

(** C31: Without a failure every schedule delivers every answer.  If all
    payloads decode, the transport reports no error and the context is not
    cancelled, then from every reachable state every run is finite and can go
    on until all three goroutines have returned; then the server is in the
    state [RequestChannel] gives for the whole list of payloads, and the
    client has received exactly its answers, in order, and then the
    completion. *)
Theorem flux_delivers w src reqs h' w' out s :
  map DecodePayload src = map inr reqs -> RequestChannel e w reqs = Some (h', w', out) ->
  rtc (flux_step e false) (requestChannelFlux w src []) s ->
  Acc (flip (flux_step e false)) s /\
  ((exists s', flux_step e false s s') \/
   (all_done s /\ g_h (gOf (f_session s)) = h' /\ g_w (gOf (f_session s)) = w' /\ f_sink s = map nxt out ++ [SinkComplete])).
Proof.
  intros Hd Hc Hr. split.
  { apply flux_terminates. }
  destruct (delivering_reachable w src reqs Hd s Hr) as (consumed & o & em & Hi).
  destruct (delivering_progress w reqs h' w' out Hc _ _ _ _ Hi) as [Hstep|Hdone]; [by left|]. right. split; [done|].
  destruct Hdone as (Er & Es & Ew). destruct Hi as [Hl Hrd Hss Ho Hw].
  assert (Hres : g_h (gOf (f_session s)) = h' /\ g_w (gOf (f_session s)) = w' /\ o = out) by (eapply delivered_result; eassumption).
  destruct Hres as (Eh & Eww & ->). split; [done|]. split; [done|].
  unfold write_ok, sessDone in Hw. rewrite Ew, Es in Hw. destruct (f_once s) as [|[]|]; try done. destruct Hw as (Hb & _ & ->).
  rewrite Es, Ew, Hb in Ho. cbn [pendW todoOf app] in Ho. by rewrite Ho, app_nil_r.
Qed.
End runtime.

(** ** Witnesses *)

#[local] Existing Instances MemStore.ops MemDisk.ops demoDecoder demoMarshal demoUnmarshal.

(** A client that sends an unknown first payload. *)
Definition demoSource : list wire := [mkWire [1] (Some (bs "HELLO"))].
Definition demoRefusal : ResponsePayload := errorPayload "unsupported first meta type: HELLO".

Lemma flux_session_witness :
  exists s, rtc (flux_step demoEnv true) (requestChannelFlux demoWorld demoSource []) s /\
  exists read rest reqs more out em body,
    demoSource = read ++ rest /\ map DecodePayload read = map inr (reqs ++ more) /\
    RequestChannel demoEnv demoWorld reqs = Some (g_h (gOf (f_session s)), g_w (gOf (f_session s)), out) /\
    em `prefix_of` out /\ interleave (map nxt em) body (f_sink s) /\
    (body `prefix_of` [SinkComplete] \/ exists err, body `prefix_of` [nxt (errorPayload err); SinkComplete]).
Proof.
  eexists. assert (Hr : rtc (flux_step demoEnv true) (requestChannelFlux demoWorld demoSource [])
    (set_cancelled (requestChannelFlux demoWorld demoSource []))) by (apply rtc_once, ctx_cancel; reflexivity).
  split; [exact Hr|]. exact (flux_session demoEnv true demoWorld demoSource [] _ Hr).
Defined.

(** The first step of the library. *)
Definition demoFlux : flux :=
  set_source (requestChannelFlux demoWorld demoSource []) [] [] (send empty (mkWire [1] (Some (bs "HELLO")))) empty.

Lemma flux_delivers_witness :
  Acc (flip (flux_step demoEnv false)) demoFlux /\
  ((exists s', flux_step demoEnv false demoFlux s') \/
   (all_done demoFlux /\ g_h (gOf (f_session demoFlux)) = None /\ g_w (gOf (f_session demoFlux)) = demoWorld /\
    f_sink demoFlux = map nxt [demoRefusal] ++ [SinkComplete])).
Proof.
  apply (flux_delivers demoEnv demoWorld demoSource [mkRequestPayload "HELLO" [1]] None demoWorld [demoRefusal]);
    [vm_compute; reflexivity|reflexivity|].
  apply rtc_once. eapply src_item; [reflexivity|apply room_empty; reflexivity].
Defined.
