(* ===== verification/ClientRun.v ===== *)
(** * The upload client's worker pool

    [runUploads] of [cmd/aio_upload_client]: a pool of workers takes upload
    numbers from an unbuffered channel; the first failure is kept and cancels
    the context; a reporting goroutine prints until the context is done; the
    main goroutine waits for all of them and decides the result.  Every
    communication is a rule of [pool_step].  Also the checks of [parseConfig]
    on the parsed flags. *)

From stdpp Require Import base decidable list numbers option strings gmap.
From Stdlib Require Import ZArith Lia.
From S2P Require Import Prelude Words Bytes GoStrings.

(** ** Flags *)

(** The flags, with the block size as [parseSize] returned it. *)
Record flags := mkFlags { fl_size : Z; fl_port : Z; fl_host : bytes; fl_concurrency : Z; fl_requests : Z; fl_chunks : Z }.

Definition MaxInt : Z := 2 ^ 63 - 1.

(** The checks after [flags.Parse]; [None] is no error. *)
Definition checkFlags (f : flags) : option string :=
  if (fl_size f <=? 0) || (MaxInt <? fl_size f) then Some "-block-size out of range"%string
  else if (fl_port f <=? 0) || (65535 <? fl_port f) then Some "-port must be between 1 and 65535"%string
  else match TrimSpace (fl_host f) with
  | [] => Some "-ip is required"%string
  | _ =>
      if fl_concurrency f <=? 0 then Some "-concurrency must be > 0"%string
      else if fl_requests f <=? 0 then Some "-requests must be > 0"%string
      else if fl_chunks f <=? 0 then Some "-chunks must be > 0"%string
      else None
  end.

(** ** The pool *)

(** A worker: receiving, uploading, reporting a failure, calling [cancel],
    returned. *)
Inductive worker := WkRecv | WkUpload (id : nat) | WkFail (err : string) | WkCancel | WkDone.

(** The main goroutine: offering job [i], waiting, deciding, returned. *)
Inductive mainState := MnSend (i : nat) | MnWait | MnDecide | MnReturned (r : option string).

Record pool := mkPool {
  pl_main : mainState; pl_workers : list worker; pl_reporting : bool;
  pl_closed : bool; pl_errCh : option string; pl_ctx : option string;
  pl_uploads : Z; pl_bytes : Z; pl_done : list nat }.

Definition errCanceled : string := "context canceled".
Definition errDeadline : string := "context deadline exceeded".

Section pool.
Context (concurrency requests : nat) (uploadBytes : Z).

Definition poolStart : pool := mkPool (MnSend 0) (replicate concurrency WkRecv) true false None None 0 0 [].

Definition set_main (s : pool) (m : mainState) (closed : bool) : pool :=
  mkPool m (pl_workers s) (pl_reporting s) closed (pl_errCh s) (pl_ctx s) (pl_uploads s) (pl_bytes s) (pl_done s).
Definition set_worker (s : pool) (k : nat) (x : worker) : pool :=
  mkPool (pl_main s) (<[k := x]> (pl_workers s)) (pl_reporting s) (pl_closed s) (pl_errCh s) (pl_ctx s) (pl_uploads s) (pl_bytes s) (pl_done s).
Definition set_errCh (s : pool) (err : string) : pool :=
  mkPool (pl_main s) (pl_workers s) (pl_reporting s) (pl_closed s) (Some err) (pl_ctx s) (pl_uploads s) (pl_bytes s) (pl_done s).
Definition stopReport (s : pool) : pool :=
  mkPool (pl_main s) (pl_workers s) false (pl_closed s) (pl_errCh s) (pl_ctx s) (pl_uploads s) (pl_bytes s) (pl_done s).

(** The first cause of cancellation stays. *)
Definition cancelCtx (s : pool) (cause : string) : pool :=
  mkPool (pl_main s) (pl_workers s) (pl_reporting s) (pl_closed s) (pl_errCh s) (Some (default cause (pl_ctx s))) (pl_uploads s) (pl_bytes s) (pl_done s).

(** [stats.uploads.Add] and [stats.bytes.Add]; [pl_done] records which upload
    it was. *)
Definition countUpload (s : pool) (id : nat) : pool :=
  mkPool (pl_main s) (pl_workers s) (pl_reporting s) (pl_closed s) (pl_errCh s) (pl_ctx s)
    (u64 (pl_uploads s + 1)) (u64 (pl_bytes s + uploadBytes)) (pl_done s ++ [id]).

(** The end of [runUploads]. *)
Definition decide_ (s : pool) : option string :=
  match pl_errCh s with
  | Some err => Some err
  | None =>
      match pl_ctx s with
      | Some err => if negb (pl_uploads s =? Z.of_nat requests) then Some err else None
      | None => None
      end
  end.

(** [upload id r]: whether [uploadOnce] may answer [r] for upload [id];
    [mayExpire]: whether the context has a deadline. *)
Inductive pool_step (upload : nat -> option string -> Prop) (mayExpire : bool) : pool -> pool -> Prop :=
  | job_sent s i k : pl_main s = MnSend i -> (i < requests)%nat -> pl_workers s !! k = Some WkRecv ->
      pool_step upload mayExpire s (set_worker (set_main s (MnSend (S i)) (pl_closed s)) k (WkUpload i))
  | jobs_stopped s i : pl_main s = MnSend i -> (i < requests)%nat -> is_Some (pl_ctx s) -> pool_step upload mayExpire s (set_main s MnWait true)
  | jobs_done s i : pl_main s = MnSend i -> (requests <= i)%nat -> pool_step upload mayExpire s (set_main s MnWait true)
  | worker_closed s k : pl_workers s !! k = Some WkRecv -> pl_closed s = true -> pool_step upload mayExpire s (set_worker s k WkDone)
  | upload_ok s k id : pl_workers s !! k = Some (WkUpload id) -> upload id None ->
      pool_step upload mayExpire s (set_worker (countUpload s id) k WkRecv)
  | upload_failed s k id err : pl_workers s !! k = Some (WkUpload id) -> upload id (Some err) ->
      pool_step upload mayExpire s (set_worker s k (WkFail err))
  | fail_kept s k err : pl_workers s !! k = Some (WkFail err) -> pl_errCh s = None ->
      pool_step upload mayExpire s (set_worker (set_errCh s err) k WkCancel)
  | fail_dropped s k err : pl_workers s !! k = Some (WkFail err) -> is_Some (pl_errCh s) -> pool_step upload mayExpire s (set_worker s k WkDone)
  | fail_cancel s k : pl_workers s !! k = Some WkCancel -> pool_step upload mayExpire s (set_worker (cancelCtx s errCanceled) k WkDone)
  | report_done s : pl_reporting s = true -> is_Some (pl_ctx s) -> pool_step upload mayExpire s (stopReport s)
  | ctx_expired s : mayExpire = true -> pl_ctx s = None -> pool_step upload mayExpire s (cancelCtx s errDeadline)
  | all_waited s : pl_main s = MnWait -> Forall (eq WkDone) (pl_workers s) -> pl_reporting s = false ->
      pool_step upload mayExpire s (set_main s MnDecide (pl_closed s))
  | decided s : pl_main s = MnDecide -> pool_step upload mayExpire s (set_main s (MnReturned (decide_ s)) (pl_closed s)).
End pool.
