(* ===== verification/ClientRunThms.v ===== *)
(** * Theorems of the worker pool

    What the client's exit status means, and when [runUploads] returns. *)

From stdpp Require Import base decidable list numbers option strings gmap.
From Stdlib Require Import ZArith Lia.
From S2P Require Import Prelude Schedules Words Bytes GoStrings ClientRun.

#[export] Instance worker_eq_dec : EqDecision worker.
Proof. solve_decision. Defined.

Section pool.
Context (concurrency requests : nat) (uploadBytes : Z) (upload : nat -> option string -> Prop) (mayExpire : bool).
Implicit Types (s : pool).

Definition idOf (x : worker) : option nat := match x with WkUpload id => Some id | _ => None end.
Definition pending s : list nat := omap idOf (pl_workers s).
Definition failing (x : worker) : Prop := match x with WkFail _ | WkCancel => True | _ => False end.
Definition noFailure s : Prop := pl_errCh s = None /\ Forall (fun x => ~ failing x) (pl_workers s).
Definition canFail : Prop := exists id err, upload id (Some err).

(** The jobs handed out so far are the uploads that ended, the ones under way
    and, after a failure, the failed ones. *)
Definition jobs_ok s (n : nat) : Prop :=
  (n <= requests)%nat /\
  (if pl_main s is MnSend i then n = i /\ pl_closed s = false else pl_closed s = true /\ (n = requests \/ is_Some (pl_ctx s))) /\
  pl_done s ++ pending s ⊆+ seq 0 n /\
  (noFailure s -> pl_done s ++ pending s ≡ₚ seq 0 n).

Definition count_ok s : Prop :=
  Forall (fun id => upload id None) (pl_done s) /\
  pl_uploads s = u64 (zlen (pl_done s)) /\ pl_bytes s = u64 (zlen (pl_done s) * uploadBytes).

(** Where errors come from. *)
Definition err_ok s : Prop :=
  (forall err, pl_errCh s = Some err -> exists id, upload id (Some err)) /\
  (forall k err, pl_workers s !! k = Some (WkFail err) -> exists id, upload id (Some err)) /\
  (forall k, pl_workers s !! k = Some WkCancel -> is_Some (pl_errCh s)) /\
  (forall c, pl_ctx s = Some c -> (c = errDeadline /\ mayExpire = true) \/ (c = errCanceled /\ is_Some (pl_errCh s))).

Definition end_ok s : Prop :=
  (pl_reporting s = false -> is_Some (pl_ctx s)) /\
  match pl_main s with
  | MnDecide => Forall (eq WkDone) (pl_workers s) /\ pl_reporting s = false
  | MnReturned r => Forall (eq WkDone) (pl_workers s) /\ pl_reporting s = false /\ r = decide_ requests s
  | _ => True
  end.

Record pool_inv s : Prop := {
  pi_jobs : exists n, jobs_ok s n;
  pi_count : count_ok s;
  pi_err : err_ok s;
  pi_end : end_ok s;
}.

Lemma pool_inv_init : pool_inv (poolStart concurrency).
Proof.
  assert (Hp : omap idOf (replicate concurrency WkRecv) = []) by (induction concurrency; [done|cbn; done]).
  split.
  - exists 0%nat. split; [lia|]. split; [done|]. unfold pending. cbn. rewrite Hp. done.
  - repeat split; constructor.
  - split; [done|]. split; [intros k err E; by apply lookup_replicate in E as [? _]|]. split; [intros k E; by apply lookup_replicate in E as [? _]|done].
  - done.
Qed.

(** ** Preservation *)

Lemma pending_set s k x y :
  pl_workers s !! k = Some x -> option_list (idOf y) ++ pending s ≡ₚ option_list (idOf x) ++ pending (set_worker s k y).
Proof. apply omap_insert_Permutation. Qed.

(** A worker moves on without taking or ending an upload. *)
Lemma jobs_worker s k x y n :
  pl_workers s !! k = Some x -> idOf x = None -> idOf y = None -> (noFailure (set_worker s k y) -> ~ failing x) ->
  jobs_ok s n -> jobs_ok (set_worker s k y) n.
Proof.
  intros E Hx Hy Hf (Hn & Hm & Hs & Hp). pose proof (pending_set s k x y E) as Hpe. rewrite Hx, Hy in Hpe. cbn [option_list app] in Hpe.
  split; [done|]. split; [done|]. cbn [pl_done set_worker] in *. rewrite <- Hpe. split; [done|]. intros Hnf. apply Hp.
  destruct (Hnf) as [He HF]. split; [done|]. eapply Forall_insert_back; [exact HF|done|by apply Hf].
Qed.

(** The same jobs in a state with the same workers and a later context. *)
Lemma jobs_frame s s' n :
  pl_main s' = pl_main s -> pl_closed s' = pl_closed s -> pl_workers s' = pl_workers s -> pl_done s' = pl_done s ->
  (is_Some (pl_ctx s) -> is_Some (pl_ctx s')) -> (pl_errCh s' = None -> pl_errCh s = None) -> jobs_ok s n -> jobs_ok s' n.
Proof.
  intros Em Ec Ew Ed Hc He (Hn & Hm & Hs & Hp). unfold jobs_ok, pending, noFailure in *. rewrite Em, Ec, Ew, Ed. split; [done|]. split.
  - destruct (pl_main s); by intuition.
  - split; [done|]. intros [Hx HF]. by apply Hp; auto.
Qed.

Lemma jobs_take s i k n :
  pl_main s = MnSend i -> (i < requests)%nat -> pl_workers s !! k = Some WkRecv -> jobs_ok s n ->
  jobs_ok (set_worker (set_main s (MnSend (S i)) (pl_closed s)) k (WkUpload i)) (S i).
Proof.
  intros Em Hi E (Hn & Hm & Hs & Hp). rewrite Em in Hm. destruct Hm as [-> Hcl].
  pose proof (pending_set s k WkRecv (WkUpload i) E) as Hpe. cbn [idOf option_list app] in Hpe.
  assert (Hperm : pl_done s ++ pending (set_worker s k (WkUpload i)) ≡ₚ (pl_done s ++ pending s) ++ [i]).
  { rewrite <- Hpe. by rewrite <- app_assoc, <- Permutation_cons_append. }
  split; [lia|]. split; [done|]. change (pl_done _ ++ pending _) with (pl_done s ++ pending (set_worker s k (WkUpload i))).
  rewrite Hperm, seq_S. cbn [Nat.add]. split; [by apply submseteq_skips_r|]. intros [He HF]. cbn in HF. rewrite Hp; [done|]. split; [done|].
  eapply Forall_insert_back; [exact HF|done|by intros []].
Qed.

Lemma jobs_ended s k id n :
  pl_workers s !! k = Some (WkUpload id) -> jobs_ok s n -> jobs_ok (set_worker (countUpload uploadBytes s id) k WkRecv) n.
Proof.
  intros E (Hn & Hm & Hs & Hp). pose proof (pending_set s k (WkUpload id) WkRecv E) as Hpe. cbn [idOf option_list app] in Hpe.
  assert (Hperm : (pl_done s ++ [id]) ++ pending (set_worker s k WkRecv) ≡ₚ pl_done s ++ pending s) by (by rewrite <- app_assoc, Hpe).
  split; [done|]. split; [done|]. change (pl_done _ ++ pending _) with ((pl_done s ++ [id]) ++ pending (set_worker s k WkRecv)).
  rewrite Hperm. split; [done|]. intros [He HF]. apply Hp. split; [done|]. eapply Forall_insert_back; [exact HF|done|by intros []].
Qed.

Lemma jobs_failed s k id err n :
  pl_workers s !! k = Some (WkUpload id) -> jobs_ok s n -> jobs_ok (set_worker s k (WkFail err)) n.
Proof.
  intros E (Hn & Hm & Hs & Hp). pose proof (pending_set s k (WkUpload id) (WkFail err) E) as Hpe. cbn [idOf option_list app] in Hpe.
  split; [done|]. split; [done|]. change (pl_done (set_worker _ _ _)) with (pl_done s). split.
  - etrans; [|exact Hs]. rewrite Hpe. apply submseteq_skips_l, submseteq_cons, reflexivity.
  - intros [_ HF]. exfalso. eapply (Forall_lookup_1 _ _ k (WkFail err)) in HF; [by apply HF|]. apply list_lookup_insert_eq. by eapply lookup_lt_Some.
Qed.

Lemma jobs_step s s' n : pool_step requests uploadBytes upload mayExpire s s' -> err_ok s -> jobs_ok s n -> exists n', jobs_ok s' n'.
Proof.
  intros Hs He H. destruct Hs.
  - eexists. by eapply jobs_take.
  - exists n. destruct H as (Hn & Hm & H). split; [done|]. split; [by split; [|right]|done].
  - exists n. destruct H as (Hn & Hm & H). split; [done|]. match goal with Hx : pl_main s = _ |- _ => rewrite Hx in Hm end.
    split; [split; [done|left; lia]|done].
  - exists n. eapply jobs_worker; [done..| |done]. by intros _ [].
  - exists n. by apply jobs_ended.
  - exists n. by eapply jobs_failed.
  - exists n. eapply (jobs_worker (set_errCh s err) k (WkFail err)); [done..|by intros [Hx _]; cbn in Hx|]. by eapply jobs_frame; [..|done].
  - exists n. eapply jobs_worker; [done..| |done]. intros [Hx _]. cbn in Hx. match goal with Hy : is_Some _ |- _ => rewrite Hx in Hy; by destruct Hy end.
  - exists n. eapply (jobs_worker (cancelCtx s errCanceled) k WkCancel); [done..| |by eapply jobs_frame; [..|done]; [done..|by eexists|done]].
    intros [Hx _]. cbn in Hx. destruct He as (_ & _ & He & _). destruct (He k) as [? Hy]; [done|congruence].
  - exists n. by eapply jobs_frame.
  - exists n. eapply jobs_frame; [..|done]; [done..|by eexists|done].
  - exists n. destruct H as (Hn & Hm & H). match goal with Hx : pl_main s = _ |- _ => rewrite Hx in Hm end. done.
  - exists n. destruct H as (Hn & Hm & H). match goal with Hx : pl_main s = _ |- _ => rewrite Hx in Hm end. done.
Qed.

Lemma u64_add_l a b : u64 (u64 a + b) = u64 (a + b).
Proof. unfold u64. apply Zplus_mod_idemp_l. Qed.

Lemma count_step s s' : pool_step requests uploadBytes upload mayExpire s s' -> count_ok s -> count_ok s'.
Proof.
  intros Hs H. destruct Hs; try exact H. destruct H as (HF & Hu & Hb). unfold count_ok. cbn.
  split; [apply Forall_app; split; [done|by constructor]|]. unfold zlen. rewrite length_app, Nat2Z.inj_add. cbn [length]. rewrite Hu, Hb, !u64_add_l.
  split; f_equal; unfold zlen; lia.
Qed.

(** A worker's new state is no new source of errors. *)
Lemma err_worker s k y :
  err_ok s -> (forall err, y = WkFail err -> exists id, upload id (Some err)) -> (y = WkCancel -> is_Some (pl_errCh s)) -> err_ok (set_worker s k y).
Proof.
  intros (H1 & H2 & H3 & H4) Hf Hc. split; [done|]. split; [|split; [|done]]; cbn; intros j.
  - intros err E. apply list_lookup_insert_Some in E as [(-> & -> & _)|[_ E]]; eauto.
  - intros E. apply list_lookup_insert_Some in E as [(-> & -> & _)|[_ E]]; eauto.
Qed.

Lemma err_step s s' : pool_step requests uploadBytes upload mayExpire s s' -> err_ok s -> err_ok s'.
Proof.
  intros Hs H. destruct Hs; try exact H; try (apply err_worker; [exact H|done|done]).
  - apply err_worker; [done| |done]. intros ? [= <-]. eauto.
  - pose proof H as (Ha & Hb & Hcc & Hd). apply err_worker; [|done|by eexists]. split; [intros ? [= <-]; by eapply Hb|]. split; [done|].
    split; [by eexists|]. intros c Hc. cbn in *. destruct (Hd c Hc) as [?|[-> _]]; [by left|]. right. eauto.
  - pose proof H as (Ha & Hb & Hcc & Hd). apply err_worker; [|done|done]. split; [done|]. split; [done|]. split; [done|].
    intros c Hc. cbn in Hc. destruct (pl_ctx s) as [c'|] eqn:Ec; injection Hc as <-; [by apply Hd|]. right. split; [done|]. by eapply Hcc.
  - pose proof H as (Ha & Hb & Hcc & Hd). split; [done|]. split; [done|]. split; [done|].
    intros c Hc. cbn in Hc. destruct (pl_ctx s) as [c'|] eqn:Ec; injection Hc as <-; [by apply Hd|]. by left.
Qed.

Lemma end_step s s' : pool_step requests uploadBytes upload mayExpire s s' -> end_ok s -> end_ok s'.
Proof.
  intros Hs (Hr & Hm). unfold end_ok.
  assert (Hno : forall k x, pl_workers s !! k = Some x -> x <> WkDone -> match pl_main s with MnDecide | MnReturned _ => False | _ => True end).
  { intros k x E Hx. destruct (pl_main s); try done; destruct Hm as [HF _]; by eapply Forall_lookup_1 in HF; [|exact E]. }
  destruct Hs; cbn; repeat match goal with Hx : pl_main _ = _ |- _ => rewrite Hx in * end; try done;
    try match goal with Hx : pl_workers _ !! _ = Some _ |- _ => specialize (Hno _ _ Hx ltac:(done)) end; destruct (pl_main s); try done.
  all: try (split; [by eauto|]; done).
  - destruct Hm as (_ & Hx). congruence.
  - destruct Hm as (_ & Hx & _). congruence.
  - destruct Hm as (_ & Hx & _). destruct (Hr Hx). congruence.
  - destruct Hm as (HF & Hx). done.
Qed.

Lemma pool_reachable s : rtc (pool_step requests uploadBytes upload mayExpire) (poolStart concurrency) s -> pool_inv s.
Proof.
  revert s. apply rtc_ind_r; [apply pool_inv_init|]. intros y z _ Hs [[n Hj] Hc He Hd].
  split; [by eapply jobs_step|by eapply count_step|by eapply err_step|by eapply end_step].
Qed.

Lemma workers_length s : rtc (pool_step requests uploadBytes upload mayExpire) (poolStart concurrency) s -> length (pl_workers s) = concurrency.
Proof.
  revert s. apply rtc_ind_r; [apply length_replicate|]. intros y z _ Hs IH. destruct Hs; cbn; rewrite ?length_insert; done.
Qed.

(** ** Termination and progress *)

Definition weight_main (m : mainState) : nat :=
  match m with MnSend i => 10 * (requests - i) + 3 | MnWait => 2 | MnDecide => 1 | MnReturned _ => 0 end.
Definition weight_worker (x : worker) : nat := match x with WkRecv => 1 | WkUpload _ => 5 | WkFail _ => 4 | WkCancel => 3 | WkDone => 0 end.
Definition weight_pool s : nat :=
  weight_main (pl_main s) + sum_list_with weight_worker (pl_workers s) + (if pl_reporting s then 1 else 0) + (if pl_ctx s is Some _ then 0 else 1).

Lemma pool_decreases s s' : pool_step requests uploadBytes upload mayExpire s s' -> (weight_pool s' < weight_pool s)%nat.
Proof.
  intros Hs. unfold weight_pool. destruct Hs; cbn;
    repeat match goal with
    | Hx : pl_main _ = _ |- _ => rewrite Hx | Hx : pl_reporting _ = _ |- _ => rewrite Hx | Hx : pl_ctx _ = _ |- _ => rewrite Hx
    | Hx : pl_workers _ !! _ = Some ?x |- context [<[_ := ?y]> _] => pose proof (sum_list_insert weight_worker _ _ _ y Hx); clear Hx
    end; cbn [weight_main weight_worker default] in *; try destruct (pl_ctx s); lia.
Qed.

Lemma pool_terminates s : Acc (flip (pool_step requests uploadBytes upload mayExpire)) s.
Proof. apply (Acc_measure _ weight_pool), pool_decreases. Qed.

Definition pool_can_step s : Prop := exists s', pool_step requests uploadBytes upload mayExpire s s'.

(** A worker that has not returned goes on, or waits for a job. *)
Lemma worker_progress s k x :
  (forall id, exists r, upload id r) -> pl_workers s !! k = Some x -> x <> WkDone -> (x = WkRecv -> pl_closed s = true) -> pool_can_step s.
Proof.
  intros Hup E Hd Hr. destruct x as [|id|err| |]; [| | | |done].
  - eexists. eapply worker_closed; [done|by apply Hr].
  - destruct (Hup id) as [[err|] Hx]; eexists; [by eapply upload_failed|by eapply upload_ok].
  - destruct (pl_errCh s) eqn:Ee; eexists; [by eapply fail_dropped|by eapply fail_kept].
  - eexists. by eapply fail_cancel.
Qed.

(** Workers return early only after a failure, which cancels the context. *)
Definition stop_ok s : Prop :=
  (pl_closed s = false -> forall k, pl_workers s !! k = Some WkDone -> is_Some (pl_errCh s)) /\
  (is_Some (pl_errCh s) -> is_Some (pl_ctx s) \/ exists k, pl_workers s !! k = Some WkCancel).

Lemma stop_worker s k x y :
  pl_workers s !! k = Some x -> x <> WkCancel -> (y = WkDone -> pl_closed s = true \/ is_Some (pl_errCh s)) -> stop_ok s -> stop_ok (set_worker s k y).
Proof.
  intros E Hx Hy (H1 & H2). split; cbn.
  - intros Hc j Ej. apply list_lookup_insert_Some in Ej as [(_ & -> & _)|[_ Ej]]; [|by eapply H1]. destruct (Hy eq_refl); [congruence|done].
  - intros He. destruct (H2 He) as [?|[j Hj]]; [by left|]. right. exists j. rewrite list_lookup_insert_ne; [done|]. intros ->. congruence.
Qed.

Lemma stop_step s s' : pool_step requests uploadBytes upload mayExpire s s' -> err_ok s -> stop_ok s -> stop_ok s'.
Proof.
  intros Hs He H. destruct Hs; try exact H.
  - by eapply (stop_worker (set_main s (MnSend (S i)) (pl_closed s))).
  - split; [done|apply H].
  - split; [done|apply H].
  - eapply stop_worker; [done..| |done]. by left.
  - by eapply (stop_worker (countUpload uploadBytes s id)).
  - by eapply stop_worker.
  - destruct H as (Ha & Hb). split; [by eexists|]. intros _. right. exists k. cbn. apply list_lookup_insert_eq. by eapply lookup_lt_Some.
  - eapply stop_worker; [done..| |done]. by right.
  - destruct H as (Ha & Hb). destruct He as (_ & _ & He & _). split; cbn; [|by left; eexists]. intros. by eapply He.
  - split; [apply H|]. cbn. by left; eexists.
Qed.

Lemma stop_reachable s : rtc (pool_step requests uploadBytes upload mayExpire) (poolStart concurrency) s -> stop_ok s.
Proof.
  intros Hr. assert (err_ok s /\ stop_ok s) as [_ H]; [|done]. revert s Hr. apply rtc_ind_r.
  - split; [apply pool_inv_init|]. split; [|by intros []]. intros _ k E. by apply lookup_replicate in E as [? _].
  - intros y z _ Hs [He Hd]. split; [by eapply err_step|by eapply stop_step].
Qed.

Lemma all_done_pending s : Forall (eq WkDone) (pl_workers s) -> pending s = [] /\ Forall (fun x => ~ failing x) (pl_workers s).
Proof. unfold pending. induction 1 as [|x l <- HF [IH1 IH2]]; [done|]. split; [done|]. constructor; [by intros []|done]. Qed.

(** Nothing blocks, except the last wait for the context. *)
Lemma pool_progress s :
  (0 < concurrency)%nat -> (forall id, exists r, upload id r) ->
  rtc (pool_step requests uploadBytes upload mayExpire) (poolStart concurrency) s ->
  pool_can_step s \/ (exists r, pl_main s = MnReturned r) \/ (pl_main s = MnWait /\ pl_ctx s = None /\ pl_done s ≡ₚ seq 0 requests).
Proof.
  intros Hk Hup Hr. pose proof (pool_reachable s Hr) as [[n (Hn & Hm & Hs & Hp)] _ _ [Hrep _]]. pose proof (stop_reachable s Hr) as (H1 & H2).
  pose proof (workers_length s Hr) as Hl. assert (Hx : exists k x, pl_workers s !! k = Some x).
  { destruct (pl_workers s) as [|x l] eqn:Ew; [simpl in Hl; lia|]. exists 0%nat, x. done. }
  destruct (pl_main s) as [i| | |r] eqn:Em; [| |left; eexists; by eapply decided|eauto].
  - left. destruct Hm as [-> Hcl]. destruct (decide (i < requests)%nat) as [Hi|Hi]; [|eexists; eapply jobs_done; [done|lia]].
    destruct (all_or_not WkDone (pl_workers s)) as [HF|(k & x & E & Hd)].
    + destruct Hx as (k & x & E). assert (x = WkDone) as -> by (symmetry; by eapply Forall_lookup_1 in HF).
      destruct (H2 (H1 Hcl k E)) as [Hc|[j Ej]]; [eexists; by eapply jobs_stopped|]. by eapply Forall_lookup_1 in HF; [|exact Ej].
    + destruct (decide (x = WkRecv)) as [->|Hne]; [eexists; by eapply job_sent|by eapply worker_progress].
  - destruct Hm as [Hcl Hreq]. destruct (all_or_not WkDone (pl_workers s)) as [HF|(k & x & E & Hd)]; [|left; by eapply worker_progress].
    destruct (pl_reporting s) eqn:Er; [|left; eexists; by eapply all_waited].
    destruct (pl_ctx s) as [c|] eqn:Ec; [left; eexists; eapply report_done; [done|by eexists]|]. right. right. split; [done|]. split; [done|].
    destruct (all_done_pending s HF) as [Hpe Hnf]. rewrite Hpe, app_nil_r in Hp. destruct Hreq as [->|[? ?]]; [|done]. apply Hp. split; [|done].
    destruct (pl_errCh s) eqn:Ee; [|done]. destruct H2 as [[? ?]|[j Ej]]; [by eexists|done|]. by eapply Forall_lookup_1 in HF; [|exact Ej].
Qed.

(** The uploads are all of them when the counter says so. *)
Lemma done_all s n :
  Z.of_nat requests < 2 ^ 63 -> jobs_ok s n -> count_ok s -> Forall (eq WkDone) (pl_workers s) -> pl_uploads s = Z.of_nat requests ->
  pl_done s ≡ₚ seq 0 requests.
Proof.
  intros Hlt (Hn & _ & Hs & _) (_ & Hu & _) HF Hup. destruct (all_done_pending s HF) as [Hpe _]. rewrite Hpe, app_nil_r in Hs.
  pose proof (submseteq_length _ _ Hs) as Hl. rewrite length_seq in Hl.
  assert (Hlen : length (pl_done s) = requests).
  { rewrite Hu in Hup. unfold zlen in Hup. rewrite u64_small in Hup by (unfold is_u64; lia). lia. }
  assert (n = requests) as -> by lia. apply submseteq_length_Permutation; [done|]. by rewrite length_seq, Hlen.
Qed.

(** C40: The client's exit status is the truth, and when it has one.  Every
    schedule of the workers is finite.  [runUploads] returns only when its
    context has been cancelled, by an expired deadline or by a failed upload.
    It returns no error only if every upload, from 0 to [requests]-1, has
    succeeded exactly once, and then the counters say so; an error it returns
    is that of an upload or the expired deadline.  A schedule that cannot go on
    has returned, or all uploads have succeeded and the main goroutine waits
    for the reporting goroutine, which waits for the context: without a
    deadline a successful run never returns. *)
Theorem runUploads_verdict s :
  (0 < concurrency)%nat -> Z.of_nat requests < 2 ^ 63 -> (forall id, exists r, upload id r) ->
  rtc (pool_step requests uploadBytes upload mayExpire) (poolStart concurrency) s ->
  Acc (flip (pool_step requests uploadBytes upload mayExpire)) s /\
  (forall r, pl_main s = MnReturned r ->
     (mayExpire = true \/ canFail) /\
     match r with
     | None => pl_done s ≡ₚ seq 0 requests /\ Forall (fun id => upload id None) (pl_done s) /\
         pl_uploads s = Z.of_nat requests /\ pl_bytes s = u64 (Z.of_nat requests * uploadBytes)
     | Some err => (exists id, upload id (Some err)) \/ (err = errDeadline /\ mayExpire = true)
     end) /\
  (pool_can_step s \/ (exists r, pl_main s = MnReturned r) \/ (pl_main s = MnWait /\ pl_ctx s = None /\ pl_done s ≡ₚ seq 0 requests)).
Proof.
  intros Hk Hlt Hup Hr. split; [apply pool_terminates|]. split; [|by apply pool_progress].
  intros r Em. destruct (pool_reachable s Hr) as [[n Hj] Hc (He1 & _ & _ & He4) [Hrep Hend]]. rewrite Em in Hend. destruct Hend as (HF & Hfalse & ->).
  destruct (Hrep Hfalse) as [c Ec]. pose proof (He4 c Ec) as Hcause. split.
  { destruct Hcause as [[_ ?]|[_ [err Ee]]]; [by left|]. right. destruct (He1 err Ee) as [id Hid]. by exists id, err. }
  unfold decide_. rewrite Ec. destruct (pl_errCh s) as [err|] eqn:Ee; [left; by apply He1|].
  destruct (pl_uploads s =? Z.of_nat requests) eqn:Eu; cbn [negb].
  - apply Z.eqb_eq in Eu. pose proof (done_all s n Hlt Hj Hc HF Eu) as Hd. destruct Hc as (HFu & _ & Hb). split; [done|]. split; [done|]. split; [done|].
    rewrite Hb. unfold zlen. by rewrite Hd, length_seq.
  - right. destruct Hcause as [?|[_ [? ?]]]; [done|congruence].
Qed.
End pool.

(** ** Witness *)

(** Every upload succeeds; one worker, one request, no deadline. *)
Definition demoUploads (id : nat) (r : option string) : Prop := r = None.

Definition demoPool : pool := mkPool MnWait [WkDone] true true None None 1 8192 [0%nat].

Lemma demoPool_reachable : rtc (pool_step 1 8192 demoUploads false) (poolStart 1) demoPool.
Proof.
  eapply rtc_l; [eapply (job_sent _ _ _ _ _ 0 0); [reflexivity|lia|reflexivity]|].
  eapply rtc_l; [eapply (upload_ok _ _ _ _ _ 0 0); reflexivity|].
  eapply rtc_l; [eapply (jobs_done _ _ _ _ _ 1); [reflexivity|lia]|].
  eapply rtc_l; [eapply (worker_closed _ _ _ _ _ 0); reflexivity|]. apply rtc_refl.
Qed.

Lemma runUploads_verdict_witness :
  Acc (flip (pool_step 1 8192 demoUploads false)) demoPool /\
  (forall r, pl_main demoPool = MnReturned r ->
     (false = true \/ canFail demoUploads) /\
     match r with
     | None => pl_done demoPool ≡ₚ seq 0 1 /\ Forall (fun id => demoUploads id None) (pl_done demoPool) /\
         pl_uploads demoPool = 1 /\ pl_bytes demoPool = u64 (1 * 8192)
     | Some err => (exists id, demoUploads id (Some err)) \/ (err = errDeadline /\ false = true)
     end) /\
  (pool_can_step 1 8192 demoUploads false demoPool \/ (exists r, pl_main demoPool = MnReturned r) \/
   (pl_main demoPool = MnWait /\ pl_ctx demoPool = None /\ pl_done demoPool ≡ₚ seq 0 1)).
Proof.
  apply (runUploads_verdict 1 1 8192 demoUploads false demoPool); [lia|lia|intros id; exists None; reflexivity|exact demoPool_reachable].
Defined.

(** In the witness's state nothing can happen any more: the run has succeeded
    and does not return. *)
Lemma demoPool_blocked : ~ pool_can_step 1 8192 demoUploads false demoPool.
Proof.
  intros [s' Hs]. inversion Hs; subst; simpl in *; try discriminate; try (destruct k as [|[|k]]; simpl in *; discriminate).
  - by match goal with Hx : is_Some None |- _ => destruct Hx end.
Qed.
