(* ===== verification/Bench.v ===== *)
(** * The channel benchmark

    [cmd/aio_channel_bench]: the three ways it writes a block ([runSmallCase]
    and [runMixedRWCase], [runMultiResultCase], [runPartialLastCase]), reading
    back with verification, and [runWriteReadPipeline], in which writers and
    readers share one device.  The pipeline is the step relation [bench_step];
    one write and one read are one step each, as they touch only blocks of
    their own record.  So a context that ends while the kernel still works on
    a submitted write is not in this model ([Concurrent] has it); it may end
    between two segments of a write. *)

From stdpp Require Import base decidable list numbers option strings gmap.
From Stdlib Require Import ZArith Lia.
From S2P Require Import Prelude Words Bytes Moss MossJSON Allocator Extents SpaceBitmap Pebble WriteBatch BatchPebble BlockDevice AioChannel ChannelIO GoStrings Upload RSocket Client.

(** ** Sizes *)

Definition ceilDiv (a b : Z) : Z := if b <=? 0 then 0 else i64 (a + b - 1) ÷ b.

Definition opSize (totalBytes blockSize op : Z) : Z :=
  let start := i64 (i64 op * blockSize) in
  let left := i64 (totalBytes - start) in
  if left <=? 0 then 0 else if blockSize <? left then blockSize else left.

(** The fields of [config] the cases use; [bc_timeout] is [timeout > 0], and
    without a timeout the context never ends. *)
Record benchConfig := mkBenchConfig { bc_blockSize : Z; bc_totalBytes : Z; bc_resultSize : Z; bc_verify : bool; bc_timeout : bool }.

(** What [flag.Parse] and [parseSize] leave in [parseConfig]; the name of the
    case is already trimmed and in lower case. *)
Record benchFlags := mkBenchFlags {
  bf_mount : string; bf_args : list string; bf_case : string; bf_concurrency : Z; bf_readConcurrency : Z;
  bf_statsInterval : Z; bf_clockTicks : Z; bf_blockSize : error + Z; bf_total : error + Z; bf_resultSize : error + Z; bf_verify : bool; bf_timeout : Z }.

(** The mount directory, the name of the case, both concurrencies and the rest. *)
Definition checkBench (f : benchFlags) : error + string * string * Z * Z * benchConfig :=
  let mount := if decide (bf_mount f = EmptyString) then default EmptyString (head (bf_args f)) else bf_mount f in
  if decide (mount = EmptyString) then inl "missing -mount <dir>"%string
  else if bf_concurrency f <=? 0 then inl "-concurrency must be > 0"%string
  else if bf_readConcurrency f <=? 0 then inl "-read-concurrency must be > 0"%string
  else if bf_statsInterval f <=? 0 then inl "-stats-interval must be > 0"%string
  else if bf_clockTicks f <=? 0 then inl "-clock-ticks must be > 0"%string
  else match bf_blockSize f, bf_total f, bf_resultSize f with
  | inl e, _, _ => inl ("invalid -block-size: " +:+ e)%string
  | _, inl e, _ => inl ("invalid -total: " +:+ e)%string
  | _, _, inl e => inl ("invalid -result-size: " +:+ e)%string
  | inr bsz, inr total, inr rsz =>
      if (bsz <=? 0) || (total <=? 0) || (rsz <=? 0) then inl "sizes must be > 0"%string
      else inr (mount, bf_case f, bf_concurrency f, bf_readConcurrency f, mkBenchConfig bsz total rsz (bf_verify f) (0 <? bf_timeout f))
  end.

Definition errShortWrite : error := "short write"%string.
Definition errVerify : error := "read verification failed"%string.

(** ** One write *)

(** What surrounds one operation: the addresses of the buffers and what
    [ctx.Err()] answers in the loops. *)
Record ioEnv := mkIoEnv { io_addr : Z; io_addr2 : Z; io_ctx1 : nat -> option error; io_ctx2 : nat -> option error;
  io_ctx3 : nat -> option error; io_ctx4 : nat -> option error }.

Section writing.
Context `{AD : AioDisk} {T : Type} `{EA : ExtentAllocator T}.

(** The new device and disk, and the extents, the token and the data. *)
Definition written : Type := @BlockDevice T * disk * (error + list Result * list Result * bytes).

(** The closure of [runSmallCase] and of [runMixedRWCase]. *)
Definition smallCase (c : Channel) (io : ioEnv) (dev : @BlockDevice T) (d : disk) (op size : Z) : option written :=
  data ← makePattern size op;
  '(dev, d, r) ← Write c (io_ctx1 io) (io_ctx2 io) (io_addr io) dev d data;
  match r with
  | inl e => Some (dev, d, inl e)
  | inr (results, token) => Some (dev, d, inr (results, token, data))
  end.

Definition multiSplit (cfg : benchConfig) : Z :=
  if bc_blockSize cfg <=? bc_resultSize cfg then maxInt64 1 (bc_blockSize cfg ÷ 3) else bc_resultSize cfg.

(** [WriteAllocated] and the two checks of its result; a failure rolls the
    allocation back. *)
Definition writeOrRollback (c : Channel) (ctx1 ctx2 : nat -> option error) (dev : @BlockDevice T) (d : disk) (b : buffer)
    (split token : list Result) : option (@BlockDevice T * disk * option error) :=
  '(d, (written, err)) ← writeAllocatedOn c ctx1 ctx2 d b split;
  match err with
  | Some e => dev ← RollbackAlloc dev token; Some (dev, d, Some e)
  | None =>
      if negb (written =? zlen (buf_data b)) then dev ← RollbackAlloc dev token; Some (dev, d, Some errShortWrite)
      else Some (dev, d, None)
  end.

(** The closure of [runMultiResultCase]. *)
Definition multiResultCase (cfg : benchConfig) (c : Channel) (io : ioEnv) (dev : @BlockDevice T) (d : disk) (op size : Z) : option written :=
  data ← makePattern size op;
  '(dev, r) ← Alloc dev size;
  match r with
  | inl e => Some (dev, d, inl e)
  | inr (results, token) =>
      split ← splitResults results (multiSplit cfg);
      '(dev, d, err) ← writeOrRollback c (io_ctx1 io) (io_ctx2 io) dev d (mkBuffer (io_addr io) data) split token;
      match err with
      | Some e => Some (dev, d, inl e)
      | None => Some (dev, d, inr (split, token, data))
      end
  end.

(** The closure of [runPartialLastCase]. *)
Definition partialLastCase (cfg : benchConfig) (c : Channel) (io : ioEnv) (dev : @BlockDevice T) (d : disk) (op size : Z) : option written :=
  data ← makePattern size op;
  let allocSize := i64 (fitBlock size + BlockSize) in
  '(dev, r) ← Alloc dev allocSize;
  match r with
  | inl e => Some (dev, d, inl e)
  | inr (results, token) =>
      split ← splitResults results (minInt64 (bc_resultSize cfg) BlockSize);
      marker ← makeSlice allocSize 238;
      '(dev, d, err) ← writeOrRollback c (io_ctx1 io) (io_ctx2 io) dev d (mkBuffer (io_addr2 io) marker) split token;
      match err with
      | Some e => Some (dev, d, inl e)
      | None =>
          '(dev, d, err) ← writeOrRollback c (io_ctx3 io) (io_ctx4 io) dev d (mkBuffer (io_addr io) data) split token;
          match err with
          | Some e => Some (dev, d, inl e)
          | None => rest ← slice marker (zlen data) (zlen marker); Some (dev, d, inr (split, token, data ++ rest))
          end
      end
  end.
End writing.

(** ** The pipeline *)

Record writeRecord := mkRecord { rec_results : list Result; rec_token : list Result; rec_data : bytes; rec_length : Z }.

Inductive bwriter := BwNext | BwWrite (op : Z) | BwSend (r : writeRecord) | BwDone.
Inductive breader := BrRecv | BrRead (r : writeRecord) | BrRollback (token : list Result) (err : option error) | BrDone.
Inductive bmain := BmWriters | BmReaders | BmReturned (r : option error).

Section pipeline.
Context `{FR : FileReader} {T : Type} `{EA : ExtentAllocator T}.
Context (cfg : benchConfig) (concurrency readConcurrency : nat).
Context (writeOne : Channel -> ioEnv -> @BlockDevice T -> disk -> Z -> Z -> option (written (T := T))).

Record bench := mkBench {
  b_dev : @BlockDevice T; b_disk : disk; b_chan : Channel; b_next : Z;
  b_records : list writeRecord; b_closed : bool; b_errCh : list error; b_ctx : option error;
  b_writers : list bwriter; b_readers : list breader; b_main : bmain; b_readOps : Z }.

Definition benchStart (dev : @BlockDevice T) (d : disk) (c : Channel) (ctx : option error) : bench :=
  mkBench dev d c 0 [] false [] ctx (replicate concurrency BwNext) (replicate readConcurrency BrRecv) BmWriters 0.

Definition benchCap : nat := concurrency + readConcurrency.
Definition ops : Z := ceilDiv (bc_totalBytes cfg) (bc_blockSize cfg).

(** [select { case errCh <- err: default: }]. *)
Definition keepErr (l : list error) (err : error) : list error := if decide (length l < benchCap)%nat then l ++ [err] else l.

(** [readAndVerify] without its deferred rollback: the new channel state, what
    it adds to [stats.readOps], and the error. *)
Definition readAndVerify (ctx ctxr : nat -> option error) (picks : nat -> option nat) (c : Channel) (d : disk) (r : writeRecord)
    : option (Channel * Z * option error) :=
  '(c, got) ← readResults ctx ctxr picks c d (rec_results r) (rec_length r);
  match got with
  | inl e => Some (c, 0, Some e)
  | inr got => if bc_verify cfg && negb (bool_decide (got = rec_data r)) then Some (c, 1, Some errVerify) else Some (c, 1, None)
  end.

(** What the context may answer during an operation: it ends only by the
    timeout. *)
Definition ctx_may (ctx : nat -> option error) : Prop := bc_timeout cfg = true \/ forall i, ctx i = None.
Definition io_may (io : ioEnv) : Prop := ctx_may (io_ctx1 io) /\ ctx_may (io_ctx2 io) /\ ctx_may (io_ctx3 io) /\ ctx_may (io_ctx4 io).

Definition set_bwriter (s : bench) (k : nat) (x : bwriter) : bench :=
  mkBench (b_dev s) (b_disk s) (b_chan s) (b_next s) (b_records s) (b_closed s) (b_errCh s) (b_ctx s) (<[k := x]> (b_writers s)) (b_readers s) (b_main s) (b_readOps s).
Definition set_breader (s : bench) (k : nat) (x : breader) : bench :=
  mkBench (b_dev s) (b_disk s) (b_chan s) (b_next s) (b_records s) (b_closed s) (b_errCh s) (b_ctx s) (b_writers s) (<[k := x]> (b_readers s)) (b_main s) (b_readOps s).
Definition set_store (s : bench) (dev : @BlockDevice T) (d : disk) (c : Channel) : bench :=
  mkBench dev d c (b_next s) (b_records s) (b_closed s) (b_errCh s) (b_ctx s) (b_writers s) (b_readers s) (b_main s) (b_readOps s).
Definition set_records (s : bench) (l : list writeRecord) : bench :=
  mkBench (b_dev s) (b_disk s) (b_chan s) (b_next s) l (b_closed s) (b_errCh s) (b_ctx s) (b_writers s) (b_readers s) (b_main s) (b_readOps s).
Definition set_next (s : bench) (n : Z) : bench :=
  mkBench (b_dev s) (b_disk s) (b_chan s) n (b_records s) (b_closed s) (b_errCh s) (b_ctx s) (b_writers s) (b_readers s) (b_main s) (b_readOps s).
Definition addErr (s : bench) (err : error) : bench :=
  mkBench (b_dev s) (b_disk s) (b_chan s) (b_next s) (b_records s) (b_closed s) (keepErr (b_errCh s) err) (b_ctx s) (b_writers s) (b_readers s) (b_main s) (b_readOps s).
Definition set_bmain (s : bench) (closed : bool) (m : bmain) : bench :=
  mkBench (b_dev s) (b_disk s) (b_chan s) (b_next s) (b_records s) closed (b_errCh s) (b_ctx s) (b_writers s) (b_readers s) m (b_readOps s).
Definition set_bctx (s : bench) (e : error) : bench :=
  mkBench (b_dev s) (b_disk s) (b_chan s) (b_next s) (b_records s) (b_closed s) (b_errCh s) (Some e) (b_writers s) (b_readers s) (b_main s) (b_readOps s).

Definition addReads (s : bench) (n : Z) : bench :=
  mkBench (b_dev s) (b_disk s) (b_chan s) (b_next s) (b_records s) (b_closed s) (b_errCh s) (b_ctx s) (b_writers s) (b_readers s) (b_main s) (b_readOps s + n).

Definition addErrOpt (s : bench) (err : option error) : bench := match err with Some e => addErr s e | None => s end.

Inductive bench_step : bench -> bench -> Prop :=
  (** a writer *)
  | bw_take s k : b_writers s !! k = Some BwNext ->
      bench_step s (set_bwriter (set_next s (b_next s + 1)) k (if ops <=? b_next s then BwDone else BwWrite (b_next s)))
  | bw_fail s k op io dev d e : b_writers s !! k = Some (BwWrite op) -> io_may io ->
      writeOne (b_chan s) io (b_dev s) (b_disk s) op (opSize (bc_totalBytes cfg) (bc_blockSize cfg) op) = Some (dev, d, inl e) ->
      bench_step s (set_bwriter (addErr (set_store s dev d (b_chan s)) e) k BwDone)
  | bw_write s k op io dev d results token data : b_writers s !! k = Some (BwWrite op) -> io_may io ->
      writeOne (b_chan s) io (b_dev s) (b_disk s) op (opSize (bc_totalBytes cfg) (bc_blockSize cfg) op) = Some (dev, d, inr (results, token, data)) ->
      bench_step s (set_bwriter (set_store s dev d (b_chan s)) k (BwSend (mkRecord results token data (zlen data))))
  | bw_send s k r : b_writers s !! k = Some (BwSend r) -> (length (b_records s) < benchCap)%nat ->
      bench_step s (set_bwriter (set_records s (b_records s ++ [r])) k BwNext)
  | bw_cancelled s k r dev : b_writers s !! k = Some (BwSend r) -> is_Some (b_ctx s) -> RollbackAlloc (b_dev s) (rec_token r) = Some dev ->
      bench_step s (set_bwriter (set_store s dev (b_disk s) (b_chan s)) k BwDone)
  (** a reader *)
  | br_recv s k r l : b_readers s !! k = Some BrRecv -> b_records s = r :: l -> bench_step s (set_breader (set_records s l) k (BrRead r))
  | br_closed s k : b_readers s !! k = Some BrRecv -> b_records s = [] -> b_closed s = true -> bench_step s (set_breader s k BrDone)
  | br_read s k r ctx ctxr picks c n err : b_readers s !! k = Some (BrRead r) -> ctx_may ctx -> ctx_may ctxr ->
      readAndVerify ctx ctxr picks (b_chan s) (b_disk s) r = Some (c, n, err) ->
      bench_step s (set_breader (addReads (set_store s (b_dev s) (b_disk s) c) n) k (BrRollback (rec_token r) err))
  | br_rollback s k token err dev : b_readers s !! k = Some (BrRollback token err) -> RollbackAlloc (b_dev s) token = Some dev ->
      bench_step s (set_breader (addErrOpt (set_store s dev (b_disk s) (b_chan s)) err) k BrRecv)
  (** the main goroutine and the context *)
  | bm_close s : b_main s = BmWriters -> Forall (eq BwDone) (b_writers s) -> bench_step s (set_bmain s true BmReaders)
  | bm_return s : b_main s = BmReaders -> Forall (eq BrDone) (b_readers s) ->
      bench_step s (set_bmain s (b_closed s) (BmReturned (match b_errCh s with e :: _ => Some e | [] => b_ctx s end)))
  | b_cancel s e : bc_timeout cfg = true -> b_ctx s = None -> bench_step s (set_bctx s e).
End pipeline.

(** ** The selected cases *)

Section cases.
Context `{FR : FileReader} {T : Type} `{EA : ExtentAllocator T}.
Context (cfg : benchConfig) (concurrency readConcurrency : nat).

(** What one case leaves to the next: the device, the disk, the channel and
    the context. *)
Record benchState := mkBenchState { bs_dev : @BlockDevice T; bs_disk : disk; bs_chan : Channel; bs_ctx : option error }.

Definition benchCase : Type := Channel -> ioEnv -> @BlockDevice T -> disk -> Z -> Z -> option (written (T := T)).

(** The map [cases]. *)
Definition caseNamed (name : string) : option benchCase :=
  if decide (name = "small"%string) then Some smallCase
  else if decide (name = "multi-result"%string) then Some (multiResultCase cfg)
  else if decide (name = "partial-last"%string) then Some (partialLastCase cfg)
  else if decide (name = "mixed-rw"%string) then Some smallCase
  else None.

(** One case is a run of the pipeline up to its return. *)
Inductive runCase (w : benchCase) (σ : benchState) : benchState -> option error -> Prop :=
  | runCase_returns s r :
      rtc (bench_step cfg concurrency readConcurrency w) (benchStart concurrency readConcurrency (bs_dev σ) (bs_disk σ) (bs_chan σ) (bs_ctx σ)) s ->
      b_main s = BmReturned r -> runCase w σ (mkBenchState (b_dev s) (b_disk s) (b_chan s) (b_ctx s)) r.

(** The sequence of [-case all]: an error of an earlier case gets its name. *)
Inductive runSeq (last : benchCase) : list (string * benchCase) -> benchState -> benchState -> option error -> Prop :=
  | seq_last σ σ' r : runCase last σ σ' r -> runSeq last [] σ σ' r
  | seq_fail name w rest σ σ' e : runCase w σ σ' (Some e) -> runSeq last ((name, w) :: rest) σ σ' (Some (name +:+ ": " +:+ e)%string)
  | seq_next name w rest σ σ1 σ' r : runCase w σ σ1 None -> runSeq last rest σ1 σ' r -> runSeq last ((name, w) :: rest) σ σ' r.

Definition errUnknownCase (name : string) : error := ("unknown -case " +:+ name)%string.

Definition runSelectedCase (name : string) (σ σ' : benchState) (r : option error) : Prop :=
  if decide (name = "all"%string) then
    runSeq smallCase [("small"%string, smallCase); ("multi-result"%string, multiResultCase cfg); ("partial-last"%string, partialLastCase cfg)] σ σ' r
  else match caseNamed name with
  | Some w => runCase w σ σ' r
  | None => σ' = σ /\ r = Some (errUnknownCase name)
  end.
End cases.
