(* ===== verification/BenchThms.v ===== *)
(** * Theorems of the channel benchmark

    The operations cover the requested total; a write of any case leaves its
    record readable; and in every schedule of the pipeline the verification
    succeeds and every block is given back. *)

From stdpp Require Import base decidable list numbers option strings gmap.
From Stdlib Require Import ZArith Lia.
From S2P Require Import Prelude Words Bytes Moss MossJSON MossThms Allocator Extents AllocatorSpec SpaceBitmap SpaceBitmapSpec Pebble WriteBatch BatchPebble BatchThms BlockDevice BlockDeviceSpec BlockDeviceThms FileMetaCodec AioChannel Crc32 Upload UploadInv UploadThms ChannelIO ChannelThms GoStrings RSocket Client Schedules Bench.

(** ** Sizes *)

Lemma opSize_spec total bs op :
  0 < bs -> 0 <= op -> (op + 1) * bs < 2 ^ 62 -> 0 <= total < 2 ^ 62 ->
  opSize total bs op = Z.max 0 (Z.min bs (total - op * bs)).
Proof.
  intros Hb Ho Hl Ht. unfold opSize. assert (op < 2 ^ 62) by nia.
  rewrite (i64_small op), (i64_small (op * bs)), (i64_small (total - op * bs)) by (unfold is_i64; nia). repeat case_bool; lia.
Qed.

Lemma sum_opSizes total bs k :
  0 < bs < 2 ^ 61 -> 0 <= total < 2 ^ 61 -> 0 <= k -> k * bs < 2 ^ 62 ->
  sum_list_with (fun op => Z.to_nat (opSize total bs op)) (seqZ 0 k) = Z.to_nat (Z.min total (k * bs)).
Proof.
  intros Hb Ht Hk. rewrite <- (Z2Nat.id k Hk). generalize (Z.to_nat k) as m. clear k Hk. induction m as [|m IH]; intros Hm; [simpl; lia|].
  rewrite Nat2Z.inj_succ in *. unfold Z.succ in *. rewrite (seqZ_app 0 (Z.of_nat m) 1), sum_list_with_app, IH by nia.
  rewrite seqZ_cons, seqZ_nil by lia. cbn [sum_list_with]. rewrite Z.add_0_l, opSize_spec by lia. lia.
Qed.

(** The sizes of all operations add up to the total, and none is empty. *)
Theorem opSizes_total total bs :
  0 < bs < 2 ^ 61 -> 0 <= total < 2 ^ 61 ->
  let n := ceilDiv total bs in
  sum_list_with (fun op => Z.to_nat (opSize total bs op)) (seqZ 0 n) = Z.to_nat total /\
  Forall (fun op => 0 < opSize total bs op <= bs) (seqZ 0 n).
Proof.
  intros Hb Ht n. assert (Hn : n = (total + bs - 1) / bs).
  { unfold n, ceilDiv. rewrite (proj2 (Z.leb_gt bs 0)), i64_small by (unfold is_i64; lia). apply Z.quot_div_nonneg; lia. }
  assert (Hn0 : 0 <= n) by (rewrite Hn; apply Z.div_pos; lia). assert (Hnb : n * bs < total + bs) by (rewrite Hn; dlia).
  assert (Hnt : total <= n * bs) by (rewrite Hn; dlia).
  split; [rewrite sum_opSizes by lia; lia|]. apply Forall_forall. intros op Hop. apply elem_of_seqZ in Hop. rewrite opSize_spec by nia. nia.
Qed.

(** The size of one operation. *)
Lemma opSizes_range total bs op :
  0 < bs < 2 ^ 61 -> 0 <= total < 2 ^ 61 -> 0 <= op < ceilDiv total bs -> 0 < opSize total bs op <= bs.
Proof.
  intros Hb Ht Hop. pose proof (opSizes_total total bs Hb Ht) as [_ HF]. rewrite Forall_forall in HF. apply HF, elem_of_seqZ. lia.
Qed.

(** ** Partial writes *)

Lemma sizes_cons r results : sizes (r :: results) = Size r + sizes results.
Proof. done. Qed.

Section tail.
Context `{AL : AioDiskLaws}.

Lemma zlen_readExtents (d : disk) results n : Forall positive results -> 0 <= n <= sizes results -> zlen (readExtents d results n) = n.
Proof.
  intros HF. revert n. induction HF as [|r results Hr HF IH]; intros n Hn; cbn [readExtents].
  { unfold sizes in Hn. simpl in Hn. unfold zlen. simpl. lia. }
  rewrite sizes_cons in Hn. unfold positive in Hr. case_bool; [unfold zlen; simpl; lia|].
  pose proof (sizes_positive results HF). rewrite zlen_app_, zlen_readRange, IH by lia. lia.
Qed.

(** A write of a prefix of the extents leaves the rest as it was. *)
Lemma readExtents_cut_tail (d d' : disk) results : forall data n,
  Forall positive results -> disjoint_extents results -> zlen data <= n <= sizes results ->
  Forall (fun seg => readRange d' seg.2 (zlen seg.1) = seg.1) (cut data results) ->
  (forall p, covers results p = true -> Forall (fun seg => ~ seg_in seg p) (cut data results) -> diskByte d' p = diskByte d p) ->
  readExtents d' results n = data ++ drop (length data) (readExtents d results n).
Proof.
  induction results as [|r results IH]; intros data n HF HD Hn HS Hfr.
  { unfold sizes in Hn. simpl in Hn. destruct data; [done|]. unfold zlen in Hn. simpl in Hn. lia. }
  destruct data as [|x data].
  { rewrite drop_0. apply readExtents_ext; [done|]. intros p Hp. apply Hfr; [done|]. constructor. }
  apply Forall_cons in HF as [Hr HF]. unfold positive in Hr. destruct HD as [HD1 HD2].
  rewrite sizes_cons in Hn. pose proof (sizes_positive results HF) as Hsz.
  assert (Hx : 0 < zlen (x :: data)) by (unfold zlen; simpl; lia).
  cbn [cut] in HS, Hfr. apply Forall_cons in HS as [H0 HS]. set (v := x :: data) in *. cbn [fst snd] in H0.
  assert (Hdis : forall p, covers results p = true -> ~ seg_in (take (Z.to_nat (Size r)) v, Offset r) p).
  { intros p Hp Hin. apply covers_true in Hp as (r' & Hr' & Hin'). rewrite Forall_forall in HD1, HF. specialize (HD1 r' Hr'). specialize (HF r' Hr').
    rewrite overlap_false_iff in HD1 by done. rewrite HD1 in Hin'; [done|]. apply in_result_true. unfold seg_in in Hin. cbn [fst snd] in Hin.
    assert (zlen (take (Z.to_nat (Size r)) v) <= Size r) by (unfold zlen; rewrite length_take; lia). lia. }
  cbn [readExtents]. rewrite (proj2 (Z.leb_gt n 0)) by lia. destruct (decide (Size r <= zlen v)) as [Hle|Hgt].
  - rewrite Z.min_l by lia. assert (Hzt : zlen (take (Z.to_nat (Size r)) v) = Size r) by (unfold zlen in *; rewrite length_take; lia).
    rewrite Hzt in H0. rewrite H0. rewrite (IH (drop (Z.to_nat (Size r)) v) (n - Size r)); [|done|done| |done|].
    + rewrite app_assoc, take_drop. f_equal. rewrite drop_app_ge by (pose proof (zlen_readRange d (Offset r) (Size r)); unfold zlen in *; lia).
      f_equal. rewrite length_drop. pose proof (zlen_readRange d (Offset r) (Size r)). unfold zlen in *. lia.
    + unfold zlen in *. rewrite length_drop. lia.
    + intros p Hp HN. apply Hfr; [by rewrite covers_cons, Hp, orb_true_r|]. constructor; [by apply Hdis|done].
  - set (k := Size r `min` n). assert (Hk : zlen v <= k) by lia.
    rewrite take_ge in H0, Hfr, Hdis by (unfold zlen in *; lia). rewrite (drop_ge v), cut_nil in Hfr by (unfold zlen in *; lia).
    assert (Hsame : forall p, covers (r :: results) p = true -> ~ seg_in (v, Offset r) p -> diskByte d' p = diskByte d p)
      by (intros p Hp HN; apply Hfr; [done|by repeat constructor]).
    replace k with (zlen v + (k - zlen v)) by lia. rewrite !readRange_add, H0 by lia. rewrite <- app_assoc. f_equal.
    rewrite <- app_assoc, drop_app_length' by (pose proof (zlen_readRange d (Offset r) (zlen v)); unfold zlen in *; lia). f_equal.
    + apply readRange_ext. intros p Hp. apply Hsame; [rewrite covers_cons; apply orb_true_iff; left; apply in_result_true; lia|].
      unfold seg_in. cbn [fst snd]. lia.
    + replace (n - (zlen v + (k - zlen v))) with (n - k) by lia. apply readExtents_ext; [done|]. intros p Hp.
      apply Hsame; [by rewrite covers_cons, Hp, orb_true_r|by apply Hdis].
Qed.

(** The rest of the extents survives a write that is shorter than they are. *)
Lemma WriteAllocated_tail ctx1 ctx2 (d d' : disk) b results n m :
  WriteAllocated ctx1 ctx2 d b results = Some (d', (n, None)) -> Forall positive results -> disjoint_extents results ->
  zlen (buf_data b) <= m <= sizes results ->
  readExtents d' results m = buf_data b ++ drop (length (buf_data b)) (readExtents d results m).
Proof.
  unfold WriteAllocated. set (data := buf_data b). pose proof (zlen_nonneg data) as Hz. intros E HF HD Hm. revert E. case_bool.
  { intros E. injection E as <- <-. assert (data = []) as -> by (destruct data; [done|unfold zlen in *; simpl in *; lia]). done. }
  case_bool; [done|]. destruct (buildSegments ctx1 0 data results 0 []) as [[[c e]|[c segs]]|] eqn:Eb; go_step; [done| |done].
  destruct (c =? zlen data) eqn:Ec; cbn [negb]; [|done]. bool_norm. subst c. intros E. injection E as E.
  apply buildSegments_ok in Eb as (_ & -> & _ & _); [|lia]. rewrite Z.sub_0_r in *. rewrite drop_0, take_ge in E by (unfold zlen; lia). cbn [app] in E.
  apply writeSegments_ok in E as (_ & HS & Hfr); [|by apply cut_disjoint]. apply readExtents_cut_tail; try done. intros p _. apply Hfr.
Qed.
End tail.

(** ** Splitting extents *)

Lemma positive_disjoint_covers r rs b :
  positive r -> Forall positive rs -> Forall (fun q => extentsOverlap r q = false) rs -> in_result r b = true -> covers rs b = false.
Proof.
  intros Hr HF HD Hb. apply covers_false. intros q Hq. rewrite Forall_forall in HF, HD.
  eapply overlap_false_iff; [exact Hr|by apply HF|by apply HD|done].
Qed.

Lemma disjoint_app_positive rs rs' :
  Forall positive rs -> Forall positive rs' -> disjoint_extents rs -> disjoint_extents rs' ->
  (forall b, covers rs b = true -> covers rs' b = false) -> disjoint_extents (rs ++ rs').
Proof.
  intros HF HF' HD HD' Hc. apply disjoint_app. split; [done|]. split; [done|]. rewrite Forall_forall in *. intros r Hr. rewrite Forall_forall. intros q Hq.
  apply overlap_false_iff; [by apply HF|by apply HF'|]. intros b Hb. assert (H : covers rs b = true) by (apply covers_true; eauto).
  apply Hc in H. rewrite covers_false in H. by apply H.
Qed.

Lemma splitOne_covers maxSize fuel : forall offset left out,
  0 < maxSize -> splitOne fuel maxSize offset left = Some out ->
  Forall positive out /\ (forall p, covers out p = in_result (mkResult offset left) p) /\ disjoint_extents out.
Proof.
  assert (Hempty : forall offset left, left <= 0 -> forall p, covers [] p = in_result (mkResult offset left) p).
  { intros offset left Hl p. symmetry. apply not_true_iff_false. rewrite in_result_true. simpl. lia. }
  induction fuel as [|fuel IH]; intros offset left out Hm; cbn [splitOne]; case_bool; try done; intros E;
    try (injection E as <-; split; [constructor|]; split; [by apply Hempty|done]).
  set (k := if left <? maxSize then left else maxSize) in *. assert (Hk : 0 < k <= left) by (unfold k; case_bool; lia).
  destruct (splitOne fuel maxSize (offset + k) (left - k)) as [rest|] eqn:Er; [|done]. injection E as <-.
  apply IH in Er as (HF & Hc & HD); [|done].
  assert (Hcv : forall p, in_result (mkResult offset k) p = true -> covers rest p = false).
  { intros p Hp. rewrite Hc. apply not_true_iff_false. rewrite in_result_true in *. simpl in *. lia. }
  split; [constructor; [unfold positive; simpl; lia|done]|]. split.
  - intros p. rewrite covers_cons, Hc. apply eq_true_iff_eq. rewrite orb_true_iff, !in_result_true. simpl. lia.
  - split; [|done]. apply Forall_forall. intros q Hq. rewrite Forall_forall in HF. apply overlap_false_iff; [simpl; lia|by apply HF|].
    intros b Hb. apply Hcv in Hb. rewrite covers_false in Hb. by apply Hb.
Qed.

Lemma splitResults_covers maxSize results out :
  0 < maxSize -> Forall positive results -> disjoint_extents results -> splitResults results maxSize = Some out ->
  Forall positive out /\ (forall p, covers out p = covers results p) /\ disjoint_extents out.
Proof.
  intros Hm HF. unfold splitResults. rewrite (proj2 (Z.leb_gt maxSize 0)) by lia. revert out.
  induction HF as [|r results Hr HF IH]; cbn [foldr]; intros out HD E; [injection E as <-; done|]. destruct HD as [HD1 HD2].
  destruct (foldr _ _ results) as [rest|]; [|done]. cbn in E.
  destruct (splitOne _ _ (Offset r) (Size r)) as [one|] eqn:E1; [|done]. injection E as <-.
  destruct (IH rest HD2 eq_refl) as (H1 & H2 & H3). apply splitOne_covers in E1 as (G1 & G2 & G3); [|done].
  assert (Hone : forall p, covers one p = in_result r p) by (intros p; rewrite G2; by destruct r).
  split; [by apply Forall_app|]. split; [intros p; by rewrite covers_app, covers_cons, Hone, H2|].
  apply disjoint_app_positive; try done. intros b Hb. rewrite Hone in Hb. rewrite H2. by eapply positive_disjoint_covers.
Qed.

(** ** Writing a record *)

Section writing.
Context `{AL : AioDiskLaws} {T : Type} `{EA : ExtentAllocator T} `{EL : !ExtentAllocatorLaws T}.
Context (tot : Z).
Hypothesis Htot : tot * BlockSize < 2 ^ 63.

(** A record lies in the blocks of its token and reads back as its data. *)
Definition record_ok (d : disk) (r : writeRecord) : Prop :=
  Forall positive (rec_results r) /\ (forall p, covers (rec_results r) p = true -> covers (rec_token r) (p / BlockSize) = true) /\
  rec_length r = zlen (rec_data r) /\ readExtents d (rec_results r) (rec_length r) = rec_data r.

(** What the pipeline needs of a case. *)
Definition good_write (writeOne : Channel -> ioEnv -> @BlockDevice T -> disk -> Z -> Z -> option (written (T := T))) : Prop :=
  forall free0 held c io dev d op size, holding tot free0 held dev -> 0 < size < 2 ^ 60 ->
  exists dev' d' r, writeOne c io dev d op size = Some (dev', d', r) /\
    (forall p, ea_free (bd_allocator dev) (p / BlockSize) = false -> diskByte d' p = diskByte d p) /\
    match r with
    | inl _ => holding tot free0 held dev'
    | inr (results, token, data) => holding tot free0 (held ++ token) dev' /\ record_ok d' (mkRecord results token data (zlen data))
    end.

Lemma zlen_patternFrom n x : zlen (patternFrom n x) = Z.of_nat n.
Proof. unfold zlen. f_equal. revert x. induction n as [|n IH]; intros x; [done|]. cbn [patternFrom length]. by rewrite IH. Qed.

Lemma makePattern_spec size seed : 0 <= size -> exists data, makePattern size seed = Some data /\ zlen data = size.
Proof.
  intros Hs. unfold makePattern. rewrite (proj2 (Z.ltb_ge size 0)) by lia. eexists. split; [done|]. rewrite zlen_patternFrom. lia.
Qed.

Lemma smallCase_good : good_write smallCase.
Proof.
  intros free0 held c io dev d op size Hh Hs. unfold smallCase. destruct (makePattern_spec size op ltac:(lia)) as (data & -> & Hz). go_step.
  destruct (Write_spec tot free0 held c (io_ctx1 io) (io_ctx2 io) (io_addr io) dev d data Hh Htot ltac:(lia)) as (dev' & d' & r & -> & Hfr & Hr).
  go_step. destruct r as [e|[results token]]; (eexists _, _, _; split; [done|]; split; [done|]); [done|].
  destruct Hr as (Hh' & -> & HP & Hrd & _). split; [done|]. split; [done|]. split; [|done]. intros p. cbn [rec_results rec_token]. by rewrite covers_byteResult.
Qed.

(** The extents of a write are a way to cut the blocks of a token. *)
Record cut_of (token split : list Result) : Prop := {
  cu_positive : Forall positive split;
  cu_disjoint : disjoint_extents split;
  cu_covers : forall p, covers split p = covers token (p / BlockSize);
  cu_sizes : sizes split = sizes token * BlockSize;
}.

Lemma cut_split held token free0 dev maxSize :
  holding tot free0 (held ++ token) dev -> 0 < maxSize ->
  exists split, splitResults (map byteResult token) maxSize = Some split /\ cut_of token split.
Proof.
  intros Hh Hm. pose proof (ho_in _ _ _ _ Hh) as Hin. pose proof Hin as Hin'. apply Forall_app in Hin' as [_ Hin2].
  assert (HP : Forall positive (map byteResult token)) by (by eapply positive_byteResult).
  assert (HD : disjoint_extents (map byteResult token)) by (apply disjoint_byteResult; by apply (disjoint_app_covers tot _ _ Hin), Hh).
  destruct (splitResults_spec maxSize (map byteResult token) Hm HP) as (split & E & _ & Hsz & _). exists split. split; [done|].
  destruct (splitResults_covers _ _ _ Hm HP HD E) as (H1 & H2 & H3). split; [done|done| |by rewrite Hsz, sizes_byteResult].
  intros p. by rewrite H2, covers_byteResult.
Qed.

Lemma writeOrRollback_spec free0 held token split c ctx1 ctx2 dev (d : disk) b :
  holding tot free0 (held ++ token) dev -> cut_of token split ->
  exists dev' d' err, writeOrRollback c ctx1 ctx2 dev d b split token = Some (dev', d', err) /\
    (forall p, covers token (p / BlockSize) = false -> diskByte d' p = diskByte d p) /\
    match err with
    | Some _ => holding tot free0 held dev'
    | None => dev' = dev /\ forall m, zlen (buf_data b) <= m <= sizes split ->
        readExtents d' split m = buf_data b ++ drop (length (buf_data b)) (readExtents d split m)
    end.
Proof.
  intros Hh [HP HD Hc _]. unfold writeOrRollback.
  destruct (RollbackAlloc_holding _ _ _ _ _ (holding_perm _ _ _ _ _ (Permutation_app_comm _ _) Hh)) as (dev2 & Erb & Hh2 & _).
  destruct (writeAllocatedOn_spec c ctx1 ctx2 d b split HP HD) as (d' & wr & er & Ew & Hfr & _). rewrite Ew. go_step.
  assert (Hframe : forall p, covers token (p / BlockSize) = false -> diskByte d' p = diskByte d p) by (intros p Hp; apply Hfr; by rewrite Hc).
  destruct er as [e|]; [rewrite Erb; go_step; eexists _, _, _; split; [done|]; done|].
  case_bool; [rewrite Erb; go_step; eexists _, _, _; split; [done|]; done|]. eexists _, _, _. split; [done|]. split; [done|]. split; [done|].
  intros m Hm. unfold writeAllocatedOn in Ew. destruct (zlen (buf_data b) =? 0) eqn:E0.
  - injection Ew as <- <-. bool_norm. destruct (buf_data b) eqn:Eb; [done|]. unfold zlen in E0. simpl in E0. lia.
  - destruct (ch_open c); [|done]. cbn [negb] in Ew. by eapply WriteAllocated_tail.
Qed.

Lemma holding_not_fresh free0 held token dev dev' p :
  holding tot free0 held dev -> holding tot free0 (held ++ token) dev' ->
  ea_free (bd_allocator dev) (p / BlockSize) = false -> covers token (p / BlockSize) = false.
Proof. intros Hh Hh' Hp. rewrite <- covers_byteResult. by eapply (holding_fresh tot free0 held token dev dev'). Qed.

Lemma multiResultCase_good cfg : 0 < bc_resultSize cfg -> 0 < bc_blockSize cfg -> good_write (multiResultCase cfg).
Proof.
  intros Hrs Hbs free0 held c io dev d op size Hh Hs. unfold multiResultCase.
  destruct (makePattern_spec size op ltac:(lia)) as (data & -> & Hz). go_step.
  destruct (Alloc_holding tot free0 held dev size Hh Htot ltac:(lia)) as [[e ->]|(dev1 & tk & -> & Hh1 & Hsz & _)]; go_step.
  { eexists _, _, _. split; [done|]. done. }
  assert (Hms : 0 < multiSplit cfg) by (unfold multiSplit, maxInt64; repeat case_bool; lia).
  destruct (cut_split held tk free0 dev1 (multiSplit cfg) Hh1 Hms) as (split & -> & Hcut). go_step.
  destruct (writeOrRollback_spec free0 held tk split c (io_ctx1 io) (io_ctx2 io) dev1 d (mkBuffer (io_addr io) data) Hh1 Hcut)
    as (dev' & d' & err & -> & Hfr & Hr). go_step.
  assert (Hframe : forall p, ea_free (bd_allocator dev) (p / BlockSize) = false -> diskByte d' p = diskByte d p)
    by (intros p Hp; apply Hfr; by apply (holding_not_fresh free0 held tk dev dev1)).
  destruct err as [e|]; (eexists _, _, _; split; [done|]; split; [done|]); [done|]. destruct Hr as [-> Hrd]. split; [done|].
  assert (Hfit : zlen data <= sizes split) by (rewrite (cu_sizes _ _ Hcut), Hsz; change BlockSize with 4096; dlia).
  split; [apply Hcut|]. split; [intros p; cbn [rec_results rec_token]; by rewrite (cu_covers _ _ Hcut)|]. split; [done|]. cbn [rec_results rec_length rec_data].
  rewrite Hrd by (cbn; lia). cbn [buf_data]. rewrite drop_ge, app_nil_r; [done|].
  pose proof (zlen_readExtents d split (zlen data) (cu_positive _ _ Hcut) ltac:(lia)). unfold zlen in *. lia.
Qed.

Lemma partialLastCase_good cfg : 0 < bc_resultSize cfg -> good_write (partialLastCase cfg).
Proof.
  intros Hrs free0 held c io dev d op size Hh Hs. unfold partialLastCase.
  destruct (makePattern_spec size op ltac:(lia)) as (data & -> & Hz). go_step.
  assert (Hfit : size <= fitBlock size < size + BlockSize).
  { unfold fitBlock. change BlockSize with 4096. rewrite Z.rem_mod_nonneg by lia. case_bool; [lia|].
    rewrite Z.quot_div_nonneg by lia. rewrite i64_small by (unfold is_i64; dlia). dlia. }
  change BlockSize with 4096 in Hfit. set (n := i64 (fitBlock size + BlockSize)).
  assert (Hn : n = fitBlock size + 4096) by (unfold n; change BlockSize with 4096; apply i64_small; unfold is_i64; lia).
  destruct (Alloc_holding tot free0 held dev n Hh Htot ltac:(lia)) as [[e ->]|(dev1 & tk & -> & Hh1 & Hsz & _)]; go_step.
  { eexists _, _, _. split; [done|]. done. }
  assert (Hms : 0 < minInt64 (bc_resultSize cfg) BlockSize) by (unfold minInt64; case_bool; change BlockSize with 4096; lia).
  destruct (cut_split held tk free0 dev1 _ Hh1 Hms) as (split & -> & Hcut). go_step. rewrite makeSlice_some by lia. go_step.
  destruct (writeOrRollback_spec free0 held tk split c (io_ctx1 io) (io_ctx2 io) dev1 d (mkBuffer (io_addr2 io) (zmake n 238)) Hh1 Hcut)
    as (dev2 & d2 & err & -> & Hfr2 & Hr2). go_step.
  assert (Hframe : forall p, ea_free (bd_allocator dev) (p / BlockSize) = false -> covers tk (p / BlockSize) = false)
    by (intros p Hp; by apply (holding_not_fresh free0 held tk dev dev1)).
  destruct err as [e|]; [eexists _, _, _; split; [done|]; split; [by auto|done]|]. destruct Hr2 as [-> Hrd2].
  destruct (writeOrRollback_spec free0 held tk split c (io_ctx3 io) (io_ctx4 io) dev1 d2 (mkBuffer (io_addr io) data) Hh1 Hcut)
    as (dev3 & d3 & err & -> & Hfr3 & Hr3). go_step.
  assert (Hframe3 : forall p, ea_free (bd_allocator dev) (p / BlockSize) = false -> diskByte d3 p = diskByte d p)
    by (intros p Hp; rewrite Hfr3, Hfr2 by auto; done).
  destruct err as [e|]; [eexists _, _, _; split; [done|]; done|]. destruct Hr3 as [-> Hrd3].
  assert (Hzm : zlen (zmake n 238) = n) by (apply zlen_make; lia).
  assert (Hcap : n <= sizes split) by (rewrite (cu_sizes _ _ Hcut), Hsz; change BlockSize with 4096; dlia).
  assert (Esl : slice (zmake n 238) (zlen data) (zlen (zmake n 238)) = Some (drop (length data) (zmake n 238))).
  { pose proof (slice_take (zmake n 238) (zlen data) (n - zlen data)) as E. rewrite Zplus_minus in E. rewrite Hzm, E by lia. f_equal.
    rewrite take_ge by (rewrite length_drop; unfold zlen in *; lia). f_equal. unfold zlen. lia. }
  rewrite Esl. go_step.
  assert (Hzw : zlen (data ++ drop (length data) (zmake n 238)) = n) by (rewrite zlen_app_; unfold zlen in *; rewrite length_drop; lia).
  eexists _, _, _. split; [done|]. split; [done|]. split; [done|]. split; [apply Hcut|].
  split; [intros p; cbn [rec_results rec_token]; by rewrite (cu_covers _ _ Hcut)|]. split; [done|]. cbn [rec_results rec_length rec_data].
  rewrite Hzw, Hrd3 by (cbn [buf_data]; lia). cbn [buf_data]. do 2 f_equal. rewrite Hrd2 by (cbn [buf_data]; lia). cbn [buf_data].
  rewrite drop_ge, app_nil_r; [done|]. pose proof (zlen_readExtents d split n (cu_positive _ _ Hcut) ltac:(lia)). unfold zlen in *. lia.
Qed.
End writing.

(** ** The pipeline *)

Section pipeline.
Context `{FL : FileReaderLaws} `{AL : !AioDiskLaws A} {T : Type} `{EA : ExtentAllocator T} `{EL : !ExtentAllocatorLaws T}.
Context (tot : Z) (free0 : Z -> bool) (cfg : benchConfig) (concurrency readConcurrency : nat).
Context (writeOne : Channel -> ioEnv -> @BlockDevice T -> disk -> Z -> Z -> option (written (T := T))).
Hypothesis Hgood : good_write tot writeOne.
Hypothesis Hbs : 0 < bc_blockSize cfg < 2 ^ 60.
Hypothesis Htotal : 0 <= bc_totalBytes cfg < 2 ^ 60.
Implicit Types (s : bench (T := T)).

Definition wrecs (x : bwriter) : list writeRecord := match x with BwSend r => [r] | _ => [] end.
Definition rrecs (x : breader) : list writeRecord := match x with BrRead r => [r] | _ => [] end.
Definition rtoks (x : breader) : list Result := match x with BrRollback token _ => token | _ => [] end.

(** The records that have been written and not read, and the blocks held. *)
Definition live s : list writeRecord := concat (map wrecs (b_writers s)) ++ b_records s ++ concat (map rrecs (b_readers s)).
Definition toks (l : list writeRecord) : list Result := concat (map rec_token l).
Definition held s : list Result := toks (live s) ++ concat (map rtoks (b_readers s)).

Lemma toks_perm l l' : l ≡ₚ l' -> toks l ≡ₚ toks l'.
Proof. unfold toks. induction 1; simpl; [done|by f_equiv| |by etrans]. rewrite !app_assoc. apply Permutation_app_tail, Permutation_app_comm. Qed.

Lemma toks_app l l' : toks (l ++ l') = toks l ++ toks l'.
Proof. unfold toks. by rewrite map_app, concat_app. Qed.

(** The store: what is held is held, and every live record reads back. *)
Record store_ok (dev : @BlockDevice T) (d : disk) (c : Channel) (l : list writeRecord) (h : list Result) : Prop := {
  so_holding : holding tot free0 (toks l ++ h) dev;
  so_records : Forall (record_ok d) l;
  so_pool : pool_ok [] c;
}.

Lemma store_perm dev d c l l' h h' : l ≡ₚ l' -> h ≡ₚ h' -> store_ok dev d c l h -> store_ok dev d c l' h'.
Proof.
  intros Hl Hh [H1 H2 H3]. split; [|by rewrite <- Hl|done]. eapply holding_perm; [|exact H1]. by rewrite (toks_perm _ _ Hl), Hh.
Qed.

(** A record survives what happens to other blocks. *)
Lemma record_frame (dev : @BlockDevice T) (d d' : disk) l h :
  holding tot free0 (toks l ++ h) dev ->
  (forall p, ea_free (bd_allocator dev) (p / BlockSize) = false -> diskByte d' p = diskByte d p) ->
  Forall (record_ok d) l -> Forall (record_ok d') l.
Proof.
  intros Hh Hfr HF. apply Forall_forall. intros r Hr. pose proof (proj1 (Forall_forall _ _) HF r Hr) as (HP & Hc & Hl & Hrd).
  split; [done|]. split; [done|]. split; [done|]. rewrite <- Hrd. apply readExtents_ext; [done|]. intros p Hp. apply Hfr.
  rewrite (ho_free _ _ _ _ Hh). apply andb_false_iff. right. apply negb_false_iff. rewrite covers_app. apply orb_true_iff. left.
  apply Hc in Hp. apply covers_true in Hp as (q & Hq & Hin). apply covers_true. exists q. split; [|done].
  apply list_elem_of_In, in_concat. exists (rec_token r). split; [apply in_map|]; by apply list_elem_of_In.
Qed.

Lemma store_write dev (d : disk) c l h io op size :
  store_ok dev d c l h -> 0 < size < 2 ^ 60 ->
  forall dev' d' r, writeOne c io dev d op size = Some (dev', d', r) ->
  match r with
  | inl _ => store_ok dev' d' c l h
  | inr (results, token, data) => store_ok dev' d' c (mkRecord results token data (zlen data) :: l) h
  end.
Proof.
  intros [H1 H2 H3] Hs dev' d' r E. destruct (Hgood free0 _ c io dev d op size H1 Hs) as (dev1 & d1 & r1 & E1 & Hfr & Hr).
  rewrite E in E1. injection E1 as <- <- <-. pose proof (record_frame dev d d' l h H1 Hfr H2) as H2'.
  destruct r as [e|[[results token] data]]; [by split|]. destruct Hr as [Hh Hrec]. split; [|by constructor|done].
  eapply holding_perm; [|exact Hh]. unfold toks. cbn [map concat rec_token]. rewrite <- (app_assoc token). apply Permutation_app_comm.
Qed.

Lemma store_release dev (d : disk) c l h token dev' :
  store_ok dev d c l (token ++ h) -> RollbackAlloc dev token = Some dev' -> store_ok dev' d c l h.
Proof.
  intros [H1 H2 H3] E. destruct (RollbackAlloc_holding tot free0 token (toks l ++ h) dev) as (dev1 & E1 & Hh & _).
  { eapply holding_perm; [|exact H1]. apply Permutation_app_swap_app. }
  rewrite E in E1. injection E1 as <-. by split.
Qed.

(** A live record whose blocks are only to be released. *)
Lemma store_retire dev (d : disk) c r l h : store_ok dev d c (r :: l) h -> store_ok dev d c l (rec_token r ++ h).
Proof.
  intros [H1 H2 H3]. apply Forall_cons in H2 as [_ H2]. split; [|done|done]. eapply holding_perm; [|exact H1].
  unfold toks. cbn [map concat]. rewrite <- app_assoc. apply Permutation_app_swap_app.
Qed.

Lemma read_record (d : disk) c r ctx ctxr picks :
  record_ok d r -> pool_ok [] c ->
  exists c' got, readResults ctx ctxr picks c d (rec_results r) (rec_length r) = Some (c', got) /\ pool_ok [] c' /\
    forall out, got = inr out -> out = rec_data r.
Proof.
  intros (HP & _ & Hl & Hrd) Hc. pose proof (zlen_nonneg (rec_data r)).
  destruct (readResults_spec [] ctx ctxr picks c d (rec_results r) (rec_length r) HP Hc ltac:(lia)) as (c' & got & E & Hc' & _ & Hout & _).
  exists c', got. split; [done|]. split; [done|]. intros out Ho. rewrite (Hout out Ho). done.
Qed.

Abbreviation step := (bench_step cfg concurrency readConcurrency writeOne).
Abbreviation nops := (ops cfg).

Lemma live_writer s k x y :
  b_writers s !! k = Some x -> wrecs y ++ live s ≡ₚ wrecs x ++ live (set_bwriter s k y).
Proof. intros E. unfold live. cbn. rewrite !app_assoc. do 2 f_equiv. by apply concat_insert_Permutation. Qed.

Lemma live_reader s k x y :
  b_readers s !! k = Some x -> rrecs y ++ live s ≡ₚ rrecs x ++ live (set_breader s k y).
Proof.
  intros E. unfold live. cbn. rewrite !(app_assoc (concat _) (b_records s)), !(Permutation_app_swap_app (rrecs _)). f_equiv.
  by apply concat_insert_Permutation.
Qed.

Lemma rtoks_reader s k x y :
  b_readers s !! k = Some x ->
  rtoks y ++ concat (map rtoks (b_readers s)) ≡ₚ rtoks x ++ concat (map rtoks (b_readers (set_breader s k y))).
Proof. apply concat_insert_Permutation. Qed.

Definition bench_store s : Prop := store_ok (b_dev s) (b_disk s) (b_chan s) (live s) (concat (map rtoks (b_readers s))).

(** A writer goes on without a record to hand over. *)
Lemma store_writer s k x y : b_writers s !! k = Some x -> wrecs x = wrecs y -> bench_store s -> bench_store (set_bwriter s k y).
Proof.
  intros E Hw H. eapply store_perm; [|done|exact H]. pose proof (live_writer s k x y E) as Hp. rewrite Hw in Hp.
  by apply Permutation_app_inv_l in Hp.
Qed.

Lemma opSize_bound op : 0 <= op < nops -> 0 < opSize (bc_totalBytes cfg) (bc_blockSize cfg) op < 2 ^ 60.
Proof.
  intros Hop. destruct (opSizes_range (bc_totalBytes cfg) (bc_blockSize cfg)) with (op := op) as [H1 H2]; [lia|lia|done|]. lia.
Qed.

Lemma store_written s k op io dev d results token data :
  b_writers s !! k = Some (BwWrite op) -> 0 <= op < nops ->
  writeOne (b_chan s) io (b_dev s) (b_disk s) op (opSize (bc_totalBytes cfg) (bc_blockSize cfg) op) = Some (dev, d, inr (results, token, data)) ->
  bench_store s -> bench_store (set_bwriter (set_store s dev d (b_chan s)) k (BwSend (mkRecord results token data (zlen data)))).
Proof.
  intros E Hop Hw H. pose proof (store_write _ _ _ _ _ _ _ _ H (opSize_bound op Hop) _ _ _ Hw) as H'. cbn in H'.
  eapply store_perm; [|done|exact H']. exact (live_writer s k _ (BwSend (mkRecord results token data (zlen data))) E).
Qed.

(** A record goes from a writer through the queue to a reader. *)
Lemma live_send s k r :
  b_writers s !! k = Some (BwSend r) -> live s ≡ₚ live (set_bwriter (set_records s (b_records s ++ [r])) k BwNext).
Proof.
  intros E. pose proof (concat_insert_Permutation wrecs _ _ _ BwNext E) as Hp. cbn [wrecs app] in Hp. unfold live. cbn.
  rewrite Hp. cbn [app]. rewrite <- (app_assoc (b_records s)), (Permutation_app_swap_app (b_records s) [r]).
  rewrite (Permutation_app_swap_app _ [r]). done.
Qed.

Lemma live_recv s k r l :
  b_readers s !! k = Some BrRecv -> b_records s = r :: l -> live s ≡ₚ live (set_breader (set_records s l) k (BrRead r)).
Proof.
  intros E Er. pose proof (concat_insert_Permutation rrecs _ _ _ (BrRead r) E) as Hp. cbn [rrecs app] in Hp. unfold live. cbn.
  rewrite Er, <- Hp. cbn [app]. f_equiv. apply Permutation_middle.
Qed.

Lemma store_read s k r ctx ctxr picks c n err :
  b_readers s !! k = Some (BrRead r) -> readAndVerify cfg ctx ctxr picks (b_chan s) (b_disk s) r = Some (c, n, err) ->
  bench_store s -> bench_store (set_breader (addReads (set_store s (b_dev s) (b_disk s) c) n) k (BrRollback (rec_token r) err)).
Proof.
  intros E Hrd H. pose proof (live_reader s k _ (BrRollback (rec_token r) err) E) as Hlive. cbn [rrecs app] in Hlive.
  pose proof (rtoks_reader s k _ (BrRollback (rec_token r) err) E) as Htok. cbn [rtoks app] in Htok.
  apply (store_perm _ _ _ _ _ _ _ Hlive (reflexivity _)) in H. pose proof (so_records _ _ _ _ _ H) as HF. apply Forall_cons in HF as [Hr _].
  apply store_retire in H. apply (store_perm _ _ _ _ _ _ _ (reflexivity _) Htok) in H. destruct H as [H1 H2 H3]. split; [done|done|]. cbn.
  unfold readAndVerify in Hrd. destruct (read_record _ _ r ctx ctxr picks Hr H3) as (c' & got & Eg & Hc' & _). rewrite Eg in Hrd. cbn in Hrd.
  destruct got; [|case_match]; by simplify_eq.
Qed.

Lemma store_step s s' :
  step s s' -> (forall k op, b_writers s !! k = Some (BwWrite op) -> 0 <= op < nops) -> bench_store s -> bench_store s'.
Proof.
  intros Hs Hop H. destruct Hs as [s k E|s k op io dev d e E Hio Hw|s k op io dev d results token data E Hio Hw|s k r E Hlen|s k r dev E Hc Hrb
    |s k r l E Er|s k E Er Hcl|s k r ctx ctxr picks c n err E Hc1 Hc2 Hrd|s k token err dev E Hrb|s Em HF|s Em HF|s e Ht Hc]; try exact H.
  - eapply (store_writer (set_next s (b_next s + 1))); [exact E|by case_match|exact H].
  - pose proof (store_write _ _ _ _ _ _ _ _ H (opSize_bound op (Hop _ _ E)) _ _ _ Hw) as H'.
    eapply (store_writer (addErr _ _ (set_store s dev d (b_chan s)) e)); [exact E|done|exact H'].
  - eapply store_written; [done|by eapply Hop|done|done].
  - eapply store_perm; [by apply live_send|done|exact H].
  - pose proof (live_writer s k _ BwDone E) as Hlive. cbn [wrecs app] in Hlive. apply (store_perm _ _ _ _ _ _ _ Hlive (reflexivity _)) in H.
    apply store_retire in H. exact (store_release _ _ _ _ _ _ _ H Hrb).
  - eapply store_perm; [by apply live_recv|exact (rtoks_reader s k _ (BrRead r) E)|exact H].
  - eapply store_perm; [exact (live_reader s k _ BrDone E)|exact (rtoks_reader s k _ BrDone E)|exact H].
  - by eapply store_read.
  - pose proof (live_reader s k _ BrRecv E) as Hlive. pose proof (rtoks_reader s k _ BrRecv E) as Htok. cbn [rtoks rrecs app] in Hlive, Htok.
    apply (store_perm _ _ _ _ _ _ _ Hlive Htok) in H. pose proof (store_release _ _ _ _ _ _ _ H Hrb) as H'. by destruct err.
Qed.

(** The goroutines: operations are in range; the queue closes after the last
    writer; a reader returns only from a closed empty queue. *)
Record control_ok s : Prop := {
  co_next : 0 <= b_next s;
  co_op : forall k op, b_writers s !! k = Some (BwWrite op) -> 0 <= op < nops;
  co_closed : b_closed s = true -> Forall (eq BwDone) (b_writers s);
  co_reader : forall k, b_readers s !! k = Some BrDone -> b_closed s = true /\ b_records s = [];
  co_main : match b_main s with
    | BmWriters => True
    | BmReaders => b_closed s = true
    | BmReturned _ => b_closed s = true /\ Forall (eq BrDone) (b_readers s)
    end;
}.

Lemma writer_open s k x : control_ok s -> b_writers s !! k = Some x -> x <> BwDone -> b_closed s = false.
Proof.
  intros H E Hx. destruct (b_closed s) eqn:Ec; [|done]. pose proof (co_closed _ H Ec) as HF. by eapply Forall_lookup_1 in HF; [|exact E].
Qed.

(** A writer moves on. *)
Lemma control_writer s k x y :
  b_writers s !! k = Some x -> x <> BwDone -> (forall op, y = BwWrite op -> 0 <= op < nops) -> control_ok s -> control_ok (set_bwriter s k y).
Proof.
  intros E Hx Hy H. pose proof (writer_open s k x H E Hx) as Ho. destruct H as [H1 H2 H3 H4 H5]. split; cbn; try done; [|congruence].
  intros j op Ej. apply list_lookup_insert_Some in Ej as [(_ & -> & _)|[_ Ej]]; [by apply Hy|by eapply H2].
Qed.

Lemma control_reader s k x y :
  b_readers s !! k = Some x -> x <> BrDone -> (y = BrDone -> b_closed s = true /\ b_records s = []) -> control_ok s -> control_ok (set_breader s k y).
Proof.
  intros E Hx Hy [H1 H2 H3 H4 H5]. split; cbn; try done.
  - intros j Ej. apply list_lookup_insert_Some in Ej as [(_ & -> & _)|[_ Ej]]; [by apply Hy|by eapply H4].
  - destruct (b_main s); try done. destruct H5 as [_ HF]. by eapply Forall_lookup_1 in HF; [|exact E].
Qed.

Lemma control_step s s' : step s s' -> control_ok s -> control_ok s'.
Proof.
  intros Hs H. destruct Hs as [s k E|s k op io dev d e E Hio Hw|s k op io dev d results token data E Hio Hw|s k r E Hlen|s k r dev E Hc Hrb
    |s k r l E Er|s k E Er Hcl|s k r ctx ctxr picks c n err E Hc1 Hc2 Hrd|s k token err dev E Hrb|s Em HF|s Em HF|s e Ht Hc].
  - pose proof (co_next _ H). eapply (control_writer (set_next s (b_next s + 1))); [exact E|done| |destruct H; split; cbn; try done; lia].
    intros op. case_bool; [done|]. intros [= <-]. lia.
  - eapply (control_writer (addErr _ _ (set_store s dev d (b_chan s)) e)); [exact E|done|done|by destruct H].
  - eapply (control_writer (set_store s dev d (b_chan s))); [exact E|done|done|by destruct H].
  - pose proof (writer_open s k _ H E ltac:(done)) as Ho. eapply (control_writer (set_records s (b_records s ++ [r]))); [exact E|done|done|].
    destruct H as [H1 H2 H3 H4 H5]. split; cbn; try done. intros j Ej. destruct (H4 j Ej). congruence.
  - eapply (control_writer (set_store s dev (b_disk s) (b_chan s))); [exact E|done|done|by destruct H].
  - eapply (control_reader (set_records s l)); [exact E|done|done|]. destruct H as [H1 H2 H3 H4 H5]. split; cbn; try done.
    intros j Ej. destruct (H4 j Ej). congruence.
  - by eapply control_reader.
  - eapply (control_reader (addReads (set_store s (b_dev s) (b_disk s) c) n)); [exact E|done|done|by destruct H].
  - eapply (control_reader (addErrOpt _ _ (set_store s dev (b_disk s) (b_chan s)) err)); [by destruct err|done|done|by destruct err, H].
  - destruct H as [H1 H2 H3 H4 H5]. split; cbn; try done. intros j Ej. split; [done|]. by apply (H4 j).
  - destruct H as [H1 H2 H3 H4 H5]. rewrite Em in H5. by split.
  - by destruct H.
Qed.

Lemma bench_reachable dev (d : disk) c ctx s :
  holding tot free0 [] dev -> pool_ok [] c -> rtc step (benchStart concurrency readConcurrency dev d c ctx) s ->
  control_ok s /\ bench_store s /\ length (b_readers s) = readConcurrency /\ length (b_writers s) = concurrency.
Proof.
  intros Hh Hp. revert s. apply rtc_ind_r.
  - assert (Hw : concat (map wrecs (replicate concurrency BwNext)) = []) by (clear; induction concurrency; [done|cbn; done]).
    assert (Hr1 : concat (map rrecs (replicate readConcurrency BrRecv)) = []) by (clear; induction readConcurrency; [done|cbn; done]).
    assert (Hr2 : concat (map rtoks (replicate readConcurrency BrRecv)) = []) by (clear; induction readConcurrency; [done|cbn; done]).
    split; [|split; [|split; apply length_replicate]].
    + split; cbn; try done; intros k; [intros op|]; intros E; by apply lookup_replicate in E as [? _].
    + unfold bench_store, live. cbn. rewrite Hw, Hr1, Hr2. by split.
  - intros y z _ Hs (Hc & Hst & Hl & Hl'). split; [by eapply control_step|]. split; [by eapply store_step; [|apply Hc|]|].
    rewrite <- Hl, <- Hl'. destruct Hs; try destruct err; cbn; by rewrite ?length_insert.
Qed.

(** ** Progress and termination *)

(** A step of a goroutine, not the end of the context. *)
Definition bench_can_step s : Prop := exists s', step s s' /\ b_ctx s' = b_ctx s.

Lemma reader_can_step s k x :
  control_ok s -> bench_store s -> b_readers s !! k = Some x -> x <> BrDone -> (x = BrRecv -> b_records s <> [] \/ b_closed s = true) -> bench_can_step s.
Proof.
  intros Hc Hst E Hx Hr. destruct x as [|r|token err|]; [| | |done].
  - destruct (b_records s) as [|r l] eqn:Er; [|eexists; split; [by eapply br_recv|done]]. destruct (Hr eq_refl) as [?|Hcl]; [done|].
    eexists. split; [by eapply br_closed|done].
  - pose proof (so_records _ _ _ _ _ Hst) as HF. assert (Hr' : record_ok (b_disk s) r).
    { pose proof (live_reader s k _ BrRecv E) as Hp. cbn [rrecs app] in Hp. rewrite Hp in HF. by apply Forall_cons in HF as [? _]. }
    destruct (read_record _ _ r (fun _ => None) (fun _ => None) (fun _ => None) Hr' (so_pool _ _ _ _ _ Hst)) as (c' & got & Eg & _).
    assert (exists c n err, readAndVerify cfg (fun _ => None) (fun _ => None) (fun _ => None) (b_chan s) (b_disk s) r = Some (c, n, err)) as (c & n & err & Ev).
    { unfold readAndVerify. rewrite Eg. cbn. destruct got; [|case_match]; eauto. }
    eexists. split; [eapply br_read; [done|by right|by right|done]|done].
  - pose proof (rtoks_reader s k _ BrRecv E) as Htok. cbn [rtoks app] in Htok. pose proof (store_perm _ _ _ _ _ _ _ (reflexivity _) Htok Hst) as [Hh _ _].
    destruct (RollbackAlloc_holding tot free0 token (toks (live s) ++ concat (map rtoks (b_readers (set_breader s k BrRecv)))) (b_dev s)) as (dev & Ed & _).
    { eapply holding_perm; [|exact Hh]. apply Permutation_app_swap_app. }
    eexists. split; [by eapply br_rollback|by destruct err].
Qed.

Lemma writer_can_step s k x :
  control_ok s -> bench_store s -> b_writers s !! k = Some x -> x <> BwDone ->
  (forall r, x = BwSend r -> (length (b_records s) < benchCap concurrency readConcurrency)%nat) -> bench_can_step s.
Proof.
  intros Hc Hst E Hx Hr. destruct x as [|op|r|]; [| | |done].
  - eexists. split; [by eapply bw_take|done].
  - destruct (Hgood free0 _ (b_chan s) (mkIoEnv 0 0 (fun _ => None) (fun _ => None) (fun _ => None) (fun _ => None)) (b_dev s) (b_disk s) op _
      (so_holding _ _ _ _ _ Hst) (opSize_bound op (co_op _ Hc _ _ E))) as (dev & d & r & Ew & _).
    destruct r as [e'|[[results token] data]]; eexists.
    + split; [eapply bw_fail; [done| |exact Ew]|done]. split_and!; by right.
    + split; [eapply bw_write; [done| |exact Ew]|done]. split_and!; by right.
  - eexists. split; [eapply bw_send; [done|by eapply Hr]|done].
Qed.

#[local] Instance writeRecord_eq_dec : EqDecision writeRecord.
Proof. solve_decision. Defined.
#[local] Instance bwriter_eq_dec : EqDecision bwriter.
Proof. solve_decision. Defined.
#[local] Instance breader_eq_dec : EqDecision breader.
Proof. solve_decision. Defined.

Lemma bench_progress s :
  (0 < readConcurrency)%nat -> length (b_readers s) = readConcurrency -> control_ok s -> bench_store s ->
  bench_can_step s \/ exists r, b_main s = BmReturned r.
Proof.
  intros Hrc Hlen Hc Hst. assert (Hrd : exists k x, b_readers s !! k = Some x).
  { destruct (b_readers s) as [|x l]; [simpl in Hlen; lia|]. by exists 0%nat, x. }
  destruct (b_main s) as [| |r] eqn:Em; [| |by eauto]; left.
  - destruct (all_or_not BwDone (b_writers s)) as [HF|(k & x & E & Hx)]; [eexists; split; [by eapply bm_close|done]|].
    destruct (decide (length (b_records s) < benchCap concurrency readConcurrency)%nat) as [Hroom|Hfull]; [by eapply writer_can_step|].
    destruct Hrd as (j & y & Ej). assert (Hne : b_records s <> []) by (intros E0; rewrite E0 in Hfull; unfold benchCap in Hfull; simpl in Hfull; lia).
    eapply (reader_can_step s j y); [done|done|done| |by left]. intros ->. by destruct (co_reader _ Hc j Ej).
  - pose proof (co_main _ Hc) as Hm. rewrite Em in Hm. destruct (all_or_not BrDone (b_readers s)) as [HF|(k & x & E & Hx)]; [eexists; split; [by eapply bm_return|done]|].
    eapply reader_can_step; [done|done|done|done|by right].
Qed.

Definition weight_bw (x : bwriter) : nat := match x with BwNext => 1 | BwWrite _ => 10 | BwSend _ => 9 | BwDone => 0 end.
Definition weight_br (x : breader) : nat := match x with BrRecv => 1 | BrRead _ => 6 | BrRollback _ _ => 5 | BrDone => 0 end.
Definition weight_bench s : nat :=
  12 * Z.to_nat (nops - b_next s) + sum_list_with weight_bw (b_writers s) + sum_list_with weight_br (b_readers s) +
  6 * length (b_records s) + match b_main s with BmWriters => 2 | BmReaders => 1 | BmReturned _ => 0 end + (if b_ctx s is Some _ then 0 else 1).

Lemma bench_decreases s s' : step s s' -> (weight_bench s' < weight_bench s)%nat.
Proof.
  intros Hs. unfold weight_bench. destruct Hs; try destruct err; cbn;
    repeat match goal with
    | Hx : b_main _ = _ |- _ => rewrite Hx | Hx : b_records _ = _ |- _ => rewrite Hx | Hx : b_ctx _ = _ |- _ => rewrite Hx
    | Hx : b_writers _ !! _ = Some ?x |- context [<[_ := ?y]> _] => pose proof (sum_list_insert weight_bw _ _ _ y Hx); clear Hx
    | Hx : b_readers _ !! _ = Some ?x |- context [<[_ := ?y]> _] => pose proof (sum_list_insert weight_br _ _ _ y Hx); clear Hx
    end; try case_bool; rewrite ?length_app; cbn [weight_bw weight_br length] in *; lia.
Qed.

Lemma bench_terminates s : Acc (flip step) s.
Proof. apply (Acc_measure _ weight_bench), bench_decreases. Qed.

(** When the pipeline has returned nothing is held and nothing waits. *)
Lemma bench_returned s r :
  (0 < readConcurrency)%nat -> length (b_readers s) = readConcurrency -> control_ok s -> b_main s = BmReturned r -> held s = [].
Proof.
  intros Hrc Hlen Hc Em. pose proof (co_main _ Hc) as Hm. rewrite Em in Hm. destruct Hm as [Hcl HR]. pose proof (co_closed _ Hc Hcl) as HW.
  assert (Er : b_records s = []).
  { destruct (b_readers s) as [|x l] eqn:El; [simpl in Hlen; lia|]. apply Forall_cons in HR as [<- _]. apply (co_reader _ Hc 0%nat). by rewrite El. }
  assert (H0 : forall {X Y} (f : X -> list Y) x l, f x = [] -> Forall (eq x) l -> concat (map f l) = [])
    by (intros X Y f x l Hf; induction 1 as [|y l <- _ IH]; [done|]; cbn; by rewrite Hf, IH).
  unfold held, live. rewrite Er, (H0 _ _ wrecs BwDone), (H0 _ _ rrecs BrDone), (H0 _ _ rtoks BrDone) by done. done.
Qed.

(** ** The account of the operations *)

(** Operations taken and not read back yet. *)
Definition count_bw (x : bwriter) : nat := match x with BwWrite _ | BwSend _ => 1 | _ => 0 end.
Definition count_br (x : breader) : nat := match x with BrRead _ => 1 | _ => 0 end.
Definition inWork s : nat := sum_list_with count_bw (b_writers s) + length (b_records s) + sum_list_with count_br (b_readers s).

(** No error so far, and the context is alive. *)
Definition unharmed s : Prop :=
  b_errCh s = [] /\ b_ctx s = None /\ forall k token e, b_readers s !! k <> Some (BrRollback token (Some e)).

Record counted s : Prop := {
  ct_ops : Z.min (b_next s) nops = Z.of_nat (inWork s) + b_readOps s;
  ct_done : forall k, b_writers s !! k = Some BwDone -> nops <= b_next s;
}.

Lemma keepErr_ne l e : (0 < readConcurrency)%nat -> keepErr concurrency readConcurrency l e <> [].
Proof. unfold keepErr, benchCap. intros. case_decide as Hd; destruct l; simpl in *; try done. lia. Qed.

Lemma unharmed_back s s' : (0 < readConcurrency)%nat -> step s s' -> unharmed s' -> unharmed s.
Proof.
  intros Hrc Hs (H1 & H2 & H3).
  destruct Hs as [s k E|s k op io dev d e E Hio Hw|s k op io dev d results token data E Hio Hw|s k r E Hlen|s k r dev E Hc Hrb
    |s k r l E Er|s k E Er Hcl|s k r ctx ctxr picks c n err E Hc1 Hc2 Hrd|s k token err dev E Hrb|s Em HF|s Em HF|s e Ht Hc]; cbn in *; try done.
  - by apply keepErr_ne in H1.
  - split; [done|]. split; [done|]. intros j token e Ej. apply (H3 j token e). rewrite list_lookup_insert_ne; [done|]. congruence.
  - split; [done|]. split; [done|]. intros j token e Ej. apply (H3 j token e). rewrite list_lookup_insert_ne; [done|]. congruence.
  - split; [done|]. split; [done|]. intros j token e Ej. apply (H3 j token e). rewrite list_lookup_insert_ne; [done|]. congruence.
  - destruct err as [e|]; cbn in *; [by apply keepErr_ne in H1|]. split; [done|]. split; [done|]. intros j token' e Ej.
    apply (H3 j token' e). rewrite list_lookup_insert_ne; [done|]. congruence.
Qed.

(** The counts of the goroutine that moves. *)
Ltac count_step :=
  repeat match goal with
  | Hx : b_writers _ !! _ = Some ?x |- context [<[_ := ?y]> _] => pose proof (sum_list_insert count_bw _ _ _ y Hx); clear Hx
  | Hx : b_readers _ !! _ = Some ?x |- context [<[_ := ?y]> _] => pose proof (sum_list_insert count_br _ _ _ y Hx); clear Hx
  | Hx : b_records _ = _ |- _ => rewrite Hx in *; clear Hx
  end; rewrite ?length_app; cbn [count_bw count_br length] in *.

Lemma counted_step s s' :
  (0 < readConcurrency)%nat -> step s s' -> 0 <= b_next s -> counted s -> unharmed s' -> counted s'.
Proof.
  intros Hrc Hs Hn [C1 C2] (H1 & H2 & H3). unfold inWork in *.
  assert (Hother : forall (l : list bwriter) k y, y <> BwDone -> (forall j : nat, l !! j = Some BwDone -> nops <= b_next s) ->
    forall j : nat, <[k := y]> l !! j = Some BwDone -> nops <= b_next s).
  { intros l k y Hy Hl j Ej. apply list_lookup_insert_Some in Ej as [(_ & ? & _)|[_ Ej]]; [done|by eapply Hl]. }
  destruct Hs as [s k E|s k op io dev d e E Hio Hw|s k op io dev d results token data E Hio Hw|s k r E Hlen|s k r dev E Hc Hrb
    |s k r l E Er|s k E Er Hcl|s k r ctx ctxr picks c n err E Hc1 Hc2 Hrd|s k token err dev E Hrb|s Em HF|s Em HF|s e Ht Hc]; cbn in *; try done.
  - case_bool.
    + split; unfold inWork; cbn; [count_step; lia|]. intros j Ej. apply list_lookup_insert_Some in Ej as [_|[_ Ej]]; [lia|]. specialize (C2 j Ej). lia.
    + split; unfold inWork; cbn; [count_step; lia|]. intros j Ej. apply list_lookup_insert_Some in Ej as [(_ & ? & _)|[_ Ej]]; [done|]. specialize (C2 j Ej). lia.
  - by apply keepErr_ne in H1.
  - split; unfold inWork; cbn; [count_step; lia|by eapply Hother].
  - split; unfold inWork; cbn; [count_step; lia|by eapply Hother].
  - rewrite H2 in Hc. by destruct Hc.
  - split; unfold inWork; cbn; [count_step; lia|done].
  - split; unfold inWork; cbn; [count_step; lia|done].
  - assert (n = 1) as ->.
    { destruct err as [e|]; [|unfold readAndVerify in Hrd; destruct (readResults _ _ _ _ _ _ _) as [[? [?|?]]|]; cbn in Hrd; [done| |done];
        case_match; by injection Hrd]. destruct (H3 k (rec_token r) e). rewrite list_lookup_insert_eq; [done|]. by apply lookup_lt_Some in E. }
    split; unfold inWork; cbn; [count_step; lia|done].
  - destruct err as [e|]; cbn in *; [by apply keepErr_ne in H1|]. split; unfold inWork; cbn; [count_step; lia|done].
Qed.

Lemma counted_reachable dev (d : disk) c ctx s :
  (0 < readConcurrency)%nat -> holding tot free0 [] dev -> pool_ok [] c -> rtc step (benchStart concurrency readConcurrency dev d c ctx) s ->
  unharmed s -> counted s.
Proof.
  intros Hrc Hh Hp. revert s. apply (rtc_ind_r (fun s => unharmed s -> counted s)).
  - intros _.
    assert (Hw : sum_list_with count_bw (replicate concurrency BwNext) = 0%nat) by (clear; induction concurrency; [done|cbn; done]).
    assert (Hr : sum_list_with count_br (replicate readConcurrency BrRecv) = 0%nat) by (clear; induction readConcurrency; [done|cbn; done]).
    split; unfold inWork; cbn.
    + rewrite Hw, Hr. cbn. apply Z.min_l. unfold ops, ceilDiv. rewrite (proj2 (Z.leb_gt _ 0)) by lia.
      rewrite i64_small by (unfold is_i64; lia). rewrite Z.quot_div_nonneg by lia. apply Z.div_pos; lia.
    + intros k E. by apply lookup_replicate in E as [? _].
  - intros y z Hy Hs IH Hz. destruct (bench_reachable dev d c ctx y Hh Hp Hy) as (Hc & _).
    eapply counted_step; [done|done|apply Hc| |done]. apply IH. by eapply unharmed_back.
Qed.

(** When all goroutines have returned without an error, every operation was
    written and read back. *)
Lemma all_read_back dev (d : disk) c ctx s :
  (0 < concurrency)%nat -> (0 < readConcurrency)%nat -> holding tot free0 [] dev -> pool_ok [] c ->
  rtc step (benchStart concurrency readConcurrency dev d c ctx) s ->
  b_closed s = true -> Forall (eq BrDone) (b_readers s) -> b_errCh s = [] -> b_ctx s = None -> b_readOps s = nops.
Proof.
  intros Hwc Hrc Hh Hp Hr Hcl HR He Hx. destruct (bench_reachable dev d c ctx s Hh Hp Hr) as (Hc & _ & Hl & Hl').
  pose proof (co_closed _ Hc Hcl) as HW.
  assert (HU : unharmed s).
  { split; [done|]. split; [done|]. intros k token e Ek. by eapply Forall_lookup_1 in HR; [|exact Ek]. }
  destruct (counted_reachable dev d c ctx s Hrc Hh Hp Hr HU) as [C1 C2].
  assert (Er : b_records s = []).
  { destruct (b_readers s) as [|x l] eqn:El; [simpl in Hl; lia|]. apply Forall_cons in HR as [<- _]. apply (co_reader _ Hc 0%nat). by rewrite El. }
  assert (H0 : forall {X} (f : X -> nat) x l, f x = 0%nat -> Forall (eq x) l -> sum_list_with f l = 0%nat)
    by (intros X f x l Hf; induction 1 as [|y l <- _ IH]; [done|]; cbn; by rewrite Hf, IH).
  assert (Hd : nops <= b_next s).
  { destruct (b_writers s) as [|x l] eqn:El; [simpl in Hl'; lia|]. apply Forall_cons in HW as [<- _]. by apply (C2 0%nat). }
  unfold inWork in C1. rewrite Er, (H0 _ count_bw BwDone), (H0 _ count_br BrDone) in C1 by done. cbn in C1. lia.
Qed.

Lemma bench_nil dev (d : disk) c ctx s :
  (0 < concurrency)%nat -> (0 < readConcurrency)%nat -> holding tot free0 [] dev -> pool_ok [] c ->
  rtc step (benchStart concurrency readConcurrency dev d c ctx) s -> b_main s = BmReturned None -> b_errCh s = [] /\ b_readOps s = nops.
Proof.
  intros Hwc Hrc Hh Hp. revert s. apply (rtc_ind_r (fun s => b_main s = BmReturned None -> b_errCh s = [] /\ b_readOps s = nops)); [done|].
  intros y z Hy Hs IH Em. destruct (bench_reachable dev d c ctx y Hh Hp Hy) as (Hc & _). pose proof (co_main _ Hc) as Hm. pose proof (co_closed _ Hc) as HW.
  assert (b_main y = BmReaders \/ b_main y <> BmReaders) as [Ey|Ny] by (destruct (b_main y); auto).
  - inversion Hs; subst; try (destruct err; cbn in *; congruence); cbn in *; try congruence.
    injection Em as Em. rewrite Ey in Hm. destruct (b_errCh y) eqn:Ee; [|done]. split; [done|]. by eapply all_read_back.
  - assert (Ey : b_main y = BmReturned None) by (inversion Hs; subst; try destruct err; cbn in *; congruence).
    specialize (IH Ey). rewrite Ey in Hm. destruct Hm as [Hcl HR]. specialize (HW Hcl).
    inversion Hs; subst; cbn in *; try done; try congruence;
      match goal with
      | E : b_writers _ !! _ = Some _ |- _ => by eapply Forall_lookup_1 in HW; [|exact E]
      | E : b_readers _ !! _ = Some _ |- _ => by eapply Forall_lookup_1 in HR; [|exact E]
      end.
Qed.

Lemma no_timeout dev (d : disk) c ctx s :
  bc_timeout cfg = false -> rtc step (benchStart concurrency readConcurrency dev d c ctx) s -> b_ctx s = ctx.
Proof.
  intros Ht. revert s. apply (rtc_ind_r (fun s => b_ctx s = ctx)); [done|]. intros y z _ Hs IH.
  destruct Hs; try destruct err; cbn; congruence.
Qed.

(** What every reachable state of the pipeline offers. *)
Lemma pipeline_ok dev (d : disk) c ctx s :
  (0 < readConcurrency)%nat -> holding tot free0 [] dev -> pool_ok [] c -> rtc step (benchStart concurrency readConcurrency dev d c ctx) s ->
  Acc (flip step) s /\ ((exists s', step s s' /\ b_ctx s' = b_ctx s) \/ exists r, b_main s = BmReturned r) /\
  holding tot free0 (held s) (b_dev s) /\
  (forall r, r ∈ live s -> forall rctx ctxr picks, exists c' got,
     readResults rctx ctxr picks (b_chan s) (b_disk s) (rec_results r) (rec_length r) = Some (c', got) /\ forall out, got = inr out -> out = rec_data r) /\
  (forall r, b_main s = BmReturned r -> holding tot free0 [] (b_dev s) /\ pool_ok [] (b_chan s)).
Proof.
  intros Hrc Hh Hp Hr. destruct (bench_reachable dev d c ctx s Hh Hp Hr) as (Hc & Hst & Hl & _).
  split; [apply bench_terminates|]. split; [by apply bench_progress|]. split; [apply Hst|]. split.
  - intros r Hin rctx ctxr picks. pose proof (so_records _ _ _ _ _ Hst) as HF. rewrite Forall_forall in HF.
    destruct (read_record (b_disk s) (b_chan s) r rctx ctxr picks (HF r Hin) (so_pool _ _ _ _ _ Hst)) as (c' & got & E & _ & Ho). eauto.
  - intros r Em. pose proof (bench_returned s r Hrc Hl Hc Em) as H0. split; [|apply Hst]. rewrite <- H0. apply Hst.
Qed.
End pipeline.

(** ** The selected cases *)

Section cases.
Context `{FL : FileReaderLaws} `{AL : !AioDiskLaws A} {T : Type} `{EA : ExtentAllocator T} `{EL : !ExtentAllocatorLaws T}.
Context (tot : Z) (free0 : Z -> bool) (cfg : benchConfig) (concurrency readConcurrency : nat).
Hypothesis Htot : tot * BlockSize < 2 ^ 63.
Hypothesis Hbs : 0 < bc_blockSize cfg < 2 ^ 60.
Hypothesis Htotal : 0 <= bc_totalBytes cfg < 2 ^ 60.
Hypothesis Hrs : 0 < bc_resultSize cfg.
Hypothesis Hrc : (0 < readConcurrency)%nat.
Implicit Types (σ : benchState (T := T)).

Lemma caseNamed_good name (w : benchCase (T := T)) : caseNamed cfg name = Some w -> good_write tot w.
Proof.
  unfold caseNamed. repeat case_decide; intros [= <-]; [by apply smallCase_good|by apply multiResultCase_good; [| |lia]|by apply partialLastCase_good|by apply smallCase_good].
Qed.

(** Between two cases. *)
Definition idle σ : Prop := holding tot free0 [] (bs_dev σ) /\ pool_ok [] (bs_chan σ).

Lemma runCase_idle w σ σ' r : good_write tot w -> idle σ -> runCase cfg concurrency readConcurrency w σ σ' r -> idle σ'.
Proof. intros Hw [Hh Hp] [s r' Hs Em]. by eapply (pipeline_ok tot free0 cfg concurrency readConcurrency w Hw Hbs Htotal). Qed.

Lemma runSeq_idle last cases σ σ' r :
  good_write tot last -> Forall (fun c => good_write tot c.2) cases -> idle σ -> runSeq cfg concurrency readConcurrency last cases σ σ' r -> idle σ'.
Proof.
  intros Hl HF Hi Hs. induction Hs; [|apply Forall_cons in HF as [? ?]..]; [..|apply IHHs; [done|]]; by eapply runCase_idle.
Qed.
End cases.


(** ** A concrete pipeline *)

#[local] Existing Instances MemDisk.ops MemDisk.laws memReader memReaderLaws.

Definition demoConfig : benchConfig := mkBenchConfig 4096 12000 4096 true false.

Definition quietIo : ioEnv := mkIoEnv 0 0 (fun _ => None) (fun _ => None) (fun _ => None) (fun _ => None).

Definition demoBench : bench := benchStart 1 1 demoDevice (∅ : @disk MemDisk.ops) newChannel None.

Abbreviation demoWrite := (partialLastCase demoConfig newChannel quietIo demoDevice (∅ : @disk MemDisk.ops) 0 4096).

Lemma demoWrite_extents :
  match demoWrite with
  | Some (_, _, inr (split, _, data)) => Some (split, zlen data)
  | _ => None
  end = Some ([mkResult 0 4096; mkResult 4096 4096], 8192).
Proof. vm_compute. reflexivity. Qed.

(** One writer and one reader, [-case partial-last]: after the first write its
    record is in flight. *)
Lemma demoBench_written :
  exists s r, rtc (bench_step demoConfig 1 1 (partialLastCase demoConfig)) demoBench s /\ live s = [r] /\ rec_length r = 8192.
Proof.
  pose proof demoWrite_extents as E. destruct demoWrite as [[[dev d] [e|[[split token] data]]]|] eqn:Ew; [done| |done]. injection E as _ Hl.
  eexists _, (mkRecord split token data (zlen data)). split; [|split; [|exact Hl]].
  - eapply rtc_l; [apply (bw_take _ _ _ _ demoBench 0); reflexivity|]. eapply rtc_once. eapply (bw_write _ _ _ _ _ 0 0 quietIo); [reflexivity|split_and!; by right|exact Ew].
  - reflexivity.
Qed.

