(* ===== verification/GoText.v ===== *)
(** * UTF-8, quoting and hexadecimal

    What the tools use of [unicode/utf8], [strconv] and [encoding/hex]: a byte
    string as a sequence of runes and invalid bytes, [strconv.Quote], and
    decoding a string of hexadecimal digits. *)

From stdpp Require Import base decidable list numbers option strings.
From Stdlib Require Import ZArith Lia.
From S2P Require Import Prelude Words Bytes Pebble BlockDevice GoStrings RSocket Client.

(** ** [unicode/utf8] *)

Definition RuneError : Z := 65533.

Definition inRange (lo hi c : Z) : bool := (lo <=? c) && (c <=? hi).

(** The first byte of a rune of several bytes: how many follow, and the range
    of the second. *)
Definition firstByte (c : Z) : option (nat * Z * Z) :=
  if inRange 194 223 c then Some (1%nat, 128, 191)
  else if c =? 224 then Some (2%nat, 160, 191)
  else if c =? 237 then Some (2%nat, 128, 159)
  else if inRange 225 239 c then Some (2%nat, 128, 191)
  else if c =? 240 then Some (3%nat, 144, 191)
  else if c =? 244 then Some (3%nat, 128, 143)
  else if inRange 241 243 c then Some (3%nat, 128, 191)
  else None.

(** The rune a string starts with and the number of its bytes; [None] is the
    answer [RuneError] with width 1. *)
Definition decodeRune (s : bytes) : option (Z * nat) :=
  match s with
  | [] => None
  | c :: s =>
      if c <? 128 then Some (c, 1%nat)
      else match firstByte c, s with
      | Some (1%nat, lo, hi), a :: _ =>
          if inRange lo hi a then Some (64 * (c mod 32) + a mod 64, 2%nat) else None
      | Some (2%nat, lo, hi), a :: b :: _ =>
          if inRange lo hi a && inRange 128 191 b then Some (4096 * (c mod 16) + 64 * (a mod 64) + b mod 64, 3%nat) else None
      | Some (3%nat, lo, hi), a :: b :: e :: _ =>
          if inRange lo hi a && inRange 128 191 b && inRange 128 191 e
          then Some (262144 * (c mod 8) + 4096 * (a mod 64) + 64 * (b mod 64) + e mod 64, 4%nat) else None
      | _, _ => None
      end
  end.

(** The runes of a string, [inr], and its invalid bytes, [inl]; [skip] bytes of
    a rune are left to pass over. *)
Fixpoint runesFrom (skip : nat) (s : bytes) : list (Z + Z) :=
  match s with
  | [] => []
  | c :: s' =>
      match skip with
      | S k => runesFrom k s'
      | O =>
          match decodeRune s with
          | Some (r, w) => inr r :: runesFrom (w - 1) s'
          | None => inl c :: runesFrom 0 s'
          end
      end
  end.

Definition runes (s : bytes) : list (Z + Z) := runesFrom 0 s.

Definition isRune (x : Z + Z) : bool := match x with inr _ => true | inl _ => false end.

(** [utf8.Valid]. *)
Definition utf8Valid (s : bytes) : bool := forallb isRune (runes s).

(** [[]rune(s)]. *)
Definition toRunes (s : bytes) : list Z := map (fun x => match x with inr r => r | inl _ => RuneError end) (runes s).

(** A Unicode scalar value. *)
Definition validRune (r : Z) : bool := ((0 <=? r) && (r <? 55296)) || ((57343 <? r) && (r <=? 1114111)).

(** [utf8.AppendRune] of a valid rune. *)
Definition encodeRune (r : Z) : bytes :=
  if r <? 128 then [r]
  else if r <? 2048 then [192 + r / 64; 128 + r mod 64]
  else if r <? 65536 then [224 + r / 4096; 128 + (r / 64) mod 64; 128 + r mod 64]
  else [240 + r / 262144; 128 + (r / 4096) mod 64; 128 + (r / 64) mod 64; 128 + r mod 64].

(** ** [strconv] *)

(** [FormatUint(n, 10)] of a [uint64]. *)
Definition FormatUint (n : Z) : bytes := decimal 20 n.

(** The tables of [strconv.IsPrint] above Latin-1, which are generated data. *)
Class UnicodeTables := unicodePrint : Z -> bool.

Section quote.
Context `{UT : UnicodeTables}.

Definition IsPrint (r : Z) : bool :=
  if r <=? 255 then inRange 32 126 r || (inRange 161 255 r && negb (r =? 173)) else unicodePrint r.

(** The lower-case hexadecimal digits of [n], most significant first. *)
Fixpoint hexDigits (k : nat) (n : Z) : bytes :=
  match k with
  | O => []
  | S k => hexDigits k (n / 16) ++ [hexDigit (n mod 16)]
  end.

Definition backslash : Z := 92.

(** [appendEscapedRune] with the double quote. *)
Definition escapeRune (r : Z) : bytes :=
  if (r =? dquote) || (r =? backslash) then [backslash; r]
  else if IsPrint r then encodeRune r
  else if r =? 7 then [backslash; 97]
  else if r =? 8 then [backslash; 98]
  else if r =? 12 then [backslash; 102]
  else if r =? 10 then [backslash; 110]
  else if r =? 13 then [backslash; 114]
  else if r =? 9 then [backslash; 116]
  else if r =? 11 then [backslash; 118]
  else if (r <? 32) || (r =? 127) then backslash :: 120 :: hexDigits 2 r
  else if r <? 65536 then backslash :: 117 :: hexDigits 4 r
  else backslash :: 85 :: hexDigits 8 r.

Definition Quote (s : bytes) : bytes :=
  dquote :: concat (map (fun x => match x with inr r => escapeRune r | inl b => backslash :: 120 :: hexDigits 2 b end) (runes s)) ++ [dquote].
End quote.

(** ** [encoding/hex] *)

Definition hexValue (c : Z) : option Z :=
  if inRange 48 57 c then Some (c - 48)
  else if inRange 97 102 c then Some (c - 87)
  else if inRange 65 70 c then Some (c - 55)
  else None.

Definition errInvalidByte : error := "encoding/hex: invalid byte"%string.
Definition errOddLength : error := "encoding/hex: odd length hex string"%string.

(** [hex.DecodeString]. *)
Fixpoint hexDecode (s : bytes) : error + bytes :=
  match s with
  | [] => inr []
  | [a] => match hexValue a with Some _ => inl errOddLength | None => inl errInvalidByte end
  | a :: b :: s =>
      match hexValue a, hexValue b with
      | Some x, Some y => match hexDecode s with inr l => inr (16 * x + y :: l) | inl e => inl e end
      | _, _ => inl errInvalidByte
      end
  end.

(** ** Lemmas *)

Lemma inRange_true lo hi c : inRange lo hi c = true <-> lo <= c <= hi.
Proof. unfold inRange. rewrite andb_true_iff, !Z.leb_le. done. Qed.

Lemma inRange_false lo hi c : inRange lo hi c = false <-> c < lo \/ hi < c.
Proof. unfold inRange. rewrite andb_false_iff, !Z.leb_gt. lia. Qed.

Lemma runesFrom_skip s t : runesFrom (length s) (s ++ t) = runesFrom 0 t.
Proof. induction s; [done|]. done. Qed.

(** A string that starts with a rune of [w] bytes. *)
Lemma runes_cons s t r : decodeRune (s ++ t) = Some (r, length s) -> s <> [] -> runes (s ++ t) = inr r :: runes t.
Proof.
  intros E Hs. destruct s as [|c s]; [done|]. unfold runes. cbn [runesFrom app]. cbn [app] in E. rewrite E. f_equal.
  replace (length (c :: s) - 1)%nat with (length s) by (simpl; lia). apply runesFrom_skip.
Qed.

(** Evaluate the tests of [decodeRune] by arithmetic. *)
Ltac test_bytes :=
  repeat match goal with
  | |- context [inRange ?lo ?hi ?c] =>
      first [rewrite (proj2 (inRange_true lo hi c)) by dlia | rewrite (proj2 (inRange_false lo hi c)) by dlia]
  | |- context [?a <? ?b] => first [rewrite (proj2 (Z.ltb_lt a b)) by dlia | rewrite (proj2 (Z.ltb_ge a b)) by dlia]
  | |- context [?a =? ?b] => first [rewrite (proj2 (Z.eqb_eq a b)) by dlia | rewrite (proj2 (Z.eqb_neq a b)) by dlia]
  end; cbn [andb].

Lemma decode_encode2 r t : 128 <= r < 2048 -> decodeRune ([192 + r / 64; 128 + r mod 64] ++ t) = Some (r, 2%nat).
Proof. intros H. cbn [app decodeRune]. unfold firstByte. test_bytes. do 2 f_equal. dlia. Qed.

Lemma decode_encode3 r t :
  2048 <= r < 65536 -> ~ 55296 <= r <= 57343 ->
  decodeRune ([224 + r / 4096; 128 + (r / 64) mod 64; 128 + r mod 64] ++ t) = Some (r, 3%nat).
Proof.
  intros H Hs. set (x := r / 4096). set (y := (r / 64) mod 64). set (z := r mod 64).
  assert (Hr : r = 4096 * x + 64 * y + z) by (unfold x, y, z; dlia).
  assert (Hx : 0 <= x < 16) by (unfold x; dlia). assert (Hy : 0 <= y < 64) by (unfold y; dlia). assert (Hz : 0 <= z < 64) by (unfold z; dlia).
  clearbody x y z. cbn [app decodeRune]. rewrite (proj2 (Z.ltb_ge _ _)) by lia. unfold firstByte.
  rewrite (proj2 (inRange_false 194 223 _)) by lia.
  destruct (224 + x =? 224) eqn:E1; [|destruct (224 + x =? 237) eqn:E2]; bool_norm; test_bytes; do 2 f_equal; dlia.
Qed.

Lemma decode_encode4 r t :
  65536 <= r <= 1114111 ->
  decodeRune ([240 + r / 262144; 128 + (r / 4096) mod 64; 128 + (r / 64) mod 64; 128 + r mod 64] ++ t) = Some (r, 4%nat).
Proof.
  intros H. set (w := r / 262144). set (x := (r / 4096) mod 64). set (y := (r / 64) mod 64). set (z := r mod 64).
  assert (Hr : r = 262144 * w + 4096 * x + 64 * y + z) by (unfold w, x, y, z; dlia).
  assert (Hw : 0 <= w <= 4) by (unfold w; dlia). assert (Hx : 0 <= x < 64) by (unfold x; dlia).
  assert (Hy : 0 <= y < 64) by (unfold y; dlia). assert (Hz : 0 <= z < 64) by (unfold z; dlia).
  clearbody w x y z. cbn [app decodeRune]. rewrite (proj2 (Z.ltb_ge _ _)) by lia. unfold firstByte.
  rewrite (proj2 (inRange_false 194 223 _)), (proj2 (Z.eqb_neq _ 224)), (proj2 (Z.eqb_neq _ 237)), (proj2 (inRange_false 225 239 _)) by lia.
  destruct (240 + w =? 240) eqn:E1; [|destruct (240 + w =? 244) eqn:E2]; bool_norm; test_bytes; do 2 f_equal; dlia.
Qed.

Lemma decode_encodeRune r t : validRune r = true -> decodeRune (encodeRune r ++ t) = Some (r, length (encodeRune r)).
Proof.
  unfold validRune, encodeRune. rewrite orb_true_iff, !andb_true_iff, Z.leb_le, Z.leb_le, !Z.ltb_lt. intros H.
  destruct (r <? 128) eqn:E1; [|destruct (r <? 2048) eqn:E2; [|destruct (r <? 65536) eqn:E3]]; bool_norm.
  - cbn [app decodeRune]. rewrite (proj2 (Z.ltb_lt _ _)) by lia. done.
  - rewrite decode_encode2 by lia. done.
  - rewrite decode_encode3 by lia. done.
  - rewrite decode_encode4 by lia. done.
Qed.

Lemma encodeRune_ne r : encodeRune r <> [].
Proof. unfold encodeRune. by repeat case_match. Qed.

(** Decoding is inverse to encoding. *)
Lemma runes_encode rs : Forall (fun r => validRune r = true) rs -> runes (concat (map encodeRune rs)) = map inr rs.
Proof.
  induction 1 as [|r rs Hr HF IH]; [done|]. cbn [map concat]. rewrite (runes_cons _ _ r), IH; [done|by apply decode_encodeRune|apply encodeRune_ne].
Qed.

Lemma toRunes_encode rs : Forall (fun r => validRune r = true) rs -> toRunes (concat (map encodeRune rs)) = rs.
Proof. intros H. unfold toRunes. rewrite runes_encode, map_map, map_id by done. done. Qed.

Lemma utf8Valid_encode rs : Forall (fun r => validRune r = true) rs -> utf8Valid (concat (map encodeRune rs)) = true.
Proof. intros H. unfold utf8Valid. rewrite runes_encode by done. clear H. by induction rs. Qed.

Lemma hexDecode_encode b : Forall byte_ok b -> hexDecode (hexEncode b) = inr b.
Proof.
  induction 1 as [|c b Hc HF IH]; [done|]. unfold byte_ok in Hc. unfold hexEncode in *. cbn [map concat app hexDecode].
  assert (Hv : forall n, 0 <= n < 16 -> hexValue (hexDigit n) = Some n).
  { intros n Hn. unfold hexDigit. destruct (n <? 10) eqn:E; bool_norm; unfold hexValue; test_bytes; f_equal; lia. }
  rewrite !Hv by dlia. rewrite IH. do 2 f_equal. dlia.
Qed.
