(* ===== verification/Dump.v ===== *)
(** * The dump tool

    [src/tool/peppledump.go]: it scans a database for the keys with a prefix
    and prints each entry as hexadecimal, as quoted strings, or with its value
    read as protobuf wire format.  Pebble's iterator and the [protowire]
    package are third-party code: classes of operations whose documented
    behaviour is stated as laws in [DumpThms]. *)

From stdpp Require Import base decidable list numbers option strings.
From Stdlib Require Import ZArith Lia.
From S2P Require Import Prelude Words Bytes Moss Pebble BlockDevice GoStrings RSocket Client GoText.

(** ** Protobuf wire format *)

(** Every function answers the value and the number of bytes used, negative
    for an error that [ParseError] describes. *)
Class ProtoWire := {
  ConsumeTag : bytes -> Z * Z * Z;
  ConsumeVarint : bytes -> Z * Z;
  ConsumeFixed32 : bytes -> Z * Z;
  ConsumeFixed64 : bytes -> Z * Z;
  ConsumeBytes : bytes -> bytes * Z;
  ParseError : Z -> error;
}.

Definition VarintType : Z := 0.
Definition Fixed64Type : Z := 1.
Definition BytesType : Z := 2.
Definition Fixed32Type : Z := 5.

(** [r == '\n' || r == '\r' || r == '\t' || (r >= 0x20 && r != 0x7f)] *)
Definition printableRune (r : Z) : bool := (r =? 10) || (r =? 13) || (r =? 9) || ((32 <=? r) && negb (r =? 127)).

Definition isPrintableUTF8 (b : bytes) : bool :=
  if zlen b =? 0 then false
  else if negb (utf8Valid b) then false
  else
    let rs := toRunes b in
    if zlen rs =? 0 then false
    else 90 <=? (zlen (filter (fun r => printableRune r = true) rs) * 100) ÷ zlen rs.

Definition joinComma (l : list bytes) : bytes :=
  match l with [] => [] | x :: l => fold_left (fun acc y => acc ++ [44] ++ y) l x end.

Definition formatUint64Array (vals : list Z) : bytes := [91] ++ joinComma (map FormatUint vals) ++ [93].

Section proto.
Context `{PW : ProtoWire} `{UT : UnicodeTables}.

(** The loop of [tryPackedVarints]; the outer option is a panic or a loop that
    is not done. *)
Fixpoint packedLoop (fuel : nat) (rest : bytes) (vals : list Z) : option (option (list Z)) :=
  if 0 <? zlen rest then
    match fuel with
    | O => None
    | S fuel =>
        let '(v, n) := ConsumeVarint rest in
        if n <? 0 then Some None
        else rest ← slice rest n (zlen rest); packedLoop fuel rest (vals ++ [v])
    end
  else Some (Some vals).

Definition tryPackedVarints (b : bytes) : option (option (list Z)) :=
  if zlen b =? 0 then Some None
  else if isPrintableUTF8 b then Some None
  else packedLoop (length b) b [].

Definition errWireType (typ : Z) : error := ("unsupported wire type " +:+ strOf (sprintfD typ))%string.

(** The text and the number of bytes used. *)
Definition formatProtoWireValue (typ : Z) (data : bytes) : option (error + bytes * Z) :=
  if typ =? VarintType then
    let '(v, n) := ConsumeVarint data in
    if n <? 0 then Some (inl (ParseError n)) else Some (inr (FormatUint v, n))
  else if typ =? Fixed32Type then
    let '(v, n) := ConsumeFixed32 data in
    if n <? 0 then Some (inl (ParseError n)) else Some (inr (FormatUint v, n))
  else if typ =? Fixed64Type then
    let '(v, n) := ConsumeFixed64 data in
    if n <? 0 then Some (inl (ParseError n)) else Some (inr (FormatUint v, n))
  else if typ =? BytesType then
    let '(v, n) := ConsumeBytes data in
    if n <? 0 then Some (inl (ParseError n))
    else if isPrintableUTF8 v then Some (inr (Quote v, n))
    else
      packed ← tryPackedVarints v;
      match packed with
      | Some vals => Some (inr (formatUint64Array vals, n))
      | None => Some (inr (bs "<bytes len=" ++ sprintfD (zlen v) ++ bs ">", n))
      end
  else Some (inl (errWireType typ)).

Definition errField (num : Z) (e : error) : error := ("field " +:+ strOf (sprintfD num) +:+ ": " +:+ e)%string.

(** The loop over the fields; [first] and the text so far. *)
Fixpoint objectLoop (fuel : nat) (data : bytes) (first : bool) (b : bytes) : option (error + bytes) :=
  if 0 <? zlen data then
    match fuel with
    | O => None
    | S fuel =>
        let '(num, typ, n) := ConsumeTag data in
        if n <? 0 then Some (inl (ParseError n))
        else
          data ← slice data n (zlen data);
          match formatProtoWireValue typ data with
          | None => None
          | Some (inl e) => Some (inl (errField num e))
          | Some (inr (value, used)) =>
              data ← slice data used (zlen data);
              objectLoop fuel data false (b ++ (if first then [] else [44]) ++ sprintfD num ++ [58] ++ value)
          end
    end
  else Some (inr (b ++ [125])).

Definition formatProtoWireObject (data : bytes) : option (error + bytes) := objectLoop (length data) data true [123].

(** ** Printing *)

Definition newline : bytes := [10].

Definition printKV (k v : bytes) (strOutput : bool) : bytes :=
  if strOutput then
    if zlen v =? 8 then bs "key=" ++ Quote k ++ bs " value=" ++ Quote v ++ bs " le-int64=" ++ sprintfD (i64 (le_value v)) ++ newline
    else bs "key=" ++ Quote k ++ bs " value=" ++ Quote v ++ newline
  else if zlen v =? 8 then bs "key=" ++ Quote k ++ bs " value=" ++ sprintfD (i64 (le_value v)) ++ newline
  else bs "key=" ++ hexEncode k ++ bs " value=" ++ hexEncode v ++ newline.

Definition printKey (k : bytes) (strOutput : bool) : bytes :=
  if strOutput then bs "key=" ++ Quote k ++ newline else bs "key=" ++ hexEncode k ++ newline.

Definition printProtoWire (k v : bytes) : option bytes :=
  r ← formatProtoWireObject v;
  match r with
  | inl e => Some (bs "key=" ++ Quote k ++ bs " value={decode_error:" ++ Quote (bs e) ++ bs "}" ++ newline)
  | inr s => Some (bs "key=" ++ Quote k ++ bs " value=" ++ s ++ newline)
  end.
End proto.

(** ** Scanning *)

(** Pebble's iterator: [NewIter] with the lower bound, then positions.
    [Current] is the entry at the position, [None] where the last call
    answered [false]. *)
Class PebbleIter (DB : Type) := {
  Iter : Type;
  NewIter : DB -> bytes -> error + Iter;
  SeekGE : Iter -> bytes -> Iter;
  First : Iter -> Iter;
  Next : Iter -> Iter;
  Current : Iter -> option (bytes * bytes);
  IterError : Iter -> option error;
}.

Record dumpOpts := mkDumpOpts { do_showValue : bool; do_strOutput : bool; do_limit : Z; do_protoWire : bool }.

(** The row count and the mode of the last message. *)
Record dumpDone := mkDumpDone { dd_mode : string; dd_matched : Z }.

Section scan.
Context `{PW : ProtoWire} `{UT : UnicodeTables} {DB : Type} `{PI : PebbleIter DB}.

Definition printEntry (o : dumpOpts) (k v : bytes) : option bytes :=
  if do_protoWire o then printProtoWire k v
  else if do_showValue o then Some (printKV k v (do_strOutput o))
  else Some (printKey k (do_strOutput o)).

(** The loop of [run]: the iterator where it stopped, the count and what was
    printed. *)
Fixpoint scanLoop (fuel : nat) (o : dumpOpts) (prefix : bytes) (it : Iter) (count : Z) (out : list bytes) : option (Iter * Z * list bytes) :=
  match Current it with
  | None => Some (it, count, out)
  | Some (k, v) =>
      if (0 <? zlen prefix) && negb (hasPrefix k prefix) then Some (it, count, out)
      else
        line ← printEntry o k v;
        let count := i64 (count + 1) in
        if (0 <? do_limit o) && (do_limit o <=? count) then Some (it, count, out ++ [line])
        else match fuel with
        | O => None
        | S fuel => scanLoop fuel o prefix (Next it) count (out ++ [line])
        end
  end.

(** [opened] is the answer of [pebble.Open]. *)
Definition run (fuel : nat) (dbPath : bytes) (opened : error + DB) (prefix : bytes) (o : dumpOpts) : option (list bytes * (error + dumpDone)) :=
  match opened with
  | inl e => Some ([], inl ("open pebble db " +:+ strOf (Quote dbPath) +:+ ": " +:+ e)%string)
  | inr db =>
      match NewIter db prefix with
      | inl e => Some ([], inl ("create iterator: " +:+ e)%string)
      | inr it =>
          let it := if 0 <? zlen prefix then SeekGE it prefix else First it in
          '(it, count, out) ← scanLoop fuel o prefix it 0 [];
          match IterError it with
          | Some e => Some (out, inl ("iterate db: " +:+ e)%string)
          | None => Some (out, inr (mkDumpDone (if 0 <? zlen prefix then "prefix" else "full") count))
          end
      end
  end.

Definition parsePrefix (prefix prefixHex : bytes) : error + bytes :=
  if negb (zlen prefix =? 0) then inr prefix
  else if zlen prefixHex =? 0 then inr []
  else if negb (zlen prefixHex mod 2 =? 0) then inl "-prefix-hex must have even length"%string
  else hexDecode prefixHex.

(** What [main] does after [flag.Parse]: the rows printed and the exit code. *)
Definition dumpMain (fuel : nat) (dbPath : bytes) (opened : error + DB) (prefix prefixHex : bytes) (o : dumpOpts) : option (list bytes * Z) :=
  if zlen dbPath =? 0 then Some ([], 2)
  else if negb (zlen prefix =? 0) && negb (zlen prefixHex =? 0) then Some ([], 2)
  else match parsePrefix prefix prefixHex with
  | inl _ => Some ([], 2)
  | inr matchPrefix =>
      '(out, r) ← run fuel dbPath opened matchPrefix o;
      match r with inl _ => Some (out, 1) | inr _ => Some (out, 0) end
  end.
End scan.
