(* ===== verification/DumpThms.v ===== *)
(** * Theorems of the dump tool

    The scan prints exactly the entries with the prefix, in key order, each
    with the value a read of the key may answer; the protobuf printer always
    terminates and prints an encoded message field by field. *)

From stdpp Require Import base decidable list numbers option strings gmap sorting.
From Stdlib Require Import ZArith Lia Sorted.
From S2P Require Import Prelude Words Bytes Moss MossJSON MossThms Pebble BlockDevice BlockDeviceSpec AioChannel GoStrings RSocket Client GoText Dump.

(** ** The order of keys *)

(** [bytes.Compare(a, b) < 0]. *)
Fixpoint lexLt (a b : bytes) : bool :=
  match a, b with
  | _, [] => false
  | [], _ :: _ => true
  | x :: a, y :: b => (x <? y) || ((x =? y) && lexLt a b)
  end.

Definition lexLe (a b : bytes) : bool := negb (lexLt b a).

Lemma lexLt_cons x a y b : lexLt (x :: a) (y :: b) = true <-> x < y \/ (x = y /\ lexLt a b = true).
Proof. cbn [lexLt]. rewrite orb_true_iff, andb_true_iff, Z.ltb_lt, Z.eqb_eq. done. Qed.

Lemma lexLe_cons x a y b : lexLe (x :: a) (y :: b) = true <-> x < y \/ (x = y /\ lexLe a b = true).
Proof.
  unfold lexLe. rewrite negb_true_iff, <- not_true_iff_false, lexLt_cons. rewrite negb_true_iff, <- not_true_iff_false.
  destruct (decide (x = y)); [subst; split; [intros H; right; split; [done|]; intros ?; apply H; by right|intros [?|[_ H]]; [lia|intros [?|[_ ?]]; [lia|done]]]|].
  split; [intros H; left; destruct (decide (x < y)); [done|]; destruct H; left; lia|intros [?|[? _]]; [intros [?|[? _]]; lia|done]].
Qed.

Lemma hasPrefix_cons x s c p : hasPrefix (x :: s) (c :: p) = true <-> x = c /\ hasPrefix s p = true.
Proof. cbn [hasPrefix]. rewrite andb_true_iff, Z.eqb_eq. done. Qed.

(** A prefix is not greater than what it starts. *)
Lemma lexLe_prefix p : forall k, hasPrefix k p = true -> lexLe p k = true.
Proof.
  induction p as [|c p IH]; intros k H; [unfold lexLe; by destruct k|]. destruct k as [|x k]; [done|].
  apply hasPrefix_cons in H as [-> H]. apply lexLe_cons. right. auto.
Qed.

(** The keys with a prefix are contiguous. *)
Lemma prefix_contiguous p : forall k k',
  lexLe p k = true -> hasPrefix k p = false -> lexLt k k' = true -> hasPrefix k' p = false.
Proof.
  induction p as [|c p IH]; intros k k' Hle Hk Hlt; [by destruct k|].
  destruct k as [|x k]; [done|]. destruct k' as [|y k']; [done|]. apply lexLe_cons in Hle. apply lexLt_cons in Hlt.
  apply not_true_iff_false. rewrite hasPrefix_cons. intros [-> Hp]. destruct Hle as [Hle|[<- Hle]]; [lia|].
  destruct Hlt as [Hlt|[_ Hlt]]; [lia|]. assert (Hk' : hasPrefix k p = false).
  { apply not_true_iff_false. intros H. apply not_true_iff_false in Hk. apply Hk, hasPrefix_cons. done. }
  rewrite (IH k k' Hle Hk' Hlt) in Hp. done.
Qed.

(** The entries up to the first without the prefix. *)
Fixpoint spanPrefix {V} (p : bytes) (l : list (bytes * V)) : list (bytes * V) :=
  match l with
  | [] => []
  | e :: l => if hasPrefix e.1 p then e :: spanPrefix p l else []
  end.

Definition keyLt {V} (e e' : bytes * V) : Prop := lexLt e.1 e'.1 = true.

Lemma spanPrefix_filter {V} p (l : list (bytes * V)) :
  StronglySorted keyLt l -> spanPrefix p (filter (fun e => lexLe p e.1 = true) l) = filter (fun e => hasPrefix e.1 p = true) l.
Proof.
  induction 1 as [|e l Hs IH HF]; [done|]. rewrite !filter_cons. destruct (hasPrefix e.1 p) eqn:Ep.
  - rewrite decide_True by (by apply lexLe_prefix). rewrite decide_True by done. cbn [spanPrefix]. rewrite Ep. by f_equal.
  - rewrite (decide_False (P := false = true)) by done. case_decide as Hle; [|done]. cbn [spanPrefix]. rewrite Ep. symmetry.
    clear IH Hs. induction HF as [|e' l He' HF IHF]; [done|].
    rewrite filter_cons, decide_False by (rewrite (prefix_contiguous p e.1 e'.1 Hle Ep He'); done). done.
Qed.

(** ** Protobuf wire format *)

(** The documented behaviour of [protowire]: a function that succeeds uses at
    least one byte and no more than there are, and it reads what the matching
    [Append] function wrote. *)
Class ProtoWireLaws (PW : ProtoWire) := {
  AppendTag : Z -> Z -> bytes;
  AppendVarint : Z -> bytes;
  AppendFixed32 : Z -> bytes;
  AppendFixed64 : Z -> bytes;
  AppendBytes : bytes -> bytes;
  tag_used : forall b num typ n, ConsumeTag b = (num, typ, n) -> n < 0 \/ 0 < n <= zlen b;
  varint_used : forall b v n, ConsumeVarint b = (v, n) -> n < 0 \/ 0 < n <= zlen b;
  fixed32_used : forall b v n, ConsumeFixed32 b = (v, n) -> n < 0 \/ 0 < n <= zlen b;
  fixed64_used : forall b v n, ConsumeFixed64 b = (v, n) -> n < 0 \/ 0 < n <= zlen b;
  bytes_used : forall b v n, ConsumeBytes b = (v, n) -> n < 0 \/ 0 < n <= zlen b;
  tag_append : forall num typ rest, 1 <= num < 2 ^ 29 -> 0 <= typ < 8 ->
    ConsumeTag (AppendTag num typ ++ rest) = (num, typ, zlen (AppendTag num typ));
  varint_append : forall v rest, 0 <= v < 2 ^ 64 -> ConsumeVarint (AppendVarint v ++ rest) = (v, zlen (AppendVarint v));
  fixed32_append : forall v rest, 0 <= v < 2 ^ 32 -> ConsumeFixed32 (AppendFixed32 v ++ rest) = (v, zlen (AppendFixed32 v));
  fixed64_append : forall v rest, 0 <= v < 2 ^ 64 -> ConsumeFixed64 (AppendFixed64 v ++ rest) = (v, zlen (AppendFixed64 v));
  bytes_append : forall v rest, zlen v < 2 ^ 31 -> ConsumeBytes (AppendBytes v ++ rest) = (v, zlen (AppendBytes v));
}.

Lemma slice_tail {A} (d : list A) n : 0 <= n <= zlen d -> slice d n (zlen d) = Some (drop (Z.to_nat n) d).
Proof.
  intros H. pose proof (slice_take d n (zlen d - n)) as E. rewrite Zplus_minus in E. rewrite E by lia. f_equal.
  apply take_ge. rewrite length_drop. unfold zlen in *. lia.
Qed.

Lemma slice_rest {A} (a b : list A) : slice (a ++ b) (zlen a) (zlen (a ++ b)) = Some b.
Proof.
  pose proof (zlen_nonneg a). rewrite slice_tail by (unfold zlen; rewrite length_app; lia). f_equal. apply drop_app_length'. unfold zlen. lia.
Qed.

(** The fields of a message as they are written. *)
Inductive wireField :=
  | WVarint (num v : Z)
  | WFixed32 (num v : Z)
  | WFixed64 (num v : Z)
  | WText (num : Z) (rs : list Z)
  | WPacked (num : Z) (vals : list Z)
  | WEmpty (num : Z).

Section proto.
Context `{PL : ProtoWireLaws} `{UT : UnicodeTables}.

Definition fieldNum (f : wireField) : Z :=
  match f with WVarint num _ | WFixed32 num _ | WFixed64 num _ | WText num _ | WPacked num _ | WEmpty num => num end.

(** The bytes of a text and of a packed field. *)
Definition textOf (rs : list Z) : bytes := concat (map encodeRune rs).
Definition packed (vals : list Z) : bytes := concat (map AppendVarint vals).

Definition fieldType (f : wireField) : Z :=
  match f with WVarint _ _ => VarintType | WFixed32 _ _ => Fixed32Type | WFixed64 _ _ => Fixed64Type | _ => BytesType end.

Definition payload (f : wireField) : bytes :=
  match f with
  | WVarint _ v => AppendVarint v
  | WFixed32 _ v => AppendFixed32 v
  | WFixed64 _ v => AppendFixed64 v
  | WText _ rs => AppendBytes (textOf rs)
  | WPacked _ vals => AppendBytes (packed vals)
  | WEmpty _ => AppendBytes []
  end.

Definition encodeField (f : wireField) : bytes := AppendTag (fieldNum f) (fieldType f) ++ payload f.

(** A text has at least nine printable runes in ten; a packed field does not
    look like one. *)
Definition mostlyPrintable (rs : list Z) : Prop := 90 * zlen rs <= 100 * zlen (filter (fun r => printableRune r = true) rs).

Definition field_ok (f : wireField) : Prop :=
  1 <= fieldNum f < 2 ^ 29 /\
  match f with
  | WVarint _ v | WFixed64 _ v => 0 <= v < 2 ^ 64
  | WFixed32 _ v => 0 <= v < 2 ^ 32
  | WText _ rs => rs <> [] /\ Forall (fun r => validRune r = true) rs /\ mostlyPrintable rs /\ zlen (textOf rs) < 2 ^ 31
  | WPacked _ vals => vals <> [] /\ Forall (fun v => 0 <= v < 2 ^ 64) vals /\ isPrintableUTF8 (packed vals) = false /\ zlen (packed vals) < 2 ^ 31
  | WEmpty _ => True
  end.

(** What the tool prints for a field. *)
Definition valueText (f : wireField) : bytes :=
  match f with
  | WVarint _ v | WFixed32 _ v | WFixed64 _ v => FormatUint v
  | WText _ rs => Quote (textOf rs)
  | WPacked _ vals => bs "[" ++ joinComma (map FormatUint vals) ++ bs "]"
  | WEmpty _ => bs "<bytes len=0>"
  end.

Definition fieldText (f : wireField) : bytes := sprintfD (fieldNum f) ++ bs ":" ++ valueText f.

Lemma mostlyPrintable_quot rs : rs <> [] -> mostlyPrintable rs -> 90 <= (zlen (filter (fun r => printableRune r = true) rs) * 100) ÷ zlen rs.
Proof.
  intros Hne H. unfold mostlyPrintable in H. assert (Hz : 0 < zlen rs) by (destruct rs; [done|unfold zlen; simpl; lia]).
  set (m := filter _ rs) in *. pose proof (zlen_nonneg m) as Hm. generalize dependent (zlen m). generalize dependent (zlen rs). intros. 
  rewrite Z.quot_div_nonneg by lia. apply Z.div_le_lower_bound; lia.
Qed.

Lemma textOf_ne rs : rs <> [] -> 0 < zlen (textOf rs).
Proof.
  intros Hne. destruct rs as [|r rs]; [done|]. unfold textOf. cbn [map concat]. pose proof (encodeRune_ne r).
  destruct (encodeRune r); [done|]. unfold zlen. simpl. lia.
Qed.

Lemma isPrintable_text rs :
  rs <> [] -> Forall (fun r => validRune r = true) rs -> mostlyPrintable rs -> isPrintableUTF8 (textOf rs) = true.
Proof.
  intros Hne HF Hp. pose proof (textOf_ne rs Hne) as Hz. unfold isPrintableUTF8. rewrite (proj2 (Z.eqb_neq _ _)) by lia.
  unfold textOf. rewrite utf8Valid_encode, toRunes_encode by done. cbn [negb].
  assert (0 < zlen rs) by (destruct rs; [done|unfold zlen; simpl; lia]). rewrite (proj2 (Z.eqb_neq _ _)) by lia.
  apply Z.leb_le. by apply mostlyPrintable_quot.
Qed.

Lemma appended_pos v : 0 <= v < 2 ^ 64 -> 0 < zlen (AppendVarint v).
Proof. intros Hv. pose proof (varint_append v [] Hv) as E. rewrite app_nil_r in E. apply varint_used in E. pose proof (zlen_nonneg (AppendVarint v)). lia. Qed.

Lemma packedLoop_spec vals : forall fuel acc,
  Forall (fun v => 0 <= v < 2 ^ 64) vals -> (length (packed vals) <= fuel)%nat ->
  packedLoop fuel (packed vals) acc = Some (Some (acc ++ vals)).
Proof.
  induction vals as [|v vals IH]; intros fuel acc HF Hl; [destruct fuel; cbn; by rewrite app_nil_r|].
  apply Forall_cons in HF as [Hv HF]. pose proof (appended_pos v Hv) as Hp. unfold packed in *. cbn [map concat] in *.
  rewrite length_app in Hl. unfold zlen in Hp. destruct fuel as [|fuel]; [lia|]. cbn [packedLoop].
  rewrite (proj2 (Z.ltb_lt 0 _)) by (unfold zlen; rewrite length_app; lia). rewrite varint_append by done.
  rewrite (proj2 (Z.ltb_ge _ 0)) by (unfold zlen; lia). rewrite slice_rest. go_step. rewrite IH by (done || lia). by rewrite <- app_assoc.
Qed.

(** Unpacking never runs out of fuel. *)
Lemma packedLoop_total fuel : forall rest acc, (length rest <= fuel)%nat -> exists r, packedLoop fuel rest acc = Some r.
Proof.
  induction fuel as [|fuel IH]; intros rest acc Hl; cbn [packedLoop]; (destruct (0 <? zlen rest) eqn:E; bool_norm; [|eauto]).
  { unfold zlen in E. lia. }
  destruct (ConsumeVarint rest) as [v n] eqn:Ev. apply varint_used in Ev. case_bool; [eauto|]. rewrite slice_tail by lia. go_step.
  apply IH. rewrite length_drop. lia.
Qed.

Lemma tryPackedVarints_total b : exists r, tryPackedVarints b = Some r.
Proof. unfold tryPackedVarints. repeat case_bool; eauto. by apply packedLoop_total. Qed.

Lemma formatValue_total typ data :
  exists r, formatProtoWireValue typ data = Some r /\ forall value used, r = inr (value, used) -> 0 < used <= zlen data.
Proof.
  unfold formatProtoWireValue. repeat (case_bool; [|]); [| | | |eexists; split; [done|]; done].
  - destruct (ConsumeVarint data) as [v n] eqn:E. apply varint_used in E. case_bool; eexists; (split; [done|]); [done|]. intros ? ? [= _ <-]. lia.
  - destruct (ConsumeFixed32 data) as [v n] eqn:E. apply fixed32_used in E. case_bool; eexists; (split; [done|]); [done|]. intros ? ? [= _ <-]. lia.
  - destruct (ConsumeFixed64 data) as [v n] eqn:E. apply fixed64_used in E. case_bool; eexists; (split; [done|]); [done|]. intros ? ? [= _ <-]. lia.
  - destruct (ConsumeBytes data) as [v n] eqn:E. apply bytes_used in E. case_bool; [eexists; split; done|]. destruct (isPrintableUTF8 v).
    { eexists. split; [done|]. intros ? ? [= _ <-]. lia. }
    destruct (tryPackedVarints_total v) as [[vals|] ->]; go_step; eexists; (split; [done|]); intros ? ? [= _ <-]; lia.
Qed.

Lemma objectLoop_total fuel : forall data first b, (length data <= fuel)%nat -> exists r, objectLoop fuel data first b = Some r.
Proof.
  induction fuel as [|fuel IH]; intros data first b Hl; cbn [objectLoop]; (destruct (0 <? zlen data) eqn:E; bool_norm; [|eauto]).
  { unfold zlen in E. lia. }
  destruct (ConsumeTag data) as [[num typ] n] eqn:Et. apply tag_used in Et. case_bool; [eauto|]. rewrite slice_tail by lia. go_step.
  set (rest := drop (Z.to_nat n) data). destruct (formatValue_total typ rest) as ([e|[value used]] & -> & Hu); [eauto|].
  specialize (Hu value used eq_refl). rewrite slice_tail by lia. go_step. apply IH. unfold rest. rewrite !length_drop. lia.
Qed.

Lemma formatValue_field f rest : field_ok f -> formatProtoWireValue (fieldType f) (payload f ++ rest) = Some (inr (valueText f, zlen (payload f))).
Proof.
  intros [_ Hok]. unfold formatProtoWireValue. destruct f as [num v|num v|num v|num rs|num vals|num]; cbn [fieldType payload valueText];
    cbn [Z.eqb VarintType Fixed32Type Fixed64Type BytesType Pos.eqb];
    pose proof (fun b : bytes => zlen_nonneg b) as Hz.
  - rewrite varint_append by done. by rewrite (proj2 (Z.ltb_ge _ _)).
  - rewrite fixed32_append by done. by rewrite (proj2 (Z.ltb_ge _ _)).
  - rewrite fixed64_append by done. by rewrite (proj2 (Z.ltb_ge _ _)).
  - destruct Hok as (Hne & HF & Hp & Hl). rewrite bytes_append, (proj2 (Z.ltb_ge _ _)), isPrintable_text by done. done.
  - destruct Hok as (Hne & HF & Hp & Hl). rewrite bytes_append, (proj2 (Z.ltb_ge _ _)), Hp by done. unfold tryPackedVarints. rewrite Hp.
    assert (Hpos : 0 < zlen (packed vals)).
    { destruct vals as [|v vals]; [done|]. apply Forall_cons in HF as [Hv _]. pose proof (appended_pos v Hv). unfold packed, zlen in *. cbn [map concat].
      rewrite length_app. lia. }
    rewrite (proj2 (Z.eqb_neq _ _)) by lia. rewrite packedLoop_spec by done. go_step. done.
  - rewrite bytes_append, (proj2 (Z.ltb_ge _ _)) by done. done.
Qed.

(** One round of the loop reads one field. *)
Lemma objectLoop_field f rest fuel first b :
  field_ok f -> (length (encodeField f ++ rest) <= fuel)%nat ->
  exists fuel', (length rest <= fuel')%nat /\
    objectLoop fuel (encodeField f ++ rest) first b = objectLoop fuel' rest false (b ++ (if first then [] else [44]) ++ fieldText f).
Proof.
  intros Hf Hl. unfold encodeField in *.
  pose proof (tag_append (fieldNum f) (fieldType f) [] (proj1 Hf) ltac:(by destruct f)) as Ht. rewrite app_nil_r in Ht. apply tag_used in Ht.
  set (tag := AppendTag (fieldNum f) (fieldType f)) in *. pose proof (zlen_nonneg tag). rewrite !length_app in Hl.
  destruct fuel as [|fuel]; [unfold zlen in *; lia|]. exists fuel. split; [unfold zlen in *; lia|]. cbn [objectLoop]. rewrite <- (app_assoc tag).
  rewrite (proj2 (Z.ltb_lt 0 _)) by (unfold zlen in *; rewrite length_app; lia). unfold tag at 1. rewrite tag_append; [|apply Hf|by destruct f].
  fold tag. rewrite (proj2 (Z.ltb_ge _ 0)) by lia. rewrite slice_rest. go_step. rewrite formatValue_field by done. rewrite slice_rest. go_step. done.
Qed.

Lemma objectLoop_fields fields : forall fuel b,
  Forall field_ok fields -> (length (concat (map encodeField fields)) <= fuel)%nat ->
  objectLoop fuel (concat (map encodeField fields)) false b = Some (inr (b ++ concat (map (fun f => 44 :: fieldText f) fields) ++ [125])).
Proof.
  induction fields as [|f fields IH]; intros fuel b HF Hl; [by destruct fuel|]. apply Forall_cons in HF as [Hf HF]. cbn [map concat] in *.
  destruct (objectLoop_field f (concat (map encodeField fields)) fuel false b Hf Hl) as (fuel' & Hl' & ->). rewrite IH by done.
  by rewrite <- !app_assoc.
Qed.

Lemma joinComma_cons x l : joinComma (x :: l) = x ++ concat (map (cons 44) l).
Proof. cbn [joinComma]. revert x. induction l as [|y l IH]; intros x; cbn; [by rewrite app_nil_r|]. rewrite IH. by rewrite <- app_assoc. Qed.

Lemma formatObject_fields fields :
  Forall field_ok fields -> formatProtoWireObject (concat (map encodeField fields)) = Some (inr (bs "{" ++ joinComma (map fieldText fields) ++ bs "}")).
Proof.
  intros HF. unfold formatProtoWireObject. destruct fields as [|f fields]; [done|]. apply Forall_cons in HF as [Hf HF]. cbn [map concat].
  destruct (objectLoop_field f (concat (map encodeField fields)) _ true [123] Hf (Nat.le_refl _)) as (fuel' & Hl' & ->).
  rewrite objectLoop_fields, joinComma_cons, map_map by done. cbn [app]. by rewrite <- !app_assoc.
Qed.
(** A field of another wire type ends the decoding with an error. *)
Lemma objectLoop_group fields num typ rest : forall fuel first b,
  Forall field_ok fields -> 1 <= num < 2 ^ 29 -> typ = 3 \/ typ = 4 ->
  (length (concat (map encodeField fields) ++ AppendTag num typ ++ rest) <= fuel)%nat ->
  objectLoop fuel (concat (map encodeField fields) ++ AppendTag num typ ++ rest) first b = Some (inl (errField num (errWireType typ))).
Proof.
  induction fields as [|f fields IH]; intros fuel first b HF Hn Ht Hl.
  - cbn [map concat app] in *. pose proof (tag_append num typ [] Hn ltac:(lia)) as Hu. rewrite app_nil_r in Hu. apply tag_used in Hu.
    pose proof (zlen_nonneg (AppendTag num typ)). rewrite length_app in Hl. destruct fuel as [|fuel]; [unfold zlen in *; lia|]. cbn [objectLoop].
    rewrite (proj2 (Z.ltb_lt 0 _)) by (unfold zlen in *; rewrite length_app; lia). rewrite tag_append, (proj2 (Z.ltb_ge _ 0)) by lia.
    rewrite slice_rest. go_step. by destruct Ht as [-> | ->].
  - apply Forall_cons in HF as [Hf HF]. cbn [map concat] in *. rewrite <- (app_assoc (encodeField f)) in *.
    destruct (objectLoop_field f _ fuel first b Hf Hl) as (fuel' & Hl' & ->). by apply IH.
Qed.
End proto.

(** ** Scanning *)

(** The documented behaviour of Pebble's iterator.  [entries] are the keys with
    their values, a key whose operands do not merge with the error; [remaining]
    is what an iterator has in front of it.  An iterator may stop with an error
    anywhere. *)
Class PebbleIterLaws `{PL : PebbleLaws} (PI : PebbleIter DB) := {
  entries : DB -> list (bytes * (error + bytes));
  remaining : Iter -> list (bytes * (error + bytes));
  entries_sorted : forall db, StronglySorted keyLt (entries db);
  entries_read : forall db k r, (k, r) ∈ entries db -> chain db k <> [] /\ reads k (chain db k) (match r with inr v => inr (Some v) | inl e => inl e end);
  entries_all : forall db k, chain db k <> [] -> exists r, (k, r) ∈ entries db;
  First_remaining : forall db lower it, NewIter db lower = inr it ->
    remaining (First it) = filter (fun e => lexLe lower e.1 = true) (entries db);
  SeekGE_remaining : forall db lower it key, NewIter db lower = inr it ->
    remaining (SeekGE it key) = filter (fun e => lexLe lower e.1 = true /\ lexLe key e.1 = true) (entries db);
  Current_some : forall it k v, Current it = Some (k, v) -> remaining it = (k, inr v) :: remaining (Next it);
  Current_none : forall it, Current it = None -> IterError it = None -> remaining it = [];
}.

Section scan.
Context `{WL : ProtoWireLaws} `{UT : UnicodeTables} `{IL : PebbleIterLaws}.

Lemma printEntry_total o k v : exists line, printEntry o k v = Some line.
Proof.
  unfold printEntry, printProtoWire, formatProtoWireObject. destruct (do_protoWire o); [|destruct (do_showValue o); eauto].
  destruct (objectLoop_total (length v) v true [123] (Nat.le_refl _)) as [[e|t] ->]; go_step; eauto.
Qed.

Definition lift (e : bytes * bytes) : bytes * (error + bytes) := (e.1, inr e.2).

(** What a limit leaves when [count] rows have been printed. *)
Definition limited {V} (o : dumpOpts) (count : Z) (l : list V) : list V :=
  if 0 <? do_limit o then take (Z.to_nat (do_limit o - count)) l else l.

Definition rows (o : dumpOpts) (kvs : list (bytes * bytes)) (out : list bytes) : Prop := mapM (fun e => printEntry o e.1 e.2) kvs = Some out.

Lemma rows_cons o k v line kvs out : printEntry o k v = Some line -> rows o kvs out -> rows o ((k, v) :: kvs) (line :: out).
Proof. unfold rows. intros E H. cbn. rewrite E. cbn. by rewrite H. Qed.

Lemma limited_nil {V} o count : limited o count ([] : list V) = [].
Proof. unfold limited. case_bool; [by rewrite take_nil|done]. Qed.

Lemma limited_cons {V} o count (x : V) l : (0 < do_limit o -> count < do_limit o) -> limited o count (x :: l) = x :: limited o (count + 1) l.
Proof.
  intros H. unfold limited. case_bool; [|done]. replace (Z.to_nat (do_limit o - count)) with (S (Z.to_nat (do_limit o - (count + 1)))) by lia. done.
Qed.

Lemma outside_prefix prefix k : (0 <? zlen prefix) && negb (hasPrefix k prefix) = negb (hasPrefix k prefix).
Proof. destruct prefix; [by destruct k|]. done. Qed.

Lemma scanLoop_spec o prefix fuel : forall it count out,
  (length (remaining it) <= fuel)%nat -> 0 <= count -> count + zlen (remaining it) < 2 ^ 63 -> (0 < do_limit o -> count < do_limit o) ->
  exists it' kvs lines,
    scanLoop fuel o prefix it count out = Some (it', count + zlen kvs, out ++ lines) /\ rows o kvs lines /\
    map lift kvs `prefix_of` limited o count (spanPrefix prefix (remaining it)) /\
    (IterError it' = None -> map lift kvs = limited o count (spanPrefix prefix (remaining it))).
Proof.
  induction fuel as [|fuel IH]; intros it count out Hl Hc Hb Hlim; cbn [scanLoop];
    (destruct (Current it) as [[k v]|] eqn:Ec;
      [|eexists it, [], []; rewrite Z.add_0_r, app_nil_r; split; [done|]; split; [done|]; split; [apply prefix_nil|];
        intros He; rewrite (Current_none it Ec He); cbn [spanPrefix map]; by rewrite limited_nil]); pose proof (Current_some it k v Ec) as Hr; [rewrite Hr in Hl; simpl in Hl; lia|].
  rewrite outside_prefix, Hr. rewrite Hr in Hl, Hb. cbn [length spanPrefix fst] in *. destruct (hasPrefix k prefix); cbn [negb].
  2:{ eexists it, [], []. rewrite Z.add_0_r, app_nil_r, limited_nil. done. }
  destruct (printEntry_total o k v) as [line Ep]. rewrite Ep. go_step. rewrite (limited_cons _ _ _ _ Hlim).
  assert (Hn : zlen ((k, inr v) :: remaining (Next it)) = 1 + zlen (remaining (Next it))) by (unfold zlen; simpl length; lia). rewrite Hn in Hb.
  pose proof (zlen_nonneg (remaining (Next it))). rewrite i64_small by (unfold is_i64; lia).
  destruct ((0 <? do_limit o) && (do_limit o <=? count + 1)) eqn:Estop.
  - bool_norm. exists it, [(k, v)], [line]. split; [done|]. split; [by apply rows_cons|].
    assert (E0 : limited o (count + 1) (spanPrefix prefix (remaining (Next it))) = []).
    { unfold limited. rewrite (proj2 (Z.ltb_lt _ _)) by lia. replace (Z.to_nat _) with 0%nat by lia. done. }
    rewrite E0. done.
  - destruct (IH (Next it) (count + 1) (out ++ [line])) as (it' & kvs & lines & -> & Hrows & Hpre & Hall); [lia|lia|lia| |].
    { intros Hpos. apply andb_false_iff in Estop as [Es|Es]; bool_norm; lia. }
    exists it', ((k, v) :: kvs), (line :: lines). rewrite <- app_assoc.
    replace (count + 1 + zlen kvs) with (count + zlen ((k, v) :: kvs)) by (unfold zlen; simpl length; lia).
    split; [done|]. split; [by apply rows_cons|]. split; [by apply prefix_cons|]. intros He. cbn [map]. by rewrite (Hall He).
Qed.

Definition selected (prefix : bytes) (db : DB) : list (bytes * (error + bytes)) := filter (fun e => hasPrefix e.1 prefix = true) (entries db).

(** Where the scan starts, it has the selected entries in front of it. *)
Lemma start_remaining db prefix it :
  NewIter db prefix = inr it -> let it := if 0 <? zlen prefix then SeekGE it prefix else First it in
  spanPrefix prefix (remaining it) = selected prefix db /\ (length (remaining it) <= length (entries db))%nat.
Proof.
  intros E it'. assert (Hr : remaining it' = filter (fun e => lexLe prefix e.1 = true) (entries db)).
  { unfold it'. destruct (0 <? zlen prefix); [|by apply First_remaining]. rewrite (SeekGE_remaining db prefix it prefix E).
    apply list_filter_iff. intros e. split; [by intros [? _]|done]. }
  rewrite Hr. split; [apply spanPrefix_filter, entries_sorted|]. apply sublist_length, sublist_filter.
Qed.

Lemma selected_sorted prefix db : StronglySorted keyLt (selected prefix db).
Proof.
  unfold selected. induction (entries_sorted db) as [|e l Hs IH HF]; [constructor|]. rewrite filter_cons. case_decide; [|done]. constructor; [done|].
  rewrite Forall_forall in *. intros x Hx. apply list_elem_of_filter in Hx as [_ Hx]. auto.
Qed.

Lemma run_spec fuel dbPath db prefix o :
  (length (entries db) <= fuel)%nat -> zlen (entries db) < 2 ^ 63 ->
  exists out r kvs, run fuel dbPath (inr db) prefix o = Some (out, r) /\ rows o kvs out /\
    map lift kvs `prefix_of` limited o 0 (selected prefix db) /\
    match r with inl _ => True | inr d => map lift kvs = limited o 0 (selected prefix db) /\ dd_matched d = zlen kvs end.
Proof.
  intros Hf Hb. unfold run. destruct (NewIter db prefix) as [e|it] eqn:En.
  { eexists _, _, []. split; [done|]. split; [done|]. split; [apply prefix_nil|done]. }
  destruct (start_remaining db prefix it En) as [Hsel Hlen]. cbn zeta in *. set (it0 := if 0 <? zlen prefix then SeekGE it prefix else First it) in *.
  destruct (scanLoop_spec o prefix fuel it0 0 []) as (it' & kvs & lines & -> & Hrows & Hpre & Hall); [lia|lia|unfold zlen in *; lia|lia|]. go_step.
  rewrite Hsel in *. exists lines. destruct (IterError it') as [e|]; eexists _, kvs; (split; [done|]); split; [done|done|done|]; split; [done|]; split; [by apply Hall|done].
Qed.

Lemma limited_app {V} o (l : list V) : limited o 0 l ++ (if 0 <? do_limit o then drop (Z.to_nat (do_limit o)) l else []) = l.
Proof. unfold limited. case_bool; [by rewrite Z.sub_0_r, take_drop|by rewrite app_nil_r]. Qed.

Lemma unlift_in kvs k r : (k, r) ∈ map lift kvs -> exists v, r = inr v /\ (k, v) ∈ kvs.
Proof. intros H. apply list_elem_of_In, in_map_iff in H as ([k' v] & [= <- <-] & H). exists v. split; [done|]. by apply list_elem_of_In. Qed.

Lemma lift_sorted kvs : StronglySorted keyLt (map lift kvs) -> StronglySorted keyLt kvs.
Proof.
  induction kvs as [|e kvs IH]; intros H; [constructor|]. apply StronglySorted_inv in H as [H1 H2]. constructor; [by apply IH|].
  apply (Forall_fmap lift) in H2. exact H2.
Qed.
End scan.

(** what the dump tool prints.  The run always ends.  The rows are those of
    entries in key order, each with the prefix and with a value a read of the
    key may answer, and no more than the limit.  If the run reports success
    its count is the number of rows, and every key of the database with the
    prefix is among them, unless the limit is reached and the key comes after
    all rows. *)
Theorem dump_scan `{WL : ProtoWireLaws} `{UT : UnicodeTables} `{IL : PebbleIterLaws} fuel dbPath db prefix o :
  (length (entries db) <= fuel)%nat -> zlen (entries db) < 2 ^ 63 ->
  exists out r kvs, run fuel dbPath (inr db) prefix o = Some (out, r) /\ rows o kvs out /\
    StronglySorted keyLt kvs /\
    Forall (fun e => hasPrefix e.1 prefix = true /\ reads e.1 (chain db e.1) (inr (Some e.2))) kvs /\
    (0 < do_limit o -> zlen kvs <= do_limit o) /\
    match r with
    | inl _ => True
    | inr d => dd_matched d = zlen kvs /\
        forall k, chain db k <> [] -> hasPrefix k prefix = true ->
          (exists v, (k, v) ∈ kvs) \/ (0 < do_limit o /\ zlen kvs = do_limit o /\ Forall (fun e => lexLt e.1 k = true) kvs)
    end.
Proof.
  intros Hf Hb. destruct (run_spec fuel dbPath db prefix o Hf Hb) as (out & r & kvs & E & Hrows & [tl Hpre] & Hr). exists out, r, kvs.
  split; [done|]. split; [done|]. pose proof (selected_sorted prefix db) as Hs. pose proof (limited_app o (selected prefix db)) as Happ.
  set (more := if 0 <? do_limit o then drop _ _ else []) in *. rewrite Hpre in Happ.
  assert (Hin : forall k x, (k, x) ∈ map lift kvs -> (k, x) ∈ selected prefix db) by (intros k x Hx; rewrite <- Happ, !elem_of_app; auto).
  split; [apply lift_sorted; rewrite <- Happ, <- app_assoc in Hs; by eapply StronglySorted_app_1_l|]. split; [|split].
  - apply Forall_forall. intros [k v] Hkv. assert (Hx : (k, inr v) ∈ selected prefix db)
      by (apply Hin, list_elem_of_In, in_map_iff; exists (k, v); split; [done|]; by apply list_elem_of_In).
    apply list_elem_of_filter in Hx as [Hp Hx]. apply entries_read in Hx as [_ Hx]. done.
  - intros Hlim. apply (f_equal length) in Hpre. unfold limited in Hpre. rewrite (proj2 (Z.ltb_lt _ _)), length_take, length_app, length_map in Hpre by lia.
    unfold zlen. lia.
  - destruct r as [e|d]; [done|]. destruct Hr as [Hall Hd]. split; [done|]. intros k Hk Hp. apply entries_all in Hk as [x Hx].
    assert (Hx' : (k, x) ∈ selected prefix db) by (apply list_elem_of_filter; done).
    assert (tl = []) as -> by (rewrite Hall in Hpre; apply (app_inv_head (limited o 0 (selected prefix db))); by rewrite app_nil_r).
    rewrite app_nil_r in Happ. rewrite <- Happ in Hx', Hs. apply elem_of_app in Hx' as [Hx'|Hx'].
    { left. apply unlift_in in Hx' as (v & _ & Hv). eauto. }
    right. unfold more in Hx'. destruct (0 <? do_limit o) eqn:El; [|by apply not_elem_of_nil in Hx']. bool_norm. split; [done|]. split.
    + assert (Hlen : (Z.to_nat (do_limit o) < length (selected prefix db))%nat).
      { destruct (decide (length (selected prefix db) <= Z.to_nat (do_limit o))%nat); [|lia]. rewrite drop_ge in Hx' by done. by apply not_elem_of_nil in Hx'. }
      apply (f_equal length) in Hall. unfold limited in Hall. rewrite (proj2 (Z.ltb_lt _ _)), length_take, length_map in Hall by lia. unfold zlen. lia.
    + apply Forall_forall. intros [k' v'] Hkv. apply (StronglySorted_app_1_elem_of _ _ _ (lift (k', v')) (k, x) Hs); [|done].
      apply list_elem_of_In, in_map, list_elem_of_In. done.
Qed.

(** printing a value as protobuf.  The printer ends on every input.  A
    message that is a sequence of numbers, texts, packed numbers and empty
    fields is printed field by field in order; a field of any other wire type
    makes it the error that names the field and the type. *)
Theorem proto_dump `{WL : ProtoWireLaws} `{UT : UnicodeTables} :
  (forall data, exists r, formatProtoWireObject data = Some r) /\
  (forall fields, Forall field_ok fields ->
     formatProtoWireObject (concat (map encodeField fields)) = Some (inr (bs "{" ++ joinComma (map fieldText fields) ++ bs "}")) /\
     forall num typ rest, 1 <= num < 2 ^ 29 -> typ = 3 \/ typ = 4 ->
       formatProtoWireObject (concat (map encodeField fields) ++ AppendTag num typ ++ rest) = Some (inl (errField num (errWireType typ)))).
Proof.
  split; [intros data; by apply objectLoop_total|]. intros fields HF. split; [by apply formatObject_fields|]. intros num typ rest Hn Ht.
  by apply objectLoop_group.
Qed.

(** ** Concrete libraries *)

(** The wire format. *)
Module WireFormat.
Fixpoint encVarint (k : nat) (v : Z) : bytes :=
  match k with
  | O => []
  | S k => if v <? 128 then [v] else (128 + v mod 128) :: encVarint k (v / 128)
  end.

Fixpoint decVarint (k : nat) (s : bytes) : option (Z * Z) :=
  match k, s with
  | S k, c :: s => if c <? 128 then Some (c, 1) else '(v, n) ← decVarint k s; Some (c mod 128 + 128 * v, n + 1)
  | _, _ => None
  end.

Definition consumeVarint (s : bytes) : Z * Z :=
  match decVarint 10 s with
  | Some (v, n) => if v <? 2 ^ 64 then (v, n) else (0, -3)
  | None => (0, -1)
  end.

Definition consumeTag (s : bytes) : Z * Z * Z :=
  let '(v, n) := consumeVarint s in
  if n <? 0 then (0, 0, n) else if (v / 8 <? 1) || (2 ^ 31 <=? v / 8) then (0, 0, -2) else (v / 8, v mod 8, n).

Definition consumeFixed (k : nat) (s : bytes) : Z * Z := if zlen s <? Z.of_nat k then (0, -1) else (le_value (take k s), Z.of_nat k).

Definition consumeBytes (s : bytes) : bytes * Z :=
  let '(m, n) := consumeVarint s in
  if n <? 0 then ([], n) else if (m <? 0) || (zlen s - n <? m) then ([], -1) else (take (Z.to_nat m) (drop (Z.to_nat n) s), n + m).

#[export] Instance ops : ProtoWire := {|
  ConsumeTag := consumeTag; ConsumeVarint := consumeVarint; ConsumeFixed32 := consumeFixed 4; ConsumeFixed64 := consumeFixed 8;
  ConsumeBytes := consumeBytes; ParseError n := "proto: parse error"%string;
|}.

Lemma decVarint_used k : forall s v n, decVarint k s = Some (v, n) -> 0 < n <= zlen s.
Proof.
  induction k as [|k IH]; intros [|c s] v n; cbn [decVarint]; try done. assert (Hz : zlen (c :: s) = 1 + zlen s) by (unfold zlen; simpl length; lia).
  pose proof (zlen_nonneg s). case_bool; [intros [= _ <-]; lia|]. destruct (decVarint k s) as [[v' n']|] eqn:E; [|done]. intros [= _ <-]. apply IH in E. lia.
Qed.

Lemma consumeVarint_used s v n : consumeVarint s = (v, n) -> n < 0 \/ 0 < n <= zlen s.
Proof.
  unfold consumeVarint. destruct (decVarint 10 s) as [[v' n']|] eqn:E; [|intros [= _ <-]; lia]. apply decVarint_used in E. case_bool; intros [= _ <-]; lia.
Qed.

Lemma dec_enc k : forall v rest, 0 <= v < 128 ^ Z.of_nat k -> (0 < k)%nat -> decVarint k (encVarint k v ++ rest) = Some (v, zlen (encVarint k v)).
Proof.
  induction k as [|k IH]; intros v rest Hv Hk; [lia|]. cbn [encVarint]. destruct (v <? 128) eqn:E; bool_norm.
  { cbn [app decVarint]. rewrite (proj2 (Z.ltb_lt _ _)) by lia. done. }
  cbn [app decVarint]. rewrite (proj2 (Z.ltb_ge _ _)) by dlia. destruct k as [|k]; [simpl in Hv; lia|].
  rewrite Nat2Z.inj_succ, Z.pow_succ_r in Hv by lia. rewrite IH; [|split; [dlia|apply Z.div_lt_upper_bound; lia]|lia]. go_step.
  f_equal. f_equal; [dlia|unfold zlen; simpl length; lia].
Qed.

Lemma consume_enc v rest : 0 <= v < 2 ^ 64 -> consumeVarint (encVarint 10 v ++ rest) = (v, zlen (encVarint 10 v)).
Proof. intros Hv. unfold consumeVarint. rewrite dec_enc by lia. by rewrite (proj2 (Z.ltb_lt _ _)) by lia. Qed.

Lemma consumeFixed_used k s v n : (0 < k)%nat -> consumeFixed k s = (v, n) -> n < 0 \/ 0 < n <= zlen s.
Proof. intros Hk. unfold consumeFixed. case_bool; intros [= _ <-]; lia. Qed.

Lemma consumeFixed_append k v rest : 0 <= v < 2 ^ (8 * Z.of_nat k) -> consumeFixed k (le_bytes k v ++ rest) = (v, zlen (le_bytes k v)).
Proof.
  intros Hv. unfold consumeFixed, zlen. rewrite length_app, le_bytes_length. rewrite (proj2 (Z.ltb_ge _ _)) by lia.
  rewrite take_app_length' by (by rewrite le_bytes_length). rewrite le_value_bytes, Z.mod_small by done. done.
Qed.

#[export] Instance laws : ProtoWireLaws ops.
Proof.
  refine {| AppendTag num typ := encVarint 10 (8 * num + typ); AppendVarint := encVarint 10; AppendFixed32 := le_bytes 4;
            AppendFixed64 := le_bytes 8; AppendBytes v := encVarint 10 (zlen v) ++ v |}.
  - intros b num typ n. change ConsumeTag with consumeTag. unfold consumeTag. destruct (consumeVarint b) as [v n'] eqn:E. apply consumeVarint_used in E.
    repeat case_bool; intros [= _ _ <-]; lia.
  - exact consumeVarint_used.
  - intros b v n. apply consumeFixed_used. lia.
  - intros b v n. apply consumeFixed_used. lia.
  - intros b v n. change ConsumeBytes with consumeBytes. unfold consumeBytes. destruct (consumeVarint b) as [m n'] eqn:E. apply consumeVarint_used in E.
    repeat case_bool; intros [= _ <-]; lia.
  - intros num typ rest Hn Ht. change ConsumeTag with consumeTag. unfold consumeTag. rewrite consume_enc by lia. pose proof (zlen_nonneg (encVarint 10 (8 * num + typ))).
    rewrite (proj2 (Z.ltb_ge _ 0)) by lia. replace ((8 * num + typ) / 8) with num by dlia. replace ((8 * num + typ) mod 8) with typ by dlia.
    rewrite (proj2 (Z.ltb_ge num 1)), (proj2 (Z.leb_gt _ num)) by lia. done.
  - intros v rest Hv. by apply consume_enc.
  - intros v rest Hv. by apply consumeFixed_append.
  - intros v rest Hv. by apply consumeFixed_append.
  - intros v rest Hv. change ConsumeBytes with consumeBytes. unfold consumeBytes. rewrite <- app_assoc. pose proof (zlen_nonneg v). rewrite consume_enc by lia.
    pose proof (zlen_nonneg (encVarint 10 (zlen v))). rewrite (proj2 (Z.ltb_ge _ 0)) by lia.
    assert (Hz : zlen (encVarint 10 (zlen v) ++ v ++ rest) - zlen (encVarint 10 (zlen v)) = zlen v + zlen rest) by (unfold zlen; rewrite !length_app; lia).
    rewrite Hz. pose proof (zlen_nonneg rest). rewrite (proj2 (Z.ltb_ge (zlen v) 0)), (proj2 (Z.ltb_ge _ (zlen v))) by lia. cbn [orb].
    rewrite drop_app_length' by (unfold zlen; lia). rewrite take_app_length' by (unfold zlen; lia). f_equal. unfold zlen. rewrite length_app. lia.
Defined.
End WireFormat.

(** *** An iterator over the in-memory store *)

Lemma lexLe_nil_r a : lexLe a [] = true -> a = [].
Proof. by destruct a. Qed.

Lemma lexLe_trans a : forall b c, lexLe a b = true -> lexLe b c = true -> lexLe a c = true.
Proof.
  induction a as [|x a IH]; intros [|y b] [|z c] Hab Hbc; try done. rewrite lexLe_cons in *.
  destruct Hab as [Hab|[-> Hab]], Hbc as [Hbc|[<- Hbc]]; [left; lia|left; lia|left; lia|right; eauto].
Qed.

Lemma lexLe_antisym a : forall b, lexLe a b = true -> lexLe b a = true -> a = b.
Proof.
  induction a as [|x a IH]; intros [|y b] Hab Hba; try done. rewrite lexLe_cons in *. destruct Hab as [Hab|[-> Hab]], Hba as [Hba|[? Hba]]; try lia.
  f_equal. auto.
Qed.

Lemma lexLe_total a : forall b, lexLe a b = true \/ lexLe b a = true.
Proof.
  induction a as [|x a IH]; intros [|y b]; [by left|by left|by right|]. rewrite !lexLe_cons. destruct (IH b), (Z.lt_trichotomy x y) as [|[|]]; auto.
Qed.

Lemma lexLe_lt a b : lexLe a b = true -> a <> b -> lexLt a b = true.
Proof. intros H Hne. destruct (lexLt a b) eqn:E; [done|]. destruct Hne. apply lexLe_antisym; [done|]. unfold lexLe. by rewrite E. Qed.

Module MemIter.
Definition entry : Type := bytes * (error + bytes).

Definition keyLe (a b : entry) : Prop := lexLe a.1 b.1 = true.

#[local] Instance keyLe_trans : Transitive keyLe.
Proof. intros a b c. apply lexLe_trans. Qed.

#[local] Instance keyLe_total : Total keyLe.
Proof. intros a b. apply lexLe_total. Qed.

#[local] Instance keyLe_dec : RelDecision keyLe.
Proof. intros a b. unfold Decision, keyLe. apply bool_eq_dec. Defined.

Definition readEntry (db : gmap bytes (list bytes)) (k : bytes) : option entry :=
  match MemStore.readChain k (MemStore.lookupChain db k) with
  | inr (Some v) => Some (k, inr v)
  | inr None => None
  | inl e => Some (k, inl e)
  end.

(** The entries in key order. *)
Definition entriesOf (db : gmap bytes (list bytes)) : list entry := merge_sort keyLe (omap (readEntry db) (elements (dom db))).

(** All entries from the lower bound on, and those not yet visited. *)
Record iter := mkIter { it_all : list entry; it_rest : list entry }.

#[export] Instance ops : PebbleIter (@DB MemStore.ops) := {|
  Iter := iter;
  NewIter db lower := inr (mkIter (filter (fun e => lexLe lower e.1 = true) (entriesOf db)) []);
  SeekGE it key := mkIter (it_all it) (filter (fun e => lexLe key e.1 = true) (it_all it));
  First it := mkIter (it_all it) (it_all it);
  Next it := mkIter (it_all it) (tail (it_rest it));
  Current it := match it_rest it with (k, inr v) :: _ => Some (k, v) | _ => None end;
  IterError it := match it_rest it with (_, inl e) :: _ => Some e | _ => None end;
|}.

Lemma readEntry_key db k e : readEntry db k = Some e -> e.1 = k.
Proof. unfold readEntry. destruct (MemStore.readChain _ _) as [?|[?|]]; by intros [= <-]. Qed.

Lemma omap_keys db l : NoDup l -> NoDup (map fst (omap (readEntry db) l)) /\ forall e, e ∈ omap (readEntry db) l -> e.1 ∈ l.
Proof.
  induction 1 as [|k l Hk Hl [IH1 IH2]]; [split; [constructor|by intros e ?%not_elem_of_nil]|]. cbn. destruct (readEntry db k) as [e|] eqn:E.
  - apply readEntry_key in E as He. split; [|intros e' He'; apply elem_of_cons in He' as [->|He']; [rewrite He; by left|right; auto]].
    cbn [map]. constructor; [|done]. rewrite He. intros Hin. apply list_elem_of_In, in_map_iff in Hin as (e' & Hk' & He'). apply list_elem_of_In in He'.
    apply IH2 in He'. by rewrite Hk' in He'.
  - split; [done|]. intros e' He'. right. auto.
Qed.

Lemma sorted_strict l : StronglySorted keyLe l -> NoDup (map fst l) -> StronglySorted keyLt l.
Proof.
  induction 1 as [|e l Hs IH HF]; intros Hn; [constructor|]. cbn [map] in Hn. apply NoDup_cons in Hn as [Hk Hn]. constructor; [auto|].
  rewrite Forall_forall in *. intros e' He'. apply lexLe_lt; [by apply HF|]. intros Heq. apply Hk. rewrite Heq.
  apply list_elem_of_In, in_map, list_elem_of_In. done.
Qed.

#[export] Instance laws : PebbleIterLaws (PL := MemStore.laws) ops.
Proof.
  refine {| entries := entriesOf : @DB MemStore.ops -> _; remaining := it_rest : @Iter _ ops -> _ |}.
  - intros db. apply sorted_strict; [apply (StronglySorted_merge_sort keyLe)|]. unfold entriesOf. rewrite merge_sort_Permutation.
    apply omap_keys, NoDup_elements.
  - intros db k r Hin. unfold entriesOf in Hin. rewrite merge_sort_Permutation in Hin. apply list_elem_of_omap in Hin as (k' & _ & Hr).
    apply readEntry_key in Hr as Hk. cbn in Hk. subst k'. unfold readEntry in Hr. pose proof (MemStore.readChain_reads k (MemStore.lookupChain db k)) as Hrd.
    change (chain db k) with (MemStore.lookupChain db k). destruct (MemStore.lookupChain db k) as [|v vs]; [done|]. split; [done|].
    destruct (MemStore.readChain k (v :: vs)) as [e|[w|]]; [by injection Hr as <-|by injection Hr as <-|done].
  - intros db k Hk. change (MemStore.lookupChain db k <> []) in Hk. unfold MemStore.lookupChain in Hk.
    destruct ((db : gmap bytes (list bytes)) !! k) as [ch|] eqn:E; cbn in Hk; [|done].
    assert (He : exists r, readEntry db k = Some (k, r)).
    { unfold readEntry, MemStore.lookupChain. rewrite E. cbn. destruct ch as [|v vs]; [done|]. unfold MemStore.readChain. repeat case_match; naive_solver. }
    destruct He as [r Hr]. exists r. unfold entriesOf. rewrite merge_sort_Permutation. apply list_elem_of_omap. exists k. split; [|done].
    apply elem_of_elements, elem_of_dom. eauto.
  - intros db lower it [= <-]. done.
  - intros db lower it key [= <-]. cbn. rewrite list_filter_filter. apply list_filter_iff. intros e; tauto.
  - intros [all [|[k [e|v]] l]] k' v'; cbn; try done. by intros [= <- <-].
  - intros [all [|[k [e|v]] l]]; cbn; done.
Defined.
End MemIter.

(** ** Witnesses *)

#[local] Existing Instances MemStore.ops MemStore.laws MemIter.ops MemIter.laws WireFormat.ops WireFormat.laws.

#[local] Instance allPrintable : UnicodeTables := fun _ => true.

(** Three keys, two of them with the prefix 0x61. *)
Definition demoDB : @DB MemStore.ops := ({[ bs "b" := [bs "x"]; bs "ab" := [bs "two"]; bs "a" := [bs "one"] ]} : gmap bytes (list bytes)).

Definition demoOpts : dumpOpts := mkDumpOpts true true 0 false.

Lemma demo_dump :
  run 5 (bs "/d") (inr demoDB) (bs "a") demoOpts =
    Some ([printKV (bs "a") (bs "one") true; printKV (bs "ab") (bs "two") true], inr (mkDumpDone "prefix" 2)).
Proof. vm_compute. reflexivity. Qed.

Lemma dump_scan_witness :
  exists kvs, rows demoOpts kvs [printKV (bs "a") (bs "one") true; printKV (bs "ab") (bs "two") true] /\ zlen kvs = 2 /\
    forall k, chain demoDB k <> [] -> hasPrefix k (bs "a") = true -> exists v, (k, v) ∈ kvs.
Proof.
  destruct (dump_scan 5 (bs "/d") demoDB (bs "a") demoOpts) as (out & r & kvs & E & Hr & _ & _ & _ & H); [vm_compute; lia|vm_compute; reflexivity|].
  rewrite demo_dump in E. injection E as <- <-. destruct H as [Hn H]. exists kvs. split; [exact Hr|]. split; [symmetry; exact Hn|].
  intros k Hk Hp. destruct (H k Hk Hp) as [Hv|[Hl _]]; [exact Hv|]. discriminate Hl.
Defined.

Lemma proto_dump_witness :
  formatProtoWireObject (concat (map encodeField [WVarint 1 300; WText 2 (bs "ok"); WPacked 3 [1; 2]])) =
    Some (inr (bs "{1:300,2:" ++ Quote (bs "ok") ++ bs ",3:[1,2]}")).
Proof.
  destruct proto_dump as [_ H]. destruct (H [WVarint 1 300; WText 2 (bs "ok"); WPacked 3 [1; 2]]) as [E _].
  - repeat constructor; try (vm_compute; congruence); try reflexivity.
  - rewrite E. vm_compute. reflexivity.
Defined.
