(* ===== verification/AlignedPool.v ===== *)
(** * The pool of aligned buffers

    [internal/fs/aligned_pool.go]: one [sync.Pool] per buffer size, found under
    a read lock and created under the write lock.  Any number of goroutines
    call [Get] and [Put]; a critical section, a call on a [sync.Pool] and an
    atomic addition are one step each, so [getPool] can be interrupted between
    its two lookups.  The theorem says that every buffer handed out has the
    size asked for, is aligned and is in nobody else's hands. *)

From stdpp Require Import base decidable list numbers option strings gmap relations.
From Stdlib Require Import ZArith Lia.
From S2P Require Import Prelude Schedules Words Bytes Allocator SpaceBitmap BlockDevice AioChannel.

(** ** The pool *)

(** A slice: the array it belongs to, its address and its length. *)
Record abuf := mkAbuf { ab_id : nat; ab_addr : Z; ab_len : Z }.

(** [ap_pools] maps a size to its [sync.Pool], [ap_content] has the buffers in
    each of them, [ap_next] is the next new one. *)
Record alignedBufferPool := mkAligned {
  ap_pools : gmap Z nat; ap_content : gmap nat (list abuf); ap_next : nat; ap_gets : Z; ap_news : Z; ap_puts : Z }.

Definition newAlignedPool : alignedBufferPool := mkAligned ∅ ∅ 0 0 0 0.

Definition addGet (p : alignedBufferPool) : alignedBufferPool :=
  mkAligned (ap_pools p) (ap_content p) (ap_next p) (i64 (ap_gets p + 1)) (ap_news p) (ap_puts p).
Definition addNew (p : alignedBufferPool) : alignedBufferPool :=
  mkAligned (ap_pools p) (ap_content p) (ap_next p) (ap_gets p) (i64 (ap_news p + 1)) (ap_puts p).
Definition addPut (p : alignedBufferPool) : alignedBufferPool :=
  mkAligned (ap_pools p) (ap_content p) (ap_next p) (ap_gets p) (ap_news p) (i64 (ap_puts p + 1)).

Definition contentOf (p : alignedBufferPool) (pid : nat) : list abuf := default [] (ap_content p !! pid).

Definition setContent (p : alignedBufferPool) (pid : nat) (l : list abuf) : alignedBufferPool :=
  mkAligned (ap_pools p) (<[pid := l]> (ap_content p)) (ap_next p) (ap_gets p) (ap_news p) (ap_puts p).

(** [getPool] under the write lock. *)
Definition lockedPool (p : alignedBufferPool) (size : Z) : alignedBufferPool * nat :=
  match ap_pools p !! size with
  | Some pid => (p, pid)
  | None => (mkAligned (<[size := ap_next p]> (ap_pools p)) (ap_content p) (S (ap_next p)) (ap_gets p) (ap_news p) (ap_puts p), ap_next p)
  end.

(** [AlignedBufferPoolSnapshot]. *)
Definition AlignedBufferPoolSnapshot (p : alignedBufferPool) : Z * Z * Z := (ap_gets p, ap_news p, ap_puts p).

(** ** Goroutines *)

Inductive poolCall := CallGet (size : Z) | CallPut (buf : abuf).

Definition callSize (c : poolCall) : Z := match c with CallGet size => size | CallPut buf => ab_len buf end.

(** Outside; before the first lookup; before the write lock; with a pool; with
    an empty pool; [Get] has returned. *)
Inductive athread := AIdle | ALookup (c : poolCall) | ALock (c : poolCall) | APool (c : poolCall) (pid : nat) | ANew (size : Z) | AGot (size : Z) (buf : abuf).

(** [al_held] are the buffers in the callers' hands, [al_fresh] the next array. *)
Record asys := mkAsys { al_pool : alignedBufferPool; al_threads : list athread; al_held : list abuf; al_fresh : nat }.

Definition asysStart (n : nat) : asys := mkAsys newAlignedPool (replicate n AIdle) [] 0.

Definition aset (s : asys) (p : alignedBufferPool) (k : nat) (x : athread) : asys := mkAsys p (<[k := x]> (al_threads s)) (al_held s) (al_fresh s).
Definition ahold (s : asys) (l : list abuf) : asys := mkAsys (al_pool s) (al_threads s) l (al_fresh s).
Definition afresh (s : asys) : asys := mkAsys (al_pool s) (al_threads s) (al_held s) (S (al_fresh s)).

(** A caller gives back a buffer it holds, or the beginning of one. *)
Inductive apool_step : asys -> asys -> Prop :=
  | get_nil s k size : al_threads s !! k = Some AIdle -> size <= 0 -> apool_step s s
  | get_call s k size : al_threads s !! k = Some AIdle -> 0 < size -> apool_step s (aset s (addGet (al_pool s)) k (ALookup (CallGet size)))
  | put_call s k l buf l' n : al_threads s !! k = Some AIdle -> al_held s = l ++ buf :: l' -> 0 < n <= ab_len buf ->
      apool_step s (aset (ahold s (l ++ l')) (addPut (al_pool s)) k (ALookup (CallPut (mkAbuf (ab_id buf) (ab_addr buf) n))))
  | lookup_hit s k c pid : al_threads s !! k = Some (ALookup c) -> ap_pools (al_pool s) !! callSize c = Some pid ->
      apool_step s (aset s (al_pool s) k (APool c pid))
  | lookup_miss s k c : al_threads s !! k = Some (ALookup c) -> ap_pools (al_pool s) !! callSize c = None ->
      apool_step s (aset s (al_pool s) k (ALock c))
  | lock_pool s k c p pid : al_threads s !! k = Some (ALock c) -> lockedPool (al_pool s) (callSize c) = (p, pid) ->
      apool_step s (aset s p k (APool c pid))
  | pool_put s k buf pid : al_threads s !! k = Some (APool (CallPut buf) pid) ->
      apool_step s (aset s (setContent (al_pool s) pid (contentOf (al_pool s) pid ++ [buf])) k AIdle)
  | pool_hit s k size pid l buf l' : al_threads s !! k = Some (APool (CallGet size) pid) -> contentOf (al_pool s) pid = l ++ buf :: l' ->
      apool_step s (aset s (setContent (al_pool s) pid (l ++ l')) k (AGot size (mkAbuf (ab_id buf) (ab_addr buf) size)))
  | pool_miss s k size pid : al_threads s !! k = Some (APool (CallGet size) pid) -> apool_step s (aset s (al_pool s) k (ANew size))
  | new_buffer s k size raw b : al_threads s !! k = Some (ANew size) -> NewAlignedBlockBuffer raw size = Some b ->
      apool_step s (aset (afresh s) (addNew (al_pool s)) k (AGot size (mkAbuf (al_fresh s) (buf_addr b) (zlen (buf_data b)))))
  | get_return s k size buf : al_threads s !! k = Some (AGot size buf) ->
      apool_step s (aset (ahold s (al_held s ++ [buf])) (al_pool s) k AIdle)
  (** the garbage collector empties pools at will *)
  | pool_dropped s pid l buf l' : contentOf (al_pool s) pid = l ++ buf :: l' ->
      apool_step s (mkAsys (setContent (al_pool s) pid (l ++ l')) (al_threads s) (al_held s) (al_fresh s)).

(** ** Ownership *)

Definition inCall (c : poolCall) : list abuf := match c with CallPut buf => [buf] | CallGet _ => [] end.

(** The buffers a goroutine has inside a call. *)
Definition inflight (x : athread) : list abuf :=
  match x with ALookup c | ALock c | APool c _ => inCall c | AGot _ buf => [buf] | AIdle | ANew _ => [] end.

Definition pooled (p : alignedBufferPool) : list abuf := concat (map snd (map_to_list (ap_content p))).

(** Every buffer there is. *)
Definition allBufs (s : asys) : list abuf := concat (map inflight (al_threads s)) ++ al_held s ++ pooled (al_pool s).

Definition good_buf (fresh : nat) (b : abuf) : Prop := (ab_id b < fresh)%nat /\ 0 < ab_len b /\ ab_addr b mod BlockSize = 0.

Definition bufs_ok (fresh : nat) (l : list abuf) : Prop := NoDup (map ab_id l) /\ Forall (good_buf fresh) l.

#[export] Instance bufs_ok_proper fresh : Proper ((≡ₚ) ==> iff) (bufs_ok fresh).
Proof. intros l l' H. unfold bufs_ok. by rewrite H. Qed.

Lemma bufs_ok_drop fresh b l : bufs_ok fresh (b :: l) -> bufs_ok fresh l.
Proof. intros [H1 H2]. apply NoDup_cons in H1 as [_ H1]. apply Forall_cons in H2 as [_ H2]. done. Qed.

(** The same array, resliced. *)
Lemma bufs_ok_reslice fresh b n l : 0 < n -> bufs_ok fresh (b :: l) -> bufs_ok fresh (mkAbuf (ab_id b) (ab_addr b) n :: l).
Proof. intros Hn [H1 H2]. split; [done|]. apply Forall_cons in H2 as [(Hi & Hl & Ha) HF]. by constructor. Qed.

Lemma bufs_ok_new fresh addr n l : 0 < n -> addr mod BlockSize = 0 -> bufs_ok fresh l -> bufs_ok (S fresh) (mkAbuf fresh addr n :: l).
Proof.
  intros Hn Ha [H1 H2]. assert (H2' : Forall (good_buf (S fresh)) l) by (eapply Forall_impl; [exact H2|]; intros b (? & ? & ?); split; [lia|done]).
  split; [|constructor; [split; [simpl; lia|done]|done]]. cbn [map ab_id]. apply NoDup_cons. split; [|done]. intros Hin.
  apply list_elem_of_In, in_map_iff in Hin as (b & Hb & Hin). rewrite Forall_forall in H2. destruct (H2 b) as [? _]; [by apply list_elem_of_In|]. lia.
Qed.

Lemma pooled_set p pid l : l ++ pooled p ≡ₚ contentOf p pid ++ pooled (setContent p pid l).
Proof.
  unfold pooled, contentOf. cbn [ap_content setContent]. destruct (ap_content p !! pid) as [old|] eqn:E; cbn [default].
  - rewrite <- (insert_delete_id (ap_content p) pid old) at 1 by done. rewrite <- (insert_delete_eq (ap_content p) pid l).
    rewrite !map_to_list_insert by apply lookup_delete_eq. cbn [map concat snd]. apply Permutation_app_swap_app.
  - rewrite map_to_list_insert by done. done.
Qed.

Lemma inflight_set s p k x y : al_threads s !! k = Some x ->
  inflight y ++ concat (map inflight (al_threads s)) ≡ₚ inflight x ++ concat (map inflight (al_threads (aset s p k y))).
Proof. intros E. by apply concat_insert_Permutation. Qed.

(** A goroutine moves on without touching the pools. *)
Lemma all_thread s p k x y :
  al_threads s !! k = Some x -> pooled p = pooled (al_pool s) -> inflight y ++ allBufs s ≡ₚ inflight x ++ allBufs (aset s p k y).
Proof.
  intros E Hp. unfold allBufs. rewrite (app_assoc (inflight y)), (inflight_set s p k x y E), <- app_assoc. cbn [al_held al_pool aset]. by rewrite Hp.
Qed.

(** ** The invariant *)

Definition call_ok (c : poolCall) : Prop := 0 < callSize c.

Definition thread_ok (p : alignedBufferPool) (x : athread) : Prop :=
  match x with
  | AIdle => True
  | ALookup c | ALock c => call_ok c
  | APool c pid => call_ok c /\ ap_pools p !! callSize c = Some pid
  | ANew size => 0 < size
  | AGot size buf => ab_len buf = size
  end.

Record pools_ok (p : alignedBufferPool) : Prop := {
  po_bound : forall size pid, ap_pools p !! size = Some pid -> (pid < ap_next p)%nat;
  po_inj : forall size size' pid, ap_pools p !! size = Some pid -> ap_pools p !! size' = Some pid -> size = size';
  po_len : forall size pid, ap_pools p !! size = Some pid -> Forall (fun b => ab_len b = size) (contentOf p pid);
  po_fresh : forall pid, (ap_next p <= pid)%nat -> contentOf p pid = [];
}.

Record apool_inv (s : asys) : Prop := {
  ai_bufs : bufs_ok (al_fresh s) (allBufs s);
  ai_pools : pools_ok (al_pool s);
  ai_threads : Forall (thread_ok (al_pool s)) (al_threads s);
}.

Lemma thread_grow p p' x : (forall size pid, ap_pools p !! size = Some pid -> ap_pools p' !! size = Some pid) -> thread_ok p x -> thread_ok p' x.
Proof. intros H. destruct x; try done. intros [? ?]. split; auto. Qed.

Lemma threads_set s p k x :
  (forall size pid, ap_pools (al_pool s) !! size = Some pid -> ap_pools p !! size = Some pid) ->
  Forall (thread_ok (al_pool s)) (al_threads s) -> thread_ok p x -> Forall (thread_ok p) (<[k := x]> (al_threads s)).
Proof. intros H HF Hx. apply Forall_insert; [|done]. eapply Forall_impl; [exact HF|]. intros y. by apply thread_grow. Qed.

Lemma pools_ok_same p p' :
  ap_pools p' = ap_pools p -> ap_content p' = ap_content p -> ap_next p' = ap_next p -> pools_ok p -> pools_ok p'.
Proof. intros E1 E2 E3 [H1 H2 H3 H4]. unfold contentOf in *. split; unfold contentOf; rewrite ?E1, ?E2, ?E3; done. Qed.

Lemma contentOf_set p pid l pid' : contentOf (setContent p pid l) pid' = if decide (pid' = pid) then l else contentOf p pid'.
Proof.
  unfold contentOf. cbn [setContent ap_content]. case_decide; [subst; by rewrite lookup_insert_eq|by rewrite lookup_insert_ne].
Qed.

(** A registered pool gets a new content of the right size. *)
Lemma pools_ok_content p size pid l :
  ap_pools p !! size = Some pid -> Forall (fun b => ab_len b = size) l -> pools_ok p -> pools_ok (setContent p pid l).
Proof.
  intros E Hl [H1 H2 H3 H4]. split; cbn [setContent ap_pools ap_next]; [done|done| |].
  - intros size' pid' E'. rewrite contentOf_set. case_decide; [subst pid'; by rewrite <- (H2 _ _ _ E E')|by apply H3].
  - intros pid' Hge. rewrite contentOf_set. case_decide; [subst; apply H1 in E; lia|by apply H4].
Qed.

(** Dropping a buffer. *)
Lemma pools_ok_drop p pid l buf l' : contentOf p pid = l ++ buf :: l' -> pools_ok p -> pools_ok (setContent p pid (l ++ l')).
Proof.
  intros E [H1 H2 H3 H4]. split; cbn [setContent ap_pools ap_next]; [done|done| |].
  - intros size' pid' E'. rewrite contentOf_set. case_decide; [subst|by apply H3]. specialize (H3 _ _ E'). rewrite E in H3.
    apply Forall_app in H3 as [? H3]. apply Forall_cons in H3 as [_ ?]. by apply Forall_app.
  - intros pid' Hge. rewrite contentOf_set. case_decide; [subst|by apply H4]. rewrite H4 in E by done. by destruct l.
Qed.

Lemma lockedPool_spec p size p' pid :
  pools_ok p -> lockedPool p size = (p', pid) ->
  pools_ok p' /\ pooled p' = pooled p /\ ap_pools p' !! size = Some pid /\
  forall size' pid', ap_pools p !! size' = Some pid' -> ap_pools p' !! size' = Some pid'.
Proof.
  intros Hp. unfold lockedPool. destruct (ap_pools p !! size) as [q|] eqn:E; intros [= <- <-]; [done|].
  destruct Hp as [H1 H2 H3 H4]. split; [|split; [done|]; cbn; split; [by rewrite lookup_insert_eq|]].
  - unfold contentOf in *. split; unfold contentOf; cbn [ap_pools ap_content ap_next].
    + intros size' pid' E'. apply lookup_insert_Some in E' as [[_ <-]|[_ E']]; [lia|]. apply H1 in E'. lia.
    + intros a b q Ea Eb. apply lookup_insert_Some in Ea as [[<- <-]|[Na Ea]], Eb as [[<- ?]|[Nb Eb]]; try done.
      * apply H1 in Eb. lia.
      * apply H1 in Ea. lia.
      * by eapply H2.
    + intros size' pid' E'. apply lookup_insert_Some in E' as [[_ <-]|[_ E']]; [by rewrite H4|by apply H3].
    + intros pid' Hge. apply H4. lia.
  - intros size' pid' E'. rewrite lookup_insert_ne; [done|]. intros <-. congruence.
Qed.

Lemma pooled_add p pid b : pooled (setContent p pid (contentOf p pid ++ [b])) ≡ₚ b :: pooled p.
Proof.
  apply (Permutation_app_inv_l (contentOf p pid)). rewrite <- pooled_set, <- app_assoc. done.
Qed.

Lemma pooled_remove p pid l b l' : contentOf p pid = l ++ b :: l' -> pooled p ≡ₚ b :: pooled (setContent p pid (l ++ l')).
Proof.
  intros E. apply (Permutation_app_inv_l (l ++ l')). rewrite (pooled_set p pid), E.
  by rewrite <- !Permutation_middle.
Qed.

Lemma all_put s k buf pid :
  al_threads s !! k = Some (APool (CallPut buf) pid) ->
  allBufs s ≡ₚ allBufs (aset s (setContent (al_pool s) pid (contentOf (al_pool s) pid ++ [buf])) k AIdle).
Proof.
  intros E. pose proof (inflight_set s (setContent (al_pool s) pid (contentOf (al_pool s) pid ++ [buf])) k _ AIdle E) as H.
  unfold allBufs. cbn [inflight inCall app aset al_held al_pool al_threads] in *. rewrite H, pooled_add. cbn [app]. by rewrite <- !Permutation_middle.
Qed.

Lemma all_hit s k size pid l buf l' b :
  al_threads s !! k = Some (APool (CallGet size) pid) -> contentOf (al_pool s) pid = l ++ buf :: l' ->
  exists rest, allBufs s ≡ₚ buf :: rest /\ allBufs (aset s (setContent (al_pool s) pid (l ++ l')) k (AGot size b)) ≡ₚ b :: rest.
Proof.
  intros E Ec. exists (concat (map inflight (al_threads s)) ++ al_held s ++ pooled (setContent (al_pool s) pid (l ++ l'))).
  pose proof (inflight_set s (setContent (al_pool s) pid (l ++ l')) k _ (AGot size b) E) as H.
  unfold allBufs. cbn [inflight inCall app aset al_held al_pool al_threads] in *. split; [|by rewrite <- H].
  rewrite (pooled_remove _ _ _ _ _ Ec). by rewrite <- !Permutation_middle.
Qed.

Lemma all_take s l buf l' : al_held s = l ++ buf :: l' -> allBufs s ≡ₚ buf :: allBufs (ahold s (l ++ l')).
Proof. intros E. unfold allBufs. rewrite E. cbn [ahold al_threads al_held al_pool]. rewrite <- app_assoc. cbn [app]. rewrite <- !Permutation_middle. by rewrite <- app_assoc. Qed.

Lemma all_give s buf : allBufs (ahold s (al_held s ++ [buf])) ≡ₚ buf :: allBufs s.
Proof. unfold allBufs. cbn [ahold al_threads al_held al_pool]. rewrite <- !app_assoc. cbn [app]. by rewrite <- !Permutation_middle. Qed.

Lemma thread_at s k x : apool_inv s -> al_threads s !! k = Some x -> thread_ok (al_pool s) x.
Proof. intros [_ _ H] E. by eapply Forall_lookup_1 in H. Qed.

(** A goroutine moves on inside a call: its buffers stay. *)
Lemma inv_move s p k x y :
  apool_inv s -> al_threads s !! k = Some x -> inflight x = inflight y -> pools_ok p -> pooled p = pooled (al_pool s) ->
  (forall size pid, ap_pools (al_pool s) !! size = Some pid -> ap_pools p !! size = Some pid) -> thread_ok p y -> apool_inv (aset s p k y).
Proof.
  intros [H1 H2 H3] E Hxy Hp Hpl Hg Hy. split; [|done|by apply threads_set]. cbn [aset al_fresh].
  pose proof (all_thread s p k x y E Hpl) as H. rewrite Hxy in H. apply Permutation_app_inv_l in H. by rewrite <- H.
Qed.

Lemma newBuffer_ok raw size b : 0 < size -> NewAlignedBlockBuffer raw size = Some b -> zlen (buf_data b) = size /\ buf_addr b mod BlockSize = 0.
Proof.
  intros Hs E. destruct (NewAlignedBlockBuffer_spec raw size ltac:(lia)) as (b' & E' & Hd & Ha). rewrite E in E'. injection E' as <-.
  rewrite Hd, zlen_make by lia. auto.
Qed.

Lemma apool_step_inv s s' : apool_step s s' -> apool_inv s -> apool_inv s'.
Proof.
  intros Hs Hi. pose proof Hi as [H1 H2 H3]. destruct Hs as [s k size E Hz|s k size E Hz|s k l buf l' n E Eh Hn|s k c pid E Ep|s k c E Ep|s k c p pid E Ep
    |s k buf pid E|s k size pid l buf l' E Ec|s k size pid E|s k size raw b E Eb|s k size buf E|s pid l buf l' Ec]; [done|..].
  - eapply inv_move; try done. by apply (pools_ok_same (al_pool s)).
  - rewrite (all_take s l buf l' Eh) in H1. apply (bufs_ok_reslice _ buf n) in H1; [|lia]. pose proof (all_thread (ahold s (l ++ l')) (addPut (al_pool s)) k AIdle
      (ALookup (CallPut (mkAbuf (ab_id buf) (ab_addr buf) n))) E eq_refl) as Hp. cbn [inflight inCall app] in Hp. rewrite Hp in H1.
    split; [done|by apply (pools_ok_same (al_pool s))|]. apply (threads_set (ahold s (l ++ l'))); [done|done|]. unfold thread_ok, call_ok. simpl. lia.
  - eapply inv_move; try done. split; [by apply (thread_at s k (ALookup c))|done].
  - eapply inv_move; try done. by apply (thread_at s k (ALookup c)).
  - destruct (lockedPool_spec _ _ _ _ H2 Ep) as (Hp1 & Hp2 & Hp3 & Hp4). eapply inv_move; try done. split; [by apply (thread_at s k (ALock c))|done].
  - pose proof (thread_at s k _ Hi E) as [Hc Hp]. split; [cbn [aset al_fresh]; by rewrite <- (all_put s k buf pid E)| |by apply threads_set].
    eapply pools_ok_content; [exact Hp| |done]. apply Forall_app. split; [by apply (po_len _ H2)|]. by repeat constructor.
  - pose proof (thread_at s k _ Hi E) as [Hc Hp]. unfold call_ok in Hc. cbn [callSize] in Hc, Hp.
    destruct (all_hit s k size pid l buf l' (mkAbuf (ab_id buf) (ab_addr buf) size) E Ec) as (rest & R1 & R2).
    split; [cbn [aset al_fresh]; rewrite R2; rewrite R1 in H1; by apply bufs_ok_reslice|by eapply pools_ok_drop|by apply threads_set].
  - eapply inv_move; try done. by apply (thread_at s k (APool (CallGet size) pid)).
  - pose proof (thread_at s k _ Hi E) as Hz. cbn in Hz. destruct (newBuffer_ok raw size b Hz Eb) as [Hl Ha].
    pose proof (all_thread (afresh s) (addNew (al_pool s)) k _ (AGot size (mkAbuf (al_fresh s) (buf_addr b) (zlen (buf_data b)))) E eq_refl) as Hp.
    cbn [inflight app] in Hp. split; [cbn [aset afresh al_fresh]; rewrite <- Hp; apply bufs_ok_new; [lia|done|exact H1]|by apply (pools_ok_same (al_pool s))|].
    by apply (threads_set (afresh s)).
  - pose proof (all_thread (ahold s (al_held s ++ [buf])) (al_pool s) k _ AIdle E eq_refl) as Hp. cbn [inflight app] in Hp. rewrite all_give in Hp.
    apply Permutation_cons_inv in Hp. split; [cbn [aset ahold al_fresh]; by rewrite <- Hp|done|]. by apply (threads_set (ahold s (al_held s ++ [buf]))).
  - pose proof (pooled_remove _ _ _ _ _ Ec) as Hp. split; [|by eapply pools_ok_drop|done]. unfold allBufs in *. cbn [al_threads al_held al_pool al_fresh] in *.
    rewrite Hp in H1. rewrite <- !Permutation_middle in H1. by eapply bufs_ok_drop.
Qed.

Lemma apool_reachable n s : rtc apool_step (asysStart n) s -> apool_inv s.
Proof.
  revert s. apply rtc_ind_r; [|intros y z _ Hs Hi; by eapply apool_step_inv].
  assert (Hc : concat (map inflight (replicate n AIdle)) = []) by (induction n; done).
  split; unfold allBufs, pooled; cbn; [|split; cbn; done|by apply Forall_replicate]. rewrite Hc, map_to_list_empty. split; constructor.
Qed.

(** How many steps a goroutine still has in its call. *)
Definition stepsLeft (x : athread) : nat :=
  match x with AIdle => 0 | AGot _ _ => 1 | ANew _ => 2 | APool _ _ => 3 | ALock _ => 4 | ALookup _ => 5 end.

Lemma call_progress s k x :
  apool_inv s -> al_threads s !! k = Some x -> x <> AIdle ->
  exists s' y, apool_step s s' /\ al_threads s' = <[k := y]> (al_threads s) /\ (stepsLeft y < stepsLeft x)%nat.
Proof.
  intros Hi E Hx. destruct x as [|c|c|[size|buf] pid|size|size buf]; [done|..].
  - destruct (ap_pools (al_pool s) !! callSize c) as [pid|] eqn:Ep; eexists _, _; (split; [by econstructor|]); split; (done || (simpl; lia)).
  - destruct (lockedPool (al_pool s) (callSize c)) as [p pid] eqn:Ep. eexists _, _. split; [by eapply lock_pool|]. split; [done|simpl; lia].
  - eexists _, _. split; [by eapply pool_miss|]. split; [done|simpl; lia].
  - eexists _, _. split; [by eapply pool_put|]. split; [done|simpl; lia].
  - pose proof (thread_at s k _ Hi E) as Hz. cbn in Hz. destruct (NewAlignedBlockBuffer_spec 0 size ltac:(lia)) as (b & Eb & _).
    eexists _, _. split; [by eapply new_buffer|]. split; [done|simpl; lia].
  - eexists _, _. split; [by eapply get_return|]. split; [done|simpl; lia].
Qed.

(** the pool of aligned buffers under concurrent use by goroutines that
    give back only what they got (or the beginning of it).  In every reachable
    state no two buffers share an array, wherever they are; all are aligned;
    what [Get] returns has the size asked for; a pooled buffer has the size of
    its pool, so the reslice is in range; two goroutines that found a pool
    found the same one exactly if their sizes agree, although [getPool] looks
    twice; and no call ever blocks: it ends after at most five of its own
    steps. *)
Theorem aligned_pool_exclusive n s :
  rtc apool_step (asysStart n) s ->
  NoDup (map ab_id (allBufs s)) /\ Forall (fun b => 0 < ab_len b /\ ab_addr b mod BlockSize = 0) (allBufs s) /\
  (forall k size buf, al_threads s !! k = Some (AGot size buf) -> ab_len buf = size) /\
  (forall k size pid buf, al_threads s !! k = Some (APool (CallGet size) pid) -> buf ∈ contentOf (al_pool s) pid -> ab_len buf = size) /\
  (forall k k' c c' pid pid', al_threads s !! k = Some (APool c pid) -> al_threads s !! k' = Some (APool c' pid') ->
     (callSize c = callSize c' <-> pid = pid')) /\
  (forall k x, al_threads s !! k = Some x -> x <> AIdle ->
     exists s' y, apool_step s s' /\ al_threads s' = <[k := y]> (al_threads s) /\ (stepsLeft y < stepsLeft x)%nat).
Proof.
  intros Hr. pose proof (apool_reachable n s Hr) as Hi. pose proof Hi as [[H1 H2] H3 _]. split; [done|].
  split; [eapply Forall_impl; [exact H2|]; by intros b (_ & ? & ?)|]. split; [intros k size buf E; exact (thread_at s k _ Hi E)|]. split; [|split].
  - intros k size pid buf E Hb. destruct (thread_at s k _ Hi E) as [_ Hp]. pose proof (po_len _ H3 _ _ Hp) as HF. rewrite Forall_forall in HF. by apply HF.
  - intros k k' c c' pid pid' E E'. destruct (thread_at s k _ Hi E) as [_ Hp], (thread_at s k' _ Hi E') as [_ Hp'].
    split; [intros Heq; rewrite Heq in Hp; congruence|intros ->; by eapply po_inj].
  - intros k x. by apply call_progress.
Qed.

(** Two goroutines ask for the same size at once, and both miss the lookup. *)
Definition demoAsys : asys :=
  mkAsys (mkAligned {[ 4096 := 0%nat ]} ∅ 1 2 1 0) [AGot 4096 (mkAbuf 0 4096 4096); APool (CallGet 4096) 0] [] 1.

Lemma demoAsys_reachable : rtc apool_step (asysStart 2) demoAsys.
Proof.
  eapply rtc_l; [eapply (get_call _ 0 4096); [reflexivity|lia]|]. eapply rtc_l; [eapply (get_call _ 1 4096); [reflexivity|lia]|].
  eapply rtc_l; [eapply (lookup_miss _ 0); reflexivity|]. eapply rtc_l; [eapply (lookup_miss _ 1); reflexivity|].
  eapply rtc_l; [eapply (lock_pool _ 0); reflexivity|]. eapply rtc_l; [eapply (lock_pool _ 1); reflexivity|].
  eapply rtc_l; [eapply (pool_miss _ 0); reflexivity|].
  eapply rtc_l; [eapply (new_buffer _ 0 4096 100); [reflexivity|vm_compute; reflexivity]|]. apply rtc_refl.
Qed.

Lemma aligned_pool_exclusive_witness :
  NoDup (map ab_id (allBufs demoAsys)) /\ (4096 = 4096 <-> 0%nat = 0%nat) /\
  exists s' y, apool_step demoAsys s' /\ al_threads s' = <[1%nat := y]> (al_threads demoAsys) /\ (stepsLeft y < 3)%nat.
Proof.
  destruct (aligned_pool_exclusive 2 demoAsys demoAsys_reachable) as (H1 & _ & _ & _ & _ & H).
  split; [exact H1|]. split; [split; reflexivity|]. apply (H 1%nat (APool (CallGet 4096) 0)); [reflexivity|discriminate].
Defined.
