(* ===== verification/IoBench.v ===== *)
(** * The I/O benchmark

    [cmd/io_uring_test]: the size argument, the aligned buffer, the file it
    prepares, and the workers of the three phases ([syncWorker],
    [iouringWorker], [goaioWorker]), which differ only in the call that does
    the transfer.  A phase is the step relation [iob_step] of workers that
    share the counters and the channel [stop].  The theorems: the prepared file
    is the pattern it means to be, every request is block-aligned and in range,
    and the numbers a phase returns are those of the requests it made. *)

From stdpp Require Import base decidable list numbers option strings relations.
From Stdlib Require Import ZArith Lia.
From S2P Require Import Prelude Schedules Words Bytes Moss Pebble SpaceBitmap AioChannel GoStrings.

(** ** Arguments *)

(** [strings.ToLower] of ASCII text. *)
Definition asciiLower (s : bytes) : bytes := map (fun c => if (65 <=? c) && (c <=? 90) then c + 32 else c) s.

Definition lastIs (s : bytes) (c : Z) : bool := match last s with Some x => x =? c | None => false end.

(** [None] is the exit with status 1. *)
Definition parseBS (s : bytes) : option Z :=
  let s := TrimSpace (asciiLower s) in
  let '(mul, s) :=
    if lastIs s 103 then (2 ^ 30, take (length s - 1) s)
    else if lastIs s 109 then (2 ^ 20, take (length s - 1) s)
    else if lastIs s 107 then (2 ^ 10, take (length s - 1) s)
    else (1, s) in
  n ← ParseInt s;
  if n <=? 0 then None else Some (i64 (n * mul)).

(** [strings.Contains(op, "write")]. *)
Definition isWriteOp (op : bytes) : bool := bool_decide (is_Some (splitFirst op (bs "write"))).
Definition isRandomOp (op : bytes) : bool := hasPrefix op (bs "rand").

Definition O_RDONLY : Z := 0.
Definition O_RDWR : Z := 2.
Definition O_DIRECT : Z := 16384.

Definition openFlags (write direct : bool) : Z :=
  let flags := if write then O_RDWR else O_RDONLY in
  if direct then Z.lor flags O_DIRECT else flags.

(** The phases [main] runs for a mode. *)
Inductive phase := PhSync | PhIOUring | PhGoAIO.

Definition phases (mode : string) : list phase :=
  (if decide (mode = "sync" \/ mode = "both" \/ mode = "all")%string then [PhSync] else []) ++
  (if decide (mode = "iouring" \/ mode = "both" \/ mode = "all")%string then [PhIOUring] else []) ++
  (if decide (mode = "goaio" \/ mode = "all")%string then [PhGoAIO] else []).

(** Whether [main] prepares the file, [None] being its refusal. *)
Definition prepares (noPrep isBlockDevice : bool) : option bool :=
  if noPrep then Some false else if isBlockDevice then None else Some true.

(** [addr] is the address of the block [make] returned. *)
Definition alignedBuffer (addr size alignment : Z) : option buffer :=
  if size <=? 0 then Some (mkBuffer 0 [])
  else
    raw ← makeSlice (size + alignment - 1) 0;
    let r := addr mod alignment in
    let start := if negb (r =? 0) then alignment - r else 0 in
    data ← slice raw start (start + size);
    Some (mkBuffer (addr + start) data).

(** ** The prepared file *)

Definition chunkSize : Z := 2 ^ 20.

Definition prepBuf : bytes := map (fun i => Z.land i 255) (seqZ 0 chunkSize).

(** [write i chunk] is the answer of the [i]-th [f.Write]; [inl] of the result
    is the exit on its error, with what the file has then. *)
Fixpoint prepLoop (fuel : nat) (write : nat -> Z -> Z * option error) (i : nat) (size written : Z) (file : bytes) : option (bytes * (error + Z)) :=
  if written <? size then
    match fuel with
    | O => None
    | S fuel =>
        let chunk := if chunkSize <? size - written then chunkSize else size - written in
        data ← slice prepBuf 0 chunk;
        let '(n, err) := write i chunk in
        let file := file ++ take (Z.to_nat n) data in
        match err with
        | Some e => Some (file, inl e)
        | None => prepLoop fuel write (S i) size (written + n) file
        end
    end
  else Some (file, inr written).

(** [sync] is the answer of [f.Sync]. *)
Definition prepFile (write : nat -> Z -> Z * option error) (sync : option error) (size : Z) : option (bytes * (error + Z)) :=
  '(file, r) ← prepLoop (Z.to_nat size) write 0 size 0 [];
  match r, sync with
  | inl e, _ => Some (file, inl e)
  | inr written, Some e => Some (file, inl e)
  | inr written, None => Some (file, inr written)
  end.

(** ** The workers *)

Definition fileBlocksOf (fileSize bsz : Z) : Z := let n := fileSize ÷ bsz in if n <? 1 then 1 else n.

(** The depth of the ring of [runIOUring]. *)
Definition ringDepth (qDepth concur : Z) : Z := if qDepth <? concur * 2 then concur * 2 else qDepth.

(** The offset of the next request and the new [seqOffset]; [rnd] is the
    answer of [rand.Int64N(fileBlocks)]. *)
Definition nextOffset (isRandom : bool) (rnd bsz fileBlocks seqOffset : Z) : Z * Z :=
  if isRandom then (i64 (rnd * bsz), seqOffset)
  else
    let next := i64 (seqOffset + bsz) in
    (seqOffset, if i64 (fileBlocks * bsz) <=? next then 0 else next).

(** At the top of the loop; waiting for a transfer; returned. *)
Inductive ioWorker := IwLoop (seqOffset : Z) | IwBusy (offset seqOffset : Z) | IwDone.

(** [io_log] records the requests that ended: the offset and the number of
    bytes, or the error. *)
Record iobench := mkIobench {
  io_workers : list ioWorker; io_stop : bool; io_ops : Z; io_bytes : Z; io_errors : Z;
  io_log : list (Z * (error + Z)); io_ret : option (Z * Z * Z) }.

Definition iobStart (bsz : Z) (concur : nat) : iobench :=
  mkIobench (map (fun k => IwLoop (i64 (Z.of_nat k * bsz))) (seq 0 concur)) false 0 0 0 [] None.

Definition set_ioWorker (s : iobench) (k : nat) (x : ioWorker) : iobench :=
  mkIobench (<[k := x]> (io_workers s)) (io_stop s) (io_ops s) (io_bytes s) (io_errors s) (io_log s) (io_ret s).
Definition countOp (s : iobench) (off n : Z) : iobench :=
  mkIobench (io_workers s) (io_stop s) (i64 (io_ops s + 1)) (i64 (io_bytes s + n)) (io_errors s) (io_log s ++ [(off, inr n)]) (io_ret s).
Definition countError (s : iobench) (off : Z) (e : error) : iobench :=
  mkIobench (io_workers s) (io_stop s) (io_ops s) (io_bytes s) (i64 (io_errors s + 1)) (io_log s ++ [(off, inl e)]) (io_ret s).
Definition closeStop (s : iobench) : iobench :=
  mkIobench (io_workers s) true (io_ops s) (io_bytes s) (io_errors s) (io_log s) (io_ret s).
Definition snapshot (s : iobench) : Z * Z * Z := (io_ops s, io_bytes s, io_errors s).
Definition set_ret (s : iobench) : iobench :=
  mkIobench (io_workers s) (io_stop s) (io_ops s) (io_bytes s) (io_errors s) (io_log s) (Some (snapshot s)).

(** [transfer off r]: whether the file may answer [r] to a request at [off]. *)
Inductive iob_step (isRandom : bool) (bsz fileBlocks : Z) (transfer : Z -> error + Z -> Prop) : iobench -> iobench -> Prop :=
  | iw_issue s k seq rnd : io_workers s !! k = Some (IwLoop seq) -> io_stop s = false -> 0 <= rnd < fileBlocks ->
      iob_step isRandom bsz fileBlocks transfer s
        (set_ioWorker s k (let '(off, seq) := nextOffset isRandom rnd bsz fileBlocks seq in IwBusy off seq))
  | iw_ok s k off seq n : io_workers s !! k = Some (IwBusy off seq) -> transfer off (inr n) ->
      iob_step isRandom bsz fileBlocks transfer s (set_ioWorker (countOp s off n) k (IwLoop seq))
  | iw_error s k off seq e : io_workers s !! k = Some (IwBusy off seq) -> transfer off (inl e) ->
      iob_step isRandom bsz fileBlocks transfer s (set_ioWorker (countError s off e) k (IwLoop seq))
  | iw_stop s k seq : io_workers s !! k = Some (IwLoop seq) -> io_stop s = true ->
      iob_step isRandom bsz fileBlocks transfer s (set_ioWorker s k IwDone)
  | io_timeout s : io_stop s = false -> iob_step isRandom bsz fileBlocks transfer s (closeStop s)
  | io_return s : io_stop s = true -> io_ret s = None -> Forall (eq IwDone) (io_workers s) ->
      iob_step isRandom bsz fileBlocks transfer s (set_ret s).

(** ** Arguments and buffers *)

(** The benchmark's buffer is the channel's. *)
Lemma alignedBuffer_channel addr size : alignedBuffer addr size 4096 = NewAlignedBlockBuffer addr size.
Proof.
  unfold alignedBuffer, NewAlignedBlockBuffer. change BlockSize with 4096. case_bool; [done|]. destruct (makeSlice (size + 4096 - 1) 0); [|done].
  go_step. by destruct (addr mod 4096 =? 0).
Qed.

Lemma lastIs_app s c c' : lastIs (s ++ [c]) c' = (c =? c').
Proof. unfold lastIs. by rewrite last_snoc. Qed.

(** ** The prepared file *)

(** The first [n] bytes of the pattern. *)
Definition patternBytes (n : Z) : bytes := map (fun j => Z.land j 255) (seqZ 0 n).

Lemma prepBuf_pattern : prepBuf = patternBytes chunkSize.
Proof. unfold prepBuf, patternBytes. exact eq_refl. Qed.

Lemma zlen_patternBytes n : 0 <= n -> zlen (patternBytes n) = n.
Proof. intros. unfold zlen, patternBytes. rewrite length_map, length_seqZ. lia. Qed.

Lemma land_255 j : Z.land j 255 = j mod 256.
Proof. apply (Z.land_ones j 8). lia. Qed.

(** After a whole number of chunks the pattern starts again. *)
Lemma patternBytes_app w n : 0 <= w -> 0 <= n -> w mod chunkSize = 0 -> patternBytes (w + n) = patternBytes w ++ patternBytes n.
Proof.
  intros Hw Hn Hm. unfold patternBytes. rewrite (seqZ_app 0 w n) by lia. rewrite map_app. f_equal. rewrite <- (Z.add_0_r (0 + w)), <- fmap_add_seqZ.
  rewrite map_map. apply map_ext. intros j. rewrite !land_255, Z.add_0_l. unfold chunkSize in Hm. rewrite <- Zplus_mod_idemp_l.
  assert (Hw0 : w mod 256 = 0) by (apply Z.mod_divide in Hm as [q ->]; [|lia]; change (2 ^ 20) with (4096 * 256); rewrite Z.mul_assoc; apply Z.mod_mul; lia).
  by rewrite Hw0.
Qed.

Lemma take_patternBytes n m : 0 <= n <= m -> take (Z.to_nat n) (patternBytes m) = patternBytes n.
Proof.
  intros H. unfold patternBytes. replace m with (n + (m - n)) by lia. rewrite (seqZ_app 0 n) by lia. rewrite map_app, take_app_length'; [done|].
  by rewrite length_map, length_seqZ.
Qed.

Section prep.
Context (write : nat -> Z -> Z * option error).

(** [io.Writer]: at most the buffer is written, and less only with an error. *)
Hypothesis Hwrite : forall i chunk n err, 0 < chunk -> write i chunk = (n, err) -> 0 <= n <= chunk /\ (err = None -> n = chunk).

Lemma prepLoop_spec size fuel : forall i written,
  0 <= written <= size -> (Z.to_nat (size - written) <= fuel)%nat -> (written = size \/ written mod chunkSize = 0) ->
  exists m r, prepLoop fuel write i size written (patternBytes written) = Some (patternBytes m, r) /\ 0 <= m <= size /\
    match r with inl _ => True | inr total => total = size /\ m = size end.
Proof.
  induction fuel as [|fuel IH]; intros i written Hw Hf Hm; cbn [prepLoop]; (destruct (written <? size) eqn:E; bool_norm;
    [|exists size, (inr written); assert (written = size) as -> by lia; done]); [lia|].
  destruct Hm as [->|Hm]; [lia|]. set (chunk := if chunkSize <? size - written then chunkSize else size - written).
  assert (Hc : 0 < chunk /\ written + chunk <= size /\ chunk <= chunkSize /\ (written + chunk = size \/ chunk = chunkSize))
    by (unfold chunk, chunkSize; case_bool; lia). clearbody chunk. destruct Hc as (Hc1 & Hc2 & Hc3 & Hc4).
  pose proof (slice_take (patternBytes chunkSize) 0 chunk) as Es. rewrite Z.add_0_l in Es.
  rewrite prepBuf_pattern, Es by (rewrite ?zlen_patternBytes; unfold chunkSize in *; lia). rewrite drop_0, take_patternBytes by lia. go_step. destruct (write i chunk) as [n err] eqn:Ew.
  destruct (Hwrite i chunk n err Hc1 Ew) as [Hn Hfull]. rewrite take_patternBytes, <- patternBytes_app by (done || lia).
  destruct err as [e|]; [exists (written + n), (inl e); split; [done|]; split; [lia|done]|]. rewrite (Hfull eq_refl). apply IH; [lia|lia|].
  destruct Hc4 as [->| ->]; [by left|]. right. rewrite <- Zplus_mod_idemp_l, Hm, Z.add_0_l. apply Z_mod_same_full.
Qed.

(** Preparing the file: it ends, and has written the pattern up to the size or
    up to an error. *)
Theorem prepFile_pattern sync size :
  0 <= size ->
  exists m r, prepFile write sync size = Some (patternBytes m, r) /\ 0 <= m <= size /\ match r with inl _ => True | inr total => total = size /\ m = size end.
Proof.
  intros Hs. unfold prepFile. change ([] : bytes) with (patternBytes 0).
  destruct (prepLoop_spec size (Z.to_nat size) 0 0) as (m & r & -> & Hm & Hr); [lia|lia|by right|]. go_step.
  destruct r as [e|total], sync; eexists m, _; done.
Qed.
End prep.

(** ** The workers *)

Lemma i64_add_l a b : i64 (i64 a + b) = i64 (a + b).
Proof. unfold i64. f_equal. replace ((a + 2 ^ 63) mod 2 ^ 64 - 2 ^ 63 + b + 2 ^ 63) with ((a + 2 ^ 63) mod 2 ^ 64 + b) by lia.
  rewrite Zplus_mod_idemp_l. f_equal. lia. Qed.

(** The sizes of the requests that succeeded, and the errors of the others. *)
Definition oks (log : list (Z * (error + Z))) : list Z := omap (fun e => match e.2 with inr n => Some n | inl _ => None end) log.
Definition errs (log : list (Z * (error + Z))) : list error := omap (fun e => match e.2 with inl e => Some e | inr _ => None end) log.
Definition total (l : list Z) : Z := foldr Z.add 0 l.

Lemma total_app l l' : total (l ++ l') = total l + total l'.
Proof. induction l; [done|]. unfold total in *. cbn. lia. Qed.

Section workers.
Context (isRandom : bool) (bsz fileBlocks : Z) (transfer : Z -> error + Z -> Prop) (concur : nat).
Hypothesis Hbsz : 0 < bsz.
Hypothesis Hblocks : 0 < fileBlocks.
Abbreviation reach := (Z.max fileBlocks (Z.of_nat concur)).
Hypothesis Hbound : reach * bsz < 2 ^ 63.
Abbreviation step := (iob_step isRandom bsz fileBlocks transfer).

(** A block of the file, or where a sequential worker started. *)
Definition offset_ok (off : Z) : Prop := exists q, off = q * bsz /\ 0 <= q < reach.

Definition ioWorker_ok (x : ioWorker) : Prop :=
  match x with IwLoop seq => offset_ok seq | IwBusy off seq => offset_ok off /\ offset_ok seq | IwDone => True end.

Lemma nextOffset_ok rnd seq : 0 <= rnd < fileBlocks -> offset_ok seq ->
  offset_ok (nextOffset isRandom rnd bsz fileBlocks seq).1 /\ offset_ok (nextOffset isRandom rnd bsz fileBlocks seq).2.
Proof.
  intros Hr Hs. unfold nextOffset. destruct isRandom; cbn [fst snd].
  { rewrite i64_small by (unfold is_i64; nia). split; [exists rnd; lia|done]. }
  split; [done|]. destruct Hs as (q & -> & Hq). rewrite (i64_small (fileBlocks * bsz)) by (unfold is_i64; nia).
  rewrite i64_small by (unfold is_i64; nia). case_bool; [exists 0; lia|]. exists (q + 1). split; [lia|]. nia.
Qed.

Record iob_inv (s : iobench) : Prop := {
  ib_workers : Forall ioWorker_ok (io_workers s);
  ib_log : Forall (fun e => offset_ok e.1 /\ transfer e.1 e.2) (io_log s);
  ib_ops : io_ops s = i64 (zlen (oks (io_log s)));
  ib_bytes : io_bytes s = i64 (total (oks (io_log s)));
  ib_errors : io_errors s = i64 (zlen (errs (io_log s)));
  ib_ret : forall r, io_ret s = Some r -> r = snapshot s /\ Forall (eq IwDone) (io_workers s) /\ io_stop s = true;
}.

Lemma busy_not_returned s k x : iob_inv s -> io_workers s !! k = Some x -> x <> IwDone -> io_ret s = None.
Proof.
  intros Hi E Hx. destruct (io_ret s) as [r|] eqn:Er; [|done]. destruct (ib_ret _ Hi r Er) as (_ & HF & _). by eapply Forall_lookup_1 in HF; [|exact E].
Qed.

Lemma iob_worker s k x y : iob_inv s -> io_workers s !! k = Some x -> x <> IwDone -> ioWorker_ok y -> iob_inv (set_ioWorker s k y).
Proof.
  intros Hi E Hx Hy. pose proof (busy_not_returned s k x Hi E Hx) as Hn. destruct Hi as [H1 H2 H3 H4 H5 H6]. split; cbn; try done; [by apply Forall_insert|].
  intros r Er. congruence.
Qed.

Lemma iob_count s off r : iob_inv s -> io_ret s = None -> offset_ok off -> transfer off r ->
  iob_inv (match r with inr n => countOp s off n | inl e => countError s off e end).
Proof.
  intros [H1 H2 H3 H4 H5 H6] Hn Ho Ht. assert (HF : Forall (fun e => offset_ok e.1 /\ transfer e.1 e.2) (io_log s ++ [(off, r)])) by (apply Forall_app; split; [done|by constructor]).
  unfold oks, errs in *. destruct r as [e|n]; split; cbn [countOp countError io_workers io_log io_ops io_bytes io_errors io_ret io_stop]; unfold oks, errs; try done;
    rewrite ?omap_app, ?app_nil_r; cbn [omap list_omap snd]; rewrite ?app_nil_r, ?H3, ?H4, ?H5, ?i64_add_l, ?total_app; try done; try (intros ? ?; congruence);
    f_equal; unfold zlen, total; rewrite ?length_app; cbn; lia.
Qed.

Lemma iob_step_inv s s' : step s s' -> iob_inv s -> iob_inv s'.
Proof.
  intros Hs Hi. destruct Hs as [s k seq rnd E Hst Hr|s k off seq n E Ht|s k off seq e E Ht|s k seq E Hst|s Hst|s Hst Hn HF].
  - pose proof (Forall_lookup_1 _ _ _ _ (ib_workers _ Hi) E) as Hw. cbn in Hw. pose proof (nextOffset_ok rnd seq Hr Hw) as Hx.
    eapply iob_worker; [done|done|done|]. by destruct (nextOffset isRandom rnd bsz fileBlocks seq).
  - destruct (Forall_lookup_1 _ _ _ _ (ib_workers _ Hi) E) as [Ho Hq]. eapply (iob_worker (countOp s off n)); [|exact E|done|done].
    apply (iob_count s off (inr n)); try done. by eapply busy_not_returned.
  - destruct (Forall_lookup_1 _ _ _ _ (ib_workers _ Hi) E) as [Ho Hq]. eapply (iob_worker (countError s off e)); [|exact E|done|done].
    apply (iob_count s off (inl e)); try done. by eapply busy_not_returned.
  - by eapply iob_worker.
  - destruct Hi as [H1 H2 H3 H4 H5 H6]. split; cbn; try done. intros r Er. destruct (H6 r Er) as (-> & ? & _). done.
  - destruct Hi as [H1 H2 H3 H4 H5 H6]. split; cbn; try done. by intros r [= <-].
Qed.

Lemma iob_reachable s : rtc step (iobStart bsz concur) s -> iob_inv s.
Proof.
  revert s. apply rtc_ind_r; [|intros y z _ Hs Hi; by eapply iob_step_inv]. split; cbn; try done. apply Forall_forall. intros x Hx.
  apply list_elem_of_In, in_map_iff in Hx as (k & <- & Hk). apply in_seq in Hk. cbn. exists (Z.of_nat k). split; [|lia]. apply i64_small. unfold is_i64. nia.
Qed.

Definition weight_io (x : ioWorker) : nat := match x with IwLoop _ => 1 | IwBusy _ _ => 2 | IwDone => 0 end.
Definition weight_iob (s : iobench) : nat := sum_list_with weight_io (io_workers s) + (if io_ret s is Some _ then 0 else 1).

(** After [stop] is closed no run is infinite. *)
Lemma iob_terminates s : io_stop s = true -> Acc (flip step) s.
Proof.
  revert s. apply (Acc_measure_inv _ (fun s => io_stop s = true) weight_iob). intros s s' Hst Hs. unfold weight_iob.
  destruct Hs as [s k seq rnd E Hf Hr|s k off seq n E Ht|s k off seq e E Ht|s k seq E _|s Hf|s _ Hn HF]; try congruence; cbn; (split; [done|]);
    try (match goal with |- context [<[_ := ?y]> _] => pose proof (sum_list_insert weight_io _ _ _ y E) end; cbn [weight_io] in *; lia).
  rewrite Hn. lia.
Qed.

#[local] Instance ioWorker_eq_dec : EqDecision ioWorker.
Proof. solve_decision. Defined.

Lemma iob_progress s : (forall off, exists r, transfer off r) -> io_stop s = true -> (exists s', step s s') \/ is_Some (io_ret s).
Proof.
  intros Ht Hst. destruct (io_ret s) as [r|] eqn:Er; [right; eauto|]. left.
  destruct (all_or_not IwDone (io_workers s)) as [HF|(k & x & E & Hx)]; [eexists; by apply io_return|].
  destruct x as [seq|off seq|]; [eexists; by eapply iw_stop| |done]. destruct (Ht off) as [[e|n] Hr]; eexists; [by eapply iw_error|by eapply iw_ok].
Qed.
End workers.

Lemma fileBlocksOf_bound fileSize bsz : 0 < bsz -> 0 <= fileSize -> 0 < fileBlocksOf fileSize bsz /\ (bsz <= fileSize -> fileBlocksOf fileSize bsz * bsz <= fileSize).
Proof. intros Hb Hf. unfold fileBlocksOf. rewrite Z.quot_div_nonneg by lia. case_bool; [split; [lia|]; intros H|split; [lia|intros _; dlia]]. lia. Qed.

Lemma log_lengths log : (length (oks log) + length (errs log) = length log)%nat.
Proof. unfold oks, errs. induction log as [|[off [e|n]] log IH]; [done|..]; cbn in *; lia. Qed.

(** A phase of the benchmark, in every schedule of its workers and under every
    answer of the file: each request is a whole block at a block boundary, and
    it lies inside the file if the file has a block for every worker; once
    [stop] is closed the phase comes to its end and cannot block; and the
    numbers it returns are the requests that succeeded, their bytes and the
    requests that failed, which are all. *)
Theorem io_phase_correct isRandom fileSize bsz concur transfer s :
  0 < bsz -> 0 <= fileSize -> Z.max (fileBlocksOf fileSize bsz) (Z.of_nat concur) * bsz < 2 ^ 63 ->
  rtc (iob_step isRandom bsz (fileBlocksOf fileSize bsz) transfer) (iobStart bsz concur) s ->
  Forall (fun e => e.1 mod bsz = 0 /\ 0 <= e.1 /\ transfer e.1 e.2 /\
    (bsz <= fileSize -> Z.of_nat concur * bsz <= fileSize -> e.1 + bsz <= fileSize)) (io_log s) /\
  (io_stop s = true -> Acc (flip (iob_step isRandom bsz (fileBlocksOf fileSize bsz) transfer)) s /\
     ((forall off, exists r, transfer off r) -> (exists s', iob_step isRandom bsz (fileBlocksOf fileSize bsz) transfer s s') \/ is_Some (io_ret s))) /\
  (forall o b e, io_ret s = Some (o, b, e) ->
     o = i64 (zlen (oks (io_log s))) /\ b = i64 (total (oks (io_log s))) /\ e = i64 (zlen (errs (io_log s))) /\
     zlen (oks (io_log s)) + zlen (errs (io_log s)) = zlen (io_log s)).
Proof.
  intros Hb Hf Hm Hr. destruct (fileBlocksOf_bound fileSize bsz Hb Hf) as [Hpos Hin].
  pose proof (iob_reachable isRandom bsz _ transfer concur Hb Hpos Hm s Hr) as [H1 H2 H3 H4 H5 H6]. split; [|split].
  - eapply Forall_impl; [exact H2|]. intros [off r] [(q & -> & Hq) Ht]. cbn in *. split; [apply Z.mod_mul; lia|]. split; [lia|]. split; [done|].
    intros G1 G2. specialize (Hin G1). nia.
  - intros Hst. split; [by apply iob_terminates|]. intros Ht. by apply iob_progress.
  - intros o b e Er. destruct (H6 _ Er) as (Hs & _). unfold snapshot in Hs. injection Hs as -> -> ->. rewrite H3, H4, H5. do 3 (split; [done|]).
    pose proof (log_lengths (io_log s)). unfold zlen. lia.
Qed.

Example parseBS_values : map parseBS [bs "4k"; bs " 1M "; bs "128K"; bs "0"; bs "k"] = [Some 4096; Some 1048576; Some 131072; None; None].
Proof. vm_compute. reflexivity. Qed.
