(* ===== verification/DeviceFile.v ===== *)
(** * Direct access to the device file

    [WriteAt], [ReadAt] and [Sync] of [internal/fs/block_device.go]: the
    synchronous way to the file, beside the AIO channel.  [writeAtFull] repeats
    [os.File.WriteAt] until everything is written. *)

From stdpp Require Import base decidable list numbers option strings.
From Stdlib Require Import ZArith Lia.
From S2P Require Import Prelude Words Bytes Moss Pebble AioChannel ChannelIO ChannelThms.

(** [os.File.WriteAt]: the new disk, the number of bytes written, the error. *)
Class FileWriter (A : AioDisk) := fileWriteAt : disk -> bytes -> Z -> disk * (Z * option error).

(** Its documentation, and what it leaves alone. *)
Class FileWriterLaws (A : AioDisk) (F : FileWriter A) := {
  writeAt_count : forall d p off d' n err, fileWriteAt d p off = (d', (n, err)) -> 0 <= n <= zlen p;
  writeAt_stores : forall d p off d' n err, fileWriteAt d p off = (d', (n, err)) -> readRange d' off n = take (Z.to_nat n) p;
  writeAt_frame : forall d p off d' r q, fileWriteAt d p off = (d', r) -> ~ off <= q < off + zlen p -> diskByte d' q = diskByte d q;
}.

Definition errShort : error := "short write"%string.
Definition errFileClosed : error := "block device file is closed"%string.
Definition errObsolete : error := "PersistBitmapBatch is obsolete; use PersistAllocBatch with allocation results"%string.

Section file.
Context `{FW : FileWriter}.

Fixpoint writeLoop (fuel : nat) (d : disk) (p : bytes) (offset written : Z) : option (disk * (Z * option error)) :=
  if written <? zlen p then
    match fuel with
    | O => None
    | S fuel =>
        rest ← slice p written (zlen p);
        let '(d, (n, err)) := fileWriteAt d rest (offset + written) in
        let written := written + n in
        match err with
        | Some e => Some (d, (written, Some e))
        | None => if n =? 0 then Some (d, (written, Some errShort)) else writeLoop fuel d p offset written
        end
    end
  else Some (d, (written, None)).

Definition writeAtFull (d : disk) (p : bytes) (offset : Z) : option (disk * (Z * option error)) := writeLoop (length p) d p offset 0.

(** [BlockDevice.WriteAt]. *)
Definition deviceWriteAt (d : disk) (p : bytes) (offset : Z) : option (disk * (Z * option error)) := writeAtFull d p offset.
End file.

(** [BlockDevice.ReadAt]. *)
Definition deviceReadAt `{FR : FileReader} (d : disk) (offset n : Z) : bytes * option ioErr := fileReadAt d offset n.

(** [BlockDevice.Sync]; [fsync] is the answer of the system call. *)
Definition deviceSync (open : bool) (fsync : option error) : option error := if open then fsync else Some errFileClosed.

(** [PersistBitmapBatch]. *)
Definition PersistBitmapBatch : option error := Some errObsolete.

Section spec.
Context `{FL : FileWriterLaws}.

Lemma take_grow (p : bytes) (w n : Z) :
  0 <= w -> 0 <= n -> w + n <= zlen p -> take (Z.to_nat w) p ++ take (Z.to_nat n) (drop (Z.to_nat w) p) = take (Z.to_nat (w + n)) p.
Proof. intros. rewrite Z2Nat.inj_add by lia. by rewrite take_take_drop. Qed.

Lemma writeLoop_spec p off fuel : forall d written,
  0 <= written <= zlen p -> (length p <= fuel + Z.to_nat written)%nat -> readRange d off written = take (Z.to_nat written) p ->
  exists d' w err, writeLoop fuel d p off written = Some (d', (w, err)) /\ 0 <= w <= zlen p /\ readRange d' off w = take (Z.to_nat w) p /\
    (err = None -> w = zlen p) /\ forall q, ~ off <= q < off + zlen p -> diskByte d' q = diskByte d q.
Proof.
  induction fuel as [|fuel IH]; intros d written Hw Hf Hs; cbn [writeLoop]; (destruct (written <? zlen p) eqn:E; bool_norm;
    [|exists d, written, None; split_and!; try done; lia]); [unfold zlen in *; lia|].
  pose proof (slice_take p written (zlen p - written)) as Es. rewrite Zplus_minus in Es. rewrite Es by lia. go_step.
  rewrite take_ge by (rewrite length_drop; unfold zlen in *; lia). set (rest := drop (Z.to_nat written) p).
  assert (Hr : zlen rest = zlen p - written) by (unfold rest, zlen in *; rewrite length_drop; lia).
  destruct (fileWriteAt d rest (off + written)) as [d1 [n err]] eqn:Ew. pose proof (writeAt_count _ _ _ _ _ _ Ew) as Hn.
  pose proof (writeAt_stores _ _ _ _ _ _ Ew) as Hst. assert (Hfr : forall q, ~ off <= q < off + zlen p -> diskByte d1 q = diskByte d q)
    by (intros q Hq; apply (writeAt_frame _ _ _ _ _ q Ew); lia).
  assert (Hall : readRange d1 off (written + n) = take (Z.to_nat (written + n)) p).
  { rewrite readRange_add, Hst by lia. rewrite (readRange_ext d1 d off written); [rewrite Hs; apply take_grow; lia|].
    intros q Hq. apply (writeAt_frame _ _ _ _ _ q Ew). lia. }
  destruct err as [e|]; [exists d1, (written + n), (Some e); split_and!; try done; lia|].
  case_bool; [exists d1, (written + n), (Some errShort); split_and!; try done; lia|].
  destruct (IH d1 (written + n)) as (d2 & w & err & E2 & H1 & H2 & H3 & H4); [lia|unfold zlen in *; lia|done|].
  exists d2, w, err. split_and!; try done; [lia..|]. intros q Hq. by rewrite H4, Hfr.
Qed.

(** [WriteAt] of the device always ends; the bytes it counts are on the disk,
    nothing outside the range has changed, and without an error it has written
    everything. *)
Theorem writeAtFull_correct d p off :
  exists d' w err, writeAtFull d p off = Some (d', (w, err)) /\ 0 <= w <= zlen p /\ readRange d' off w = take (Z.to_nat w) p /\
    (err = None -> w = zlen p) /\ forall q, ~ off <= q < off + zlen p -> diskByte d' q = diskByte d q.
Proof. apply writeLoop_spec; [pose proof (zlen_nonneg p); lia|lia|done]. Qed.
End spec.
