(* ===== verification/AioStack.v ===== *)
(** * The channel on top of Linux AIO

    [submitAndWait] and [completionLoop] of [internal/fs/aio_channel.go],
    composed from the calls of [GoAio], over a kernel given by its documented
    behaviour.  The channel's theorems are proved against the class [AioDisk];
    the theorem here shows that this stack implements it, and what is left
    behind by a write whose context ends while it is waited for. *)

From stdpp Require Import base decidable list numbers option strings gmap pretty.
From Stdlib Require Import ZArith Lia.
From S2P Require Import Prelude Words Bytes Pebble AioChannel GoAio GoAioThms.

(** ** The kernel *)

(** [ksubmit] is the answer of [io_submit], [kpwrite] performs the request and
    gives the result of its event, [kchoice] is the order in which Go ranges
    over the free control blocks.  [knoise] is what [io_getevents] answers
    until the event is there, one entry per call of [WaitAnyNotify]: so many
    interruptions, then a time-out ([None]) or an error.  [kerrno] is the text
    of an error number ([syscall.Errno.Error]). *)
Class AioKernel := {
  kstate : Type;
  kbyte : kstate -> Z -> Z;
  ksubmit : kstate -> bytes -> Z -> kstate * (Z * Z);
  kpwrite : kstate -> bytes -> Z -> kstate * Z;
  kchoice : kstate -> gset nat -> option nat;
  knoise : kstate -> list (nat * option Z);
  kerrno : Z -> error;
}.

Class AioKernelLaws (K : AioKernel) := {
  ksubmit_bytes : forall k data off k' r p, ksubmit k data off = (k', r) -> kbyte k' p = kbyte k p;
  kpwrite_result : forall k data off k' res, kpwrite k data off = (k', res) -> is_i64 res /\ res <= zlen data;
  kpwrite_stores : forall k data off k' res, kpwrite k data off = (k', res) ->
    forall i b, data.[i] = Some b -> i < res -> kbyte k' (off + i) = b;
  kpwrite_frame : forall k data off k' res, kpwrite k data off = (k', res) ->
    forall p, ~ off <= p < off + zlen data -> kbyte k' p = kbyte k p;
  kchoice_in : forall k s cb, kchoice k s = Some cb -> cb ∈ s;
  kchoice_none : forall k s, kchoice k s = None -> s = ∅;
  knoise_errors : forall k, Forall (fun e => e.2 <> Some EINTR) (knoise k);
}.

(** ** The channel *)

(** The messages of [goaio]. *)
Definition aioErrText `{K : AioKernel} (e : aio_error) : error :=
  match e with
  | ErrInitFail => "Failed to initailize AIO context" | ErrNotInit => "Not initialized"
  | ErrIoSubFail => "Failed to submit new IO request" | ErrInvalidBuffer => "Invalid buffer"
  | ErrWaitAllFailed => "Failed to wait for all requests to complete"
  | ErrNilCallback => "The kernel returned a nil callback structure.  Fatal error"
  | ErrUntrackedEventKey => "The kernel returned an event key we weren't tracking"
  | ErrInvalidEventPtr => "The kernel returned an invalid callback event pointer"
  | ErrCompletion => "The kernel failed to process all of the request"
  | ErrWhatTheHell => "A callback event occurred but no buffer was put into the pool"
  | ErrNotFound => "ID not found" | ErrNotDone => "Request not finished" | ErrInvalidQueueDepth => "Invalid queue depth"
  | ErrShortWrite => "Short write occurred, caller needs to resubmit the remaining data"
  | ErrClosed => "aio closed" | ErrStat errno | ErrLookup errno => kerrno errno
  | ErrNo res => String.append "Error " (pretty res)
  end%string.

(** Some rounds of [completionLoop]; an error is only printed.  [None] is a
    call of [WaitAnyNotify] that does not return. *)
Fixpoint completionLoop (a : AIO) (rounds : list (list geteventsAnswer)) (sent : list (nat * Completion)) : option (AIO * list (nat * Completion)) :=
  match rounds with
  | [] => Some (a, sent)
  | answers :: rounds => '(a, ns, _) ← WaitAnyNotify a answers; completionLoop a rounds (sent ++ ns)
  end.

Definition noiseRound (e : nat * option Z) : list geteventsAnswer :=
  replicate e.1 (inl EINTR) ++ [match e.2 with Some errno => inl errno | None => inr [] end].

(** [<-resCh]. *)
Definition received (ch : nat) (sent : list (nat * Completion)) : option Completion :=
  snd <$> head (filter (fun e => e.1 = ch) sent).

Section stack.
Context `{K : AioKernel}.

(** [make(chan goaio.Completion, 1)]: a channel no request in flight has. *)
Definition freshCh (a : AIO) : nat := S (foldr max 0%nat (omap ae_doneCh (map snd (map_to_list (active a))))).

(** The kernel performs the request of control block [cb], and the completion
    loop runs until it has seen its event: what it sent to the channels. *)
Definition kernelCompletes (k : kstate) (a : AIO) (cb : option nat) (data : bytes) (off : Z)
    : option (kstate * AIO * list (nat * Completion)) :=
  let '(k', res) := kpwrite k data off in
  '(a', sent) ← completionLoop a (map noiseRound (knoise k') ++ [[inr [mkEvent cb res]]]) [];
  Some (k', a', sent).

(** [submitAndWait].  [ended] is the case its [select] takes: [None] is the
    completion, [Some err] a context that ended first, which leaves the
    request with the kernel.  [None] as the result waits forever. *)
Definition channelSubmit (ended : option error) (k : kstate) (a : AIO) (data : bytes) (off : Z) : option (kstate * AIO * (Z * option error)) :=
  let resCh := freshCh a in
  let '(k, (x, errno)) := ksubmit k data off in
  '(a', err) ← WriteAtNotify a data off resCh (fun a => kchoice k (avail a)) x errno;
  match err with
  | Some e => Some (k, a', (0, Some (aioErrText e)))
  | None =>
      match ended with
      | Some e => Some (k, a', (0, Some e))
      | None =>
          '(k', a', sent) ← kernelCompletes k a' (kchoice k (avail a)) data off;
          c ← received resCh sent;
          Some (k', a', (comp_N c, aioErrText <$> comp_Err c))
      end
  end.

(** [sd_waits] are the cases the next waits take; after them the context stays
    alive. *)
Record stackDisk := mkStackDisk { sd_kernel : kstate; sd_aio : AIO; sd_waits : list (option error) }.

#[export] Instance stackOps : AioDisk := {|
  disk := stackDisk;
  diskByte d := kbyte (sd_kernel d);
  submitAndWait d data off :=
    match channelSubmit (default None (head (sd_waits d))) (sd_kernel d) (sd_aio d) data off with
    | Some (k, a, (n, err)) => (mkStackDisk k a (tail (sd_waits d)), (n, err))
    | None => (d, (0, Some "no completion"%string))
    end;
|}.
End stack.

(** ** Lemmas *)

Lemma waitAny_noise a e : e.2 <> Some EINTR -> exists n err, WaitAnyNotify a (noiseRound e) = Some (a, [], (n, err)).
Proof.
  destruct e as [n o]. unfold noiseRound. cbn [fst snd]. intros Ho. induction n as [|n IH]; [|exact IH]. destruct o as [errno|]; cbn; [|eauto].
  assert (errno <> EINTR) by congruence. rewrite (proj2 (Z.eqb_neq _ _)) by done. eauto.
Qed.

Lemma completionLoop_noise a noise rounds sent :
  Forall (fun e => e.2 <> Some EINTR) noise -> completionLoop a (map noiseRound noise ++ rounds) sent = completionLoop a rounds sent.
Proof.
  induction 1 as [|e noise He HF IH]; [done|]. cbn [map app completionLoop]. destruct (waitAny_noise a e He) as (n & err & ->). go_step.
  by rewrite app_nil_r.
Qed.

(** The round with the event. *)
Lemma completionLoop_event a ev a' nr :
  verifyResultPro a ev = (a', inr nr) ->
  completionLoop a [[inr [ev]]] [] = Some (a', match nr_ch nr with Some ch => [(ch, nr_res nr)] | None => [] end).
Proof. intros E. cbn [completionLoop WaitAnyNotify collectNotifies]. rewrite E. go_step. by destruct (nr_ch nr). Qed.

Lemma notifyLocked_active a cb b off ch x errno a' :
  notifyLocked a cb b off ch x errno = (a', None) -> active a' = <[cb := mkActiveEvent b 0 cb 0 (Some ch)]> (active a) /\
  avail a' = avail a /\ slotSem a' = slotSem a /\ depth a' = depth a /\ submit x errno = None.
Proof.
  unfold notifyLocked. destruct (submit x errno); [done|]. destruct (_ <? _); by intros [= <-].
Qed.

(** What the caller of a request gets. *)
Lemma verify_request a cb data ch res a' r :
  active a !! cb = Some (mkActiveEvent data 0 cb 0 (Some ch)) -> is_i64 res ->
  verifyResultPro a (mkEvent (Some cb) res) = (a', r) -> r = inr (mkNotifyResult (Some ch) (completionOf data res)).
Proof.
  intros Ha Hr. unfold verifyResultPro, finishEventLocked, completionOf. cbn [ev_cb ev_res]. rewrite Ha. cbn [ae_cb ae_written ae_data ae_doneCh]. rewrite Nat.eqb_refl.
  cbn [negb]. destruct (res <? 0) eqn:E; bool_norm; [by intros [= _ <-]|]. rewrite Z.add_0_l, (u64_small res), (u64_small res), (i64_small res) by (unfold is_u64, is_i64 in *; lia).
  intros [= _ <-]. by destruct (res =? zlen data).
Qed.

Section laws.
Context `{KL : AioKernelLaws}.

(** A call that got as far as the kernel. *)
Lemma submitted k a data off ch a1 x errno cb :
  WriteAtNotify a data off ch (fun a => kchoice k (avail a)) x errno = Some (a1, None) -> kchoice k (avail a) = cb ->
  0 < zlen data /\ exists c, cb = Some c /\ active a1 !! c = Some (mkActiveEvent data 0 c 0 (Some ch)).
Proof.
  unfold WriteAtNotify. case_bool; [done|]. unfold acquireSlot. destruct (0 <? slotSem a); [|done]. go_step. cbn [avail set_slotSem].
  intros E <-. split; [lia|]. destruct (kchoice k (avail a)) as [c|]; cbn [takeSlot] in E; [|done]. injection E as E.
  apply notifyLocked_active in E as (Ha & _). exists c. split; [done|]. rewrite Ha. by rewrite lookup_insert_eq.
Qed.

(** The completion of a request that was submitted. *)
Lemma completed a1 c data ch k' res :
  active a1 !! c = Some (mkActiveEvent data 0 c 0 (Some ch)) -> is_i64 res ->
  exists a2, verifyResultPro a1 (mkEvent (Some c) res) = (a2, inr (mkNotifyResult (Some ch) (completionOf data res))) /\
    completionLoop a1 (map noiseRound (knoise k') ++ [[inr [mkEvent (Some c) res]]]) [] = Some (a2, [(ch, completionOf data res)]).
Proof.
  intros Ha Hr. destruct (verifyResultPro a1 (mkEvent (Some c) res)) as [a2 r] eqn:Ev. pose proof (verify_request _ _ _ _ _ _ _ Ha Hr Ev) as ->.
  exists a2. split; [done|]. rewrite completionLoop_noise by apply knoise_errors. by rewrite (completionLoop_event _ _ _ _ Ev).
Qed.

Lemma received_own ch c : received ch [(ch, c)] = Some c.
Proof. unfold received. by rewrite filter_cons_True. Qed.

Lemma channelSubmit_ok ended k a data off k' a' n err :
  channelSubmit ended k a data off = Some (k', a', (n, err)) ->
  (forall p, ~ off <= p < off + zlen data -> kbyte k' p = kbyte k p) /\
  (err = None -> n = zlen data /\ forall i b, data.[i] = Some b -> kbyte k' (off + i) = b).
Proof.
  unfold channelSubmit. destruct (ksubmit k data off) as [k1 [x errno]] eqn:Ek. pose proof (fun p => ksubmit_bytes _ _ _ _ _ p Ek) as Hk.
  destruct (WriteAtNotify _ _ _ _ _ _ _) as [[a1 [e|]]|] eqn:Ew; go_step; [intros [= <- <- <- <-]; split; [by intros p _|done]| |done].
  destruct ended as [e|]; [intros [= <- <- <- <-]; split; [by intros p _|done]|]. unfold kernelCompletes.
  destruct (submitted _ _ _ _ _ _ _ _ _ Ew eq_refl) as (Hpos & c & Ec & Ha). destruct (kpwrite k1 data off) as [k2 res] eqn:Ep.
  destruct (kpwrite_result _ _ _ _ _ Ep) as [Hres Hle]. destruct (completed a1 c data _ k2 res Ha Hres) as (a2 & _ & El). rewrite Ec, El. go_step.
  rewrite received_own. go_step. intros [= <- <- <- <-]. split; [intros p Hp; rewrite (kpwrite_frame _ _ _ _ _ Ep p Hp); apply Hk|].
  unfold completionOf. destruct (res <? 0); [done|]. cbn [comp_Err comp_N]. destruct (res =? zlen data) eqn:El'; [|done]. bool_norm. intros _. split; [done|].
  intros i b Hb. apply (kpwrite_stores _ _ _ _ _ Ep i b Hb). apply zget_bound in Hb. lia.
Qed.

#[export] Instance stackLaws : AioDiskLaws stackOps.
Proof.
  split; cbn [submitAndWait stackOps diskByte].
  - intros d data off d' E. destruct (channelSubmit _ (sd_kernel d) (sd_aio d) data off) as [[[k a] [n err]]|] eqn:Ec; [|done].
    injection E as <- -> ->. by apply (channelSubmit_ok _ _ _ _ _ _ _ _ _ Ec).
  - intros d data off d' r E p Hp. destruct (channelSubmit _ (sd_kernel d) (sd_aio d) data off) as [[[k a] [n err]]|] eqn:Ec; injection E as <- _; [|done].
    by apply (channelSubmit_ok _ _ _ _ _ _ _ _ _ Ec).
Qed.

(** Nothing in flight: every control block and every token is there. *)
Record aio_idle (a : AIO) : Prop := {
  id_active : active a = ∅;
  id_avail : elements (avail a) ≡ₚ seq 0 (Z.to_nat (depth a));
  id_sem : slotSem a = depth a;
  id_depth : 0 < depth a;
}.

Lemma aio_idle_new queueDepth size a : New queueDepth (inr size) 0 = inr a -> aio_idle a.
Proof.
  unfold New, fixupConfig. destruct (maxQueueDepth <? (if queueDepth <=? 0 then defaultQueueDepth else queueDepth)); [done|]. cbn [negb Z.eqb].
  set (d := if queueDepth <=? 0 then defaultQueueDepth else queueDepth). intros [= <-]. split; cbn; [done| |done|unfold d, defaultQueueDepth; case_bool; lia].
  apply elements_list_to_set, NoDup_seq.
Qed.

(** A control block comes back to an otherwise idle device. *)
Lemma aio_idle_back a cb :
  active a = ∅ -> cb ∉ avail a -> (cb :: elements (avail a)) ≡ₚ seq 0 (Z.to_nat (depth a)) -> slotSem a + 1 = depth a -> aio_idle (giveBack a cb).
Proof.
  intros Ha Hn Hp Hs. unfold giveBack, releaseSlot. cbn [slotSem depth set_avail]. rewrite (proj2 (Z.ltb_lt _ _)) by lia. split; cbn; [done| |done|].
  - by rewrite (avail_put a cb Hn), Hp.
  - apply Permutation_length in Hp. rewrite length_seq in Hp. simpl in Hp. lia.
Qed.

Lemma idle_take a cb : aio_idle a -> cb ∈ avail a ->
  (cb ∉ avail a ∖ {[cb]}) /\ (cb :: elements (avail a ∖ {[cb]})) ≡ₚ seq 0 (Z.to_nat (depth a)).
Proof. intros [_ H2 _ _] Hin. split; [set_solver|]. by rewrite <- (avail_take a cb Hin). Qed.

(** An otherwise idle device with one request in flight, which nobody waits
    for.  When the kernel has performed it the device is idle again, and no
    byte outside the request's range has changed. *)
Definition abandoned (k : kstate) (a : AIO) (data : bytes) (off : Z) : Prop :=
  exists cb ch, active a = {[cb := mkActiveEvent data 0 cb 0 (Some ch)]} /\
    exists k' a' sent, kernelCompletes k a (Some cb) data off = Some (k', a', sent) /\ aio_idle a' /\
      forall p, ~ off <= p < off + zlen data -> kbyte k' p = kbyte k p.

(** The event of the only request in flight makes the device idle. *)
Lemma complete_idle a a2 cb data ch res :
  active a = {[cb := mkActiveEvent data 0 cb 0 (Some ch)]} -> cb ∉ avail a ->
  (cb :: elements (avail a)) ≡ₚ seq 0 (Z.to_nat (depth a)) -> slotSem a + 1 = depth a ->
  verifyResultPro a (mkEvent (Some cb) res) = (a2, inr (mkNotifyResult (Some ch) (completionOf data res))) -> aio_idle a2.
Proof.
  intros Ha Hn Hp Hs. unfold verifyResultPro, finishEventLocked. cbn [ev_cb ev_res]. rewrite Ha, lookup_singleton_eq. cbn [ae_cb]. rewrite Nat.eqb_refl. cbn [negb].
  intros Ev. assert (a2 = giveBack (set_cbp (set_active a (delete cb (active a))) (alter (fun c => mkAiocb (cb_opcode c) [] (cb_nbytes c) (cb_offset c)) cb (cbp a))) cb) as ->
    by (rewrite Ha; by destruct (res <? 0); injection Ev as <- _).
  apply aio_idle_back; cbn [active avail depth slotSem set_cbp set_active]; try done. by rewrite Ha, delete_singleton_eq.
Qed.

(** From an idle device every call returns.  A refused request leaves it
    idle.  Otherwise the result is what the kernel made of the request, and
    the device is idle; or the context ended and the request is abandoned. *)
Lemma channelSubmit_idle ended k a data off :
  aio_idle a -> 0 < zlen data ->
  let '(k1, (x, errno)) := ksubmit k data off in
  let '(k2, res) := kpwrite k1 data off in
  match submit x errno, ended with
  | Some e, _ => exists a', aio_idle a' /\ channelSubmit ended k a data off = Some (k1, a', (0, Some (aioErrText e)))
  | None, Some e => exists a', abandoned k1 a' data off /\ channelSubmit ended k a data off = Some (k1, a', (0, Some e))
  | None, None => exists a', aio_idle a' /\
      channelSubmit ended k a data off = Some (k2, a', (comp_N (completionOf data res), aioErrText <$> comp_Err (completionOf data res)))
  end.
Proof.
  intros Hi Hpos. unfold channelSubmit. destruct (ksubmit k data off) as [k1 [x errno]]. destruct (kpwrite k1 data off) as [k2 res] eqn:Ep.
  destruct (kpwrite_result _ _ _ _ _ Ep) as [Hres _]. pose proof Hi as [H1 H2 H3 H4].
  destruct (kchoice k1 (avail a)) as [cb|] eqn:Ec.
  2:{ apply kchoice_none in Ec. rewrite Ec, elements_empty in H2. apply Permutation_length in H2. rewrite length_seq in H2. simpl in H2. lia. }
  apply kchoice_in in Ec as Hin. destruct (idle_take a cb Hi Hin) as [Hout Hperm].
  unfold WriteAtNotify, acquireSlot. rewrite (proj2 (Z.leb_gt _ _)), (proj2 (Z.ltb_lt 0 _)) by lia. go_step. cbn [avail set_slotSem]. rewrite Ec. cbn [takeSlot].
  set (a1 := fillSlot _ cb iocb_cmd_pwrite data off). set (ch := freshCh a). destruct (notifyLocked a1 cb data off ch x errno) as [a2 err] eqn:En.
  unfold notifyLocked in En. destruct (submit x errno) as [e|] eqn:Es.
  { injection En as <- <-. eexists. split; [|done]. apply aio_idle_back; try done. cbn. lia. }
  assert (err = None) as -> by (by destruct (_ <? _); injection En as _ <-).
  assert (E2 : notifyLocked a1 cb data off ch x errno = (a2, None)) by (unfold notifyLocked; by rewrite Es).
  apply notifyLocked_active in E2 as (A1 & A2 & A3 & A4 & _).
  assert (Hact : active a2 = {[cb := mkActiveEvent data 0 cb 0 (Some ch)]}) by (rewrite A1; unfold a1; cbn; by rewrite H1, insert_empty).
  assert (Hlk : active a2 !! cb = Some (mkActiveEvent data 0 cb 0 (Some ch))) by (by rewrite Hact, lookup_singleton_eq).
  destruct (completed a2 cb data ch k2 res Hlk Hres) as (a3 & Ev & El).
  assert (Hidle : aio_idle a3).
  { eapply (complete_idle a2 a3 cb data ch res); [done| | | |exact Ev]; rewrite ?A2, ?A3, ?A4; unfold a1; cbn; try done. lia. }
  assert (Hkc : kernelCompletes k1 a2 (Some cb) data off = Some (k2, a3, [(ch, completionOf data res)])) by (unfold kernelCompletes; rewrite Ep, El; by go_step).
  go_step. destruct ended as [e|].
  - exists a2. split; [|done]. exists cb, ch. split; [done|]. exists k2, a3, [(ch, completionOf data res)]. split; [done|]. split; [done|].
    intros p Hp. by eapply kpwrite_frame.
  - rewrite Hkc. go_step. rewrite received_own. go_step. exists a3. split; [done|]. done.
Qed.

(** What a write leaves behind: nothing in flight, or, after a context that
    ended, a request to the range it was given. *)
Definition left_behind (d d' : stackDisk) (data : bytes) (off : Z) (err : option error) : Prop :=
  aio_idle (sd_aio d') \/
  (exists e, head (sd_waits d) = Some (Some e) /\ err = Some e /\ abandoned (sd_kernel d') (sd_aio d') data off).

Lemma submit_idle (d d' : stackDisk) data off n err :
  aio_idle (sd_aio d) -> submitAndWait d data off = (d', (n, err)) -> left_behind d d' data off err /\ sd_waits d' = tail (sd_waits d).
Proof.
  intros Hi. cbn [submitAndWait stackOps]. pose proof (zlen_nonneg data). destruct (decide (0 < zlen data)) as [Hp|Hp].
  - pose proof (channelSubmit_idle (default None (head (sd_waits d))) (sd_kernel d) (sd_aio d) data off Hi Hp) as H'. destruct (ksubmit (sd_kernel d) data off) as [k1 [x errno]].
    destruct (kpwrite k1 data off) as [k2 res]. destruct (submit x errno) as [e|]; [|destruct (default None (head (sd_waits d))) as [e|] eqn:Ew];
      destruct H' as (a' & Ha & ->); intros [= <- <- <-]; (split; [|done]); [by left| |by left].
    right. exists e. split; [|done]. destruct (head (sd_waits d)) as [[e'|]|]; cbn in Ew; congruence.
  - unfold channelSubmit. destruct (ksubmit (sd_kernel d) data off) as [k1 [x errno]]. unfold WriteAtNotify.
    rewrite (proj2 (Z.leb_le _ _)) by lia. go_step. intros [= <- <- <-]. split; [by left|done].
Qed.

(** The segments: only the last one submitted can be left behind. *)
Lemma writeSegments_left ctx segs : forall i (d d' : stackDisk) w n err,
  aio_idle (sd_aio d) -> writeSegments ctx i d segs w = (d', (n, err)) ->
  aio_idle (sd_aio d') \/
  (exists e data off, Some e ∈ sd_waits d /\ err = Some e /\ (data, off) ∈ segs /\ abandoned (sd_kernel d') (sd_aio d') data off).
Proof.
  induction segs as [|[data off] segs IH]; intros i d d' w n err Hi; cbn [writeSegments]; [intros [= <- _ _]; by left|].
  destruct (ctx i); [intros [= <- _ _]; by left|].
  destruct (submitAndWait (AioDisk := stackOps) d data off) as [d1 [m er]] eqn:Es. apply (submit_idle _ _ _ _ _ _ Hi) in Es as [Hl Hw].
  destruct Hl as [Hl|(e & Hw0 & -> & Hab)].
  - destruct er; [intros [= <- _ _]; by left|]. case_bool; [intros [= <- _ _]; by left|]. intros E.
    destruct (IH _ _ _ _ _ _ Hl E) as [?|(e & data' & off' & H1 & H2 & H3 & H4)]; [by left|]. right. exists e, data', off'. rewrite Hw in H1.
    split; [destruct (sd_waits d); [done|by right]|]. split; [done|]. split; [by right|done].
  - intros [= <- _ <-]. right. exists e, data, off. split; [destruct (sd_waits d); [done|]; injection Hw0 as ->; by left|]. split; [done|]. split; [by left|done].
Qed.

(** C19: the AIO stack implements the disk the channel is proved against.  A
    write that reports all bytes without an error has stored them, and no write
    touches a byte outside its range, whatever the kernel and the context do.
    On a device with nothing in flight, as [New] makes it, every write returns.
    If the kernel refuses the request, nothing is in flight.  If the context
    stays alive until the completion, nothing is in flight either, and the
    write succeeds exactly if the kernel wrote all of it.  If the context ends
    first, the write reports no byte and the context's error, and the request
    stays with the kernel: it is the only one in flight, and performing it
    later changes no byte outside its range and makes the device idle.  A
    whole [WriteAllocated] leaves nothing in flight, or, only if the context
    ended during a wait and it reports that error, one such request to one of
    its extents. *)
Theorem aio_stack_refines :
  AioDiskLaws stackOps /\
  (forall queueDepth size a, New queueDepth (inr size) 0 = inr a -> aio_idle a) /\
  (forall (d : stackDisk) data off, aio_idle (sd_aio d) -> 0 < zlen data ->
     exists d' n err, submitAndWait (AioDisk := stackOps) d data off = (d', (n, err)) /\
       let '(k1, (x, errno)) := ksubmit (sd_kernel d) data off in
       match submit x errno, default None (head (sd_waits d)) with
       | Some _, _ => aio_idle (sd_aio d') /\ is_Some err
       | None, None => aio_idle (sd_aio d') /\ (err = None -> n = zlen data) /\ (err = None <-> (kpwrite k1 data off).2 = zlen data)
       | None, Some e => n = 0 /\ err = Some e /\ (forall p, kbyte (sd_kernel d') p = kbyte (sd_kernel d) p) /\
           abandoned (sd_kernel d') (sd_aio d') data off
       end) /\
  (forall ctx1 ctx2 (d : stackDisk) b results d' n err,
     aio_idle (sd_aio d) -> WriteAllocated ctx1 ctx2 d b results = Some (d', (n, err)) ->
     aio_idle (sd_aio d') \/
     (exists e data off, Some e ∈ sd_waits d /\ err = Some e /\ (data, off) ∈ cut (buf_data b) results /\ abandoned (sd_kernel d') (sd_aio d') data off)).
Proof.
  split; [exact stackLaws|]. split; [exact aio_idle_new|]. split.
  - intros d data off Hi Hp. cbn [submitAndWait stackOps].
    pose proof (channelSubmit_idle (default None (head (sd_waits d))) (sd_kernel d) (sd_aio d) data off Hi Hp) as H'.
    destruct (ksubmit (sd_kernel d) data off) as [k1 [x errno]] eqn:Ek. destruct (kpwrite k1 data off) as [k2 res].
    pose proof (fun p => ksubmit_bytes _ _ _ _ _ p Ek) as Hk. pose proof (zlen_nonneg data).
    destruct (submit x errno) as [e|]; [|destruct (default None (head (sd_waits d))) as [e|]]; destruct H' as (a' & Ha & ->); eexists _, _, _; (split; [done|]); cbn [sd_kernel sd_aio snd].
    + split; [done|]. by eexists.
    + split_and!; done.
    + split; [done|]. unfold completionOf. destruct (res <? 0) eqn:En; bool_norm; cbn [comp_N comp_Err fmap option_fmap option_map]; [split; [done|]; split; [done|lia]|].
      destruct (res =? zlen data) eqn:Ee; bool_norm; cbn; (split; [done|]); by split.
  - intros ctx1 ctx2 d b results d' n err Hi. unfold WriteAllocated. pose proof (zlen_nonneg (buf_data b)) as Hz.
    case_bool; [intros [= <- _ _]; by left|]. case_bool; [intros [= <- _ _]; by left|].
    destruct (buildSegments _ _ _ _ _ _) as [[[c e]|[c segs]]|] eqn:Eb; go_step; [intros [= <- _ _]; by left| |done].
    destruct (c =? zlen (buf_data b)) eqn:Ec; cbn [negb]; [|intros [= <- _ _]; by left]. bool_norm. subst c.
    apply buildSegments_ok in Eb as (_ & -> & _); [|lia]. rewrite Z.sub_0_r, drop_0, take_ge by (unfold zlen; lia). cbn [app].
    intros [= E]. by eapply writeSegments_left.
Qed.
End laws.

(** ** A concrete kernel *)

(** It answers two interruptions and a time-out before every event. *)
Module MemKernel.
#[export] Instance ops : AioKernel := {|
  kstate := gmap Z Z;
  kbyte d p := default 0 (d !! p);
  ksubmit d data off := (d, (1, 0));
  kpwrite d data off := (if zlen data <? 2 ^ 63 then (MemDisk.writeAll d data off, zlen data) else (d, -22));
  kchoice d s := head (elements s);
  knoise d := [(2%nat, None)];
  kerrno n := "no space left on device"%string;
|}.

#[export] Instance laws : AioKernelLaws ops.
Proof.
  split; cbn.
  - intros k data off k' r p. by intros [= <- _].
  - intros k data off k' res. pose proof (zlen_nonneg data). case_bool; intros [= _ <-]; unfold is_i64; lia.
  - intros k data off k' res. case_bool; intros [= <- <-] i b Hb Hi; pose proof (zget_bound _ _ _ Hb); [|lia].
    rewrite MemDisk.writeAll_lookup, decide_True by lia. replace (off + i - off) with i by lia. by rewrite Hb.
  - intros k data off k' res. case_bool; intros [= <- <-] p Hp; [|done]. by rewrite MemDisk.writeAll_lookup, decide_False.
  - intros k s cb E. apply elem_of_elements. destruct (elements s); [done|]. injection E as <-. left.
  - intros k s E. apply leibniz_equiv, elements_empty_iff. by destruct (elements s).
  - intros k. repeat constructor. done.
Qed.
End MemKernel.

#[local] Existing Instances MemKernel.ops MemKernel.laws.

Definition demoAIO : AIO := match New 8 (inr 65536) 0 with inr a => a | inl _ => mkAIO false 0 ∅ 0 ∅ ∅ ∅ 0 0 end.
Definition demoStack : stackDisk := mkStackDisk (∅ : gmap Z Z) demoAIO [None; Some "context canceled"%string].

(** A write that is waited for, and one whose context ends. *)
Lemma aio_stack_refines_witness :
  exists d1 d2, submitAndWait demoStack [1; 2; 3] 4096 = (d1, (3, None)) /\ aio_idle (sd_aio d1) /\ diskByte d1 4098 = 3 /\
    submitAndWait d1 [4] 8192 = (d2, (0, Some "context canceled"%string)) /\ abandoned (sd_kernel d2) (sd_aio d2) [4] 8192.
Proof.
  destruct aio_stack_refines as ([Hst _] & Hnew & Hsub & _).
  assert (Hi : aio_idle (sd_aio demoStack)) by (apply (Hnew 8 65536); reflexivity).
  destruct (Hsub demoStack [1; 2; 3] 4096 Hi eq_refl) as (d1 & n & err & E & Hi1 & Hn & Herr).
  assert (err = None) as -> by (apply Herr; reflexivity). rewrite (Hn eq_refl) in E.
  assert (Hw : sd_waits d1 = [Some "context canceled"%string]) by (by destruct (submit_idle _ _ _ _ _ _ Hi E) as [_ ->]).
  destruct (Hsub d1 [4] 8192 Hi1 eq_refl) as (d2 & n2 & err2 & E2 & H2). rewrite Hw in H2. cbn in H2. destruct H2 as (-> & -> & _ & Hab).
  exists d1, d2. split; [exact E|]. split; [exact Hi1|]. split; [exact (Hst demoStack [1; 2; 3] 4096 d1 E 2 3 eq_refl)|]. split; [exact E2|exact Hab].
Defined.
