(* ===== verification/Concurrent.v ===== *)
(** * Concurrent uploads

    Several sessions of [aio_upload_server_handler.go] on one device.  Every
    upload has its handler and the place where its goroutines are; they share
    the allocator, the kernel with its writes in flight, and the batch writer.
    One event is one atomic action of the code: a call under the allocator's
    lock, an [io_submit], a write of the kernel, a flush of the batch writer. *)

From stdpp Require Import base decidable list numbers option strings gmap.
From Stdlib Require Import ZArith Lia.
From S2P Require Import Prelude Words Bytes Moss MossThms Allocator Extents SpaceBitmap Pebble WriteBatch BatchPebble BlockDevice FileMetaCodec AioChannel GoAio GoAioThms AioStack Crc32 Upload.

(** What [runFlush] works on after [Alloc]. *)
Record flushJob := mkFlushJob { fj_buf : buffer; fj_respond : bool; fj_results : list Result; fj_token : list Result }.

Inductive stage :=
  | Idle                                         (** between two payloads *)
  | Allocating (buf : buffer) (respond : bool)   (** [runFlush] before [Alloc] *)
  | Building (j : flushJob)                      (** [WriteAllocated] before its first loop *)
  | Writing (j : flushJob) (segments : list (bytes * Z)) (writtenTotal : Z)   (** at the head of its second loop *)
  | Waiting (j : flushJob) (seg : bytes * Z) (segments : list (bytes * Z)) (writtenTotal : Z)   (** in the [select] of [submitAndWait] *)
  | Failing (token : list Result) (err : error)  (** [runFlush] before [RollbackAlloc] *)
  | Undoing (toks : list (list Result)) (r : Response)   (** the loop of [rollbackCompletedFlushes], then the response *)
  | Committing                                   (** [Complete] after the flushes *)
  | Queued                                       (** the request is with the batch writer *)
  | Stored                                       (** answered [SUCCESS], the file is stored *)
  | Ended (r : Response).                        (** answered and not stored *)

(** [up_received] is what the payloads carried so far; the code does not have
    it. *)
Record upload := mkUpload { up_handler : AioUploadServerHandler; up_stage : stage; up_received : bytes }.

Definition at_stage (u : upload) (h : AioUploadServerHandler) (s : stage) : upload := mkUpload h s (up_received u).

(** [rollbackCompletedFlushes] takes the tokens under the handler's lock. *)
Definition takeTokens (h : AioUploadServerHandler) : AioUploadServerHandler * list (list Result) :=
  (set_infos h (map clearToken (blockInfoList h)), filter (fun t => t <> []) (map fi_token (blockInfoList h))).

Definition undo (u : upload) (h : AioUploadServerHandler) (r : Response) : upload :=
  let '(h, toks) := takeTokens h in at_stage u h (Undoing toks r).

(** A flush that failed: with [respond] the flush itself undoes the others and
    answers, without it [Complete] does the same after it. *)
Definition flushFails (u : upload) (err : error) : upload := undo u (failFlush (up_handler u) err) (MetaError err).

Definition fails (u : upload) (h : AioUploadServerHandler) (e : error) : upload := at_stage u h (Ended (MetaError e)).

(** [Put] up to the start of its goroutine. *)
Definition callPut (addr : Z) (u : upload) (data : bytes) : option upload :=
  let h := up_handler u in
  let u := mkUpload h (up_stage u) (up_received u ++ data) in
  match initReq h with
  | None => Some (fails u h "start request is missing"%string)
  | Some _ =>
      match flushErr h with
      | Some e => Some (fails u h e)
      | None =>
          if finalized h then Some (fails u h "upload is already finalized"%string)
          else match data with
          | [] => Some (at_stage u h Idle)
          | _ =>
              let h := mkHandler (initReq h) (chunks h ++ [data]) (pendingLen h + zlen data) (i64 (fileSize h + zlen data))
                         (crc32Update (crc32Value h) data) (blockInfoList h) (flushErr h) (finalized h) (allocCount h) in
              if MinAllocSize <=? pendingLen h then
                '(h, buf) ← startFlush addr h; Some (at_stage u h (Allocating buf true))
              else Some (at_stage u h Idle)
          end
      end
  end.

(** [Complete] up to the start of its goroutine. *)
Definition callComplete (addr : Z) (u : upload) : option upload :=
  let h := up_handler u in
  match initReq h with
  | None => Some (fails u h "start request is missing"%string)
  | Some _ =>
      match flushErr h with
      | Some e => Some (undo u (set_finalized h) (MetaError e))
      | None =>
          if finalized h then Some (fails u h "upload is already finalized"%string)
          else if fileSize h =? 0 then Some (fails u (set_finalized h) "empty put payload"%string)
          else
            let h := set_finalized h in
            if pendingLen h =? 0 then Some (at_stage u h Committing)
            else '(h, buf) ← startFlush addr h; Some (at_stage u h (Allocating buf false))
      end
  end.

Definition callTimeOut (u : upload) : upload :=
  let h := up_handler u in
  undo u (mkHandler (initReq h) [] 0 (fileSize h) (crc32Value h) (blockInfoList h) (flushErr h) true (allocCount h))
    (MetaError "channel timeout"%string).

(** [WriteAllocated] up to its second loop. *)
Definition prepare (ctx : nat -> option error) (b : buffer) (results : list Result) : option (error + list (bytes * Z)) :=
  let data := buf_data b in
  if zlen data =? 0 then Some (inr [])
  else if negb (isAlignedBuffer b) then Some (inl (fmtAlignmentError "buffer"))
  else
    s ← buildSegments ctx 0 data results 0 [];
    match s with
    | inl (_, e) => Some (inl e)
    | inr (cursor, segments) => if negb (cursor =? zlen data) then Some (inl "short write"%string) else Some (inr segments)
    end.

Section concurrent.
Context `{PO : PebbleOps} `{J : JSONDecoder} {T : Type} `{EA : ExtentAllocator T} `{K : AioKernel} `{PM : ProtoMarshal}.

(** The disk of one upload alone: submit and wait, as [channelSubmit] does it
    on an idle device. *)
#[export] Instance kernelDisk : AioDisk := {|
  disk := kstate;
  diskByte := kbyte;
  submitAndWait k data off :=
    if zlen data <=? 0 then (k, (0, Some (aioErrText ErrInvalidBuffer)))
    else
      let '(k, (x, errno)) := ksubmit k data off in
      match submit x errno with
      | Some e => (k, (0, Some (aioErrText e)))
      | None =>
          let '(k, res) := kpwrite k data off in
          let c := completionOf data res in
          (k, (comp_N c, aioErrText <$> comp_Err c))
      end;
|}.

(** A write in flight: the upload, the data, the offset. *)
Record server := mkServer {
  sv_dev : @BlockDevice T;
  sv_kernel : kstate;
  sv_db : DB;
  sv_inflight : list (nat * bytes * Z);
  sv_ups : list upload;
}.

Definition set_up (s : server) (i : nat) (u : upload) : server :=
  mkServer (sv_dev s) (sv_kernel s) (sv_db s) (sv_inflight s) (<[i := u]> (sv_ups s)).
Definition set_svdev (s : server) (d : @BlockDevice T) : server :=
  mkServer d (sv_kernel s) (sv_db s) (sv_inflight s) (sv_ups s).

(** The metadata and the request of [Complete]. *)
Definition metaOfHandler (h : AioUploadServerHandler) (req : PutInitRequest) : FileMeta * list Result * Z :=
  buildFileMetaAndResults req (fileSize h) (if crc32Value h =? 0 then [] else sprintf08x (crc32Value h)) (blockInfoList h).

Definition consumerOf (h : AioUploadServerHandler) : RequestConsumer :=
  fun db w =>
    match initReq h with
    | None => None
    | Some req =>
        let '(meta, results, totalSize) := metaOfHandler h req in
        match Marshal meta with
        | inl e => Some (inl e)
        | inr mb =>
            let consumer0 := commitConsumer meta mb results totalSize in
            (if pi_NoGet req then consumer0 else guardedConsumer meta consumer0) db w
        end
    end.

(** The variable [exists] of a request that runs on the batch [w]. *)
Definition existsOn (h : AioUploadServerHandler) (db : DB) (w : WriteBatch) : bool :=
  match initReq h with
  | Some req =>
      negb (pi_NoGet req) &&
      match getFromBatchAndDB db w (fileMetaKey (pi_MetaKey req)) with inr (Some _) => true | _ => false end
  | None => false
  end.

Fixpoint existsFlags (hs : list AioUploadServerHandler) (db : DB) (w : WriteBatch) : list bool :=
  match hs with
  | [] => []
  | h :: hs => existsOn h db w :: match consumerOf h db w with Some (inr w) => existsFlags hs db w | _ => [] end
  end.

(** [Complete] up to the dispatch of its request. *)
Definition callCommit (name : string) (u : upload) : option upload :=
  let h := up_handler u in
  match initReq h with
  | None => None
  | Some req =>
      match Marshal (metaOfHandler h req).1.1 with
      | inl e => Some (undo u h (MetaError e))
      | inr _ =>
          if String.eqb (if String.eqb (pi_Lun req) "" then name else pi_Lun req) name then Some (at_stage u h Queued)
          else Some (undo u h (MetaError "no processor registered"%string))
      end
  end.

(** What a segment's write answered, in [WriteAllocated]. *)
Definition afterWrite (u : upload) (j : flushJob) (data : bytes) (segments : list (bytes * Z)) (writtenTotal : Z) (c : Completion) : upload :=
  match comp_Err c with
  | Some e => at_stage u (up_handler u) (Failing (fj_token j) (aioErrText e))
  | None =>
      if negb (comp_N c =? zlen data) then at_stage u (up_handler u) (Failing (fj_token j) "short write"%string)
      else at_stage u (up_handler u) (Writing j segments (writtenTotal + comp_N c))
  end.

(** The next action of upload [i].  [ctx] is what its context answers; a flush
    of [Put] has [context.Background()]. *)
Definition advance (i : nat) (ctx : nat -> option error) (s : server) : option server :=
  u ← sv_ups s !! i;
  let h := up_handler u in
  match up_stage u with
  | Allocating buf respond =>
      '(d, r) ← Alloc (sv_dev s) (zlen (buf_data buf));
      match r with
      | inl err => Some (set_up (set_svdev s d) i (flushFails u err))
      | inr (results, token) => Some (set_up (set_svdev s d) i (at_stage u h (Building (mkFlushJob buf respond results token))))
      end
  | Building j =>
      r ← prepare (if fj_respond j then Background else ctx) (fj_buf j) (fj_results j);
      match r with
      | inl err => Some (set_up s i (at_stage u h (Failing (fj_token j) err)))
      | inr segments => Some (set_up s i (at_stage u h (Writing j segments 0)))
      end
  | Writing j [] writtenTotal =>
      if writtenTotal =? zlen (buf_data (fj_buf j)) then
        Some (set_up s i (at_stage u (completeFlush h (fj_results j) (fj_token j)) (if fj_respond j then Idle else Committing)))
      else Some (set_up s i (at_stage u h (Failing (fj_token j) "partial aio write"%string)))
  | Writing j ((data, off) :: segments) writtenTotal =>
      match (if fj_respond j then Background else ctx) O with
      | Some e => Some (set_up s i (at_stage u h (Failing (fj_token j) e)))
      | None =>
          if zlen data <=? 0 then Some (set_up s i (at_stage u h (Failing (fj_token j) (aioErrText ErrInvalidBuffer))))
          else
            let '(k, (x, errno)) := ksubmit (sv_kernel s) data off in
            match submit x errno with
            | Some e =>
                Some (set_up (mkServer (sv_dev s) k (sv_db s) (sv_inflight s) (sv_ups s)) i (at_stage u h (Failing (fj_token j) (aioErrText e))))
            | None =>
                Some (set_up (mkServer (sv_dev s) k (sv_db s) (sv_inflight s ++ [(i, data, off)]) (sv_ups s)) i
                        (at_stage u h (Waiting j (data, off) segments writtenTotal)))
            end
      end
  | Failing token err => d ← RollbackAlloc (sv_dev s) token; Some (set_up (set_svdev s d) i (flushFails u err))
  | Undoing (token :: toks) r => d ← RollbackAlloc (sv_dev s) token; Some (set_up (set_svdev s d) i (at_stage u h (Undoing toks r)))
  | Undoing [] r => Some (set_up s i (at_stage u h (Ended r)))
  | Committing => u ← callCommit (bd_name (sv_dev s)) u; Some (set_up s i u)
  | _ => None
  end.

(** The kernel performs the [j]-th write in flight; the completion loop hands
    the result to the upload if that still waits. *)
Definition kernelWrite (j : nat) (s : server) : option server :=
  '(i, data, off) ← sv_inflight s !! j;
  let '(k, res) := kpwrite (sv_kernel s) data off in
  let s := mkServer (sv_dev s) k (sv_db s) (base.delete j (sv_inflight s)) (sv_ups s) in
  u ← sv_ups s !! i;
  match up_stage u with
  | Waiting jb seg segments w => Some (set_up s i (afterWrite u jb seg.1 segments w (completionOf seg.1 res)))
  | _ => Some s
  end.

(** The context of [Complete] ends while its last flush waits for the kernel. *)
Definition cancel (i : nat) (e : error) (s : server) : option server :=
  u ← sv_ups s !! i;
  match up_stage u with
  | Waiting j _ _ _ =>
      if fj_respond j then None else Some (set_up s i (at_stage u (up_handler u) (Failing (fj_token j) e)))
  | _ => None
  end.

(** How a request's answer continues [Complete]. *)
Definition answerRequest (u : upload) (answer : list (option error)) (exists_ : bool) : option upload :=
  match answer with
  | [None] => Some (if exists_ then undo u (up_handler u) MetaSuccess else at_stage u (up_handler u) Stored)
  | [Some e] => Some (undo u (up_handler u) (MetaError e))
  | _ => None
  end.

Fixpoint answerAll (ups : list upload) (is_ : list nat) (answers : list (list (option error))) (flags : list bool) : option (list upload) :=
  match is_, answers with
  | [], [] => Some ups
  | i :: is_, a :: answers =>
      u ← ups !! i;
      u ← answerRequest u a (default false (head flags));
      answerAll (<[i := u]> ups) is_ answers (tail flags)
  | _, _ => None
  end.

Definition is_queued (u : upload) : bool := match up_stage u with Queued => true | _ => false end.

(** The batch writer flushes the requests of some queued uploads. *)
Definition flushBatch (is_ : list nat) (s : server) : option server :=
  us ← mapM (fun i => sv_ups s !! i) is_;
  if bool_decide (NoDup is_) && forallb is_queued us && (zlen is_ <=? maxBatchSize) then
    let batch := NewWriteBatch (sv_db s) (bd_name (sv_dev s)) in
    '(db, _, rs) ← flush (sv_db s) batch (zip_with (fun i u => newRequest i (consumerOf (up_handler u)) false) is_ us);
    ups ← answerAll (sv_ups s) is_ (map result rs) (existsFlags (map up_handler us) (sv_db s) batch);
    Some (mkServer (sv_dev s) (sv_kernel s) db (sv_inflight s) ups)
  else None.

Inductive event :=
  | ENew (req : PutInitRequest)
  | EPut (i : nat) (addr : Z) (data : bytes)
  | EComplete (i : nat) (addr : Z)
  | ETimeOut (i : nat)
  | EAdvance (i : nat) (ctx : nat -> option error)
  | EKernel (j : nat)
  | EFlush (is_ : list nat)
  | ECancel (i : nat) (e : error).

(** A payload is taken when the upload has answered the one before. *)
Definition payload (s : server) (i : nat) (f : upload -> option upload) : option server :=
  u ← sv_ups s !! i;
  match up_stage u with Idle => u ← f u; Some (set_up s i u) | _ => None end.

Definition exec (ev : event) (s : server) : option server :=
  match ev with
  | ENew req =>
      Some (mkServer (sv_dev s) (sv_kernel s) (sv_db s) (sv_inflight s) (sv_ups s ++ [mkUpload (Start NewAioUploadServerHandler req) Idle []]))
  | EPut i addr data => payload s i (fun u => callPut addr u data)
  | EComplete i addr => payload s i (callComplete addr)
  | ETimeOut i => payload s i (fun u => Some (callTimeOut u))
  | EAdvance i ctx => advance i ctx s
  | EKernel j => kernelWrite j s
  | EFlush is_ => flushBatch is_ s
  | ECancel i e => cancel i e s
  end.

Fixpoint execAll (evs : list event) (s : server) : option server :=
  match evs with [] => Some s | ev :: evs => s ← exec ev s; execAll evs s end.

(** A server without uploads. *)
Definition newServer (d : @BlockDevice T) (k : kstate) (db : DB) : server := mkServer d k db [] [].
End concurrent.
