(* ===== verification/ConcurrentThms.v ===== *)
(** * Theorems of concurrent uploads

    In every interleaving of uploads in which no context ends during a kernel
    write, the uploads own disjoint blocks, the bytes of each are on the disk
    or in memory, and a stored file stays readable.  A context that ends at
    that moment breaks this: the blocks are freed with the write in flight. *)

From stdpp Require Import base decidable list numbers option strings gmap.
From Stdlib Require Import ZArith Lia.
From S2P Require Import Prelude Schedules Words Bytes Moss MossJSON MossThms Allocator Extents AllocatorSpec SpaceBitmap Pebble WriteBatch BatchPebble BatchThms BlockDevice BlockDeviceSpec BlockDeviceThms FileMetaCodec AioChannel GoAio GoAioThms AioStack Crc32 Upload UploadInv UploadThms Concurrent.

(** ** Ownership *)

Definition stageTokens (st : stage) : list Result :=
  match st with
  | Building j | Writing j _ _ | Waiting j _ _ _ => fj_token j
  | Failing token _ => token
  | Undoing toks _ => concat toks
  | _ => []
  end.

(** The blocks of an upload: of its finished flushes and of the running one. *)
Definition held (u : upload) : list Result := tokens (blockInfoList (up_handler u)) ++ stageTokens (up_stage u).
Definition heldAll (ups : list upload) : list Result := concat (map held ups).

Definition is_stored (u : upload) : bool := match up_stage u with Stored => true | _ => false end.
Definition is_waiting (u : upload) : bool := match up_stage u with Waiting _ _ _ _ => true | _ => false end.

(** The blocks of the files that are stored. *)
Definition storedTokens (u : upload) : list Result := if is_stored u then tokens (blockInfoList (up_handler u)) else [].
Definition storedAll (ups : list upload) : list Result := concat (map storedTokens ups).

Lemma covers_concat {A} (f : A -> list Result) l b :
  covers (concat (map f l)) b = true <-> exists i x, l !! i = Some x /\ covers (f x) b = true.
Proof.
  induction l as [|a l IH]; cbn [map concat]; [split; [done|intros (i & x & E & _); by destruct i]|].
  rewrite covers_app, orb_true_iff, IH. split.
  - intros [H|(i & x & E & H)]; [by exists O, a|by exists (S i), x].
  - intros ([|i] & x & E & H); [injection E as <-; by left|right; eauto].
Qed.

Lemma heldAll_move ups i u u' give take :
  ups !! i = Some u -> held u ++ take ≡ₚ held u' ++ give -> heldAll ups ++ take ≡ₚ heldAll (<[i := u']> ups) ++ give.
Proof.
  intros E H. pose proof (concat_insert_Permutation held ups i u u' E) as P. unfold heldAll.
  apply (Permutation_app_inv_l (held u)). rewrite !app_assoc, <- P, <- !app_assoc, !(Permutation_app_swap_app _ (concat (map held ups))).
  by rewrite H.
Qed.

Lemma storedAll_same ups i u u' :
  ups !! i = Some u -> storedTokens u' = storedTokens u -> storedAll (<[i := u']> ups) ≡ₚ storedAll ups.
Proof.
  intros E H. pose proof (concat_insert_Permutation storedTokens ups i u u' E) as P. rewrite H in P. symmetry.
  by apply Permutation_app_inv_l in P.
Qed.

Section holding.
Context {T : Type} `{EA : ExtentAllocator T} `{EL : !ExtentAllocatorLaws T}.

Lemma held_in tot free0 ups i u (d : @BlockDevice T) :
  holding tot free0 (heldAll ups) d -> ups !! i = Some u -> Forall (extent_in tot) (held u).
Proof.
  intros [_ _ H _ _ _] E. unfold heldAll in H. rewrite Forall_concat, Forall_map in H.
  by apply (Forall_lookup_1 _ _ _ _ H) in E.
Qed.

(** Two uploads never share a block. *)
Lemma held_disjoint tot free0 ups i i' u u' (d : @BlockDevice T) b :
  holding tot free0 (heldAll ups) d -> ups !! i = Some u -> ups !! i' = Some u' -> i <> i' ->
  covers (held u) b = true -> covers (held u') b = false.
Proof.
  intros H E E' Hne Hb. pose proof (concat_insert_Permutation held ups i u (mkUpload NewAioUploadServerHandler Idle []) E) as P.
  change (heldAll ups ≡ₚ held u ++ heldAll (<[i := mkUpload NewAioUploadServerHandler Idle []]> ups)) in P.
  apply (holding_perm _ _ _ _ _ P) in H. destruct H as [_ _ H3 H4 _ _].
  destruct (covers (held u') b) eqn:Eb; [|done]. apply (disjoint_app_covers _ _ _ H3) in H4 as (_ & _ & H4). rewrite <- (H4 b Hb). symmetry.
  apply covers_concat. exists i', u'. by rewrite list_lookup_insert_ne.
Qed.
End holding.

(** ** One upload *)

Section uploads.
Context {PO : PebbleOps} `{L : !PebbleLaws PO} {J : JSONDecoder} {T : Type} `{EA : ExtentAllocator T} `{EL : !ExtentAllocatorLaws T}
  {K : AioKernel} `{KL : !AioKernelLaws K} {PM : ProtoMarshal}.
Implicit Types (k : kstate) (u : upload) (h : AioUploadServerHandler) (received : bytes) (s : server (T := T)).

(** The bytes of the finished flushes are on the disk. *)
Definition onDisk k (infos : list flushBlockInfo) (pieces : list bytes) : Prop := Forall2 (flushed (AD := kernelDisk) k) infos pieces.

Definition segStored k (seg : bytes * Z) : Prop := readRange (AD := kernelDisk) k seg.2 (zlen seg.1) = seg.1.

(** The running flush is the last of the list and has the bytes [data]. *)
Record running k h received (buf : buffer) (respond : bool) (infos : list flushBlockInfo) (pieces : list bytes) (data : bytes) : Prop := {
  rn_infos : blockInfoList h = infos ++ [mkFlushBlockInfo [] [] (zlen data) (AlignBlockSize (zlen data)) None];
  rn_disk : onDisk k infos pieces;
  rn_received : received = concat pieces ++ data;
  rn_pos : 0 < zlen data;
  rn_buf : buf_data buf = data ++ zmake (AlignBlockSize (zlen data) - zlen data) 0;
  rn_chunks : chunks h = [] /\ pendingLen h = 0;
  rn_err : flushErr h = None;
  rn_fin : respond = true -> finalized h = false;
}.

(** The extents of the running flush; [dones] are its segments that are
    written. *)
Record job_ok k (j : flushJob) (dones : list (bytes * Z)) (rest : list (bytes * Z)) (w : Z) : Prop := {
  jo_results : fj_results j = map byteResult (fj_token j);
  jo_sizes : sizes (fj_token j) = zlen (buf_data (fj_buf j)) / BlockSize;
  jo_cut : cut (buf_data (fj_buf j)) (fj_results j) = dones ++ rest;
  jo_written : w = zlen (concat (map fst dones));
  jo_stored : Forall (segStored k) dones;
}.

Definition flushing k u (buf : buffer) (respond : bool) : Prop :=
  exists infos pieces data, running k (up_handler u) (up_received u) buf respond infos pieces data.

Definition jobbing k u (j : flushJob) : Prop := flushing k u (fj_buf j) (fj_respond j).

Definition complete k u : Prop := exists pieces, onDisk k (blockInfoList (up_handler u)) pieces /\ up_received u = concat pieces.

(** Size and checksum are those of the bytes received. *)
Record counted u : Prop := {
  co_req : exists req, initReq (up_handler u) = Some req;
  co_size : fileSize (up_handler u) = zlen (up_received u);
  co_crc : crc32Value (up_handler u) = crc32Update 0 (up_received u);
  co_bound : zlen (up_received u) < 2 ^ 61;
}.

Definition stage_ok k u : Prop :=
  let h := up_handler u in
  match up_stage u with
  | Idle => flushErr h = None /\ finalized h = false /\ pendingLen h = zlen (concat (chunks h)) /\
      exists pieces, onDisk k (blockInfoList h) pieces /\ up_received u = concat pieces ++ concat (chunks h)
  | Allocating buf respond => flushing k u buf respond
  | Building j => jobbing k u j /\ job_ok k j [] (cut (buf_data (fj_buf j)) (fj_results j)) 0
  | Writing j segs w => jobbing k u j /\ exists dones, job_ok k j dones segs w
  | Waiting j seg segs w => jobbing k u j /\ exists dones, job_ok k j dones (seg :: segs) w
  | Failing _ _ => True
  | Undoing _ _ | Ended _ => tokens (blockInfoList h) = []
  | Committing | Queued | Stored => complete k u
  end.

Definition upload_ok k u : Prop := counted u /\ stage_ok k u.

(** What is stored stays when the blocks of the upload are left alone. *)
Lemma onDisk_keep tot k k' infos pieces :
  Forall (extent_in tot) (tokens infos) -> (forall p, covers (tokens infos) (p / BlockSize) = true -> kbyte k' p = kbyte k p) ->
  onDisk k infos pieces -> onDisk k' infos pieces.
Proof.
  intros Hin Hk HF. induction HF as [|i data infos datas [R1 R0 R2 R3 R5 R4] HF IH]; [constructor|].
  unfold tokens in Hin, Hk. cbn [map concat] in Hin, Hk. apply Forall_app in Hin as [Hin1 Hin2]. constructor.
  - assert (Hsame : forall n, readExtents (AD := kernelDisk) k (fi_results i) n = readExtents (AD := kernelDisk) k' (fi_results i) n).
    { intros n. apply readExtents_ext; [rewrite R1; by eapply positive_byteResult|].
      intros p Hp. symmetry. apply Hk. rewrite R1, covers_byteResult in Hp. by rewrite covers_app, Hp. }
    split; try done; by rewrite <- Hsame.
  - apply IH; [done|]. intros p Hp. apply Hk. rewrite covers_app. unfold tokens in Hp. by rewrite Hp, orb_true_r.
Qed.

(** The bytes of a segment lie in the blocks of the token. *)
Lemma cut_covered tot token data seg p :
  Forall (extent_in tot) token -> seg ∈ cut data (map byteResult token) -> seg_in seg p -> covers token (p / BlockSize) = true.
Proof.
  intros Hin Hs Hp. pose proof (positive_byteResult _ _ Hin) as HP. destruct (covers token (p / BlockSize)) eqn:E; [done|].
  rewrite <- covers_byteResult in E. pose proof (cut_uncovered data _ p HP E) as HF. rewrite Forall_forall in HF. by destruct (HF seg Hs).
Qed.

Lemma segStored_keep k k' seg : (forall p, seg_in seg p -> kbyte k' p = kbyte k p) -> segStored k seg -> segStored k' seg.
Proof.
  intros H E. unfold segStored in *. rewrite <- E at 2. apply readRange_ext. intros p Hp. cbn. apply H. unfold seg_in. lia.
Qed.

Lemma running_keep tot k k' h received buf respond infos pieces data :
  Forall (extent_in tot) (tokens infos) -> (forall p, covers (tokens infos) (p / BlockSize) = true -> kbyte k' p = kbyte k p) ->
  running k h received buf respond infos pieces data -> running k' h received buf respond infos pieces data.
Proof. intros Hin Hk [R1 R2 R3 R4 R5 R6 R7 R8]. split; try done. by eapply onDisk_keep. Qed.

Lemma running_tokens k h received buf respond infos pieces data :
  running k h received buf respond infos pieces data -> tokens (blockInfoList h) = tokens infos.
Proof. intros [R1 _ _ _ _ _ _ _]. rewrite R1, tokens_app. unfold tokens at 2. simpl. by rewrite app_nil_r. Qed.

Lemma job_keep tot k k' j dones rest w :
  Forall (extent_in tot) (fj_token j) -> (forall p, covers (fj_token j) (p / BlockSize) = true -> kbyte k' p = kbyte k p) ->
  job_ok k j dones rest w -> job_ok k' j dones rest w.
Proof.
  intros Hin Hk [O1 O2 O3 O4 O5]. split; try done. rewrite Forall_forall in O5 |- *. intros seg Hs. eapply segStored_keep; [|by apply O5].
  intros p Hp. apply Hk. eapply cut_covered; [done| |exact Hp]. rewrite <- O1, O3. apply elem_of_app. by left.
Qed.

Lemma upload_keep tot k k' u :
  Forall (extent_in tot) (held u) -> (forall p, covers (held u) (p / BlockSize) = true -> kbyte k' p = kbyte k p) ->
  upload_ok k u -> upload_ok k' u.
Proof.
  intros Hin Hk [Hc Hs]. split; [done|]. unfold held in Hin, Hk. apply Forall_app in Hin as [Hin1 Hin2].
  assert (Hk1 : forall p, covers (tokens (blockInfoList (up_handler u))) (p / BlockSize) = true -> kbyte k' p = kbyte k p)
    by (intros p Hp; apply Hk; by rewrite covers_app, Hp).
  assert (Hk2 : forall p, covers (stageTokens (up_stage u)) (p / BlockSize) = true -> kbyte k' p = kbyte k p)
    by (intros p Hp; apply Hk; by rewrite covers_app, Hp, orb_true_r).
  assert (Hfl : forall buf respond, flushing k u buf respond -> flushing k' u buf respond).
  { intros buf respond (infos & pieces & data & R). exists infos, pieces, data. pose proof (running_tokens _ _ _ _ _ _ _ _ R) as Et.
    rewrite Et in *. by eapply running_keep. }
  assert (Hcm : complete k u -> complete k' u) by (intros (pieces & H & E); exists pieces; split; [by eapply onDisk_keep|done]).
  unfold stage_ok in *. unfold jobbing in *. destruct (up_stage u); try tauto; cbn [stageTokens] in *; auto.
  - destruct Hs as (H1 & H2 & H3 & pieces & H4 & H5). do 3 (split; [done|]). exists pieces. split; [by eapply onDisk_keep|done].
  - destruct Hs as [H1 H2]. split; [auto|]. by eapply job_keep.
  - destruct Hs as [H1 (dones & H2)]. split; [auto|]. exists dones. by eapply job_keep.
  - destruct Hs as [H1 (dones & H2)]. split; [auto|]. exists dones. by eapply job_keep.
Qed.

(** ** Calls of one upload *)

(** Neither waiting for the kernel nor stored. *)
Definition calm u : Prop := is_waiting u = false /\ is_stored u = false.

Lemma concat_nonempty {A} (ls : list (list A)) : concat (filter (fun t => t <> []) ls) = concat ls.
Proof.
  induction ls as [|l ls IH]; [done|]. rewrite filter_cons. destruct (decide (l <> [])) as [Hd|Hd]; cbn [concat]; rewrite IH; [done|].
  by destruct l; [|destruct Hd].
Qed.

Lemma counted_stage h received st st' : counted (mkUpload h st received) -> counted (mkUpload h st' received).
Proof. intros [C1 C2 C3 C4]. by split. Qed.

(** Giving up leaves the tokens with the loop that releases them. *)
Lemma undo_ok k u h r :
  counted (at_stage u h Idle) -> upload_ok k (undo u h r) /\ held (undo u h r) = tokens (blockInfoList h) /\ calm (undo u h r).
Proof.
  intros [C1 C2 C3 C4]. unfold undo, takeTokens. split; [|split; [|done]].
  - split; [by split|]. unfold stage_ok. cbn. apply tokens_clear.
  - unfold held. cbn [up_handler at_stage blockInfoList set_infos up_stage stageTokens]. by rewrite tokens_clear, concat_nonempty.
Qed.

Lemma tokens_failFlush h err : tokens (blockInfoList (failFlush h err)) = tokens (blockInfoList h).
Proof.
  unfold failFlush. cbn [blockInfoList]. destruct (blockInfoList h) as [|i infos _] using rev_ind; [done|].
  by rewrite update_last_snoc, !tokens_app.
Qed.

Lemma flushFails_ok k u err :
  counted u -> upload_ok k (flushFails u err) /\ held (flushFails u err) = tokens (blockInfoList (up_handler u)) /\ calm (flushFails u err).
Proof. intros [C1 C2 C3 C4]. unfold flushFails. rewrite <- (tokens_failFlush (up_handler u) err). apply undo_ok. by split. Qed.

(** Starting a flush with what is pending. *)
Lemma startFlush_flushing k addr u respond pieces :
  pendingLen (up_handler u) = zlen (concat (chunks (up_handler u))) -> 0 < pendingLen (up_handler u) -> counted u ->
  onDisk k (blockInfoList (up_handler u)) pieces -> up_received u = concat pieces ++ concat (chunks (up_handler u)) ->
  flushErr (up_handler u) = None -> (respond = true -> finalized (up_handler u) = false) ->
  exists h buf, startFlush addr (up_handler u) = Some (h, buf) /\ upload_ok k (at_stage u h (Allocating buf respond)) /\
    tokens (blockInfoList h) = tokens (blockInfoList (up_handler u)).
Proof.
  intros Hp Hpos [C1 C2 C3 C4] Hd Hr He Hf.
  assert (pendingLen (up_handler u) < 2 ^ 61) by (rewrite Hp; rewrite Hr, zlen_app_ in C4; pose proof (zlen_nonneg (concat pieces)); lia).
  destruct (startFlush_spec addr (up_handler u) Hp) as (buf & E & Hb & _); [lia|]. rewrite Hp in E, Hb.
  eexists _, buf. split; [exact E|]. split; [|unfold tokens; cbn [blockInfoList]; rewrite map_app, concat_app; simpl; by rewrite app_nil_r].
  split; [by split|]. exists (blockInfoList (up_handler u)), pieces, (concat (chunks (up_handler u))). split; cbn; try done. by rewrite <- Hp.
Qed.

Lemma callPut_ok k addr u data :
  upload_ok k u -> up_stage u = Idle -> zlen (up_received u) + zlen data < 2 ^ 61 ->
  exists u', callPut addr u data = Some u' /\ upload_ok k u' /\ held u' = held u /\ calm u' /\ up_received u' = up_received u ++ data.
Proof.
  intros [[(req & C1) C2 C3 C4] Hs] Ei Hb. unfold stage_ok in Hs. rewrite Ei in Hs. destruct Hs as (H1 & H2 & H3 & pieces & H4 & H5).
  pose proof (zlen_nonneg data) as Hd0. unfold callPut, held. rewrite C1, H1, H2, Ei. cbn [stageTokens]. rewrite app_nil_r.
  destruct data as [|x data'] eqn:Ed; rewrite <- Ed in *.
  { eexists. split; [done|]. rewrite Ed, app_nil_r. split; [|by rewrite app_nil_r]. split; [split; by eauto|]. unfold stage_ok; cbn. by eauto 8. }
  set (h := mkHandler _ _ _ _ _ _ _ _ _).
  assert (Hc : counted (mkUpload h Idle (up_received u ++ data))).
  { pose proof (zlen_nonneg (up_received u)). split; cbn; [by eauto|..]; rewrite ?zlen_app_; [rewrite C2; apply i64_small; unfold is_i64; lia|by rewrite C3, crc32Update_app|done]. }
  assert (Hr : up_received u ++ data = concat pieces ++ concat (chunks h))
    by (unfold h; cbn [chunks]; rewrite concat_app, H5, <- app_assoc; simpl; by rewrite app_nil_r).
  assert (Hp : pendingLen h = zlen (concat (chunks h)))
    by (unfold h; cbn [chunks pendingLen]; rewrite concat_app, zlen_app_, H3; simpl; by rewrite app_nil_r).
  case_bool.
  - destruct (startFlush_flushing k addr (mkUpload h Idle (up_received u ++ data)) true pieces Hp) as (h' & buf & E & Hok & Ht); try done.
    { cbn [up_handler]. unfold MinAllocSize in *. lia. }
    cbn [up_handler] in E. rewrite E. go_step. eexists. split; [done|]. split; [exact Hok|]. cbn [at_stage up_handler up_stage stageTokens].
    by rewrite Ht, app_nil_r.
  - eexists. split; [done|]. split; [|by rewrite app_nil_r]. split; [done|]. unfold stage_ok; cbn -[h]. by eauto 8.
Qed.

Lemma callComplete_ok k addr u :
  upload_ok k u -> up_stage u = Idle -> exists u', callComplete addr u = Some u' /\ upload_ok k u' /\ held u' = held u /\ calm u' /\ up_received u' = up_received u.
Proof.
  intros [Hc Hs] Ei. pose proof Hc as [(req & C1) C2 C3 C4]. unfold stage_ok in Hs. rewrite Ei in Hs. destruct Hs as (H1 & H2 & H3 & pieces & H4 & H5).
  unfold callComplete, held. rewrite C1, H1, H2, Ei. cbn [stageTokens]. rewrite app_nil_r. case_bool.
  { rename Heqb into E0. rewrite C2 in E0. assert (up_received u = []) as Hr by (destruct (up_received u); [done|unfold zlen in E0; simpl in E0; lia]).
    rewrite Hr in H5. symmetry in H5. apply app_eq_nil in H5 as [H5 _]. apply (empty_holds_nothing _ _ _ H4) in H5.
    eexists. split; [done|]. split; [|by rewrite app_nil_r]. split; [split; by eauto|]. unfold stage_ok. cbn. by rewrite H5. }
  assert (Hc' : counted (mkUpload (set_finalized (up_handler u)) Idle (up_received u))) by (split; by eauto).
  cbn [pendingLen set_finalized]. case_bool.
  - eexists. split; [done|]. split; [|by rewrite app_nil_r]. split; [by eapply counted_stage|]. exists pieces. split; [done|]. cbn.
    assert (concat (chunks (up_handler u)) = []) as Hch by (destruct (concat (chunks (up_handler u))); [done|unfold zlen in H3; simpl in H3; lia]).
    by rewrite H5, Hch, app_nil_r.
  - destruct (startFlush_flushing k addr (mkUpload (set_finalized (up_handler u)) Idle (up_received u)) false pieces) as (h' & buf & E & Hok & Ht); try done.
    { cbn. pose proof (zlen_nonneg (concat (chunks (up_handler u)))). lia. }
    cbn [up_handler] in E. rewrite E. go_step. eexists. split; [done|]. split; [exact Hok|]. cbn [at_stage up_handler up_stage stageTokens].
    by rewrite Ht, app_nil_r.
Qed.

Lemma callTimeOut_ok k u :
  upload_ok k u -> up_stage u = Idle -> upload_ok k (callTimeOut u) /\ held (callTimeOut u) = held u /\ calm (callTimeOut u).
Proof.
  intros [[C1 C2 C3 C4] _] Ei. unfold callTimeOut. unfold held at 2. rewrite Ei. cbn [stageTokens]. rewrite app_nil_r.
  apply (undo_ok k u (mkHandler _ _ _ _ _ _ _ _ _)). by split.
Qed.

Lemma callCommit_ok k name u :
  upload_ok k u -> up_stage u = Committing -> exists u', callCommit name u = Some u' /\ upload_ok k u' /\ held u' = held u /\ calm u' /\ up_received u' = up_received u.
Proof.
  intros [Hc Hs] Ei. pose proof Hc as [(req & C1) C2 C3 C4]. unfold stage_ok in Hs. rewrite Ei in Hs.
  assert (Hh : held u = tokens (blockInfoList (up_handler u))) by (unfold held; rewrite Ei; cbn; by rewrite app_nil_r).
  assert (Hu : forall e, let u' := undo u (up_handler u) (MetaError e) in upload_ok k u' /\ held u' = held u /\ calm u' /\ up_received u' = up_received u)
    by (intros e u'; rewrite Hh; destruct (undo_ok k u (up_handler u) (MetaError e)) as (? & ? & ?); [by split; eauto|done]).
  unfold callCommit. rewrite C1. destruct (Marshal _) as [e|mb]; [by eauto|]. destruct (String.eqb _ name); [|by eauto].
  eexists. split; [done|]. split; [by split; [split; by eauto|]|]. rewrite Hh. unfold held. cbn. by rewrite app_nil_r.
Qed.

(** ** The server *)

Definition keyOf u : bytes := match initReq (up_handler u) with Some req => GetFileMetaKey (pi_FileName req) | None => [] end.

(** The metadata of an upload, marshalled. *)
Definition metaBytes u (mb : bytes) : Prop :=
  exists req, initReq (up_handler u) = Some req /\ Marshal (metaOf req (up_received u) (blockInfoList (up_handler u))) = inr mb.

Definition owner (e : nat * bytes * Z) : nat := e.1.1.

Record db_ok (n : Z) (A : Z -> bool) (ups : list upload) (ch : bytes -> list bytes) : Prop := {
  (** the stored bitmap has the blocks of the stored files *)
  db_space : stored_chains n ch (fun b => A b || covers (storedAll ups) b);
  (** the metadata of a stored file is in the database, unless another upload
      used the same key *)
  db_meta : forall i u, ups !! i = Some u -> is_stored u = true ->
    (forall i' u', ups !! i' = Some u' -> is_stored u' = true -> keyOf u' = keyOf u -> i' = i) ->
    exists mb, metaBytes u mb /\ ch (keyOf u) = [mb];
}.

(** [free0] are the blocks that were free before the first upload and [A] those
    the stored bitmap marked allocated. *)
Record server_ok (tot n : Z) (free0 A : Z -> bool) s : Prop := {
  (** the blocks of all uploads are disjoint, were free, and are the only ones
      that are not free any more *)
  so_hold : holding tot free0 (heldAll (sv_ups s)) (sv_dev s);
  so_ups : Forall (upload_ok (sv_kernel s)) (sv_ups s);
  (** a write in flight is the one its upload waits for *)
  so_flight : forall i data off, (i, data, off) ∈ sv_inflight s ->
    exists u j segs w, sv_ups s !! i = Some u /\ up_stage u = Waiting j (data, off) segs w;
  so_nodup : NoDup (map owner (sv_inflight s));
  so_waiting : forall i u, sv_ups s !! i = Some u -> is_waiting u = true -> i ∈ map owner (sv_inflight s);
  so_db : db_ok n A (sv_ups s) (chain (sv_db s));
}.

Lemma insert_stored (ups : list upload) i u u' x v :
  ups !! i = Some u -> is_stored u = false -> is_stored u' = false ->
  (<[i := u']> ups !! x = Some v /\ is_stored v = true) <-> (ups !! x = Some v /\ is_stored v = true).
Proof.
  intros E H H'. apply lookup_lt_Some in E as Hl. destruct (decide (x = i)) as [->|Hne].
  - rewrite list_lookup_insert_eq by done. split; intros [Ex Ev]; simplify_eq; congruence.
  - by rewrite list_lookup_insert_ne.
Qed.

Lemma db_same n A ups ch i u u' :
  db_ok n A ups ch -> ups !! i = Some u -> is_stored u = false -> is_stored u' = false -> db_ok n A (<[i := u']> ups) ch.
Proof.
  intros [S6 S7] E W2 W2'. split.
  - eapply stored_ext; [| |exact S6]; [done|]. intros b _. cbv beta. f_equal. symmetry. apply covers_perm. eapply storedAll_same; [done|].
    unfold storedTokens. by rewrite W2, W2'.
  - intros x v Ex Hx Huniq. destruct (proj1 (insert_stored _ _ _ _ x v E W2 W2') (conj Ex Hx)) as [Ex' _].
    apply (S7 x v Ex' Hx). intros x' v' Ev' Hv' Hk. destruct (proj2 (insert_stored _ _ _ _ x' v' E W2 W2') (conj Ev' Hv')) as [Ev _].
    by eapply Huniq.
Qed.

(** One upload moves on, with the kernel as it is. *)
Lemma update_ok tot n free0 A s i u u' d :
  server_ok tot n free0 A s -> sv_ups s !! i = Some u -> calm u -> calm u' -> upload_ok (sv_kernel s) u' ->
  holding tot free0 (heldAll (<[i := u']> (sv_ups s))) d ->
  server_ok tot n free0 A (set_up (set_svdev s d) i u').
Proof.
  intros [S1 S2 S3 S4 S5 S6] E [W1 W2] [W1' W2'] Hu Hd. apply lookup_lt_Some in E as Hl. split; cbn; try done.
  - by apply Forall_insert.
  - intros x data off Hx. destruct (S3 x data off Hx) as (v & j & segs & w & Ev & Es). exists v, j, segs, w. split; [|done].
    rewrite list_lookup_insert_ne; [done|]. intros <-. simplify_eq. unfold is_waiting in W1. by rewrite Es in W1.
  - intros x v Ex Hx. destruct (decide (x = i)) as [->|Hne]; [|rewrite list_lookup_insert_ne in Ex by done; by eapply S5].
    rewrite list_lookup_insert_eq in Ex by done. simplify_eq. congruence.
  - by eapply db_same.
Qed.

(** The same, when the upload keeps its blocks. *)
Lemma update_same tot n free0 A s i u u' :
  server_ok tot n free0 A s -> sv_ups s !! i = Some u -> calm u -> calm u' -> upload_ok (sv_kernel s) u' -> held u' = held u ->
  server_ok tot n free0 A (set_up s i u').
Proof.
  intros So E W W' Hu Hh. replace (set_up s i u') with (set_up (set_svdev s (sv_dev s)) i u') by done. eapply update_ok; try done.
  eapply holding_perm; [|apply (so_hold _ _ _ _ _ So)].
  pose proof (heldAll_move (sv_ups s) i u u' [] [] E) as P. rewrite !app_nil_r in P. apply P. by rewrite Hh.
Qed.

(** The same, when a token goes back to the allocator. *)
Lemma release_ok tot n free0 A s i u u' token :
  server_ok tot n free0 A s -> sv_ups s !! i = Some u -> calm u -> calm u' -> upload_ok (sv_kernel s) u' -> held u ≡ₚ token ++ held u' ->
  exists d, RollbackAlloc (sv_dev s) token = Some d /\ server_ok tot n free0 A (set_up (set_svdev s d) i u').
Proof.
  intros So E W W' Hu Hh. pose proof (heldAll_move (sv_ups s) i u u' token [] E) as P. rewrite !app_nil_r in P.
  destruct (RollbackAlloc_holding tot free0 token (heldAll (<[i := u']> (sv_ups s))) (sv_dev s)) as (d & Ed & Hd & _).
  { eapply holding_perm; [|apply (so_hold _ _ _ _ _ So)]. rewrite P; [apply Permutation_app_comm|].
    rewrite Hh. apply Permutation_app_comm. }
  exists d. split; [done|]. by eapply update_ok.
Qed.

Lemma advance_allocating tot n free0 A s i u buf respond :
  tot * BlockSize < 2 ^ 63 -> server_ok tot n free0 A s -> sv_ups s !! i = Some u -> up_stage u = Allocating buf respond ->
  exists s', (forall ctx, advance i ctx s = Some s') /\ server_ok tot n free0 A s'.
Proof.
  intros Ht So E Es. pose proof (Forall_lookup_1 _ _ _ _ (so_ups _ _ _ _ _ So) E) as [Hc Hs]. unfold stage_ok in Hs. rewrite Es in Hs.
  pose proof Hs as (infos & pieces & data & R). pose proof R as [R1 R2 R3 R4 R5 R6 R7 R8].
  assert (Hlen : zlen data < 2 ^ 61).
  { pose proof (co_bound _ Hc) as Hb. rewrite R3, zlen_app_ in Hb. pose proof (zlen_nonneg (concat pieces)). lia. }
  destruct (AlignBlockSize_spec (zlen data)) as (Ha & Hm); [lia|].
  assert (Hz : zlen (buf_data buf) = AlignBlockSize (zlen data))
    by (rewrite R5, zlen_app_; unfold zlen at 2, zmake; rewrite length_replicate; lia).
  unfold advance. rewrite E. go_step. rewrite Es, Hz.
  assert (Wu : calm u) by (unfold calm, is_waiting, is_stored; by rewrite Es).
  assert (Hh : held u = tokens (blockInfoList (up_handler u))) by (unfold held; rewrite Es; cbn; by rewrite app_nil_r).
  destruct (Alloc_holding tot free0 _ _ (AlignBlockSize (zlen data)) (so_hold _ _ _ _ _ So) Ht)
    as [[e ->]|(d' & tk & -> & Hh' & Hsz & _)]; [change BlockSize with 4096 in *; lia|..]; go_step; eexists; (split; [done|]).
  - destruct (flushFails_ok (sv_kernel s) u e Hc) as (Hu & Hh' & Wu'). replace (set_svdev s (sv_dev s)) with s by (by destruct s).
    eapply update_same; try done. by rewrite Hh', Hh.
  - eapply update_ok; try done.
    + split; [by destruct Hc; split|]. split; [exact Hs|]. split; cbn [fj_results fj_token fj_buf]; try done. rewrite Hsz, Hz. change BlockSize with 4096 in *. dlia.
    + eapply holding_perm; [|exact Hh']. pose proof (heldAll_move (sv_ups s) i u (at_stage u (up_handler u) (Building (mkFlushJob buf respond (map byteResult tk) tk))) [] tk E) as P.
      rewrite !app_nil_r in P. apply P. by rewrite Hh.
Qed.

Lemma prepare_spec ctx buf results :
  exists r, prepare ctx buf results = Some r /\ forall segs, r = inr segs -> segs = cut (buf_data buf) results.
Proof.
  unfold prepare. pose proof (zlen_nonneg (buf_data buf)) as Hz. case_bool.
  { eexists. split; [done|]. intros segs [= <-]. destruct (buf_data buf); [by rewrite cut_nil|unfold zlen in *; simpl in *; lia]. }
  case_bool; [eexists; split; [done|discriminate]|].
  destruct (buildSegments_runs ctx 0 (buf_data buf) results 0 []) as [[[c e]|[c segs]] Eb]; [lia|rewrite Eb; go_step..];
    [eexists; split; [done|discriminate]|].
  apply buildSegments_ok in Eb as (Hc & -> & _); [|lia]. case_bool; [eexists; split; [done|discriminate]|]. subst c.
  eexists. split; [done|]. intros segs [= <-]. rewrite Z.sub_0_r, drop_0, take_ge by (unfold zlen; lia). done.
Qed.

(** Any upload that is not done may fail. *)
Lemma fail_stage k u token err : upload_ok k u -> upload_ok k (at_stage u (up_handler u) (Failing token err)).
Proof. intros [Hc _]. split; [by destruct Hc; split|done]. Qed.

Lemma held_job u j st : stageTokens (up_stage u) = fj_token j -> stageTokens st = fj_token j -> held (at_stage u (up_handler u) st) = held u.
Proof. intros E E'. unfold held. cbn [at_stage up_handler up_stage]. by rewrite E, E'. Qed.

Lemma advance_building tot n free0 A s i u j ctx :
  server_ok tot n free0 A s -> sv_ups s !! i = Some u -> up_stage u = Building j ->
  exists s', advance i ctx s = Some s' /\ server_ok tot n free0 A s'.
Proof.
  intros So E Es. pose proof (Forall_lookup_1 _ _ _ _ (so_ups _ _ _ _ _ So) E) as Hu. pose proof Hu as [Hc Hs]. unfold stage_ok in Hs. rewrite Es in Hs.
  destruct Hs as [Hj Ho]. assert (Wu : calm u) by (unfold calm, is_waiting, is_stored; by rewrite Es).
  unfold advance. rewrite E. go_step. rewrite Es.
  destruct (prepare_spec (if fj_respond j then Background else ctx) (fj_buf j) (fj_results j)) as ([e|segs] & -> & Hseg); go_step; eexists; (split; [done|]).
  - eapply update_same; try done; [by apply fail_stage|]. by eapply held_job; [rewrite Es|].
  - rewrite (Hseg segs eq_refl). eapply update_same; try done; [|by eapply held_job; [rewrite Es|]].
    split; [by destruct Hc; split|]. split; [done|]. by exists [].
Qed.

(** The last segment is written: the flush is done. *)
Lemma job_done k tot j dones w infos pieces data u :
  Forall (extent_in tot) (fj_token j) -> job_ok k j dones [] w -> counted u ->
  running k (up_handler u) (up_received u) (fj_buf j) (fj_respond j) infos pieces data ->
  w = zlen (buf_data (fj_buf j)) /\
  let st := if fj_respond j then Idle else Committing in
  let u' := at_stage u (completeFlush (up_handler u) (fj_results j) (fj_token j)) st in
  upload_ok k u' /\ held u' = tokens (blockInfoList (up_handler u)) ++ fj_token j /\ calm u'.
Proof.
  intros Hin [O1 O2 O3 O4 O5] Hc R. pose proof (running_tokens _ _ _ _ _ _ _ _ R) as Et. destruct R as [R1 R2 R3 R4 R5 R6 R7 R8].
  assert (Hlen : zlen data < 2 ^ 61).
  { pose proof (co_bound _ Hc) as Hb. rewrite R3, zlen_app_ in Hb. pose proof (zlen_nonneg (concat pieces)). lia. }
  destruct (AlignBlockSize_spec (zlen data)) as (Ha & Hm); [lia|].
  assert (Hz : zlen (buf_data (fj_buf j)) = AlignBlockSize (zlen data))
    by (rewrite R5, zlen_app_; unfold zlen at 2, zmake; rewrite length_replicate; lia).
  pose proof (positive_byteResult _ _ Hin) as HP. rewrite <- O1 in HP.
  assert (Hsz : sizes (fj_results j) = zlen (buf_data (fj_buf j))).
  { rewrite O1, sizes_byteResult, O2, Hz. change BlockSize with 4096 in *. dlia. }
  rewrite app_nil_r in O3. split; [rewrite O4, <- O3, concat_cut by (done || lia); done|].
  assert (Hrd : readExtents (AD := kernelDisk) k (fj_results j) (zlen (buf_data (fj_buf j))) = buf_data (fj_buf j))
    by (apply readExtents_cut; [done|lia|by rewrite O3]).
  assert (HB : blockInfoList (completeFlush (up_handler u) (fj_results j) (fj_token j)) =
    infos ++ [mkFlushBlockInfo (fj_results j) (fj_token j) (zlen data) (AlignBlockSize (zlen data)) None])
    by (unfold completeFlush; cbn [blockInfoList]; by rewrite R1, update_last_snoc).
  assert (Hon : onDisk k (infos ++ [mkFlushBlockInfo (fj_results j) (fj_token j) (zlen data) (AlignBlockSize (zlen data)) None]) (pieces ++ [data])).
  { apply Forall2_app; [done|]. constructor; [|done]. rewrite O1. eapply flushed_intro; [lia|done| |].
    - rewrite O2, Hz. done.
    - rewrite <- O1, <- R5, <- Hz. exact Hrd. }
  assert (Hr : up_received u = concat (pieces ++ [data])) by (rewrite concat_app, R3; simpl; by rewrite app_nil_r).
  split; [|split].
  - split; [by destruct Hc; split|]. unfold stage_ok. cbn [at_stage up_handler up_stage up_received]. destruct (fj_respond j).
    + rewrite HB. unfold completeFlush. cbn [flushErr finalized pendingLen chunks]. destruct R6 as [-> ->]. split; [done|]. split; [by apply R8|].
      split; [done|]. exists (pieces ++ [data]). split; [done|]. by rewrite app_nil_r.
    + exists (pieces ++ [data]). unfold at_stage. cbn [up_handler up_received]. by rewrite HB.
  - unfold held. cbn [at_stage up_handler up_stage]. rewrite HB, tokens_app, Et. unfold tokens at 2. simpl.
    destruct (fj_respond j); simpl; by rewrite !app_nil_r.
  - split; by destruct (fj_respond j).
Qed.

(** A change of the kernel's state that changes no byte. *)
Lemma kernel_ok tot n free0 A s k :
  server_ok tot n free0 A s -> (forall p, kbyte k p = kbyte (sv_kernel s) p) ->
  server_ok tot n free0 A (mkServer (sv_dev s) k (sv_db s) (sv_inflight s) (sv_ups s)).
Proof.
  intros [S1 S2 S3 S4 S5 S6] Hk. split; cbn; try done. apply Forall_lookup. intros i u E.
  eapply upload_keep; [by eapply held_in|by intros p _; apply Hk|]. by eapply Forall_lookup_1.
Qed.

(** A segment is handed to the kernel. *)
Lemma submit_ok tot n free0 A s i u j seg segs w :
  server_ok tot n free0 A s -> sv_ups s !! i = Some u -> up_stage u = Writing j (seg :: segs) w ->
  server_ok tot n free0 A
    (set_up (mkServer (sv_dev s) (sv_kernel s) (sv_db s) (sv_inflight s ++ [(i, seg.1, seg.2)]) (sv_ups s)) i
       (at_stage u (up_handler u) (Waiting j seg segs w))).
Proof.
  intros So E Es. pose proof (Forall_lookup_1 _ _ _ _ (so_ups _ _ _ _ _ So) E) as [Hc Hs]. unfold stage_ok in Hs. rewrite Es in Hs.
  destruct So as [S1 S2 S3 S4 S5 S6]. apply lookup_lt_Some in E as Hl. set (u' := at_stage _ _ _).
  assert (Hfree : i ∉ map owner (sv_inflight s)).
  { intros Hi. apply list_elem_of_fmap in Hi as ([[x data] off] & -> & Hx). destruct (S3 _ _ _ Hx) as (v & ? & ? & ? & Ev & Es'). cbn in E. congruence. }
  split; cbn [sv_dev sv_kernel sv_db sv_inflight sv_ups set_up].
  - eapply holding_perm; [|exact S1]. pose proof (heldAll_move (sv_ups s) i u u' [] [] E) as P. rewrite !app_nil_r in P. apply P.
    unfold u'. by erewrite held_job; [|rewrite Es; reflexivity|].
  - apply Forall_insert; [done|]. split; [by destruct Hc; split|]. exact Hs.
  - intros x data off Hx. apply elem_of_app in Hx as [Hx|Hx].
    + destruct (S3 x data off Hx) as (v & j' & segs' & w' & Ev & Es'). exists v, j', segs', w'. split; [|done].
      rewrite list_lookup_insert_ne; [done|]. intros <-. congruence.
    + apply list_elem_of_singleton in Hx. injection Hx as -> -> ->. exists u', j, segs, w. rewrite list_lookup_insert_eq by done.
      unfold u'. cbn. by destruct seg.
  - rewrite map_app. apply NoDup_app. split; [done|]. split; [|apply NoDup_singleton]. intros x Hx Hx'. apply list_elem_of_singleton in Hx' as ->. done.
  - intros x v Ex Hx. rewrite map_app. apply elem_of_app. destruct (decide (x = i)) as [->|Hne]; [right; by apply list_elem_of_singleton|].
    left. rewrite list_lookup_insert_ne in Ex by done. by eapply S5.
  - eapply db_same; try done. unfold is_stored. by rewrite Es.
Qed.

Lemma advance_writing tot n free0 A s i u j segs w ctx :
  server_ok tot n free0 A s -> sv_ups s !! i = Some u -> up_stage u = Writing j segs w ->
  exists s', advance i ctx s = Some s' /\ server_ok tot n free0 A s'.
Proof.
  intros So E Es. pose proof (Forall_lookup_1 _ _ _ _ (so_ups _ _ _ _ _ So) E) as Hu. pose proof Hu as [Hc Hs]. unfold stage_ok in Hs. rewrite Es in Hs.
  destruct Hs as [(infos & pieces & data & R) (dones & Ho)]. assert (Wu : calm u) by (unfold calm, is_waiting, is_stored; by rewrite Es).
  pose proof (held_in _ _ _ _ _ _ (so_hold _ _ _ _ _ So) E) as Hin. unfold held in Hin. rewrite Es in Hin. apply Forall_app in Hin as [_ Hin].
  assert (Hfail : forall err, server_ok tot n free0 A (set_up s i (at_stage u (up_handler u) (Failing (fj_token j) err)))).
  { intros err. eapply update_same; try done; [by apply fail_stage|]. by eapply held_job; [rewrite Es|]. }
  unfold advance. rewrite E. go_step. rewrite Es. destruct segs as [|[data' off] segs].
  - destruct (job_done _ _ _ _ _ _ _ _ _ Hin Ho Hc R) as (-> & Hu' & Hh & Wu'). rewrite Z.eqb_refl. eexists. split; [done|].
    eapply update_same; try done. rewrite Hh. unfold held. by rewrite Es.
  - destruct ((if fj_respond j then Background else ctx) O); [by eauto|]. case_bool; [by eauto|].
    destruct (ksubmit (sv_kernel s) data' off) as [k [x errno]] eqn:Ek.
    assert (So' : server_ok tot n free0 A (mkServer (sv_dev s) k (sv_db s) (sv_inflight s) (sv_ups s)))
      by (apply kernel_ok; [done|intros p; by eapply ksubmit_bytes]).
    destruct (submit x errno) as [e|]; eexists; (split; [done|]).
    + eapply (update_same _ _ _ _ _ _ u); try done; [|by eapply held_job; [rewrite Es|]]. cbn [sv_kernel]. apply fail_stage.
      exact (Forall_lookup_1 _ _ _ _ (so_ups _ _ _ _ _ So') E).
    + by apply (submit_ok _ _ _ _ _ _ _ _ (data', off) _ _ So' E Es).
Qed.

Lemma advance_undoing tot n free0 A s i u toks r ctx :
  server_ok tot n free0 A s -> sv_ups s !! i = Some u -> up_stage u = Undoing toks r ->
  exists s', advance i ctx s = Some s' /\ server_ok tot n free0 A s'.
Proof.
  intros So E Es. pose proof (Forall_lookup_1 _ _ _ _ (so_ups _ _ _ _ _ So) E) as Hu. pose proof Hu as [Hc Hs]. unfold stage_ok in Hs. rewrite Es in Hs.
  assert (Wu : calm u) by (unfold calm, is_waiting, is_stored; by rewrite Es).
  assert (Hok : forall st, (match st with Undoing _ _ | Ended _ => True | _ => False end) -> upload_ok (sv_kernel s) (at_stage u (up_handler u) st))
    by (intros st Hst; split; [by destruct Hc; split|]; by destruct st).
  unfold advance. rewrite E. go_step. rewrite Es. destruct toks as [|token toks].
  - eexists. split; [done|]. eapply update_same; try done; [by apply Hok|]. unfold held. cbn. by rewrite Es.
  - destruct (release_ok tot n free0 A s i u (at_stage u (up_handler u) (Undoing toks r)) token So E Wu) as (d & -> & So'); [done|by apply Hok| |].
    { unfold held. rewrite Es. cbn. rewrite Hs. done. }
    go_step. eauto.
Qed.

(** Every action of an upload is defined and keeps the invariant. *)
Lemma advance_ok tot n free0 A s i u ctx :
  tot * BlockSize < 2 ^ 63 -> server_ok tot n free0 A s -> sv_ups s !! i = Some u ->
  match up_stage u with Idle | Waiting _ _ _ _ | Queued | Stored | Ended _ => False | _ => True end ->
  exists s', advance i ctx s = Some s' /\ server_ok tot n free0 A s'.
Proof.
  intros Ht So E Hst. pose proof (Forall_lookup_1 _ _ _ _ (so_ups _ _ _ _ _ So) E) as Hu. destruct (up_stage u) eqn:Es; try done.
  - destruct (advance_allocating _ _ _ _ _ _ _ _ _ Ht So E Es) as (s' & H & Hs'). exists s'. by split.
  - by eapply advance_building.
  - by eapply advance_writing.
  - unfold advance. rewrite E. go_step. rewrite Es. destruct (flushFails_ok (sv_kernel s) u err (proj1 Hu)) as (Hu' & Hh & Wu').
    destruct (release_ok tot n free0 A s i u (flushFails u err) token So E) as (d & -> & So'); try done.
    { unfold calm, is_waiting, is_stored. by rewrite Es. }
    { rewrite Hh. unfold held. rewrite Es. cbn. apply Permutation_app_comm. }
    go_step. eauto.
  - by eapply advance_undoing.
  - unfold advance. rewrite E. go_step. rewrite Es. destruct (callCommit_ok _ (bd_name (sv_dev s)) _ Hu Es) as (u' & -> & Hu' & Hh & Wu' & _). go_step.
    eexists. split; [done|]. eapply update_same; try done. unfold calm, is_waiting, is_stored. by rewrite Es.
Qed.

(** ** The kernel *)

Lemma held_self tot free0 ups i u (d : @BlockDevice T) :
  holding tot free0 (heldAll ups) d -> ups !! i = Some u ->
  forall b, covers (tokens (blockInfoList (up_handler u))) b = true -> covers (stageTokens (up_stage u)) b = false.
Proof.
  intros H E. pose proof (concat_insert_Permutation held ups i u (mkUpload NewAioUploadServerHandler Idle []) E) as P.
  apply (holding_perm _ _ _ _ _ P) in H. cbn [held up_handler up_stage app tokens] in H. destruct H as [_ _ H3 H4 _ _].
  apply disjoint_app in H4 as (H4 & _). apply Forall_app in H3 as [H3 _]. by apply (disjoint_app_covers _ _ _ H3) in H4 as (_ & _ & H4).
Qed.

Lemma segs_disjoint_app segs seg rest : segs_disjoint (segs ++ seg :: rest) -> Forall (fun seg0 => forall p, seg_in seg0 p -> ~ seg_in seg p) segs.
Proof.
  induction segs as [|seg0 segs IH]; [constructor|]. intros [H1 H2]. apply Forall_app in H1 as [_ H1]. apply Forall_cons in H1 as [H1 _].
  constructor; [done|by apply IH].
Qed.

(** The upload whose segment was written. *)
Lemma written_ok tot free0 s i u j seg segs w k' res :
  holding tot free0 (heldAll (sv_ups s)) (sv_dev s) -> sv_ups s !! i = Some u -> upload_ok (sv_kernel s) u ->
  up_stage u = Waiting j seg segs w -> kpwrite (sv_kernel s) seg.1 seg.2 = (k', res) ->
  let u' := afterWrite u j seg.1 segs w (completionOf seg.1 res) in upload_ok k' u' /\ held u' = held u /\ calm u'.
Proof.
  intros Hh E [Hc Hs] Es Ek. unfold stage_ok in Hs. rewrite Es in Hs. destruct Hs as [(infos & pieces & data & R) (dones & Ho)].
  pose proof (held_in _ _ _ _ _ _ Hh E) as Hin. pose proof (held_self _ _ _ _ _ _ Hh E) as Hdj. unfold held in Hin. rewrite Es in Hin, Hdj.
  pose proof (running_tokens _ _ _ _ _ _ _ _ R) as Et. rewrite Et in Hin, Hdj. apply Forall_app in Hin as [Hin1 Hin2]. cbn [stageTokens] in Hin2, Hdj.
  pose proof Ho as [O1 O2 O3 O4 O5].
  assert (Hcov : forall p, seg_in seg p -> covers (fj_token j) (p / BlockSize) = true).
  { intros p Hp. eapply (cut_covered _ _ (buf_data (fj_buf j)) seg); [done| |done]. rewrite <- O1, O3. apply elem_of_app. right. left. }
  assert (Hfr : forall p, ~ seg_in seg p -> kbyte k' p = kbyte (sv_kernel s) p) by (intros p Hp; by eapply kpwrite_frame).
  assert (R' : running k' (up_handler u) (up_received u) (fj_buf j) (fj_respond j) infos pieces data).
  { eapply running_keep; [done| |exact R]. intros p Hp. apply Hfr. intros Hq. apply Hcov in Hq. by rewrite (Hdj _ Hp) in Hq. }
  assert (Hd : Forall (segStored k') dones).
  { pose proof (positive_byteResult _ _ Hin2) as HP. assert (HD : disjoint_extents (fj_results j)).
    { rewrite O1. apply disjoint_byteResult. pose proof (concat_insert_Permutation held (sv_ups s) i u (mkUpload NewAioUploadServerHandler Idle []) E) as P.
      pose proof (holding_perm _ _ _ _ _ P Hh) as [_ _ _ H4 _ _]. cbn [held up_handler up_stage app tokens] in H4. unfold held in H4. rewrite Es in H4.
      by apply disjoint_app in H4 as ((_ & H4 & _)%disjoint_app & _). }
    rewrite <- O1 in HP. pose proof (cut_disjoint (buf_data (fj_buf j)) _ HP HD) as HC. rewrite O3 in HC. apply segs_disjoint_app in HC.
    rewrite Forall_forall in HC, O5 |- *. intros seg0 Hs0. eapply segStored_keep; [|by apply O5]. intros p Hp. by apply Hfr, (HC seg0 Hs0). }
  destruct (kpwrite_result _ _ _ _ _ Ek) as [Hres Hle]. unfold afterWrite, completionOf.
  assert (Hf : forall err, let u' := at_stage u (up_handler u) (Failing (fj_token j) err) in upload_ok k' u' /\ held u' = held u /\ calm u').
  { intros err. cbv zeta. split; [by apply (fail_stage k' (mkUpload (up_handler u) (Failing [] err) (up_received u))); split; [destruct Hc; split|]|].
    split; [by eapply held_job; [rewrite Es|]|done]. }
  destruct (res <? 0) eqn:En; cbn [comp_Err comp_N]; [by apply Hf|]. destruct (res =? zlen seg.1) eqn:Ee; cbn [negb]; [|by apply Hf].
  bool_norm. split; [|split; [by eapply held_job; [rewrite Es|]|done]]. split; [by destruct Hc; split|]. split; [by exists infos, pieces, data|].
  exists (dones ++ [seg]). split; try done.
  - rewrite O3, <- app_assoc. done.
  - rewrite map_app, concat_app, zlen_app_, <- O4. simpl. rewrite app_nil_r. lia.
  - apply Forall_app. split; [done|]. constructor; [|done]. unfold segStored. apply readRange_stored. intros p b Hb.
    pose proof (zget_bound _ _ _ Hb). cbn. eapply kpwrite_stores; [exact Ek|done|lia].
Qed.

Lemma kernelWrite_ok tot n free0 A s jx e :
  server_ok tot n free0 A s -> sv_inflight s !! jx = Some e -> exists s', kernelWrite jx s = Some s' /\ server_ok tot n free0 A s'.
Proof.
  intros [S1 S2 S3 S4 S5 S6] Ej. destruct e as [[i data] off].
  destruct (S3 i data off) as (u & j & segs & w & E & Es); [by eapply list_elem_of_lookup_2|]. apply lookup_lt_Some in E as Hl.
  unfold kernelWrite. rewrite Ej. go_step. destruct (kpwrite (sv_kernel s) data off) as [k' res] eqn:Ek. cbn [sv_ups]. rewrite E. go_step. rewrite Es.
  pose proof (Forall_lookup_1 _ _ _ _ S2 E) as Hu.
  destruct (written_ok tot free0 s i u j (data, off) segs w k' res S1 E Hu Es Ek) as (Hu' & Hh & W1' & W2'). cbn [fst] in *.
  set (u' := afterWrite u j data segs w (completionOf data res)) in *. eexists. split; [done|].
  assert (W2 : is_stored u = false) by (unfold is_stored; by rewrite Es).
  pose proof (delete_Permutation _ _ _ Ej) as P. assert (Hnd : NoDup (i :: map owner (base.delete jx (sv_inflight s)))).
  { change (NoDup (map owner ((i, data, off) :: base.delete jx (sv_inflight s)))). by rewrite <- P. }
  apply NoDup_cons in Hnd as [Hout Hnd].
  split; cbn [sv_dev sv_kernel sv_db sv_inflight sv_ups set_up].
  - eapply holding_perm; [|exact S1]. pose proof (heldAll_move (sv_ups s) i u u' [] [] E) as P'. rewrite !app_nil_r in P'. apply P'. by rewrite Hh.
  - apply Forall_lookup. intros x v Ex. destruct (decide (x = i)) as [->|Hne]; [rewrite list_lookup_insert_eq in Ex by done; by simplify_eq|].
    rewrite list_lookup_insert_ne in Ex by done. eapply upload_keep; [by eapply held_in| |by eapply Forall_lookup_1].
    intros p Hp. eapply kpwrite_frame; [exact Ek|]. intros Hq. pose proof (held_in _ _ _ _ _ _ S1 E) as Hin.
    pose proof (held_disjoint _ _ _ _ _ _ _ _ _ S1 Ex E Hne Hp) as Hcov. destruct Hu as [_ Hs]. unfold stage_ok in Hs. rewrite Es in Hs.
    destruct Hs as [_ (dones & [O1 O2 O3 O4 O5])]. unfold held in Hin, Hcov. rewrite Es in Hin, Hcov. apply Forall_app in Hin as [_ Hin].
    rewrite covers_app in Hcov. apply orb_false_iff in Hcov as [_ Hcov]. cbn [stageTokens] in Hcov, Hin.
    rewrite (cut_covered _ _ (buf_data (fj_buf j)) (data, off) p Hin) in Hcov; [done| |exact Hq]. rewrite <- O1, O3. apply elem_of_app. right. left.
  - intros x data' off' Hx. destruct (S3 x data' off') as (v & j' & segs' & w' & Ev & Es'); [rewrite P; by right|]. exists v, j', segs', w'.
    split; [|done]. rewrite list_lookup_insert_ne; [done|]. intros <-. apply Hout. by apply (list_elem_of_fmap_2 owner _ (i, data', off')).
  - done.
  - intros x v Ex Hx. destruct (decide (x = i)) as [->|Hne]; [rewrite list_lookup_insert_eq in Ex by done; simplify_eq; congruence|].
    rewrite list_lookup_insert_ne in Ex by done. specialize (S5 x v Ex Hx). rewrite P in S5. cbn in S5. by apply elem_of_cons in S5 as [->|S5].
  - by eapply db_same.
Qed.

(** ** The batch writer *)

(** What a request needs: the upload is complete and its blocks are not in the
    bitmap [A] yet. *)
Record committable (k : kstate) (tot : Z) (A : Z -> bool) u : Prop := {
  cm_counted : counted u;
  cm_complete : complete k u;
  cm_in : Forall (extent_in tot) (tokens (blockInfoList (up_handler u)));
  cm_disjoint : disjoint_extents (tokens (blockInfoList (up_handler u)));
  cm_free : forall b, covers (tokens (blockInfoList (up_handler u))) b = true -> A b = false;
}.

Lemma metaOfHandler_spec k u req :
  counted u -> complete k u -> initReq (up_handler u) = Some req ->
  exists used, metaOfHandler (up_handler u) req =
    (metaOf req (up_received u) (blockInfoList (up_handler u)), map byteResult (tokens (blockInfoList (up_handler u))), used).
Proof.
  intros [_ C2 C3 _] (pieces & Hon & _) E. unfold metaOfHandler, buildFileMetaAndResults. rewrite C2, C3.
  rewrite <- (extentsOf_flushed _ _ _ Hon). by eexists.
Qed.

Definition metaKey (q : bytes) : Prop := exists rest, q = 35 :: rest.

Lemma keyOf_metaKey u : counted u -> metaKey (keyOf u).
Proof. intros [(req & E) _ _ _]. unfold keyOf. rewrite E. apply GetFileMetaKey_head. Qed.

(** The effect of one request on the batch. *)
Lemma consumerOf_cases k n tot A u (db : DB) wb :
  0 <= n < 2 ^ 38 -> tot * BlockSize <= SpaceSize * n -> committable k tot A u -> stored_chains n (wchain db wb) A ->
  (exists e, consumerOf (up_handler u) db wb = Some (inl e)) \/
  (exists wb' mb, consumerOf (up_handler u) db wb = Some (inr wb') /\ existsOn (up_handler u) db wb = false /\ metaBytes u mb /\
     stored_chains n (wchain db wb') (fun b => covers (tokens (blockInfoList (up_handler u))) b || A b) /\ wchain db wb' (keyOf u) = [mb] /\
     forall q, metaKey q -> q <> keyOf u -> wchain db wb' q = wchain db wb q) \/
  (consumerOf (up_handler u) db wb = Some (inr wb) /\ existsOn (up_handler u) db wb = true).
Proof.
  intros Hn Hcap [Hc Hcm Hin Hdj Hfr] Hs. pose proof Hc as [(req & Er) _ _ _]. unfold consumerOf, existsOn. rewrite Er.
  destruct (metaOfHandler_spec k u req Hc Hcm Er) as (used & ->). set (meta := metaOf req (up_received u) (blockInfoList (up_handler u))).
  destruct (Marshal meta) as [e|mb] eqn:Em; [by left; eauto|].
  destruct (commitConsumer_spec n tot A (tokens (blockInfoList (up_handler u))) meta mb used db wb Hn Hcap Hin Hdj Hs Hfr) as (wb' & Ec & [K1 K2 K3 K4 K5 K6]).
  assert (Hgood : exists mb0, metaBytes u mb0 /\
     stored_chains n (wchain db wb') (fun b => covers (tokens (blockInfoList (up_handler u))) b || A b) /\ wchain db wb' (keyOf u) = [mb0] /\
     forall q, metaKey q -> q <> keyOf u -> wchain db wb' q = wchain db wb q).
  { exists mb. split; [by exists req|]. split; [done|]. unfold keyOf. rewrite Er. split; [done|]. intros q (rest & ->) Hq. by apply K6. }
  destruct Hgood as (mb0 & Hg). destruct (pi_NoGet req); cbn [negb andb]; [right; left; exists wb', mb0; by split|].
  unfold guardedConsumer. change (fm_MetaKey meta) with (pi_MetaKey req).
  destruct (getFromBatchAndDB db wb (fileMetaKey (pi_MetaKey req))) as [e|[v|]]; [by left; eauto|by right; right|].
  right; left. exists wb', mb0. by split.
Qed.

Definition tokensOf u : list Result := tokens (blockInfoList (up_handler u)).

(** The blocks that a batch adds to the bitmap; [flags] are the [exists]
    variables. *)
Fixpoint addedTokens (us : list upload) (flags : list bool) : list Result :=
  match us, flags with
  | u :: us, f :: flags => (if f then [] else tokensOf u) ++ addedTokens us flags
  | _, _ => []
  end.

(** The metadata after a batch. *)
Record batch_metas (us : list upload) (flags : list bool) (before after : bytes -> list bytes) : Prop := {
  bm_other : forall q, metaKey q -> (forall x u, us !! x = Some u -> flags !! x = Some false -> keyOf u <> q) -> after q = before q;
  bm_new : forall x u, us !! x = Some u -> flags !! x = Some false ->
    (forall x' u', us !! x' = Some u' -> flags !! x' = Some false -> keyOf u' = keyOf u -> x' = x) ->
    exists mb, metaBytes u mb /\ after (keyOf u) = [mb];
}.

Lemma batch_metas_cons u us flag flags ch ch1 ch2 mb :
  counted u -> batch_metas us flags ch1 ch2 ->
  (flag = false -> metaBytes u mb /\ ch1 (keyOf u) = [mb] /\ forall q, metaKey q -> q <> keyOf u -> ch1 q = ch q) ->
  (flag = true -> forall q, ch1 q = ch q) ->
  batch_metas (u :: us) (flag :: flags) ch ch2.
Proof.
  intros Hc [B1 B2] Hf Ht. split.
  - intros q Hq Hno. rewrite B1; [|done|intros x v Hx Hv; exact (Hno (S x) v Hx Hv)]. destruct flag; [by apply Ht|].
    apply Hf; try done. intros ->. by apply (Hno O u).
  - intros [|x] v Hx Hv Huniq.
    + cbn in Hx, Hv. injection Hx as <-. injection Hv as ->. destruct (Hf eq_refl) as (H1 & H2 & _). exists mb. split; [done|].
      rewrite B1; [done|by apply keyOf_metaKey|]. intros x v Hx Hv Hk. by specialize (Huniq (S x) v Hx Hv Hk).
    + apply (B2 x v Hx Hv). intros x' v' Hx' Hv' Hk. specialize (Huniq (S x') v' Hx' Hv' Hk). lia.
Qed.

Lemma batch_cases k n tot us : forall A (db : DB) wb,
  0 <= n < 2 ^ 38 -> tot * BlockSize <= SpaceSize * n -> Forall (committable k tot A) us ->
  Forall (extent_in tot) (concat (map tokensOf us)) -> disjoint_extents (concat (map tokensOf us)) -> stored_chains n (wchain db wb) A ->
  let run := foldE (fun wb u => consumerOf (up_handler u) db wb) wb us in
  let flags := existsFlags (map up_handler us) db wb in
  (exists e, run = Some (inl e)) \/
  (exists wb', run = Some (inr wb') /\ length flags = length us /\
     stored_chains n (wchain db wb') (fun b => covers (addedTokens us flags) b || A b) /\ batch_metas us flags (wchain db wb) (wchain db wb')).
Proof.
  induction us as [|u us IH]; intros A db wb Hn Hcap HF Hin Hdj Hs; cbn [map concat foldE existsFlags].
  { right. exists wb. split; [done|]. split; [done|]. split; [done|]. split; [done|]. intros x v Hx. by destruct x. }
  apply Forall_cons in HF as [Hu HF]. cbn [map concat] in Hin, Hdj. pose proof Hin as Hin'. apply Forall_app in Hin' as [_ Hin'].
  apply (disjoint_app_covers _ _ _ Hin) in Hdj as (_ & Hdj' & Hdj).
  destruct (consumerOf_cases k n tot A u db wb Hn Hcap Hu Hs) as [(e & ->)|[(wb1 & mb & -> & -> & Hm & Hs1 & Hk & Ho)|(-> & ->)]]; go_run; [by left; eauto|..].
  - destruct (IH (fun b => covers (tokensOf u) b || A b) db wb1 Hn Hcap) as [(e & ->)|(wb2 & -> & Hl & Hs2 & Hb)]; try done; [|by left; eauto|].
    { apply Forall_lookup. intros x v Hx. pose proof (Forall_lookup_1 _ _ _ _ HF Hx) as [V1 V2 V3 V4 V5]. split; try done. intros b Hb. rewrite V5 by done.
      rewrite orb_false_r. destruct (covers (tokensOf u) b) eqn:Eb; [|done]. apply Hdj in Eb. rewrite <- Eb. symmetry. apply covers_concat. by exists x, v. }
    right. exists wb2. split; [done|]. split; [by cbn; rewrite Hl|]. split.
    + eapply stored_ext; [| |exact Hs2]; [done|]. intros b _. cbv beta. cbn [addedTokens]. rewrite covers_app, !orb_assoc. f_equal. apply orb_comm.
    + eapply batch_metas_cons; [apply Hu|exact Hb|by intros _|discriminate].
  - destruct (IH A db wb Hn Hcap) as [(e & ->)|(wb2 & -> & Hl & Hs2 & Hb)]; try done; [by left; eauto|].
    right. exists wb2. split; [done|]. split; [by cbn; rewrite Hl|]. split; [done|].
    eapply (batch_metas_cons _ _ _ _ _ _ _ []); [apply Hu|exact Hb|discriminate|done].
Qed.

(** How an upload goes on after the answer [o]. *)
Definition answered u (o : option error) (flag : bool) : upload :=
  match o with
  | None => if flag then undo u (up_handler u) MetaSuccess else at_stage u (up_handler u) Stored
  | Some e => undo u (up_handler u) (MetaError e)
  end.

Lemma answered_ok k u o flag :
  upload_ok k u -> up_stage u = Queued ->
  upload_ok k (answered u o flag) /\ held (answered u o flag) = held u /\ is_waiting (answered u o flag) = false /\
  (is_stored (answered u o flag) = true <-> o = None /\ flag = false) /\
  storedTokens (answered u o flag) = match o with None => if flag then [] else tokensOf u | Some _ => [] end.
Proof.
  intros [Hc Hs] Es. unfold stage_ok in Hs. rewrite Es in Hs.
  assert (Hh : held u = tokensOf u) by (unfold held; rewrite Es; cbn; by rewrite app_nil_r).
  assert (Hu : forall r, let u' := undo u (up_handler u) r in upload_ok k u' /\ held u' = held u /\ is_waiting u' = false /\ is_stored u' = false /\ storedTokens u' = []).
  { intros r. cbv zeta. rewrite Hh. destruct (undo_ok k u (up_handler u) r) as (? & ? & ? & ?); [by destruct Hc; split|]. by unfold storedTokens. }
  destruct o as [e|]; cbn [answered].
  - destruct (Hu (MetaError e)) as (H1 & H2 & H3 & H4 & H5). rewrite H4. split_and!; try done. split; [done|by intros [? _]].
  - destruct flag.
    + destruct (Hu MetaSuccess) as (H1 & H2 & H3 & H4 & H5). rewrite H4. split_and!; try done. split; [done|by intros [_ ?]].
    + split_and!; try done. { split; [by destruct Hc; split|exact Hs]. }
      rewrite Hh. unfold held. cbn. by rewrite app_nil_r.
Qed.

Lemma Forall2_insert_other (ups : list upload) i u' is_ us :
  i ∉ is_ -> Forall2 (fun x u => ups !! x = Some u) is_ us -> Forall2 (fun x u => <[i := u']> ups !! x = Some u) is_ us.
Proof.
  intros Hni HF. induction HF as [|x v is_ us Hx HF IH]; [constructor|]. apply not_elem_of_cons in Hni as [Hn Hni]. constructor; [|by apply IH].
  by rewrite list_lookup_insert_ne.
Qed.

(** Answering all requests of a batch with the same outcome. *)
Lemma answerAll_spec o is_ : forall ups flags us,
  NoDup is_ -> Forall2 (fun i u => ups !! i = Some u) is_ us -> (o = None -> length flags = length us) ->
  exists ups', answerAll ups is_ (map (fun _ => [o]) is_) flags = Some ups' /\
    (forall i, i ∉ is_ -> ups' !! i = ups !! i) /\
    (forall x i u, is_ !! x = Some i -> us !! x = Some u -> ups' !! i = Some (answered u o (default false (flags !! x)))).
Proof.
  induction is_ as [|i is_ IH]; intros ups flags us Hnd HF Hl; inversion HF as [|? u ? us' E HF']; subst; cbn [map answerAll].
  { exists ups. split; [done|]. split; [done|]. intros x ? ? Hx. by destruct x. }
  apply NoDup_cons in Hnd as [Hni Hnd]. rewrite E. go_step.
  assert (answerRequest u [o] (default false (head flags)) = Some (answered u o (default false (head flags)))) as -> by (by destruct o). go_step.
  apply lookup_lt_Some in E as Hlt.
  destruct (IH (<[i := answered u o (default false (head flags))]> ups) (tail flags) us' Hnd) as (ups' & -> & H1 & H2).
  { by apply Forall2_insert_other. }
  { intros Ho. specialize (Hl Ho). destruct flags; cbn in *; lia. }
  exists ups'. split; [done|]. split.
  - intros x Hx. apply not_elem_of_cons in Hx as [Hn Hx]. rewrite H1 by done. by rewrite list_lookup_insert_ne.
  - intros [|x] i' v Hi Hv; cbn in Hi, Hv.
    + injection Hi as <-. injection Hv as <-. rewrite H1 by done. rewrite list_lookup_insert_eq by done. by destruct flags.
    + rewrite (H2 x i' v Hi Hv). by destruct flags.
Qed.

(** A function of the uploads that changes only at the answered ones. *)
Lemma answerAll_perm {B} (f : upload -> list B) (g : upload -> bool -> list B) o is_ : forall ups flags us ups',
  NoDup is_ -> Forall2 (fun i u => ups !! i = Some u) is_ us ->
  Forall (fun u => forall fl, f (answered u o fl) = g u fl ++ f u) us ->
  answerAll ups is_ (map (fun _ => [o]) is_) flags = Some ups' ->
  concat (map f ups') ≡ₚ concat (imap (fun x u => g u (default false (flags !! x))) us) ++ concat (map f ups).
Proof.
  induction is_ as [|i is_ IH]; intros ups flags us ups' Hnd HF Hg; inversion HF as [|? u ? us' E HF']; subst; cbn [map answerAll]; [by intros [= <-]|].
  apply NoDup_cons in Hnd as [Hni Hnd]. rewrite E. go_step. apply Forall_cons in Hg as [Hu Hg].
  assert (answerRequest u [o] (default false (head flags)) = Some (answered u o (default false (head flags)))) as -> by (by destruct o). go_step.
  intros Ha. apply (IH _ _ us') in Ha; [|done|by apply Forall2_insert_other|done].
  rewrite Ha. cbn [imap concat]. pose proof (concat_insert_Permutation f ups i u (answered u o (default false (head flags))) E) as P.
  rewrite Hu, <- app_assoc in P. rewrite (Permutation_app_swap_app (g u _)) in P. apply Permutation_app_inv_l in P. rewrite <- P.
  assert (concat (imap (fun x u => g u (default false (tail flags !! x))) us') =
    concat (imap ((fun x u => g u (default false (flags !! x))) ∘ S) us')) as -> by (f_equal; apply imap_ext; intros; by destruct flags).
  replace (default false (head flags)) with (default false (flags !! O)) by (by destruct flags).
  rewrite <- app_assoc. apply Permutation_app_swap_app.
Qed.

Lemma addedTokens_imap us flags :
  length flags = length us -> concat (imap (fun x u => if default false (flags !! x) then [] else tokensOf u) us) = addedTokens us flags.
Proof.
  revert flags. induction us as [|u us IH]; intros [|f flags] Hl; try done. cbn [imap concat addedTokens]. f_equal. apply IH. cbn in Hl. lia.
Qed.

Lemma foldE_requests (db : DB) wb is_ us :
  length is_ = length us ->
  foldE (handleRequest db) wb (execOrder (zip_with (fun i u => newRequest i (consumerOf (up_handler u)) false) is_ us)) =
  foldE (fun wb u => consumerOf (up_handler u) db wb) wb us.
Proof.
  intros Hl. assert (He : forall rs, Forall (fun r => LowPriority r = false) rs -> execOrder rs = rs).
  { intros rs HF. unfold execOrder. induction HF as [|r rs Hr HF IH]; [done|]. cbn [List.filter]. rewrite Hr. cbn [negb app]. by f_equal. }
  rewrite He by (clear; revert us; induction is_; intros [|u us]; constructor; [done|apply IHis_]).
  revert us wb Hl. induction is_ as [|i is_ IH]; intros [|u us] wb Hl; try done. cbn [zip_with foldE].
  change (handleRequest db wb (newRequest i (consumerOf (up_handler u)) false)) with (consumerOf (up_handler u) db wb).
  destruct (consumerOf (up_handler u) db wb) as [[e|wb']|]; go_run; try done. apply IH. cbn in Hl. lia.
Qed.

(** What a flush does: the requests run on one batch that is committed, or all
    get an error and the database stays as it was. *)
Lemma flush_requests (db : DB) name is_ us :
  cleanFailure -> length is_ = length us ->
  let wb := NewWriteBatch db name in
  let run := foldE (fun wb u => consumerOf (up_handler u) db wb) wb us in
  let reqs := zip_with (fun i u => newRequest i (consumerOf (up_handler u)) false) is_ us in
  (forall e, run = Some (inl e) -> exists rs, flush db wb reqs = Some (db, Clear wb, rs) /\ map result rs = map (fun _ => [Some e]) is_) /\
  (forall wb', run = Some (inr wb') -> exists db' rs o, flush db wb reqs = Some (db', Clear wb', rs) /\
     map result rs = map (fun _ => [o]) is_ /\
     match o with None => forall q, chain db' q = wchain db wb' q | Some _ => forall q, chain db' q = chain db q end).
Proof.
  intros HC Hl wb run reqs.
  assert (Hres : forall o, map result (map (notify o) reqs) = map (fun _ => [o]) is_).
  { intros o. unfold reqs. clear -Hl. revert us Hl. induction is_ as [|i is_ IH]; intros [|u us] Hl; try done. cbn [zip_with map].
    f_equal. apply IH. cbn in Hl. lia. }
  assert (Hrun : foldE (handleRequest db) wb (execOrder reqs) = run) by (by apply foldE_requests). unfold flush. rewrite Hrun. split.
  - intros e ->. eexists. split; [done|]. apply Hres.
  - intros wb' ->. unfold Commit. destruct (BatchCommit db (wb_batch wb')) as [db' o] eqn:E. exists db', (map (notify o) reqs), o. split; [done|].
    split; [apply Hres|]. destruct o; [exact (HC _ _ _ _ E)|exact (BatchCommit_ok _ _ _ E)].
Qed.

(** Uploads that are answered, with the database [ch']. *)
Lemma answers_ok tot n free0 A s is_ us flags ups' o db' :
  server_ok tot n free0 A s -> NoDup is_ -> Forall2 (fun i u => sv_ups s !! i = Some u) is_ us -> Forall (fun u => up_stage u = Queued) us ->
  answerAll (sv_ups s) is_ (map (fun _ => [o]) is_) flags = Some ups' -> (o = None -> length flags = length us) ->
  db_ok n A ups' (chain db') ->
  server_ok tot n free0 A (mkServer (sv_dev s) (sv_kernel s) db' (sv_inflight s) ups').
Proof.
  intros [S1 S2 S3 S4 S5 S6] Hnd HF Hq Ha Hl Hdb. destruct (answerAll_spec o is_ (sv_ups s) flags us Hnd HF Hl) as (ups'' & E & H1 & H2).
  rewrite E in Ha. injection Ha as ->. rename E into Ha.
  assert (Hans : forall x i u, is_ !! x = Some i -> us !! x = Some u -> sv_ups s !! i = Some u /\ upload_ok (sv_kernel s) u /\ up_stage u = Queued).
  { intros x i u Hi Hu. assert (Eu : sv_ups s !! i = Some u) by (by apply (Forall2_lookup_lr _ _ _ _ _ _ HF Hi Hu)).
    split; [done|]. split; [by eapply Forall_lookup_1|by apply (Forall_lookup_1 _ _ _ _ Hq Hu)]. }
  assert (Hfind : forall i, i ∈ is_ -> exists x u, is_ !! x = Some i /\ us !! x = Some u).
  { intros i Hi. apply list_elem_of_lookup in Hi as [x Hx]. destruct (Forall2_lookup_l _ _ _ _ _ HF Hx) as (u & Hu & _). by exists x, u. }
  split; cbn; try done.
  - eapply holding_perm; [|exact S1]. symmetry. unfold heldAll. rewrite (answerAll_perm held (fun _ _ => []) o is_ _ flags us _ Hnd HF); [| |exact Ha].
    + assert (forall l : list upload, concat (imap (fun _ _ => @nil Result) l) = []) as -> by (induction l; by cbn). done.
    + apply Forall_lookup. intros x u Hu fl. destruct (Forall2_lookup_r _ _ _ _ _ HF Hu) as (i & Hi & _). destruct (Hans x i u Hi Hu) as (_ & Hok & Es).
      apply (answered_ok _ _ o fl Hok Es).
  - apply Forall_lookup. intros i v Ei. destruct (decide (i ∈ is_)) as [Hi|Hi]; [|rewrite H1 in Ei by done; by eapply Forall_lookup_1].
    destruct (Hfind i Hi) as (x & u & Hx & Hu). rewrite (H2 x i u Hx Hu) in Ei. injection Ei as <-.
    destruct (Hans x i u Hx Hu) as (_ & Hok & Es). apply (answered_ok _ _ o _ Hok Es).
  - intros i data off Hx. destruct (S3 i data off Hx) as (v & j & segs & w & Ev & Es). exists v, j, segs, w. split; [|done].
    rewrite H1; [done|]. intros Hi. destruct (Hfind i Hi) as (x & u & Hx' & Hu). destruct (Hans x i u Hx' Hu) as (Eu & _ & Eq). congruence.
  - intros i v Ev Hw. destruct (decide (i ∈ is_)) as [Hi|Hi]; [|rewrite H1 in Ev by done; by eapply S5].
    destruct (Hfind i Hi) as (x & u & Hx & Hu). rewrite (H2 x i u Hx Hu) in Ev. injection Ev as <-.
    destruct (Hans x i u Hx Hu) as (_ & Hok & Es). destruct (answered_ok _ _ o (default false (flags !! x)) Hok Es) as (_ & _ & Hw' & _). congruence.
Qed.

(** The blocks of some of the uploads. *)
Lemma heldAll_select is_ : forall ups us,
  NoDup is_ -> Forall2 (fun i u => ups !! i = Some u) is_ us -> exists rest, heldAll ups ≡ₚ concat (map held us) ++ rest.
Proof.
  induction is_ as [|i is_ IH]; intros ups us Hnd HF; inversion HF as [|? u ? us' E HF']; subst; [by exists (heldAll ups)|].
  apply NoDup_cons in Hnd as [Hni Hnd]. pose proof (concat_insert_Permutation held ups i u (mkUpload NewAioUploadServerHandler Idle []) E) as P.
  destruct (IH _ us' Hnd (Forall2_insert_other _ i (mkUpload NewAioUploadServerHandler Idle []) _ _ Hni HF')) as (rest & P'). exists rest.
  cbn [map concat]. rewrite <- app_assoc, <- P'. exact P.
Qed.

Lemma queued_held u : up_stage u = Queued -> held u = tokensOf u.
Proof. intros E. unfold held. rewrite E. cbn. by rewrite app_nil_r. Qed.

(** Queued uploads can be committed. *)
Lemma queued_committable tot n free0 A s is_ us :
  server_ok tot n free0 A s -> (forall b, free0 b = true -> A b = false) -> NoDup is_ ->
  Forall2 (fun i u => sv_ups s !! i = Some u) is_ us -> Forall (fun u => up_stage u = Queued) us ->
  Forall (committable (sv_kernel s) tot (fun b => A b || covers (storedAll (sv_ups s)) b)) us /\
  Forall (extent_in tot) (concat (map tokensOf us)) /\ disjoint_extents (concat (map tokensOf us)).
Proof.
  intros So HA Hnd HF Hq. pose proof (so_hold _ _ _ _ _ So) as Hh. destruct (heldAll_select is_ (sv_ups s) us Hnd HF) as (rest & P).
  assert (Heq : map held us = map tokensOf us) by (apply map_ext_in; intros u Hu; apply queued_held; rewrite Forall_forall in Hq; by apply Hq, list_elem_of_In).
  rewrite Heq in P. pose proof (holding_perm _ _ _ _ _ P Hh) as [_ _ H3 H4 _ _]. apply Forall_app in H3 as [H3 _]. apply disjoint_app in H4 as (H4 & _).
  split; [|done]. apply Forall_lookup. intros x u Hu. destruct (Forall2_lookup_r _ _ _ _ _ HF Hu) as (i & Hi & Ei).
  pose proof (Forall_lookup_1 _ _ _ _ (so_ups _ _ _ _ _ So) Ei) as [Hc Hs]. pose proof (Forall_lookup_1 _ _ _ _ Hq Hu) as Es. unfold stage_ok in Hs. cbn in Es. rewrite Es in Hs.
  pose proof (held_in _ _ _ _ _ _ Hh Ei) as Hin. rewrite (queued_held u Es) in Hin. split; try done.
  - clear -Hu H4. apply list_elem_of_lookup_2, list_elem_of_split in Hu as (l1 & l2 & ->). rewrite map_app, concat_app in H4.
    cbn [map concat] in H4. by apply disjoint_app in H4 as (_ & (H4 & _)%disjoint_app & _).
  - intros b Hb. rewrite HA, orb_false_l.
    + apply not_true_iff_false. intros Hst. apply covers_concat in Hst as (i' & u' & Ei' & Hst). unfold storedTokens in Hst.
      destruct (is_stored u') eqn:Est; [|done]. assert (i' <> i) as Hne by (intros ->; simplify_eq; unfold is_stored in Est; by rewrite Es in Est).
      assert (Hc' : covers (held u') b = true) by (unfold held; by rewrite covers_app, Hst).
      pose proof (held_disjoint _ _ _ _ _ _ _ _ _ Hh Ei' Ei Hne Hc') as Hno. rewrite (queued_held u Es) in Hno. unfold tokensOf in Hno. congruence.
    + apply (ho_was_free _ _ _ _ Hh). apply covers_concat. exists i, u. rewrite (queued_held u Es). done.
Qed.

(** The database agrees with the answers. *)
Lemma answers_db n A s is_ us flags ups' o ch' :
  db_ok n A (sv_ups s) (chain (sv_db s)) -> NoDup is_ -> Forall2 (fun i u => sv_ups s !! i = Some u) is_ us ->
  Forall (fun u => up_stage u = Queued /\ counted u) us -> Forall (upload_ok (sv_kernel s)) (sv_ups s) ->
  answerAll (sv_ups s) is_ (map (fun _ => [o]) is_) flags = Some ups' -> (o = None -> length flags = length us) ->
  match o with
   | None => stored_chains n ch' (fun b => covers (addedTokens us flags) b || (A b || covers (storedAll (sv_ups s)) b)) /\
             batch_metas us flags (chain (sv_db s)) ch'
   | Some _ => forall q, ch' q = chain (sv_db s) q
   end -> db_ok n A ups' ch'.
Proof.
  intros [D1 D2] Hnd HF Hq Hok Ha Hl Hch. destruct (answerAll_spec o is_ (sv_ups s) flags us Hnd HF Hl) as (ups'' & E & H1 & H2).
  rewrite E in Ha. injection Ha as ->. rename E into Ha.
  assert (Hans : forall x i u, is_ !! x = Some i -> us !! x = Some u -> upload_ok (sv_kernel s) u /\ up_stage u = Queued).
  { intros x i u Hi Hu. split; [|by apply (Forall_lookup_1 _ _ _ _ Hq Hu)]. eapply Forall_lookup_1; [exact Hok|].
    exact (Forall2_lookup_lr _ _ _ _ _ _ HF Hi Hu). }
  assert (Hold : forall i v, sv_ups s !! i = Some v -> is_stored v = true -> i ∉ is_).
  { intros i v Ev Hv Hi. apply list_elem_of_lookup in Hi as [x Hx]. destruct (Forall2_lookup_l _ _ _ _ _ HF Hx) as (u & Hu & Eu).
    destruct (Hans x i u Hx Hu) as [_ Es]. simplify_eq. unfold is_stored in Hv. by rewrite Es in Hv. }
  assert (Hstored : forall i v, ups' !! i = Some v -> is_stored v = true ->
    ((i ∉ is_) /\ sv_ups s !! i = Some v) \/ (o = None /\ exists x u, is_ !! x = Some i /\ us !! x = Some u /\ default false (flags !! x) = false /\ v = at_stage u (up_handler u) Stored)).
  { intros i v Ev Hv. destruct (decide (i ∈ is_)) as [Hi|Hi]; [|left; by rewrite H1 in Ev]. right. apply list_elem_of_lookup in Hi as [x Hx].
    destruct (Forall2_lookup_l _ _ _ _ _ HF Hx) as (u & Hu & _). rewrite (H2 x i u Hx Hu) in Ev. injection Ev as <-. destruct (Hans x i u Hx Hu) as [Hu1 Hu2].
    destruct (answered_ok _ _ o (default false (flags !! x)) Hu1 Hu2) as (_ & _ & _ & Hiff & _). apply Hiff in Hv as [-> Hf]. split; [done|]. exists x, u.
    split_and!; try done. by rewrite Hf. }
  assert (Hperm : storedAll ups' ≡ₚ concat (imap (fun x u => match o with None => if default false (flags !! x) then [] else tokensOf u | Some _ => [] end) us) ++ storedAll (sv_ups s)).
  { apply (answerAll_perm storedTokens (fun u fl => match o with None => if fl then [] else tokensOf u | Some _ => [] end) o is_ _ flags us _ Hnd HF); [|exact Ha].
    apply Forall_lookup. intros x u Hu fl. destruct (Forall2_lookup_r _ _ _ _ _ HF Hu) as (i & Hi & _). destruct (Hans x i u Hi Hu) as [Hu1 Hu2].
    destruct (answered_ok _ _ o fl Hu1 Hu2) as (_ & _ & _ & _ & ->). unfold storedTokens, is_stored. rewrite Hu2. by rewrite app_nil_r. }
  destruct o as [e|].
  - assert (forall l : list upload, concat (imap (fun _ _ => @nil Result) l) = []) as Hnil by (induction l; by cbn). rewrite Hnil in Hperm. split.
    + eapply stored_ext; [| |exact D1]; [intros; by rewrite Hch|]. intros b _. cbv beta. f_equal. symmetry. by apply covers_perm.
    + intros i v Ev Hv Huniq. rewrite Hch. destruct (Hstored i v Ev Hv) as [[_ Ev']|[? _]]; [|done]. apply (D2 i v Ev' Hv). intros i' v' Ev2 Hv2 Hk.
      apply (Huniq i' v'); try done. rewrite H1; [done|]. by eapply Hold.
  - destruct Hch as [Hch [B1 B2]]. rewrite addedTokens_imap in Hperm by (by apply Hl). split.
    + eapply stored_ext; [| |exact Hch]; [done|]. intros b _. cbv beta. rewrite (covers_perm _ _ _ Hperm), covers_app, !orb_assoc. f_equal. apply orb_comm.
    + assert (Hnew : forall x u, us !! x = Some u -> flags !! x = Some false -> exists i, is_ !! x = Some i /\ ups' !! i = Some (at_stage u (up_handler u) Stored)).
      { intros x u Hu Hf. destruct (Forall2_lookup_r _ _ _ _ _ HF Hu) as (i & Hi & _). exists i. split; [done|]. rewrite (H2 x i u Hi Hu), Hf. done. }
      intros i v Ev Hv Huniq. destruct (Hstored i v Ev Hv) as [[Hni Ev']|[_ (x & u & Hx & Hu & Hf & ->)]].
      * rewrite B1; [| |].
        -- apply (D2 i v Ev' Hv). intros i' v' Ev2 Hv2 Hk. apply (Huniq i' v'); try done. rewrite H1; [done|]. by eapply Hold.
        -- apply keyOf_metaKey. by apply (Forall_lookup_1 _ _ _ _ Hok Ev').
        -- intros x u Hu Hf Hk. destruct (Hnew x u Hu Hf) as (i' & Hi' & Ei'). assert (i' = i) as -> by (by eapply Huniq). apply Hni. by eapply list_elem_of_lookup_2.
      * assert (Hf' : flags !! x = Some false).
        { destruct (lookup_lt_is_Some_2 flags x) as [f Ef]; [rewrite Hl by done; by eapply lookup_lt_Some|]. rewrite Ef in Hf. by rewrite Ef, <- Hf. }
        apply (B2 x u Hu Hf'). intros x' u' Hu' Hf2 Hk. destruct (Hnew x' u' Hu' Hf2) as (i' & Hi' & Ei').
        assert (i' = i) as -> by (by eapply Huniq). by eapply NoDup_lookup.
Qed.

Lemma flushBatch_ok tot n free0 A s is_ us :
  cleanFailure -> 0 <= n < 2 ^ 38 -> tot * BlockSize <= SpaceSize * n -> (forall b, free0 b = true -> A b = false) -> server_ok tot n free0 A s ->
  NoDup is_ -> Forall2 (fun i u => sv_ups s !! i = Some u) is_ us -> Forall (fun u => up_stage u = Queued) us -> zlen is_ <= maxBatchSize ->
  exists s', flushBatch is_ s = Some s' /\ server_ok tot n free0 A s'.
Proof.
  intros HC Hn Hcap HA So Hnd HF Hq Hmax. unfold flushBatch. rewrite (proj2 (mapM_Some (fun i => sv_ups s !! i) is_ us) HF). go_step.
  rewrite (bool_decide_eq_true_2 _ Hnd), (proj2 (Z.leb_le _ _) Hmax).
  assert (forallb is_queued us = true) as ->.
  { apply forallb_forall. intros u Hu. apply list_elem_of_In in Hu. rewrite Forall_forall in Hq. unfold is_queued. by rewrite (Hq u Hu). }
  cbn [andb]. set (wb := NewWriteBatch (sv_db s) (bd_name (sv_dev s))). set (flags := existsFlags (map up_handler us) (sv_db s) wb).
  destruct (queued_committable tot n free0 A s is_ us So HA Hnd HF Hq) as (Hcm & Hin & Hdj).
  destruct (flush_requests (sv_db s) (bd_name (sv_dev s)) is_ us HC (Forall2_length _ _ _ HF)) as [Herr Hok]. fold wb in Herr, Hok.
  assert (Hq' : Forall (fun u => up_stage u = Queued /\ counted u) us).
  { apply Forall_and. split; [done|]. eapply Forall_impl; [exact Hcm|]. intros u Hu. apply Hu. }
  assert (Hcl : forall q, wchain (sv_db s) wb q = chain (sv_db s) q) by apply clean_new.
  assert (Hfail : forall e (db' : DB), (forall q, chain db' q = chain (sv_db s) q) -> exists s',
    (ups ← answerAll (sv_ups s) is_ (map (fun _ => [Some e]) is_) flags; Some (mkServer (sv_dev s) (sv_kernel s) db' (sv_inflight s) ups)) = Some s' /\
    server_ok tot n free0 A s').
  { intros e db' Hch. destruct (answerAll_spec (Some e) is_ (sv_ups s) flags us Hnd HF) as (ups' & Ea & _); [done|]. rewrite Ea. go_step. eexists. split; [done|].
    apply (answers_ok tot n free0 A s is_ us flags ups' (Some e)); try done.
    eapply (answers_db n A s is_ us flags ups' (Some e)); try done; apply So. }
  destruct (batch_cases (sv_kernel s) n tot us (fun b => A b || covers (storedAll (sv_ups s)) b) (sv_db s) wb Hn Hcap Hcm Hin Hdj)
    as [(e & Er)|(wb' & Er & Hl & Hs' & Hb)].
  - eapply stored_ext; [| |exact (db_space _ _ _ _ (so_db _ _ _ _ _ So))]; [intros; by rewrite Hcl|done].
  - destruct (Herr e Er) as (rs & Ef & Eres). rewrite Ef. go_step. rewrite Eres. by eapply Hfail.
  - destruct (Hok wb' Er) as (db' & rs & [e|] & Ef & Eres & Hch); rewrite Ef; go_step; rewrite Eres; [by eapply Hfail|].
    destruct (answerAll_spec None is_ (sv_ups s) flags us Hnd HF) as (ups' & Ea & _); [done|]. rewrite Ea. go_step. eexists. split; [done|].
    apply (answers_ok tot n free0 A s is_ us flags ups' None); try done.
    eapply (answers_db n A s is_ us flags ups' None); try done; try apply So. split.
    + eapply stored_ext; [| |exact Hs']; [intros; by rewrite Hch|done].
    + destruct Hb as [B1 B2]. split; [intros q Hq0 Hno; by rewrite Hch, B1, Hcl|].
      intros x u Hu Hf Huniq. destruct (B2 x u Hu Hf Huniq) as (mb & Hm & Ek). exists mb. split; [done|]. by rewrite Hch.
Qed.

(** ** Every schedule *)

(** No context ends while the kernel writes, and an upload stays below 2^61
    bytes. *)
Definition quiet (ev : event) s : Prop :=
  match ev with
  | ECancel _ _ => False
  | EPut i _ data => forall u, sv_ups s !! i = Some u -> zlen (up_received u) + zlen data < 2 ^ 61
  | _ => True
  end.

Inductive reachable (d : @BlockDevice T) (k : kstate) (db : DB) : server -> Prop :=
  | reach_init : reachable d k db (newServer d k db)
  | reach_step s ev s' : reachable d k db s -> quiet ev s -> exec ev s = Some s' -> reachable d k db s'.

Lemma payload_ok tot n free0 A s i f s' :
  server_ok tot n free0 A s -> payload s i f = Some s' ->
  (forall u u', sv_ups s !! i = Some u -> upload_ok (sv_kernel s) u -> up_stage u = Idle -> f u = Some u' ->
     upload_ok (sv_kernel s) u' /\ held u' = held u /\ calm u') ->
  server_ok tot n free0 A s'.
Proof.
  intros So E Hf. unfold payload in E. destruct (sv_ups s !! i) as [u|] eqn:Eu; [|done]. cbn in E. destruct (up_stage u) eqn:Es; try done.
  destruct (f u) as [u'|] eqn:Ef; [|done]. injection E as <-. pose proof (Forall_lookup_1 _ _ _ _ (so_ups _ _ _ _ _ So) Eu) as Hu.
  destruct (Hf u u' eq_refl Hu Es Ef) as (H1 & H2 & H3). eapply update_same; try done. unfold calm, is_waiting, is_stored. by rewrite Es.
Qed.

Section schedule.
Context (tot n : Z) (free0 A : Z -> bool).
Hypothesis Hclean : cleanFailure.
Hypothesis Htot : tot * BlockSize < 2 ^ 63.
Hypothesis Hn : 0 <= n < 2 ^ 38.
Hypothesis Hcap : tot * BlockSize <= SpaceSize * n.
Hypothesis HA : forall b, free0 b = true -> A b = false.

Lemma exec_ok s ev s' : server_ok tot n free0 A s -> quiet ev s -> exec ev s = Some s' -> server_ok tot n free0 A s'.
Proof.
  intros So Hq E. destruct ev as [req|i addr data|i addr|i|i ctx|j|is_|i e]; cbn [exec quiet] in *; try done.
  - injection E as <-. destruct So as [S1 S2 S3 S4 S5 [S6 S7]]. set (u0 := mkUpload _ _ _).
    assert (Hl : forall i u, (sv_ups s ++ [u0]) !! i = Some u -> sv_ups s !! i = Some u \/ u = u0).
    { intros i u Ei. apply lookup_app_Some in Ei as [?|[_ Ei]]; [by left|right]. by apply list_lookup_singleton_Some in Ei as [_ <-]. }
    assert (Hr : forall i u, sv_ups s !! i = Some u -> (sv_ups s ++ [u0]) !! i = Some u) by (intros; by apply lookup_app_l_Some).
    split; cbn; try done.
    + unfold heldAll. rewrite map_app, concat_app. cbn. by rewrite app_nil_r.
    + apply Forall_app. split; [done|]. constructor; [|done]. split; [split; by eauto|].
      unfold stage_ok, u0. cbn. do 3 (split; [done|]). exists []. split; [apply List.Forall2_nil|done].
    + intros i data off Hx. destruct (S3 i data off Hx) as (v & j & segs & w & Ev & Es). exists v, j, segs, w. by split; [apply Hr|].
    + intros i u Ei Hw. destruct (Hl i u Ei) as [Ei'| ->]; [by eapply S5|done].
    + split.
      * eapply stored_ext; [| |exact S6]; [done|]. intros b _. unfold storedAll. rewrite map_app, concat_app. cbn. by rewrite app_nil_r.
      * intros i u Ei Hst Huniq. destruct (Hl i u Ei) as [Ei'| ->]; [|done]. apply (S7 i u Ei' Hst). intros. by eapply Huniq; [apply Hr|..].
  - eapply payload_ok; [done..|]. intros u u' Eu Hu Es Ef. destruct (callPut_ok _ addr u data Hu Es (Hq u Eu)) as (u1 & E1 & ? & ? & ? & _).
    cbn in Ef. rewrite E1 in Ef. by injection Ef as <-.
  - eapply payload_ok; [done..|]. intros u u' Eu Hu Es Ef. destruct (callComplete_ok _ addr u Hu Es) as (u1 & E1 & ? & ? & ? & _).
    rewrite E1 in Ef. by injection Ef as <-.
  - eapply payload_ok; [done..|]. intros u u' Eu Hu Es Ef. injection Ef as <-. by apply callTimeOut_ok.
  - destruct (sv_ups s !! i) as [u|] eqn:Eu; [|by (unfold advance in E; rewrite Eu in E)].
    destruct (advance_ok tot n free0 A s i u ctx Htot So Eu) as (s1 & E1 & So1); [unfold advance in E; rewrite Eu in E; cbn in E; by destruct (up_stage u)|].
    rewrite E in E1. by injection E1 as ->.
  - destruct (sv_inflight s !! j) as [e|] eqn:Ej; [|by (unfold kernelWrite in E; rewrite Ej in E)].
    destruct (kernelWrite_ok tot n free0 A s j e So Ej) as (s1 & E1 & So1). rewrite E in E1. by injection E1 as ->.
  - pose proof E as E0. unfold flushBatch in E. destruct (mapM (fun i => sv_ups s !! i) is_) as [us|] eqn:Em; [|done]. cbn in E. apply mapM_Some in Em.
    destruct (bool_decide (NoDup is_) && forallb is_queued us && (zlen is_ <=? maxBatchSize)) eqn:Eg; [|done].
    apply andb_true_iff in Eg as [[Hnd%bool_decide_eq_true Hq0]%andb_true_iff Hmax%Z.leb_le].
    destruct (flushBatch_ok tot n free0 A s is_ us Hclean Hn Hcap HA So Hnd Em) as (s1 & E1 & So1); [|done|rewrite E0 in E1; by injection E1 as ->].
    rewrite forallb_forall in Hq0. apply Forall_forall. intros u Hu. apply list_elem_of_In, Hq0 in Hu. unfold is_queued in Hu. by destruct (up_stage u).
Qed.

Lemma server_ok_init (d : @BlockDevice T) k (db : DB) :
  holding tot free0 [] d -> stored_chains n (chain db) A -> server_ok tot n free0 A (newServer d k db).
Proof.
  intros Hd Hs. split; cbn; [done|constructor|intros ??? Hx; inversion Hx|constructor|done|]. split; [|done].
  eapply stored_ext; [| |exact Hs]; [done|]. intros b _. cbn. by rewrite orb_false_r.
Qed.

Lemma reachable_ok d k db s :
  holding tot free0 [] d -> stored_chains n (chain db) A -> reachable d k db s -> server_ok tot n free0 A s.
Proof. intros Hd Hs H. induction H as [|s ev s' H IH Hq E]; [by apply server_ok_init|by eapply exec_ok]. Qed.

(** ** Every upload can be answered *)

(** The answer of the last payload is out. *)
Definition settled u : Prop := match up_stage u with Idle | Stored | Ended _ => True | _ => False end.

(** The steps an upload has left, once it has its blocks. *)
Definition rank u : nat :=
  let l := length (blockInfoList (up_handler u)) in
  match up_stage u with
  | Idle | Stored | Ended _ | Allocating _ _ => 0
  | Undoing toks _ => 1 + length toks
  | Failing _ _ | Queued => 2 + l
  | Committing => 3 + l
  | Writing _ segs _ => 4 + l + 2 * length segs
  | Waiting _ _ segs _ => 5 + l + 2 * length segs
  | Building j => 5 + l + 2 * length (cut (buf_data (fj_buf j)) (fj_results j))
  end.

Definition allocating u : bool := match up_stage u with Allocating _ _ => true | _ => false end.

Lemma undo_rank u h r : (rank (undo u h r) <= 1 + length (blockInfoList h))%nat /\ allocating (undo u h r) = false.
Proof. split; [|done]. unfold rank, undo, takeTokens. cbn. pose proof (length_filter (fun t => t <> []) (map fi_token (blockInfoList h))) as H. rewrite length_map in H. lia. Qed.

Lemma update_last_length l f : length (update_last l f) = length l.
Proof. destruct l as [|i l _] using rev_ind; [done|]. rewrite update_last_snoc, !length_app. done. Qed.

Lemma flushFails_rank u err : (rank (flushFails u err) <= 1 + length (blockInfoList (up_handler u)))%nat /\ allocating (flushFails u err) = false.
Proof.
  destruct (undo_rank u (failFlush (up_handler u) err) (MetaError err)) as [H1 H2]. split; [|done].
  unfold failFlush in H1 at 2. cbn [blockInfoList] in H1. by rewrite update_last_length in H1.
Qed.

(** [moves s s' i u]: upload [i] has come closer to its answer, the others are
    as they were. *)
Definition moves s s' (i : nat) u : Prop := exists u', sv_ups s' = <[i := u']> (sv_ups s) /\ (rank u' < rank u)%nat /\ allocating u' = false.

Lemma set_up_moves s s0 i u u' :
  sv_ups s0 = sv_ups s -> (rank u' < rank u)%nat /\ allocating u' = false -> moves s (set_up s0 i u') i u.
Proof. intros E H. exists u'. split; [|done]. cbn. by rewrite E. Qed.

Lemma advance_moves s i u ctx s' :
  sv_ups s !! i = Some u -> allocating u = false -> advance i ctx s = Some s' -> moves s s' i u.
Proof.
  intros E Ha. unfold advance. rewrite E. go_step. unfold allocating in Ha.
  assert (Hset : forall s0 u', sv_ups s0 = sv_ups s -> (rank u' < rank u)%nat /\ allocating u' = false -> moves s (set_up s0 i u') i u)
    by (intros; by apply set_up_moves).
  destruct (up_stage u) as [| |j|j [|[data off] segs] w| |token err|[|token toks] r| | | |] eqn:Es; try done.
  - destruct (prepare_spec (if fj_respond j then Background else ctx) (fj_buf j) (fj_results j)) as ([e|segs] & -> & Hseg); go_step; intros [= <-].
    + apply Hset; [done|]. unfold rank. rewrite Es. cbn. split; [lia|done].
    + rewrite (Hseg segs eq_refl). apply Hset; [done|]. unfold rank. rewrite Es. cbn. split; [lia|done].
  - case_bool; intros [= <-]; (apply Hset; [done|]); unfold rank; rewrite Es; cbn; [|split; [lia|done]].
    destruct (fj_respond j); cbn; rewrite ?update_last_length; split; (lia || done).
  - destruct ((if fj_respond j then Background else ctx) O); [intros [= <-]; apply Hset; [done|]; unfold rank; rewrite Es; cbn; split; [lia|done]|].
    case_bool; [intros [= <-]; apply Hset; [done|]; unfold rank; rewrite Es; cbn; split; [lia|done]|].
    destruct (ksubmit (sv_kernel s) data off) as [k [x errno]]. destruct (submit x errno); intros [= <-]; (apply Hset; [done|]); unfold rank; rewrite Es; cbn; split; (lia || done).
  - destruct (RollbackAlloc (sv_dev s) token) as [d|]; go_step; [|done]. intros [= <-]. apply Hset; [done|].
    destruct (flushFails_rank u err). split; [|done]. unfold rank at 2. rewrite Es. cbv zeta. lia.
  - intros [= <-]. apply Hset; [done|]. unfold rank. rewrite Es. cbn. split; [lia|done].
  - destruct (RollbackAlloc (sv_dev s) token) as [d|]; go_step; [|done]. intros [= <-]. apply Hset; [done|]. unfold rank. rewrite Es. cbn. split; [lia|done].
  - unfold callCommit. destruct (initReq (up_handler u)) as [req|]; [|done].
    assert (Hu : forall r, (rank (undo u (up_handler u) r) < rank u)%nat /\ allocating (undo u (up_handler u) r) = false).
    { intros r. destruct (undo_rank u (up_handler u) r). split; [|done]. unfold rank at 2. rewrite Es. cbv zeta. lia. }
    destruct (Marshal _); go_step; [intros [= <-]; by apply Hset|]. destruct (String.eqb _ _); go_step; intros [= <-]; (apply Hset; [done|]); [|by apply Hu].
    unfold rank. rewrite Es. cbn. split; [lia|done].
Qed.

(** An upload that is not settled and has its blocks can take its next step. *)
Lemma next_step s i u :
  server_ok tot n free0 A s -> sv_ups s !! i = Some u -> ~ settled u -> allocating u = false ->
  exists ev s', quiet ev s /\ exec ev s = Some s' /\ server_ok tot n free0 A s' /\ moves s s' i u.
Proof.
  intros So E Hns Ha. pose proof (Forall_lookup_1 _ _ _ _ (so_ups _ _ _ _ _ So) E) as Hu. apply lookup_lt_Some in E as Hl.
  assert (Hadv : match up_stage u with Idle | Waiting _ _ _ _ | Queued | Stored | Ended _ => False | _ => True end ->
    exists ev s', quiet ev s /\ exec ev s = Some s' /\ server_ok tot n free0 A s' /\ moves s s' i u).
  { intros Hst. destruct (advance_ok tot n free0 A s i u Background Htot So E Hst) as (s' & E' & So'). exists (EAdvance i Background), s'.
    split_and!; try done. by eapply advance_moves. }
  unfold settled, allocating in *. destruct (up_stage u) as [| | | |j seg segs w| | | | | |] eqn:Es; try done; try (by apply Hadv).
  - assert (Hw : i ∈ map owner (sv_inflight s)) by (apply (so_waiting _ _ _ _ _ So i u E); unfold is_waiting; by rewrite Es).
    apply list_elem_of_fmap in Hw as ([[i' data] off] & Ei & Hx). cbn in Ei. subst i'. apply list_elem_of_lookup in Hx as [jx Ej].
    destruct (kernelWrite_ok tot n free0 A s jx _ So Ej) as (s' & E' & So'). exists (EKernel jx), s'. split_and!; try done.
    unfold kernelWrite in E'. rewrite Ej in E'. cbn in E'. destruct (kpwrite (sv_kernel s) data off) as [k' res]. rewrite E in E'. cbn in E'. rewrite Es in E'.
    injection E' as <-. apply set_up_moves; [done|]. unfold afterWrite, rank. rewrite Es. destruct (comp_Err _); cbn; [split; [lia|done]|].
    destruct (negb _); cbn; split; (lia || done).
  - destruct (flushBatch_ok tot n free0 A s [i] [u] Hclean Hn Hcap HA So) as (s' & E' & So').
    { apply NoDup_singleton. } { by repeat constructor. } { by repeat constructor. } { done. }
    exists (EFlush [i]), s'. split_and!; try done. unfold flushBatch in E'. cbn [mapM] in E'. rewrite E in E'. cbn in E'.
    match type of E' with (if ?b then _ else _) = _ => destruct b; [|done] end.
    match type of E' with (?x ≫= _) = _ => destruct x as [[[db' wb'] rs]|]; [|done] end. cbn in E'. destruct rs as [|r [|? ?]]; cbn in E'; rewrite ?E in E'; cbn in E'; try done.
    + destruct (answerRequest u (result r) _) as [u'|] eqn:Ea; [|done]. cbn in E'. injection E' as <-. exists u'. split; [done|]. unfold answerRequest in Ea. assert (Hu' : forall o, (rank (undo u (up_handler u) o) < rank u)%nat /\ allocating (undo u (up_handler u) o) = false).
      { intros o. destruct (undo_rank u (up_handler u) o). split; [|done]. unfold rank at 2. rewrite Es. cbv zeta. lia. }
      destruct (result r) as [|[e|] [|? ?]]; try done; injection Ea as <-; [by apply Hu'|]. case_match; [by apply Hu'|]. unfold rank. rewrite Es. cbn. split; [lia|done].
    + by destruct (answerRequest _ _ _).
Qed.

(** [settles s i]: events that settle upload [i] and change no other. *)
Definition settles s s' (i : nat) : Prop :=
  server_ok tot n free0 A s' /\ (exists evs, execAll evs s = Some s') /\ (forall d k db, reachable d k db s -> reachable d k db s') /\
  exists u', sv_ups s' = <[i := u']> (sv_ups s) /\ settled u'.

Lemma settles_step s ev s1 s' i u1 :
  quiet ev s -> exec ev s = Some s1 -> sv_ups s1 = <[i := u1]> (sv_ups s) -> settles s1 s' i -> settles s s' i.
Proof.
  intros Hq E E1 (So & (evs & Ee) & Hr & u' & Eu & Hs). split; [done|]. split; [|split].
  - exists (ev :: evs). cbn [execAll]. by rewrite E.
  - intros d k db Hr0. apply Hr. by eapply reach_step.
  - exists u'. by rewrite Eu, E1, list_insert_insert_eq.
Qed.

Lemma drive m : forall s i u,
  server_ok tot n free0 A s -> sv_ups s !! i = Some u -> allocating u = false -> (rank u < m)%nat -> exists s', settles s s' i.
Proof.
  induction m as [|m IH]; intros s i u So E Ha Hr; [lia|]. apply lookup_lt_Some in E as Hl.
  assert (Hdec : settled u \/ ~ settled u) by (unfold settled; destruct (up_stage u); tauto).
  destruct Hdec as [Hs|Hs]; [exists s; split; [done|]; split; [by exists []|]; split; [done|]; exists u; by rewrite list_insert_id|].
  destruct (next_step s i u So E Hs Ha) as (ev & s1 & Hq & E1 & So1 & u1 & Eu1 & Hr1 & Ha1).
  destruct (IH s1 i u1 So1) as (s' & H); [by rewrite Eu1, list_lookup_insert_eq|done|lia|].
  exists s'. by eapply settles_step.
Qed.

Lemma settle s i u : server_ok tot n free0 A s -> sv_ups s !! i = Some u -> exists s', settles s s' i.
Proof.
  intros So E. destruct (allocating u) eqn:Ha; [|apply (drive (S (rank u)) s i u So E Ha); lia].
  unfold allocating in Ha. destruct (up_stage u) as [|buf respond| | | | | | | | |] eqn:Es; try done.
  destruct (advance_allocating _ _ _ _ _ _ _ _ _ Htot So E Es) as (s1 & E1 & So1). specialize (E1 Background).
  apply lookup_lt_Some in E as Hl. assert (Hu1 : exists u1, sv_ups s1 = <[i := u1]> (sv_ups s) /\ allocating u1 = false).
  { unfold advance in E1. rewrite E in E1. cbn in E1. rewrite Es in E1.
    destruct (Alloc (sv_dev s) (zlen (buf_data buf))) as [[d1 [e|[results token]]]|]; cbn in E1; [injection E1 as <-..|done]; by eexists. }
  destruct Hu1 as (u1 & Eu1 & Ha1). destruct (drive (S (rank u1)) s1 i u1 So1) as (s' & H); [by rewrite Eu1, list_lookup_insert_eq|done|lia|].
  exists s'. by eapply (settles_step s (EAdvance i Background)).
Qed.

(** One upload after the other. *)
Lemma execAll_app evs1 evs2 : forall s, execAll (evs1 ++ evs2) s = execAll evs1 s ≫= execAll (T := T) evs2.
Proof. induction evs1 as [|ev evs1 IH]; intros s; [done|]. cbn. destruct (exec ev s); [apply IH|done]. Qed.

Lemma settle_all m : forall s, server_ok tot n free0 A s -> (m <= length (sv_ups s))%nat ->
  exists evs s', execAll evs s = Some s' /\ server_ok tot n free0 A s' /\ (forall d k db, reachable d k db s -> reachable d k db s') /\
    length (sv_ups s') = length (sv_ups s) /\ forall i u, (i < m)%nat -> sv_ups s' !! i = Some u -> settled u.
Proof.
  induction m as [|m IH]; intros s So Hm; [exists [], s; split_and!; try done; lia|].
  destruct (IH s So) as (evs & s1 & E1 & So1 & Hr1 & Hl1 & Hs1); [lia|]. destruct (lookup_lt_is_Some_2 (sv_ups s1) m) as [u Eu]; [lia|].
  destruct (settle s1 m u So1 Eu) as (s' & So' & (evs' & E') & Hr' & u' & Eu' & Hs'). exists (evs ++ evs'), s'.
  split; [by rewrite (execAll_app evs evs' s), E1|]. split; [done|]. split; [by intros; apply Hr', Hr1|]. split; [by rewrite Eu', length_insert|].
  intros i v Hi. rewrite Eu'. destruct (decide (i = m)) as [->|Hne]; [rewrite list_lookup_insert_eq by lia; by intros [= <-]|].
  rewrite list_lookup_insert_ne by done. apply Hs1. lia.
Qed.

(** Settled uploads have nothing in flight. *)
Lemma settled_quiescent s : server_ok tot n free0 A s -> Forall settled (sv_ups s) -> sv_inflight s = [].
Proof.
  intros So Hs. destruct (sv_inflight s) as [|[[i data] off] l] eqn:E; [done|].
  destruct (so_flight _ _ _ _ _ So i data off) as (u & j & segs & w & Eu & Es); [rewrite E; left|].
  pose proof (Forall_lookup_1 _ _ _ _ Hs Eu) as H. unfold settled in H. by rewrite Es in H.
Qed.

(** C2: Concurrent uploads do not disturb each other.  In every state that any
    number of uploads on one device reaches, in any order of their actions, of
    the kernel's writes and of the batch writer's flushes, as long as no
    context ends during a kernel write and a commit that fails changes
    nothing: all blocks that uploads and stored
    files have are disjoint, were free before, and all others are as free as
    they were; what an upload received is on the disk in its blocks or in
    memory; a stored file is readable from the extents of its metadata, which
    the database has unless another file has the same key; the stored bitmap
    marks exactly the blocks of the stored files; and every write in flight
    stays inside the blocks of its upload. *)
Theorem concurrent_uploads d k db s :
  holding tot free0 [] d -> stored_chains n (chain db) A -> reachable d k db s ->
  holding tot free0 (heldAll (sv_ups s)) (sv_dev s) /\
  (forall i u, sv_ups s !! i = Some u -> up_stage u = Idle -> exists pieces,
     onDisk (sv_kernel s) (blockInfoList (up_handler u)) pieces /\ up_received u = concat pieces ++ concat (chunks (up_handler u))) /\
  (forall i u, sv_ups s !! i = Some u -> up_stage u = Stored -> exists req pieces,
     let meta := metaOf req (up_received u) (blockInfoList (up_handler u)) in
     initReq (up_handler u) = Some req /\ up_received u = concat pieces /\
     readFile (AD := kernelDisk) (sv_kernel s) meta = take (length (up_received u)) (concat (map padded pieces)) /\
     ((forall i' u', sv_ups s !! i' = Some u' -> up_stage u' = Stored -> keyOf u' = keyOf u -> i' = i) ->
        exists mb, Marshal meta = inr mb /\ chain (sv_db s) (GetFileMetaKey (pi_FileName req)) = [mb])) /\
  stored_chains n (chain (sv_db s)) (fun b => A b || covers (storedAll (sv_ups s)) b) /\
  (forall i data off p, (i, data, off) ∈ sv_inflight s -> off <= p < off + zlen data ->
     exists u, sv_ups s !! i = Some u /\ covers (held u) (p / BlockSize) = true).
Proof.
  intros Hd Hs Hr. pose proof (reachable_ok _ _ _ _ Hd Hs Hr) as So. pose proof So as [S1 S2 S3 S4 S5 [S6 S7]].
  split; [done|]. split; [|split; [|split; [done|]]].
  - intros i u E Es. destruct (Forall_lookup_1 _ _ _ _ S2 E) as [_ Hst]. unfold stage_ok in Hst. rewrite Es in Hst. by destruct Hst as (_ & _ & _ & Hst).
  - intros i u E Es. destruct (Forall_lookup_1 _ _ _ _ S2 E) as [[(req & Er) _ _ _] Hst]. unfold stage_ok in Hst. rewrite Es in Hst.
    destruct Hst as (pieces & Hon & Hrec). exists req, pieces. cbv zeta. split_and!; try done.
    + rewrite Hrec. eapply readFile_flushed; [|exact Hon]. pose proof (held_in _ _ _ _ _ _ S1 E) as Hin. by apply Forall_app in Hin as [Hin _].
    + intros Huniq. destruct (S7 i u E) as (mb & (req' & Er' & Em) & Ek); [unfold is_stored; by rewrite Es| |].
      * intros i' u' E' Hst' Hk. apply (Huniq i' u'); try done. unfold is_stored in Hst'. by destruct (up_stage u').
      * rewrite Er in Er'. injection Er' as <-. exists mb. split; [done|]. unfold keyOf in Ek. by rewrite Er in Ek.
  - intros i data off p Hx Hp. destruct (S3 i data off Hx) as (u & j & segs & w & E & Es). exists u. split; [done|].
    destruct (Forall_lookup_1 _ _ _ _ S2 E) as [_ Hst]. unfold stage_ok in Hst. rewrite Es in Hst. destruct Hst as [_ (dones & [O1 O2 O3 O4 O5])].
    pose proof (held_in _ _ _ _ _ _ S1 E) as Hin. unfold held in *. rewrite Es in *. apply Forall_app in Hin as [_ Hin]. rewrite covers_app. apply orb_true_iff. right.
    apply (cut_covered tot (fj_token j) (buf_data (fj_buf j)) (data, off)); [done| |done]. rewrite <- O1, O3. apply elem_of_app. right. left.
Qed.

End schedule.
End uploads.

(** ** A run of two uploads *)

#[local] Existing Instances MemStore.ops MemStore.laws MemKernel.ops MemKernel.laws.
#[local] Existing Instances demoDecoder demoMarshal.

(** A new device of [size] bytes. *)
Definition deviceOf (size : Z) : @BlockDevice AllocatorV3 * @DB MemStore.ops :=
  match newBlockDevice "lun" size (∅ : @DB MemStore.ops) with
  | Some (inr x) => x
  | _ => (demoDevice, ∅)
  end.
Definition serverOf (size : Z) : server (T := AllocatorV3) := newServer (deviceOf size).1 (∅ : gmap Z Z) (deviceOf size).2.

Definition reqOf (name : string) : PutInitRequest := mkPutInitRequest "" (bs name) (bs "k") true.
Definition adv (i : nat) : event := EAdvance i Background.

(** Two uploads take turns; the second one's write ends first and its request
    is the first of the batch. *)
Definition demoEvents : list event :=
  [ENew (reqOf "d/a"); ENew (reqOf "d/b"); EPut 0 0 [1; 2; 3]; EPut 1 0 [7; 8]; EComplete 0 0; EComplete 1 0;
   adv 0; adv 1; adv 0; adv 1; adv 0; adv 1; EKernel 1; EKernel 0; adv 0; adv 1; adv 0; adv 1; EFlush [1%nat; 0%nat]].

Definition quietb (ev : event) (s : server (T := AllocatorV3)) : bool :=
  match ev with
  | ECancel _ _ => false
  | EPut i _ data => match sv_ups s !! i with Some u => zlen (up_received u) + zlen data <? 2 ^ 61 | None => true end
  | _ => true
  end.

Fixpoint runQuiet (evs : list event) (s : server (T := AllocatorV3)) : option server :=
  match evs with [] => Some s | ev :: evs => if quietb ev s then s ← exec ev s; runQuiet evs s else None end.

Lemma runQuiet_reachable d k db evs : forall s s', reachable d k db s -> runQuiet evs s = Some s' -> reachable d k db s'.
Proof.
  induction evs as [|ev evs IH]; intros s s' Hr; cbn [runQuiet]; [by intros [= <-]|]. destruct (quietb ev s) eqn:Eq; [|done].
  destruct (exec ev s) as [s1|] eqn:E; [|done]. go_step. apply IH. eapply reach_step; [exact Hr| |exact E].
  destruct ev as [| | | | | | |]; try done. intros u Eu. cbn in Eq. rewrite Eu in Eq. by apply Z.ltb_lt.
Qed.

Definition freeOf (size : Z) : Z -> bool := ea_free (bd_allocator (deviceOf size).1).

Lemma deviceOf_ok :
  holding 10 (freeOf 40960) [] (deviceOf 40960).1 /\ stored_chains 1 (chain (deviceOf 40960).2) (fun _ => false).
Proof.
  unfold freeOf, deviceOf.
  destruct (newBlockDevice_new (T := AllocatorV3) "lun" 40960 (∅ : @DB MemStore.ops) mem_healthy demo_size) as (d0 & db1 & E & [_ _ Ho Ht _ Hs]); [reflexivity|].
  rewrite E. cbn [fst snd]. split; [|exact Hs]. split; try done. intros b. by rewrite andb_true_r.
Qed.

Definition demoRun : option (server (T := AllocatorV3)) := runQuiet demoEvents (serverOf 40960).

(** Both uploads are stored in the end. *)
Lemma demoRun_stored : (map (fun u => is_stored u) ∘ sv_ups) <$> demoRun = Some [true; true].
Proof. vm_compute. reflexivity. Qed.

Lemma concurrent_uploads_witness :
  exists s, demoRun = Some s /\ holding 10 (freeOf 40960) (heldAll (sv_ups s)) (sv_dev s) /\
    stored_chains 1 (chain (sv_db s)) (fun b => false || covers (storedAll (sv_ups s)) b).
Proof.
  pose proof demoRun_stored as Hst. destruct demoRun as [s|] eqn:E; [|discriminate Hst]. exists s. split; [reflexivity|].
  assert (Hr : reachable (deviceOf 40960).1 (∅ : gmap Z Z) (deviceOf 40960).2 s)
    by (eapply runQuiet_reachable; [apply reach_init|exact E]).
  destruct (concurrent_uploads 10 1 (freeOf 40960) (fun _ => false) (healthy_clean mem_healthy) eq_refl (conj (Z.le_0_1) eq_refl) ltac:(vm_compute; congruence)
    (fun _ _ => eq_refl) _ _ _ s (proj1 deviceOf_ok) (proj2 deviceOf_ok) Hr) as (H1 & _ & _ & H4 & _).
  exact (conj H1 H4).
Defined.

(** The first upload waits for the kernel. *)
Definition waitingRun : option (server (T := AllocatorV3)) := runQuiet (take 13 demoEvents) (serverOf 40960).

Lemma waitingRun_waits : (fun s => length (sv_inflight s)) <$> waitingRun = Some 1%nat.
Proof. vm_compute. reflexivity. Qed.


(** ** A context that ends during a write *)

(** On a device of one block the first upload's context ends while the kernel
    has its write; the upload gives its block back, the second upload gets it,
    is written and stored; then the kernel performs the first write. *)
Definition lostEvents : list event :=
  [ENew (reqOf "d/a"); EPut 0 0 [1; 2; 3]; EComplete 0 0; adv 0; adv 0; adv 0; ECancel 0 "context canceled"%string; adv 0; adv 0;
   ENew (reqOf "d/b"); EPut 1 0 [7; 8; 9]; EComplete 1 0; adv 1; adv 1; adv 1; EKernel 1; adv 1; adv 1; EFlush [1%nat]; EKernel 0].

(** C25: A context that ends during a kernel write can destroy another file.
    [submitAndWait] then returns with the write still in flight, [runFlush]
    frees the blocks, and a later upload that gets them is answered [SUCCESS]
    before the kernel overwrites its data: reading that file yields the bytes
    of the upload that failed. *)
Theorem cancelled_write_destroys_file :
  exists s u req, execAll lostEvents (serverOf 4096) = Some s /\ sv_ups s !! 1%nat = Some u /\
    up_stage u = Stored /\ initReq (up_handler u) = Some req /\ up_received u = [7; 8; 9] /\
    readFile (AD := kernelDisk) (sv_kernel s) (metaOf req (up_received u) (blockInfoList (up_handler u))) = [1; 2; 3].
Proof.
  assert (E : (fun s => (fun u => (up_stage u, initReq (up_handler u), up_received u,
                 readFile (AD := kernelDisk) (sv_kernel s) (metaOf (reqOf "d/b") (up_received u) (blockInfoList (up_handler u))))) <$> sv_ups s !! 1%nat)
              <$> execAll lostEvents (serverOf 4096) = Some (Some (Stored, Some (reqOf "d/b"), [7; 8; 9], [1; 2; 3]))) by (vm_compute; reflexivity).
  destruct (execAll lostEvents (serverOf 4096)) as [s|]; [|discriminate E]. cbn in E. destruct (sv_ups s !! 1%nat) as [u|] eqn:Eu; [|discriminate E].
  cbn in E. injection E as E1 E2 E3 E4. exists s, u, (reqOf "d/b"). by split_and!.
Qed.
