(* ===== verification/ConcurrentSim.v ===== *)
(** * The sequential model as a schedule

    [Upload] runs the flush goroutine of an upload to its end inside the call
    that started it.  Here this is shown to be one of the schedules of
    [Concurrent]: the calls of [Upload] reach exactly the state that the same
    upload reaches there when nobody else moves. *)

From stdpp Require Import base decidable list numbers option strings gmap.
From Stdlib Require Import ZArith Lia.
From S2P Require Import Prelude Schedules Words Bytes Moss MossThms Allocator Extents SpaceBitmap Pebble WriteBatch BatchPebble BatchThms BlockDevice BlockDeviceThms FileMetaCodec AioChannel GoAio GoAioThms AioStack Crc32 Upload UploadInv UploadThms Concurrent ConcurrentThms.

Section sim.
Context {PO : PebbleOps} {J : JSONDecoder} {T : Type} `{EA : ExtentAllocator T} {K : AioKernel} {PM : ProtoMarshal}.
Implicit Types (s : server (T := T)) (u : upload) (h : AioUploadServerHandler) (w : world (T := T) (AD := kernelDisk)).

(** The part of the server the sequential model works on. *)
Definition worldOf s : world (T := T) (AD := kernelDisk) := mkWorld (AD := kernelDisk) (sv_dev s) (sv_kernel s) (sv_db s).

(** The server with another world and another upload [i]. *)
Definition put_back s (i : nat) w u : server := mkServer (w_dev w) (w_disk w) (w_db w) (sv_inflight s) (<[i := u]> (sv_ups s)).

(** [s] gets to [s'] by its own events. *)
Definition runs s s' : Prop := exists evs, execAll evs s = Some s'.

#[local] Instance runs_preorder : PreOrder runs.
Proof.
  split; [intros s; by exists []|]. intros s1 s2 s3 [e1 H1] [e2 H2]. exists (e1 ++ e2). rewrite execAll_app, H1. done.
Qed.

Lemma runs_step ev s s' s'' : exec ev s = Some s' -> runs s' s'' -> runs s s''.
Proof. intros E [evs H]. exists (ev :: evs). cbn [execAll]. by rewrite E. Qed.

Lemma put_back_lookup s i w u u0 : sv_ups s !! i = Some u0 -> sv_ups (put_back s i w u) !! i = Some u.
Proof. intros E. cbn. rewrite list_lookup_insert_eq; [done|by eapply lookup_lt_Some]. Qed.

Lemma put_back_twice s i w u w' u' : put_back (put_back s i w u) i w' u' = put_back s i w' u'.
Proof. unfold put_back. cbn. by rewrite list_insert_insert_eq. Qed.

(** Undoing: one release after the other. *)
Lemma undo_runs s i w u0 u h toks r d :
  sv_ups s !! i = Some u0 -> foldl (fun d t => d ← d; RollbackAlloc d t) (Some (w_dev w)) toks = Some d ->
  runs (put_back s i w (at_stage u h (Undoing toks r))) (put_back s i (set_dev w d) (at_stage u h (Ended r))).
Proof.
  intros E. revert w. induction toks as [|t toks IH]; intros w Hf; cbn in Hf.
  - injection Hf as <-. eapply (runs_step (EAdvance i Background)); [|reflexivity]. cbn [exec]. unfold advance. erewrite put_back_lookup by done. go_step.
    cbn. unfold put_back, set_up. cbn. by rewrite list_insert_insert_eq.
  - destruct (RollbackAlloc (w_dev w) t) as [d1|] eqn:Er; cbn in Hf; [|exfalso; clear -Hf; induction toks; [done|by cbn in Hf]].
    eapply (runs_step (EAdvance i Background)).
    { cbn [exec]. unfold advance. erewrite put_back_lookup by done. go_step. cbn [up_stage at_stage sv_dev put_back]. rewrite Er. go_step. reflexivity. }
    replace (set_up _ _ _) with (put_back s i (set_dev w d1) (at_stage u h (Undoing toks r)))
      by (unfold put_back, set_up, set_svdev; cbn; by rewrite list_insert_insert_eq).
    by apply (IH (set_dev w d1)).
Qed.

Lemma rollbackTokens_foldl (d : @BlockDevice T) infos :
  rollbackTokens d infos = foldl (fun d t => d ← d; RollbackAlloc d t) (Some d) (filter (fun t => t <> []) (map fi_token infos)).
Proof.
  revert d. induction infos as [|i infos IH]; intros d; [done|]. cbn [rollbackTokens map]. rewrite filter_cons.
  destruct (fi_token i) as [|x t]; [rewrite decide_False by (by intros []); apply IH|]. rewrite decide_True by done. cbn [foldl]. go_step.
  destruct (RollbackAlloc d (x :: t)) as [d1|]; go_step; [apply IH|]. generalize (filter (fun t => t <> []) (map fi_token infos)). intros l. by induction l.
Qed.

(** [rollbackCompletedFlushes], then the answer. *)
Lemma rollback_runs s i w u0 u h r h' w' :
  sv_ups s !! i = Some u0 -> rollbackCompletedFlushes h w = Some (h', w') ->
  runs (put_back s i w (undo u h r)) (put_back s i w' (at_stage u h' (Ended r))).
Proof.
  intros E. unfold rollbackCompletedFlushes. destruct (rollbackTokens (w_dev w) (blockInfoList h)) as [d|] eqn:Er; [|done]. cbn. intros [= <- <-].
  unfold undo, takeTokens. apply (undo_runs s i w u0); [done|]. by rewrite <- rollbackTokens_foldl.
Qed.

Definition set_disk w (k : kstate) : world (T := T) (AD := kernelDisk) := mkWorld (AD := kernelDisk) (w_dev w) k (w_db w).

Definition afterSegments (j : flushJob) (r : Z * option error) : stage :=
  match r.2 with Some e => Failing (fj_token j) e | None => Writing j [] r.1 end.

(** The second loop of [WriteAllocated], each write followed by the kernel's
    answer. *)
Lemma segments_runs j segs : forall x s i w u0 u h wr dk r,
  sv_ups s !! i = Some u0 -> writeSegments (AD := kernelDisk) Background x (w_disk w) segs wr = (dk, r) ->
  runs (put_back s i w (at_stage u h (Writing j segs wr))) (put_back s i (set_disk w dk) (at_stage u h (afterSegments j r))).
Proof.
  induction segs as [|[data off] segs IH]; intros x s i w u0 u h wr dk r E; cbn [writeSegments Background].
  { intros [= <- <-]. unfold set_disk. by destruct w. }
  assert (Hl : (i < length (sv_ups s))%nat) by (by eapply lookup_lt_Some).
  assert (Hctx : (if fj_respond j then Background else Background) O = None) by (by destruct (fj_respond j)).
  cbn [submitAndWait kernelDisk]. destruct (zlen data <=? 0) eqn:Ez.
  { intros [= <- <-]. eapply (runs_step (EAdvance i Background)); [|reflexivity]. cbn [exec]. unfold advance. erewrite put_back_lookup by done. go_step.
    cbn [up_stage at_stage]. rewrite Hctx, Ez. unfold put_back, set_up. cbn. rewrite list_insert_insert_eq. by destruct w. }
  destruct (ksubmit (w_disk w) data off) as [k1 [y errno]] eqn:Ek. destruct (submit y errno) as [e|] eqn:Es.
  { intros [= <- <-]. eapply (runs_step (EAdvance i Background)); [|reflexivity]. cbn [exec]. unfold advance. erewrite put_back_lookup by done. go_step.
    cbn [up_stage at_stage]. rewrite Hctx, Ez. cbn [sv_kernel put_back]. rewrite Ek, Es. unfold put_back, set_up. cbn. by rewrite list_insert_insert_eq. }
  destruct (kpwrite k1 data off) as [k2 res] eqn:Ep. set (c := completionOf data res). intros Hw.
  eapply (runs_step (EAdvance i Background)).
  { cbn [exec]. unfold advance. erewrite put_back_lookup by done. go_step. cbn [up_stage at_stage]. rewrite Hctx, Ez. cbn [sv_kernel put_back].
    rewrite Ek, Es. reflexivity. }
  eapply (runs_step (EKernel (length (sv_inflight s)))).
  { cbn [exec]. unfold kernelWrite, set_up, put_back. cbn [sv_inflight sv_kernel sv_ups sv_dev sv_db]. rewrite list_lookup_middle by done. go_step. rewrite Ep.
    rewrite (list_insert_insert_eq (sv_ups s)), list_lookup_insert_eq by done. go_step. cbn [up_stage at_stage fst]. fold c.
    rewrite delete_middle, app_nil_r. reflexivity. }
  unfold set_up. cbn [sv_dev sv_kernel sv_db sv_inflight sv_ups]. rewrite list_insert_insert_eq. unfold afterWrite.
  destruct (comp_Err c) as [e|]; cbn in Hw.
  { injection Hw as <- <-. by unfold put_back. }
  destruct (negb (comp_N c =? zlen data)); [injection Hw as <- <-; by unfold put_back|].
  exact (IH (S x) s i (set_disk w k2) u0 u h _ dk r E Hw).
Qed.

Lemma WriteAllocated_prepare ctx1 ctx2 (k : kstate) b results :
  WriteAllocated (AD := kernelDisk) ctx1 ctx2 k b results =
    match prepare ctx1 b results with
    | None => None
    | Some (inl e) => match WriteAllocated (AD := kernelDisk) ctx1 ctx2 k b results with Some (dk, (n, _)) => Some (k, (n, Some e)) | None => None end
    | Some (inr segs) => Some (writeSegments (AD := kernelDisk) ctx2 0 k segs 0)
    end.
Proof.
  unfold WriteAllocated, prepare. case_bool; [done|]. case_bool; [done|].
  destruct (buildSegments ctx1 0 (buf_data b) results 0 []) as [[[c e]|[c segs]]|]; go_step; try done. by destruct (negb _).
Qed.

(** One step of upload [i] that leads to [u'] in the world [w']. *)
Lemma advance_runs s i w u0 u w' u' s'' :
  sv_ups s !! i = Some u0 -> advance i Background (put_back s i w u) = Some (set_up (put_back s i w' u) i u') ->
  runs (put_back s i w' u') s'' -> runs (put_back s i w u) s''.
Proof.
  intros E Ha Hr. eapply (runs_step (EAdvance i Background)); [exact Ha|].
  replace (set_up (put_back s i w' u) i u') with (put_back s i w' u'); [done|]. unfold put_back, set_up. cbn. by rewrite list_insert_insert_eq.
Qed.

(** The start of a step of upload [i]. *)
Ltac step_at E w1 := eapply (advance_runs _ _ _ _ _ w1 _ _ E); [unfold advance; erewrite put_back_lookup by exact E; go_step; cbn [up_stage at_stage]|].

Lemma runFlush_runs s i w u0 u h buf respond h' w' r :
  sv_ups s !! i = Some u0 -> runFlush Background Background h w buf respond = Some (h', w', r) ->
  let start := put_back s i w (at_stage u h (Allocating buf respond)) in
  (r = MetaContinue /\ (exists results token, h' = completeFlush h results token) /\
     runs start (put_back s i w' (at_stage u h' (if respond then Idle else Committing)))) \/
  (exists e w1, r = MetaError e /\ flushFailed h w1 e respond = Some (h', w', MetaError e) /\
     runs start (put_back s i w1 (undo u (failFlush h e) (MetaError e)))).
Proof.
  intros E. unfold runFlush. destruct (Alloc (w_dev w) (zlen (buf_data buf))) as [[d a]|] eqn:Ea; go_step; [|done].
  assert (Hfail : forall w1 e, flushFailed h w1 e respond = Some (h', w', r) -> r = MetaError e).
  { intros w1 e. unfold flushFailed. destruct respond; [|by intros [= _ _ <-]]. destruct (rollbackCompletedFlushes (failFlush h e) w1) as [[]|]; cbn; [|done]. by intros [= _ _ <-]. }
  destruct a as [err|[results token]].
  { intros Hf. right. exists err, (set_dev w d). pose proof (Hfail _ _ Hf) as ->. split_and!; try done. cbv zeta. step_at E (set_dev w d); [cbn [sv_dev put_back]; rewrite Ea; go_step; reflexivity|reflexivity]. }
  set (j := mkFlushJob buf respond results token). cbn [w_disk w_dev w_db set_dev]. cbv zeta.
  assert (H1 : forall s'', runs (put_back s i (set_dev w d) (at_stage u h (Building j))) s'' -> runs (put_back s i w (at_stage u h (Allocating buf respond))) s'').
  { intros s'' Hr. step_at E (set_dev w d); [cbn [sv_dev put_back]; rewrite Ea; go_step; reflexivity|exact Hr]. }
  assert (Hctx : (if fj_respond j then Background else Background) = Background) by (by destruct (fj_respond j)).
  assert (H2 : forall e w1 d1 s'', RollbackAlloc (w_dev w1) token = Some d1 ->
    runs (put_back s i (set_dev w1 d1) (undo u (failFlush h e) (MetaError e))) s'' -> runs (put_back s i w1 (at_stage u h (Failing token e))) s'').
  { intros e w1 d1 s'' Er Hr. step_at E (set_dev w1 d1); [cbn [sv_dev put_back]; rewrite Er; go_step; reflexivity|exact Hr]. }
  rewrite WriteAllocated_prepare. destruct (prepare Background buf results) as [[e|segs]|] eqn:Epr; [| |done].
  - destruct (WriteAllocated (AD := kernelDisk) Background Background (w_disk w) buf results) as [[dk [nw ?]]|]; go_step; [|done].
    destruct (RollbackAlloc d token) as [d1|] eqn:Er; go_step; [|done]. intros Hf. right. exists e, (set_dev (set_dev w d) d1).
    pose proof (Hfail _ _ Hf) as ->. split_and!; try done. apply H1. step_at E (set_dev w d); [rewrite Hctx; cbn [fj_buf fj_results j]; rewrite Epr; go_step; reflexivity|].
    by eapply H2.
  - destruct (writeSegments (AD := kernelDisk) Background 0 (w_disk w) segs 0) as [dk [nw err]] eqn:Ews. go_step.
    set (w2 := set_disk (set_dev w d) dk). change (mkWorld d dk (w_db w)) with w2.
    assert (H3 : forall s'', runs (put_back s i w2 (at_stage u h (afterSegments j (nw, err)))) s'' -> runs (put_back s i w (at_stage u h (Allocating buf respond))) s'').
    { intros s'' Hr. apply H1. step_at E (set_dev w d); [rewrite Hctx; cbn [fj_buf fj_results j]; rewrite Epr; go_step; reflexivity|].
      etransitivity; [|exact Hr]. by apply (segments_runs j segs 0 s i (set_dev w d) u0 u h 0 dk (nw, err) E). }
    destruct err as [err|]; cbn [afterSegments fst snd] in H3.
    + destruct (RollbackAlloc d token) as [d1|] eqn:Er; go_step; [|done]. intros Hf. right. exists err, (set_dev w2 d1).
      pose proof (Hfail _ _ Hf) as ->. split_and!; try done. apply H3. by eapply H2.
    + destruct (nw =? zlen (buf_data buf)) eqn:En.
      * intros [= <- <- <-]. left. split; [done|]. split; [by exists results, token|]. apply H3. step_at E w2; [cbn [fj_buf fj_results fj_token fj_respond j]; rewrite En; reflexivity|reflexivity].
      * destruct (RollbackAlloc d token) as [d1|] eqn:Er; go_step; [|done]. intros Hf. right. eexists _, (set_dev w2 d1).
        pose proof (Hfail _ _ Hf) as ->. split_and!; try done. apply H3. step_at E w2; [cbn [fj_buf j]; rewrite En; reflexivity|]. by eapply H2.
Qed.

(** One request alone in its batch. *)
Lemma flush_one (db : DB) wb id (c : RequestConsumer) :
  flush db wb [newRequest id c false] =
    match c db wb with
    | None => None
    | Some (inl e) => Some (db, Clear wb, [notify (Some e) (newRequest id c false)])
    | Some (inr wb') => let '(db', o) := Commit db wb' in Some (db', Clear wb', [notify o (newRequest id c false)])
    end.
Proof.
  unfold flush. change (execOrder [newRequest id c false]) with [newRequest id c false]. cbn [foldE].
  change (handleRequest db wb (newRequest id c false)) with (c db wb). by destruct (c db wb) as [[e|wb']|].
Qed.

(** The batch writer takes the request alone. *)
Lemma flushBatch_alone s i w u0 u h db' wb' o u' :
  let wb := NewWriteBatch (w_db w) (bd_name (w_dev w)) in
  sv_ups s !! i = Some u0 -> flush (w_db w) wb [newRequest i (consumerOf h) false] = Some (db', wb', [notify o (newRequest i (consumerOf h) false)]) ->
  answerRequest (at_stage u h Queued) [o] (existsOn h (w_db w) wb) = Some u' ->
  exec (EFlush [i]) (put_back s i w (at_stage u h Queued)) = Some (put_back s i (mkWorld (AD := kernelDisk) (w_dev w) (w_disk w) db') u').
Proof.
  intros wb E Hf Ha. assert (Hl : (i < length (sv_ups s))%nat) by (by eapply lookup_lt_Some). cbn [exec]. unfold flushBatch.
  assert (mapM (fun x => sv_ups (put_back s i w (at_stage u h Queued)) !! x) [i] = Some [at_stage u h Queued]) as ->
    by (apply mapM_Some; constructor; [by eapply put_back_lookup|constructor]). go_step.
  rewrite bool_decide_true by apply NoDup_singleton. cbn [forallb is_queued up_stage at_stage andb zip_with map up_handler].
  change (zlen [i] <=? maxBatchSize) with true. cbn [andb sv_db sv_dev put_back]. fold wb. rewrite Hf. go_step.
  cbn [existsFlags map answerAll result notify newRequest done_ app tail head default]. erewrite put_back_lookup by done. go_step.
  match goal with |- ((?x ≫= _) ≫= _) = _ => change x with (answerRequest (at_stage u h Queued) [o] (existsOn h (w_db w) wb)) end.
  rewrite Ha. go_step. unfold put_back. cbn. by rewrite list_insert_insert_eq.
Qed.

(** [Complete] from the dispatch of its request on. *)
Lemma commit_runs s i w u0 u h req h' w' r :
  sv_ups s !! i = Some u0 -> initReq h = Some req -> commitUpload h w req = Some (h', w', r) ->
  exists st, (st = Ended r \/ st = Stored /\ r = MetaSuccess) /\
    runs (put_back s i w (at_stage u h Committing)) (put_back s i w' (at_stage u h' st)).
Proof.
  intros E Er. unfold commitUpload. fold (metaOfHandler h req). destruct (metaOfHandler h req) as [[meta results] totalSize] eqn:Em.
  assert (Hkey : fm_MetaKey meta = pi_MetaKey req) by (unfold metaOfHandler, buildFileMetaAndResults in Em; by injection Em as <- _ _).
  set (name := bd_name (w_dev w)). set (lun := if String.eqb (pi_Lun req) "" then name else pi_Lun req).
  assert (Hundo : forall w1 e, ('(h, w) ← rollbackCompletedFlushes h w1; Some (h, w, MetaError e)) = Some (h', w', r) ->
    (forall s'', runs (put_back s i w1 (undo u h (MetaError e))) s'' -> runs (put_back s i w (at_stage u h Committing)) s'') ->
    exists st, (st = Ended r \/ st = Stored /\ r = MetaSuccess) /\ runs (put_back s i w (at_stage u h Committing)) (put_back s i w' (at_stage u h' st))).
  { intros w0 e Hr Hs. destruct (rollbackCompletedFlushes h w0) as [[h1 w1]|] eqn:Erb; [|done]. cbn in Hr. injection Hr as <- <- <-.
    exists (Ended (MetaError e)). split; [by left|]. apply Hs. by apply (rollback_runs s i w0 u0). }
  destruct (Marshal meta) as [e|mb] eqn:Ema.
  { intros H. apply (Hundo _ e H). intros s'' Hs. step_at E w; [unfold callCommit; cbn [up_handler at_stage]; rewrite Er, Em; cbn [fst]; rewrite Ema; go_step; reflexivity|exact Hs]. }
  unfold submitRequest. fold name. destruct (String.eqb lun name) eqn:El.
  2:{ go_step. replace (mkWorld (w_dev w) (w_disk w) (w_db w)) with w by (by destruct w). intros H. apply (Hundo _ _ H). intros s'' Hs. step_at E w; [|exact Hs]. unfold callCommit. cbn [up_handler at_stage]. rewrite Er, Em. cbn [fst]. rewrite Ema.
      cbn [put_back sv_dev]. fold name. fold lun. rewrite El. go_step. reflexivity. }
  apply String.eqb_eq in El. rewrite El. set (wb := NewWriteBatch (w_db w) name).
  set (consumer := if pi_NoGet req then commitConsumer meta mb results totalSize else guardedConsumer meta (commitConsumer meta mb results totalSize)).
  assert (Hc : consumerOf h (w_db w) wb = consumer (w_db w) wb) by (unfold consumerOf; by rewrite Er, Em, Ema).
  assert (Hx : existsOn h (w_db w) wb = existsFlag req meta (w_db w) name).
  { unfold existsOn, existsFlag. rewrite Er, Hkey. by destruct (pi_NoGet req). }
  assert (Hq : forall s'', runs (put_back s i w (at_stage u h Queued)) s'' -> runs (put_back s i w (at_stage u h Committing)) s'').
  { intros s'' Hs. step_at E w; [|exact Hs]. unfold callCommit. cbn [up_handler at_stage]. rewrite Er, Em. cbn [fst]. rewrite Ema.
    cbn [put_back sv_dev]. fold name. fold lun. rewrite El, String.eqb_refl. go_step. reflexivity. }
  assert (Hflush : forall db' wb' o u' s'', flush (w_db w) wb [newRequest i (consumerOf h) false] = Some (db', wb', [notify o (newRequest i (consumerOf h) false)]) ->
    answerRequest (at_stage u h Queued) [o] (existsOn h (w_db w) wb) = Some u' ->
    runs (put_back s i (mkWorld (AD := kernelDisk) (w_dev w) (w_disk w) db') u') s'' -> runs (put_back s i w (at_stage u h Queued)) s'')
    by (intros db' wb' o u' s'' Hf Ha Hs; eapply (runs_step (EFlush [i])); [by eapply flushBatch_alone|exact Hs]).
  unfold customizeOperateData. fold wb. rewrite flush_one, <- Hc. setoid_rewrite flush_one in Hflush.
  destruct (consumerOf h (w_db w) wb) as [[e|wb']|] eqn:Ecs; [| |done]; go_step.
  - intros H. apply (Hundo _ e H). intros s'' Hs. apply Hq. eapply (Hflush _ _ (Some e)); [reflexivity|reflexivity|exact Hs].
  - unfold Commit in *. destruct (BatchCommit (w_db w) (wb_batch wb')) as [db' [e|]] eqn:Ec; cbn [result notify newRequest done_ app]; go_step.
    { intros H. apply (Hundo _ e H). intros s'' Hs. apply Hq. eapply (Hflush _ _ (Some e)); [reflexivity|reflexivity|exact Hs]. }
    rewrite <- Hx. destruct (existsOn h (w_db w) wb) eqn:Ex.
    + destruct (rollbackCompletedFlushes h (mkWorld (w_dev w) (w_disk w) db')) as [[h1 w1]|] eqn:Erb; go_step; [|done]. intros [= <- <- <-].
      exists (Ended MetaSuccess). split; [by left|]. apply Hq. eapply (Hflush _ _ None); [reflexivity|reflexivity|].
      exact (rollback_runs s i _ u0 u h MetaSuccess h1 w1 E Erb).
    + intros [= <- <- <-]. exists Stored. split; [by right|]. apply Hq. eapply (Hflush _ _ None); [reflexivity|reflexivity|reflexivity].
Qed.

(** Where an upload is after an answer to a payload. *)
Definition stageAfter (r : Response) : stage := match r with MetaContinue => Idle | _ => Ended r end.

Lemma set_up_put_back s i u : set_up s i u = put_back s i (worldOf s) u.
Proof. by destruct s. Qed.

Lemma payload_runs s i u f u1 s' ev :
  sv_ups s !! i = Some u -> up_stage u = Idle -> exec ev s = payload s i f -> f u = Some u1 -> runs (put_back s i (worldOf s) u1) s' -> runs s s'.
Proof.
  intros E Es Hev Hf Hr. eapply runs_step; [|exact Hr]. rewrite Hev. unfold payload. rewrite E. go_step. rewrite Es, Hf. go_step. by rewrite set_up_put_back.
Qed.

(** A flush of [Put] to its end. *)
Lemma put_flush_runs s i w u0 u h buf h' w' r :
  sv_ups s !! i = Some u0 -> runFlush Background Background h w buf true = Some (h', w', r) ->
  runs (put_back s i w (at_stage u h (Allocating buf true))) (put_back s i w' (at_stage u h' (stageAfter r))).
Proof.
  intros E Hf. destruct (runFlush_runs s i w u0 u h buf true h' w' r E Hf) as [(-> & _ & Hr)|(e & w1 & -> & Hff & Hr)]; [exact Hr|].
  etransitivity; [exact Hr|]. unfold flushFailed in Hff. destruct (rollbackCompletedFlushes (failFlush h e) w1) as [[h2 w2]|] eqn:Erb; [|done].
  cbn in Hff. injection Hff as <- <-. by apply (rollback_runs s i w1 u0).
Qed.

Lemma put_alone s i u addr data h' w' r :
  sv_ups s !! i = Some u -> up_stage u = Idle ->
  Put addr (up_handler u) (worldOf s) data = Some (h', w', r) -> runs s (put_back s i w' (mkUpload h' (stageAfter r) (up_received u ++ data))).
Proof.
  intros E Es. set (h := up_handler u) in *. unfold Put.
  assert (Hdone : forall u2, callPut addr u data = Some u2 -> runs s (put_back s i (worldOf s) u2))
    by (intros u2 Hc; eapply (payload_runs s i u _ _ _ (EPut i addr data) E Es eq_refl Hc); reflexivity).
  unfold callPut in Hdone. fold h in Hdone. destruct (initReq h); [|intros [= <- <- <-]; by apply Hdone].
  destruct (flushErr h); [intros [= <- <- <-]; by apply Hdone|]. destruct (finalized h); [intros [= <- <- <-]; by apply Hdone|].
  destruct data as [|b data'] eqn:Ed; [intros [= <- <- <-]; by apply Hdone|]. rewrite <- Ed in *.
  match goal with |- context [if MinAllocSize <=? pendingLen ?hh then _ else _] => set (h1 := hh) in * end.
  destruct (MinAllocSize <=? pendingLen h1); [|intros [= <- <- <-]; by apply Hdone].
  destruct (startFlush addr h1) as [[h2 buf]|]; go_step; [|done]. intros Hf. etransitivity; [by apply Hdone|].
  exact (put_flush_runs s i (worldOf s) u (mkUpload h Idle (up_received u ++ data)) h2 buf h' w' r E Hf).
Qed.

Lemma complete_alone s i u addr h' w' r :
  sv_ups s !! i = Some u -> up_stage u = Idle ->
  Complete addr Background Background (up_handler u) (worldOf s) = Some (h', w', r) ->
  exists st, (st = Ended r \/ st = Stored /\ r = MetaSuccess) /\ runs s (put_back s i w' (mkUpload h' st (up_received u))).
Proof.
  intros E Es. set (h := up_handler u) in *. unfold Complete.
  assert (Hdone : forall u1, callComplete addr u = Some u1 -> runs s (put_back s i (worldOf s) u1))
    by (intros u1 Hc; eapply (payload_runs s i u _ _ _ (EComplete i addr) E Es eq_refl Hc); reflexivity).
  unfold callComplete in Hdone. fold h in Hdone. destruct (initReq h) as [req|] eqn:Er; [|intros [= <- <- <-]; eexists; split; [by left|]; by apply Hdone].
  destruct (flushErr h) as [e|] eqn:Ee.
  { destruct (rollbackCompletedFlushes (set_finalized h) (worldOf s)) as [[h1 w1]|] eqn:Erb; go_step; [|done]. intros [= <- <- <-].
    eexists; split; [by left|]. etransitivity; [by apply Hdone|]. exact (rollback_runs s i (worldOf s) u u (set_finalized h) (MetaError e) h1 w1 E Erb). }
  destruct (finalized h); [intros [= <- <- <-]; eexists; split; [by left|]; by apply Hdone|].
  destruct (fileSize h =? 0); [intros [= <- <- <-]; eexists; split; [by left|]; by apply Hdone|].
  destruct (pendingLen (set_finalized h) =? 0).
  { go_step. cbn [flushErr set_finalized]. rewrite Ee. intros Hc.
    destruct (commit_runs s i (worldOf s) u u (set_finalized h) req h' w' r E Er Hc) as (st & Hst & Hr). exists st. split; [done|].
    etransitivity; [by apply Hdone|]. exact Hr. }
  destruct (startFlush addr (set_finalized h)) as [[h2 buf]|] eqn:Esf; go_step; [|done].
  assert (Er2 : initReq h2 = Some req /\ flushErr h2 = None).
  { unfold startFlush in Esf. destruct (NewAlignedBlockBuffer _ _) as [bb|]; [|done]. cbn in Esf. destruct (copyChunks _ _ _); [|done]. by injection Esf as <- _. }
  destruct Er2 as [Er2 Ee2]. destruct (runFlush Background Background h2 (worldOf s) buf false) as [[[h3 w3] r3]|] eqn:Erf; go_step; [|done]. intros Hend.
  destruct (runFlush_runs s i (worldOf s) u u h2 buf false h3 w3 r3 E Erf) as [(-> & (results & token & ->) & Hr)|(e & w1 & -> & Hff & Hr)].
  + cbn [flushErr completeFlush] in Hend. rewrite Ee2 in Hend.
    destruct (commit_runs s i w3 u u (completeFlush h2 results token) req h' w' r E Er2 Hend) as (st & Hst & Hr').
    exists st. split; [done|]. etransitivity; [by apply Hdone|]. etransitivity; [exact Hr|exact Hr'].
  + cbn [flushFailed] in Hff. injection Hff as <- <-. cbn [flushErr failFlush] in Hend. rewrite Ee2 in Hend.
    destruct (rollbackCompletedFlushes (failFlush h2 e) w1) as [[h4 w4]|] eqn:Erb; [|done]. cbn in Hend. injection Hend as <- <- <-.
    eexists. split; [by left|]. etransitivity; [by apply Hdone|]. etransitivity; [exact Hr|]. exact (rollback_runs s i w1 u u (failFlush h2 e) (MetaError e) h4 w4 E Erb).
Qed.

Lemma timeout_alone s i u h' w' r :
  sv_ups s !! i = Some u -> up_stage u = Idle ->
  TimeOut (up_handler u) (worldOf s) = Some (h', w', r) -> runs s (put_back s i w' (mkUpload h' (Ended r) (up_received u))).
Proof.
  intros E Es. set (h := up_handler u) in *. unfold TimeOut. match goal with |- context [rollbackCompletedFlushes ?hh _] => set (h1 := hh) end.
  destruct (rollbackCompletedFlushes h1 (worldOf s)) as [[h2 w2]|] eqn:Erb; go_step; [|done]. intros [= <- <- <-].
  eapply (payload_runs s i u _ _ _ (ETimeOut i) E Es eq_refl); [reflexivity|].
  exact (rollback_runs s i (worldOf s) u u h1 (MetaError "channel timeout"%string) h2 w2 E Erb).
Qed.

(** The sequential model is one of the schedules.  If [Put], [Complete]
    or [TimeOut] of the handler, run to the end with a context that stays
    alive, gives a handler, a device, a disk, a database and
    an answer, then the concurrent server reaches exactly that state and
    answer for the upload when only its own events happen. *)
Theorem upload_alone s i u :
  sv_ups s !! i = Some u -> up_stage u = Idle ->
  let h := up_handler u in
  (forall addr data h' w' r, Put addr h (worldOf s) data = Some (h', w', r) ->
     runs s (put_back s i w' (mkUpload h' (stageAfter r) (up_received u ++ data)))) /\
  (forall addr h' w' r, Complete addr Background Background h (worldOf s) = Some (h', w', r) ->
     exists st, (st = Ended r \/ st = Stored /\ r = MetaSuccess) /\ runs s (put_back s i w' (mkUpload h' st (up_received u)))) /\
  (forall h' w' r, TimeOut h (worldOf s) = Some (h', w', r) -> runs s (put_back s i w' (mkUpload h' (Ended r) (up_received u)))).
Proof.
  intros E Es h. split; [by intros; eapply put_alone|]. split; [by intros; eapply complete_alone|by intros; eapply timeout_alone].
Qed.
End sim.

(** ** Witness: completing the demo upload *)

#[local] Existing Instances MemStore.ops MemKernel.ops.
#[local] Existing Instances demoDecoder demoMarshal.

Definition aloneServer : server (T := AllocatorV3) :=
  mkServer (deviceOf 40960).1 (∅ : gmap Z Z) (deviceOf 40960).2 [] [mkUpload demoUpload Idle [1; 2; 3]].

Definition aloneResult : option (AioUploadServerHandler * world (T := AllocatorV3) (AD := kernelDisk) * Response) :=
  Complete (AD := kernelDisk) 0 Background Background demoUpload (worldOf aloneServer).

Lemma alone_succeeds : snd <$> aloneResult = Some MetaSuccess.
Proof. vm_compute. reflexivity. Qed.

Lemma upload_alone_witness :
  exists h' w' st, aloneResult = Some (h', w', MetaSuccess) /\ (st = Ended MetaSuccess \/ st = Stored /\ MetaSuccess = MetaSuccess) /\
    runs aloneServer (put_back aloneServer 0 w' (mkUpload h' st [1; 2; 3])).
Proof.
  pose proof alone_succeeds as Hr. destruct aloneResult as [[[h' w'] r]|] eqn:E; [|discriminate Hr]. injection Hr as ->.
  destruct (upload_alone aloneServer 0%nat (mkUpload demoUpload Idle [1; 2; 3]) eq_refl eq_refl) as (_ & Hc & _).
  destruct (Hc 0 h' w' MetaSuccess E) as (st & Hst & Hruns). exists h', w', st. exact (conj eq_refl (conj Hst Hruns)).
Defined.
