(* ===== verification/Durability.v ===== *)
(** * Files survive

    The server of [Concurrent] over several runs of the process.  At any moment
    the process may die: the writes that are in flight are performed, torn or
    lost, everything in memory is gone, and the next run opens the device on
    what the database has.  The theorem says that a file that was committed
    stays readable through all later uploads and crashes in which no context
    ends during a kernel write and failed commits change nothing. *)

From stdpp Require Import base decidable list numbers option strings gmap relations.
From Stdlib Require Import ZArith Lia.
From S2P Require Import Prelude Schedules Words Bytes Moss MossJSON MossThms Allocator Extents AllocatorSpec SpaceBitmap Pebble WriteBatch BatchPebble BatchThms BlockDevice BlockDeviceSpec BlockDeviceThms FileMetaCodec AioChannel GoAio GoAioThms AioStack Crc32 Upload UploadInv UploadThms Concurrent ConcurrentThms.

Section lives.
Context {PO : PebbleOps} `{L : !PebbleLaws PO} {J : JSONDecoder} {T : Type} `{EA : ExtentAllocator T} `{EL : !ExtentAllocatorLaws T}
  {K : AioKernel} `{KL : !AioKernelLaws K} {PM : ProtoMarshal}.
Implicit Types (k : kstate) (u : upload) (s : server (T := T)).

(** ** Crashes *)

(** The bytes outside the writes in flight are as they were. *)
Definition torn s k' : Prop :=
  forall p, (forall i data off, (i, data, off) ∈ sv_inflight s -> ~ off <= p < off + zlen data) -> kbyte k' p = kbyte (sv_kernel s) p.

(** Of an upload that was not stored the client gets no answer any more; the
    stored ones are kept for the statement, nothing happens to them. *)
Definition lost u : upload :=
  if is_stored u then u else at_stage u (takeTokens (up_handler u)).1 (Ended (MetaError "server stopped"%string)).

Definition restart s k' (d' : @BlockDevice T) (db' : DB) : server := mkServer d' k' db' [] (map lost (sv_ups s)).

(** One event of a run, or the end of a run and the start of the next. *)
Inductive life (name : string) (size : Z) s : server -> Prop :=
  | life_event ev s' : quiet ev s -> exec ev s = Some s' -> life name size s s'
  | life_crash k' d' db' : torn s k' -> newBlockDevice name size (sv_db s) = Some (inr (d', db')) -> life name size s (restart s k' d' db').

(** ** What is left of the uploads *)

Lemma lost_stored u : is_stored (lost u) = is_stored u.
Proof. unfold lost. by destruct (is_stored u) eqn:E. Qed.

Lemma lost_held u : held (lost u) = storedTokens u.
Proof.
  unfold lost, storedTokens. destruct (is_stored u) eqn:E.
  - unfold held, is_stored in *. destruct (up_stage u); try done. cbn. by rewrite app_nil_r.
  - unfold held, at_stage, takeTokens. cbn. rewrite app_nil_r. unfold tokens. rewrite map_map.
    induction (blockInfoList (up_handler u)); cbn; done.
Qed.

Lemma heldAll_lost ups : heldAll (map lost ups) = storedAll ups.
Proof. unfold heldAll, storedAll. rewrite map_map. f_equal. apply map_ext, lost_held. Qed.

Lemma storedAll_lost ups : storedAll (map lost ups) = storedAll ups.
Proof.
  unfold storedAll. rewrite map_map. f_equal. apply map_ext. intros u. unfold storedTokens. rewrite lost_stored. unfold lost. by destruct (is_stored u).
Qed.

Lemma lost_lookup ups i u : is_stored u = true -> map lost ups !! i = Some u <-> ups !! i = Some u.
Proof.
  intros Hs. rewrite list_lookup_fmap. split.
  - destruct (ups !! i) as [v|]; [|done]. intros [= E]. assert (is_stored v = true) as Hv by (by rewrite <- lost_stored, E).
    unfold lost in E. rewrite Hv in E. by subst.
  - intros ->. cbn. unfold lost. by rewrite Hs.
Qed.

Lemma storedAll_part ups : exists rest, heldAll ups ≡ₚ storedAll ups ++ rest.
Proof.
  induction ups as [|u ups (rest & IH)]; [by exists []|]. change (heldAll (u :: ups)) with (held u ++ heldAll ups).
  change (storedAll (u :: ups)) with (storedTokens u ++ storedAll ups). unfold storedTokens. destruct (is_stored u) eqn:Es.
  - exists rest. rewrite IH. unfold held, is_stored in *. destruct (up_stage u); try done. cbn. by rewrite app_nil_r, <- app_assoc.
  - exists (held u ++ rest). rewrite IH. cbn. apply Permutation_app_swap_app.
Qed.

(** ** The kernel leaves stored files alone *)

(** The event changes the upload [i], which is not stored. *)
Definition moved s i s' : Prop := exists u u', sv_ups s !! i = Some u /\ is_stored u = false /\ sv_ups s' = <[i := u']> (sv_ups s).

Lemma payload_moved s i f s' : payload s i f = Some s' -> moved s i s' /\ sv_kernel s' = sv_kernel s.
Proof.
  unfold payload. destruct (sv_ups s !! i) as [u|] eqn:E; [|done]. go_step. destruct (up_stage u) eqn:Es; try done.
  destruct (f u) as [u'|]; [|done]. intros [= <-]. split; [|done]. exists u, u'. unfold is_stored. by rewrite Es.
Qed.

Lemma advance_moved i ctx s s' : advance i ctx s = Some s' -> moved s i s' /\ forall p, kbyte (sv_kernel s') p = kbyte (sv_kernel s) p.
Proof.
  unfold advance, moved. destruct (sv_ups s !! i) as [u|] eqn:E; [|done]. go_step.
  assert (Hm : forall s0 u', is_stored u = false -> sv_ups s0 = sv_ups s -> (forall p, kbyte (sv_kernel s0) p = kbyte (sv_kernel s) p) -> Some (set_up s0 i u') = Some s' ->
    (exists v v', Some u = Some v /\ is_stored v = false /\ sv_ups s' = <[i := v']> (sv_ups s)) /\ forall p, kbyte (sv_kernel s') p = kbyte (sv_kernel s) p).
  { intros s0 u' Hu Hs Hk [= <-]. split; [|done]. exists u, u'. cbn. by rewrite Hs. }
  unfold is_stored in Hm. destruct (up_stage u) as [|buf respond|j|j segs w|j seg segs w|token err|toks r| | | |r] eqn:Es; try done.
  - destruct (Alloc _ _) as [[d [err|[results token]]]|]; go_step; [by apply (Hm (set_svdev s d))..|done].
  - destruct (prepare _ _ _) as [[err|segs]|]; go_step; [by apply (Hm s)..|done].
  - destruct segs as [|[data off] segs]; [case_match; by apply (Hm s)|]. destruct ((if fj_respond j then Background else ctx) O); [by apply (Hm s)|].
    case_match; [by apply (Hm s)|]. destruct (ksubmit (sv_kernel s) data off) as [k1 [x errno]] eqn:Ek.
    pose proof (fun p => ksubmit_bytes _ _ _ _ _ p Ek) as Hk. destruct (submit x errno); by apply (Hm (mkServer _ k1 _ _ _)).
  - destruct (RollbackAlloc _ _) as [d|]; go_step; [by apply (Hm (set_svdev s d))|done].
  - destruct toks as [|token toks]; [by apply (Hm s)|]. destruct (RollbackAlloc _ _) as [d|]; go_step; [by apply (Hm (set_svdev s d))|done].
  - destruct (callCommit _ _) as [u'|]; go_step; [by apply (Hm s)|done].
Qed.

Lemma kernelWrite_moved j s s' : kernelWrite j s = Some s' -> (sv_ups s' = sv_ups s \/ exists i, moved s i s') /\ torn s (sv_kernel s').
Proof.
  unfold kernelWrite. destruct (sv_inflight s !! j) as [[[i data] off]|] eqn:E; [|done]. go_step.
  destruct (kpwrite (sv_kernel s) data off) as [k' res] eqn:Ek. cbn [sv_ups]. destruct (sv_ups s !! i) as [u|] eqn:Eu; [|done]. go_step. intros E'.
  assert (sv_kernel s' = k') as Hk by (destruct (up_stage u); by injection E' as <-). split.
  - destruct (up_stage u) eqn:Es; injection E' as <-; try by left. right. exists i, u. eexists. split; [done|]. unfold is_stored. by rewrite Es.
  - rewrite Hk. intros p Hp. apply (kpwrite_frame _ _ _ _ _ Ek). by eapply Hp, list_elem_of_lookup_2.
Qed.

Lemma answerAll_other is_ : forall ups answers flags ups' i,
  answerAll ups is_ answers flags = Some ups' -> i ∉ is_ -> ups' !! i = ups !! i.
Proof.
  induction is_ as [|x is_ IH]; intros ups answers flags ups' i; destruct answers as [|a answers]; cbn [answerAll]; try done; [by intros [= <-]|].
  destruct (ups !! x) as [u|]; [|done]. go_step. destruct (answerRequest u a _) as [u'|]; [|done]. go_step.
  intros E [Hne Hni]%not_elem_of_cons. rewrite (IH _ _ _ _ _ E Hni). by rewrite list_lookup_insert_ne.
Qed.

Lemma flushBatch_stored is_ s s' i u :
  flushBatch is_ s = Some s' -> sv_kernel s' = sv_kernel s /\ (sv_ups s !! i = Some u -> is_stored u = true -> sv_ups s' !! i = Some u).
Proof.
  unfold flushBatch. destruct (mapM _ is_) as [us|] eqn:Em; [|done]. go_step. destruct (bool_decide (NoDup is_) && forallb is_queued us && _) eqn:Eg; [|done].
  apply andb_true_iff in Eg as [[_ Hq]%andb_true_iff _]. destruct (flush _ _ _) as [[[db b] rs]|]; [|done]. go_step.
  destruct (answerAll _ _ _ _) as [ups'|] eqn:Ea; [|done]. go_step. intros [= <-]. split; [done|]. intros Eu Hs. cbn.
  rewrite (answerAll_other _ _ _ _ _ i Ea); [done|]. intros Hi. apply mapM_Some in Em. apply list_elem_of_lookup_1 in Hi as [x Hx].
  destruct (Forall2_lookup_l _ _ _ _ _ Em Hx) as (v & Hv & Ev). rewrite Eu in Ev. injection Ev as <-.
  rewrite forallb_forall in Hq. apply list_elem_of_lookup_2, list_elem_of_In, Hq in Hv. unfold is_queued, is_stored in *. by destruct (up_stage u).
Qed.

Lemma moved_stored s x s' i u : moved s x s' -> sv_ups s !! i = Some u -> is_stored u = true -> sv_ups s' !! i = Some u.
Proof. intros (v & v' & Ev & Hv & ->) E Hs. rewrite list_lookup_insert_ne; [done|]. intros ->. congruence. Qed.

(** An event changes bytes only where writes are in flight, and no stored
    upload. *)
Lemma exec_keeps ev s s' : exec ev s = Some s' -> torn s (sv_kernel s') /\ forall i u, sv_ups s !! i = Some u -> is_stored u = true -> sv_ups s' !! i = Some u.
Proof.
  intros E. assert (Hp : forall i f, payload s i f = Some s' -> torn s (sv_kernel s') /\ forall i u, sv_ups s !! i = Some u -> is_stored u = true -> sv_ups s' !! i = Some u).
  { intros i f [Hm Hk]%payload_moved. rewrite Hk. split; [done|]. intros x u. by eapply moved_stored. }
  destruct ev as [req|i addr data|i addr|i|i ctx|j|is_|i e]; cbn [exec] in E; try by eapply Hp.
  - injection E as <-. split; [done|]. intros i u Eu _. by apply lookup_app_l_Some.
  - apply advance_moved in E as [Hm Hk]. split; [intros p _; apply Hk|]. intros x u. by eapply moved_stored.
  - apply kernelWrite_moved in E as [[Hm|(x & Hm)] Hk]; (split; [done|]); intros i u; [by rewrite Hm|by eapply moved_stored].
  - split; [by destruct (flushBatch_stored _ _ _ 0 (mkUpload NewAioUploadServerHandler Idle []) E) as [-> _]|].
    intros i u. by destruct (flushBatch_stored _ _ _ i u E).
  - unfold cancel in E. destruct (sv_ups s !! i) as [u|] eqn:Eu; [|done]. cbn in E. destruct (up_stage u) eqn:Es; try done.
    case_match; [done|]. injection E as <-. split; [done|]. intros x v. eapply moved_stored. eexists u, _. split; [done|]. unfold is_stored. by rewrite Es.
Qed.

(** ** Opening again *)

Section runs.
Context (name : string) (size : Z).
Hypothesis Hclean : cleanFailure.
Hypothesis Hsize : device_size size.

Let tot : Z := size / BlockSize.
Let n : Z := spaceKeyCount size.
Let free0 (b : Z) : bool := (0 <=? b) && (b <? tot).
Let none (b : Z) : bool := false.

Lemma newBlockDevice_keeps (db : DB) A (d : @BlockDevice T) db' :
  stored_chains n (chain db) A -> newBlockDevice name size db = Some (inr (d, db')) -> db' = db.
Proof.
  intros HA. destruct (device_size_blocks _ Hsize) as (_ & _ & Hn & _). destruct (stored_read _ _ _ 0 HA) as (v & Ev & _); [unfold n; lia|].
  unfold newBlockDevice. destruct (ea_new _) as [a|]; [|done]. go_run. unfold tryInitBlockSpace, get. rewrite Ev. go_run.
  destruct (loadAllocator _ _) as [[e|a']|]; go_run; [done| |done]. by intros [= _ <-].
Qed.

(** No block outside the device is free. *)
Lemma free_within a f : ea_ok a -> ea_total a = tot -> (forall b, 0 <= b < tot -> ea_free a b = f b) -> forall b, ea_free a b = free0 b && f b.
Proof.
  intros Ho Ht Hf b. unfold free0. destruct ((0 <=? b) && (b <? tot)) eqn:Eb.
  - apply andb_true_iff in Eb as [Hb1%Z.leb_le Hb2%Z.ltb_lt]. by apply Hf.
  - destruct (ea_free a b) eqn:Ef; [|done]. apply (ea_free_in _ _ Ho) in Ef. rewrite Ht in Ef.
    apply andb_false_iff in Eb as [?%Z.leb_gt|?%Z.ltb_ge]; lia.
Qed.

(** The blocks of the stored files are the only ones taken. *)
Lemma open_holding s (d' : @BlockDevice T) db' :
  server_ok tot n free0 none s -> newBlockDevice name size (sv_db s) = Some (inr (d', db')) ->
  db' = sv_db s /\ holding tot free0 (storedAll (sv_ups s)) d'.
Proof.
  intros So E. destruct (so_db _ _ _ _ _ So) as [Hst _]. cbn in Hst. split; [by eapply newBlockDevice_keeps|].
  destruct (newBlockDevice_again name size (sv_db s) _ Hsize Hst) as (d1 & db1 & E1 & [_ _ Ho Ht Hf _]).
  rewrite E in E1. injection E1 as <- <-. destruct (storedAll_part (sv_ups s)) as (rest & P).
  pose proof (holding_perm _ _ _ _ _ P (so_hold _ _ _ _ _ So)) as [_ _ H3 H4 H5 _]. apply Forall_app in H3 as H3'. destruct H3' as [H3' _].
  apply (disjoint_app_covers _ _ _ H3) in H4 as (H4 & _ & _). split; try done.
  - intros b Hb. apply H5. by rewrite covers_app, Hb.
  - by apply (free_within _ (fun b => negb (covers (storedAll (sv_ups s)) b))).
Qed.

(** No write in flight touches a stored file. *)
Lemma stored_untouched s i u k' p :
  server_ok tot n free0 none s -> sv_ups s !! i = Some u -> is_stored u = true -> torn s k' ->
  covers (held u) (p / BlockSize) = true -> kbyte k' p = kbyte (sv_kernel s) p.
Proof.
  intros So E Hs Ht Hc. apply Ht. intros i' data off Hx Hp. destruct (so_flight _ _ _ _ _ So i' data off Hx) as (v & j & segs & w & Ev & Es).
  assert (Hne : i <> i') by (intros <-; rewrite E in Ev; injection Ev as <-; unfold is_stored in Hs; by rewrite Es in Hs).
  destruct (Forall_lookup_1 _ _ _ _ (so_ups _ _ _ _ _ So) Ev) as [_ Hst]. unfold stage_ok in Hst. rewrite Es in Hst. destruct Hst as [_ (dones & [O1 O2 O3 O4 O5])].
  pose proof (held_disjoint _ _ _ _ _ _ _ _ _ (so_hold _ _ _ _ _ So) E Ev Hne Hc) as Hd.
  pose proof (held_in _ _ _ _ _ _ (so_hold _ _ _ _ _ So) Ev) as Hin. unfold held in Hin, Hd. rewrite Es in Hin, Hd. apply Forall_app in Hin as [_ Hin].
  rewrite covers_app in Hd. apply orb_false_iff in Hd as [_ Hd]. cbn [stageTokens] in *.
  rewrite (cut_covered tot (fj_token j) (buf_data (fj_buf j)) (data, off)) in Hd; [done|done| |done]. rewrite <- O1, O3. apply elem_of_app. right. left.
Qed.

Lemma restart_ok s k' (d' : @BlockDevice T) db' :
  server_ok tot n free0 none s -> torn s k' -> newBlockDevice name size (sv_db s) = Some (inr (d', db')) ->
  server_ok tot n free0 none (restart s k' d' db').
Proof.
  intros So Ht E. destruct (open_holding s d' db' So E) as [-> Hh]. split; cbn [restart sv_dev sv_kernel sv_db sv_inflight sv_ups]; try done.
  - by rewrite heldAll_lost.
  - apply Forall_map, Forall_lookup_2. intros i u Eu. pose proof (Forall_lookup_1 _ _ _ _ (so_ups _ _ _ _ _ So) Eu) as Hu.
    unfold lost. destruct (is_stored u) eqn:Es.
    + eapply (upload_keep tot (sv_kernel s)); [by eapply held_in; [apply So|]| |done]. intros p Hp. by eapply stored_untouched.
    + destruct Hu as [[C1 C2 C3 C4] _]. split; [split; done|]. unfold stage_ok, takeTokens. cbn. unfold tokens. rewrite map_map. by induction (blockInfoList (up_handler u)).
  - intros i data off Hx. by inversion Hx.
  - constructor.
  - intros i u Eu Hw. exfalso. rewrite list_lookup_fmap in Eu. destruct (sv_ups s !! i) as [v|]; [|done]. injection Eu as <-. unfold lost in Hw.
    destruct (is_stored v) eqn:Es; [|done]. unfold is_stored, is_waiting in *. by destruct (up_stage v).
  - destruct (so_db _ _ _ _ _ So) as [D1 D2]. split; [by rewrite storedAll_lost|]. intros i u Eu Hs Huniq. apply (proj1 (lost_lookup _ _ _ Hs)) in Eu.
    apply (D2 i u Eu Hs). intros i' u' Eu' Hs' Hk. apply (Huniq i' u'); [by apply (proj2 (lost_lookup _ _ _ Hs'))|done..].
Qed.

Lemma life_ok s s' : server_ok tot n free0 none s -> life name size s s' -> server_ok tot n free0 none s'.
Proof.
  destruct (device_size_blocks _ Hsize) as (Hb & Hm & Hn & Hc). destruct Hsize as (_ & _ & Hs).
  intros So [ev s1 Hq E|k' d' db' Ht E]; [|by apply restart_ok].
  eapply exec_ok; [exact Hclean| |unfold n; lia|unfold tot; by rewrite Hm|done|exact So|exact Hq|exact E].
  unfold tot. rewrite Hm. change SpaceSize with 16777216 in Hs. lia.
Qed.

(** A stored file keeps its place and its bytes. *)
Lemma life_stored s s' i u pieces :
  server_ok tot n free0 none s -> life name size s s' -> sv_ups s !! i = Some u -> is_stored u = true ->
  onDisk (sv_kernel s) (blockInfoList (up_handler u)) pieces ->
  sv_ups s' !! i = Some u /\ onDisk (sv_kernel s') (blockInfoList (up_handler u)) pieces.
Proof.
  intros So Hl E Hs Hon. assert (Hk : torn s (sv_kernel s') /\ sv_ups s' !! i = Some u).
  { destruct Hl as [ev s' Hq Ee|k' d' db' Ht Eo]; [|split; [done|by apply (proj2 (lost_lookup _ _ _ Hs))]].
    destruct (exec_keeps ev s s' Ee) as [Ht Hu]. split; [done|by apply Hu]. }
  destruct Hk as [Ht Eu]. split; [done|]. pose proof (held_in _ _ _ _ _ _ (so_hold _ _ _ _ _ So) E) as Hin. apply Forall_app in Hin as [Hin _].
  eapply (onDisk_keep tot); [exact Hin| |exact Hon]. intros p Hp. eapply (stored_untouched s i u); [done..|]. unfold held. by rewrite covers_app, Hp.
Qed.

Lemma lives_ok s s' : server_ok tot n free0 none s -> rtc (life name size) s s' -> server_ok tot n free0 none s'.
Proof. intros So H. induction H as [|s s1 s2 H1 _ IH]; [done|]. apply IH. by eapply life_ok. Qed.

Lemma lives_stored s s' i u pieces :
  server_ok tot n free0 none s -> rtc (life name size) s s' -> sv_ups s !! i = Some u -> is_stored u = true ->
  onDisk (sv_kernel s) (blockInfoList (up_handler u)) pieces ->
  sv_ups s' !! i = Some u /\ onDisk (sv_kernel s') (blockInfoList (up_handler u)) pieces.
Proof.
  intros So H. revert So. induction H as [|s s1 s2 H1 _ IH]; [done|]. intros So E Hs Hon.
  destruct (life_stored _ _ _ _ _ So H1 E Hs Hon) as [E1 Hon1]. apply IH; [by eapply life_ok|done..].
Qed.

Lemma first_ok (db0 : DB) k0 (d : @BlockDevice T) db :
  chain db0 (familySpaceKey 0) = [] -> newBlockDevice name size db0 = Some (inr (d, db)) -> server_ok tot n free0 none (newServer d k0 db).
Proof.
  intros H0 E. destruct (newBlockDevice_first name size db0 d db Hsize H0 E) as [_ _ Ho Ht Hf Hs]. apply server_ok_init; [|done]. split; try done. by apply (free_within _ (fun b => negb false)).
Qed.

(** C1: A stored file is not lost, under three conditions.  Start on a new
    device and let any number of uploads run in any order, with the process
    dying at any moment, the writes that are in flight then being performed,
    torn or lost, and the device being opened again, any number of times.  The
    conditions: no context ends while the kernel has a write
    ([ConcurrentThms] has what such a context breaks), a commit that fails
    leaves the database as it was, and no upload reaches 2^61 bytes.  In every
    state that is reached, opening the device again works and takes exactly
    the blocks of the stored files.  A file that was committed (answered
    [SUCCESS] without another file having been there before) is, in every
    later state, readable from the extents of its metadata with the bytes that
    were uploaded (each flush padded to whole blocks); and as long as no other
    stored file has the same key, the database has that metadata under the
    file's name. *)
Theorem durable_uploads (db0 : DB) k0 (d : @BlockDevice T) db s :
  chain db0 (familySpaceKey 0) = [] -> newBlockDevice name size db0 = Some (inr (d, db)) -> rtc (life name size) (newServer d k0 db) s ->
  (exists (d' : @BlockDevice T) db', newBlockDevice name size (sv_db s) = Some (inr (d', db')) /\
     forall b, 0 <= b < size / BlockSize -> ea_free (bd_allocator d') b = negb (covers (storedAll (sv_ups s)) b)) /\
  forall i u, sv_ups s !! i = Some u -> up_stage u = Stored -> exists req pieces,
    let meta := metaOf req (up_received u) (blockInfoList (up_handler u)) in
    initReq (up_handler u) = Some req /\ up_received u = concat pieces /\
    forall s', rtc (life name size) s s' ->
      sv_ups s' !! i = Some u /\
      readFile (AD := kernelDisk) (sv_kernel s') meta = take (length (up_received u)) (concat (map padded pieces)) /\
      ((forall i' u', sv_ups s' !! i' = Some u' -> up_stage u' = Stored -> keyOf u' = keyOf u -> i' = i) ->
         exists mb, Marshal meta = inr mb /\ chain (sv_db s') (GetFileMetaKey (pi_FileName req)) = [mb]).
Proof.
  intros H0 E Hl. pose proof (lives_ok _ _ (first_ok _ k0 _ _ H0 E) Hl) as So. split.
  - destruct (so_db _ _ _ _ _ So) as [Hst _]. destruct (newBlockDevice_again name size (sv_db s) _ Hsize Hst) as (d' & db' & E' & _).
    exists d', db'. split; [done|]. intros b Hb. destruct (open_holding s d' db' So E') as [_ Hh]. rewrite (ho_free _ _ _ _ Hh). unfold free0, tot.
    rewrite (proj2 (Z.leb_le 0 b)), (proj2 (Z.ltb_lt b _)) by lia. done.
  - intros i u Eu Es. assert (Hs : is_stored u = true) by (unfold is_stored; by rewrite Es).
    destruct (Forall_lookup_1 _ _ _ _ (so_ups _ _ _ _ _ So) Eu) as [[(req & Er) _ _ _] Hst]. unfold stage_ok in Hst. rewrite Es in Hst.
    destruct Hst as (pieces & Hon & Hrec). exists req, pieces. cbv zeta. split; [done|]. split; [done|]. intros s' Hl'.
    destruct (lives_stored _ _ _ _ _ So Hl' Eu Hs Hon) as [Eu' Hon']. pose proof (lives_ok _ _ So Hl') as So'. split; [done|]. split.
    + rewrite Hrec. eapply readFile_flushed; [|exact Hon']. pose proof (held_in _ _ _ _ _ _ (so_hold _ _ _ _ _ So') Eu') as Hin. by apply Forall_app in Hin as [Hin _].
    + intros Huniq. destruct (db_meta _ _ _ _ (so_db _ _ _ _ _ So') i u Eu' Hs) as (mb & (req' & Er' & Em) & Ek).
      * intros i' u' E' Hst' Hk. apply (Huniq i' u'); try done. unfold is_stored in Hst'. by destruct (up_stage u').
      * rewrite Er in Er'. injection Er' as <-. exists mb. split; [done|]. unfold keyOf in Ek. by rewrite Er in Ek.
Qed.
End runs.
End lives.

(** ** Witness: a crash with a write in flight *)

#[local] Existing Instances MemStore.ops MemStore.laws MemKernel.ops MemKernel.laws.
#[local] Existing Instances demoDecoder demoMarshal.

(** The first upload is stored, the second one waits for the kernel. *)
Definition crashEvents : list event :=
  [ENew (reqOf "d/a"); EPut 0 0 [1; 2; 3]; EComplete 0 0; adv 0; adv 0; adv 0; EKernel 0; adv 0; adv 0; EFlush [0%nat];
   ENew (reqOf "d/b"); EPut 1 0 [7; 8]; EComplete 1 0; adv 1; adv 1; adv 1].

Definition crashRun : option (server (T := AllocatorV3)) := runQuiet crashEvents (serverOf 40960).

Lemma crashRun_state : (fun s => (map is_stored (sv_ups s), length (sv_inflight s))) <$> crashRun = Some ([true; false], 1%nat).
Proof. vm_compute. reflexivity. Qed.

Lemma runQuiet_lives name size evs : forall s s', runQuiet evs s = Some s' -> rtc (life name size) s s'.
Proof.
  induction evs as [|ev evs IH]; intros s s'; cbn [runQuiet]; [by intros [= <-]|]. destruct (quietb ev s) eqn:Eq; [|done].
  destruct (exec ev s) as [s1|] eqn:E; [|done]. go_step. intros Hr. eapply rtc_l; [|by apply IH]. eapply life_event; [|exact E].
  destruct ev as [| | | | | | |]; try done. intros u Eu. cbn in Eq. rewrite Eu in Eq. by apply Z.ltb_lt.
Qed.

Lemma deviceOf_opened : newBlockDevice "lun" 40960 (∅ : @DB MemStore.ops) = Some (inr ((deviceOf 40960).1, (deviceOf 40960).2)).
Proof.
  unfold deviceOf. destruct (newBlockDevice_new (T := AllocatorV3) "lun" 40960 (∅ : @DB MemStore.ops) mem_healthy demo_size) as (d0 & db1 & E & _); [reflexivity|]. by rewrite E.
Qed.

(** After the crash the second upload is gone and the first file is there. *)
Lemma durable_uploads_witness :
  exists s d' db' u req pieces, crashRun = Some s /\ length (sv_inflight s) = 1%nat /\ newBlockDevice "lun" 40960 (sv_db s) = Some (inr (d', db')) /\
    let s' := restart s (sv_kernel s) d' db' in
    sv_ups s' !! 0%nat = Some u /\ up_received u = concat pieces /\
    readFile (AD := kernelDisk) (sv_kernel s') (metaOf req (up_received u) (blockInfoList (up_handler u))) = take (length (up_received u)) (concat (map padded pieces)).
Proof.
  pose proof crashRun_state as Hst. destruct crashRun as [s|] eqn:E; [|discriminate Hst]. injection Hst as Hst Hfl.
  assert (Hr : rtc (life "lun" 40960) (serverOf 40960) s) by (eapply runQuiet_lives; exact E).
  destruct (durable_uploads (L := MemStore.laws) (K := MemKernel.ops) (PM := demoMarshal) "lun" 40960 (healthy_clean mem_healthy) demo_size (∅ : @DB MemStore.ops) (∅ : gmap Z Z) (deviceOf 40960).1 (deviceOf 40960).2 s) as ((d' & db' & Eo & _) & Hf); [reflexivity|exact deviceOf_opened|exact Hr|].
  destruct (sv_ups s) as [|u [|v [|]]] eqn:Eu; try discriminate Hst. injection Hst as Hu _.
  destruct (Hf 0%nat u eq_refl) as (req & pieces & _ & Hp & Hs); [unfold is_stored in Hu; destruct (up_stage u); (reflexivity || discriminate Hu)|].
  exists s, d', db', u, req, pieces. split; [reflexivity|]. split; [exact Hfl|]. split; [exact Eo|].
  destruct (Hs (restart s (sv_kernel s) d' db')) as (H1 & H2 & _); [apply rtc_once, life_crash; [intros p _; reflexivity|exact Eo]|].
  split; [exact H1|]. split; [exact Hp|exact H2].
Defined.
