(* ===== verification/Startup.v ===== *)
(** * Start-up

    [main] of [main.go] with [StartRSocketServer] of
    [rsocket/server_runtime.go], and the device choice of
    [cmd/aio_channel_bench]: which device a program works on, and what is open
    when it does. *)

From stdpp Require Import base decidable list numbers option strings gmap relations.
From Stdlib Require Import ZArith Lia.
From S2P Require Import Prelude Words Bytes Moss MossJSON Allocator AllocatorSpec SpaceBitmap Pebble WriteBatch BatchPebble BlockDevice BlockDeviceSpec BlockDeviceThms GoStrings DeviceScan DeviceScanThms GoAio Lifecycle LifecycleThms BatchThms.

Section startup.
Context `{PO : PebbleOps} `{J : JSONDecoder} {T : Type} `{EA : ExtentAllocator T} `{O : OS}.
Implicit Types (p : process (T := T)) (d : device (T := T)).

Record ErasureServer := mkErasureServer { es_device : device (T := T) }.

(** [Serve] is the RSocket library's; it answers when the server ends. *)
Definition StartRSocketServer (ctx : bool) (addr : bytes) (erasure : option ErasureServer)
    (serve : bytes -> ErasureServer -> option error) : option error :=
  if negb ctx then Some "nil context"%string
  else if decide (addr = []) then Some "empty rsocket address"%string
  else match erasure with
       | None => Some "nil erasure server"%string
       | Some es => serve addr es
       end.

(** How [main] ends: the usage message, [log.Fatal], or the server has run and
    ended without an error. *)
Inductive exit := Usage | Fatal (errs : list error) | Served (es : ErasureServer) (addr : bytes).

(** [Devices] returns a map; Go iterates over it in the order [order]. *)
Definition Devices p : gmap bytes device := p_devices p.

Definition defaultAddr : bytes := bs ":11115".

(** The server on the device that was found. *)
Definition serveDevice (addr : bytes) d (serve : bytes -> ErasureServer -> option error) : exit :=
  let server := mkErasureServer d in
  match StartRSocketServer true addr (Some server) serve with
  | Some e => Fatal [e]
  | None => Served server addr
  end.

(** [args] is [os.Args]. *)
Definition main (args : list bytes) (env : bytes -> openEnv) (cenv : closeEnv) (order : gmap bytes (device (T := T)) -> list (bytes * device (T := T)))
    (serve : bytes -> ErasureServer -> option error) p : option (process * exit) :=
  match args with
  | _ :: mountDir :: rest =>
      let addr := match rest with a :: _ => a | [] => defaultAddr end in
      '(p, errs) ← Init env cenv p mountDir;
      match errs with
      | _ :: _ => Some (p, Fatal errs)
      | [] =>
          match order (Devices p) with
          | [] => Some (p, Fatal ["no block device found"%string])
          | (_, device) :: _ => Some (p, serveDevice addr device serve)
          end
      end
  | _ => Some (p, Usage)
  end.

(** [sort.Strings] orders by bytes: the smallest name. *)
Fixpoint leqBytes (a b : bytes) : bool :=
  match a, b with
  | [], _ => true
  | _ :: _, [] => false
  | x :: a, y :: b => (x <? y) || ((x =? y) && leqBytes a b)
  end.

Definition minName (names : list bytes) : option bytes :=
  match names with [] => None | n :: ns => Some (fold_left (fun m n => if leqBytes m n then m else n) ns n) end.

(** [openDevice] of the benchmark. *)
Definition openDevice (mountDir lun : bytes) (env : bytes -> openEnv) (cenv : closeEnv)
    (order : gmap bytes (device (T := T)) -> list (bytes * device (T := T))) p : option (process * (list error + device)) :=
  '(p, errs) ← Init env cenv p mountDir;
  match errs with
  | _ :: _ => Some (p, inl errs)
  | [] =>
      let devices := Devices p in
      if decide (size devices = 0%nat) then Some (p, inl ["no block device found"%string])
      else if decide (lun <> []) then
        match Get p lun with
        | None => Some (p, inl ["lun not found"%string])
        | Some d => Some (p, inr d)
        end
      else
        name ← minName (order devices).*1;
        d ← devices !! name;
        Some (p, inr d)
  end.

(** [closeDevices]: an error is only logged. *)
Definition closeDevices (cenv : closeEnv) (order : gmap bytes (device (T := T)) -> list (bytes * device (T := T))) p : process :=
  fold_left (fun p '(name, _) => (Remove cenv p name).1) (order (Devices p)) p.

(** ** Lemmas *)

(** [Init] for one mount point registers at most its device. *)
Lemma initLoop_one env cenv dir cs : forall p errs p' errs',
  owned p -> dir <> [] -> Forall (fun c => Lun c = Base (MountDir c)) cs -> (forall lun d, p_devices p !! lun = Some d -> lun = Base dir) ->
  initLoop env cenv p dir cs errs = Some (p', errs') -> forall lun d, p_devices p' !! lun = Some d -> lun = Base dir.
Proof.
  induction cs as [|c cs IH]; intros p errs p' errs' HO Hd HF Hp; cbn [initLoop]; [by intros [= <- _]|]. apply Forall_cons in HF as [Hc HF].
  rewrite bool_decide_true by done. cbn [andb]. case_bool_decide as Hm; [by eapply IH|]. destruct (p_devices p !! Lun c) as [d0|] eqn:Ed; [by eapply IH|].
  assert (MountDir c = dir) as Hdir by (by destruct (decide (MountDir c = dir))).
  destruct (OpenPartitionBlockDevice _ _ _ _ _ _) as [[p1 r]|] eqn:Eo; go_step; [|done]. apply OpenPartition_spec in Eo; [|done|done]. destruct r as [e|d1].
  - apply IH; [by eapply owned_same|done|done|]. intros lun d2. rewrite (sr_devices _ _ Eo). apply Hp.
  - apply IH; [by eapply owned_open|done|done|]. intros lun d2. cbn. rewrite (op_devices _ _ _ _ _ Eo). intros [[<- _]|[_ H2]]%lookup_insert_Some;
      [by rewrite Hc, Hdir|by eapply Hp].
Qed.

Lemma Init_one env cenv dir p' errs :
  dir <> [] -> Init env cenv startProcess dir = Some (p', errs) ->
  owned p' /\ forall lun d, p_devices p' !! lun = Some d -> lun = Base dir.
Proof.
  intros Hd Ei. split.
  { eapply (life_owned startProcess); [|apply startProcess_owned]. by eapply rtc_once, life_init. }
  unfold Init in Ei. destruct ScanBlockDeviceCandidates as [e|cs] eqn:Es; [by injection Ei as <- _|].
  eapply initLoop_one; [apply startProcess_owned|done| |done|exact Ei].
  unfold ScanBlockDeviceCandidates in Es. destruct readMountInfo as [e|mounts]; [done|].
  destruct (scanMounts_spec mounts mounts [] [] cs Es) as (R1 & _); try done; [constructor|]. eapply Forall_impl; [exact R1|].
  intros c (m & part & p1 & p2 & size & _ & _ & H1 & H2 & _). by rewrite H1, H2.
Qed.

Implicit Types (order : gmap bytes (device (T := T)) -> list (bytes * device (T := T))).

Definition any_order order : Prop := forall m, order m ≡ₚ map_to_list m.

Lemma order_singleton order lun d : any_order order -> order {[lun := d]} = [(lun, d)].
Proof. intros Ho. apply Permutation_singleton_r. rewrite (Ho _). by rewrite map_to_list_singleton. Qed.

Lemma order_elem order (m : gmap bytes (device (T := T))) lun d : any_order order -> (lun, d) ∈ order m <-> m !! lun = Some d.
Proof. intros Ho. rewrite (Ho m). apply elem_of_map_to_list. Qed.

(** A map whose only possible key is [lun]. *)
Lemma one_key (m : gmap bytes (device (T := T))) lun : (forall l d, m !! l = Some d -> l = lun) -> m = ∅ \/ exists d, m = {[lun := d]}.
Proof.
  intros H. destruct (m !! lun) as [d|] eqn:E.
  - right. exists d. apply map_eq. intros l. destruct (decide (l = lun)) as [->|Hne]; [by rewrite lookup_singleton_eq|].
    rewrite lookup_singleton_ne by done. destruct (m !! l) as [d'|] eqn:El; [|done]. by apply H in El.
  - left. apply map_eq. intros l. rewrite lookup_empty. destruct (m !! l) as [d'|] eqn:El; [|done]. apply H in El as Hl. congruence.
Qed.

Lemma minName_in names n : minName names = Some n -> n ∈ names.
Proof.
  destruct names as [|x names]; [done|]. cbn. intros [= <-].
  assert (H : forall l m, fold_left (fun m n => if leqBytes m n then m else n) l m = m \/ fold_left (fun m n => if leqBytes m n then m else n) l m ∈ l).
  { induction l as [|y l IH]; intros m; [by left|]. cbn [fold_left]. destruct (IH (if leqBytes m y then m else y)) as [->|Hi]; [|right; by right].
    destruct (leqBytes m y); [by left|right; by left]. }
  destruct (H names x) as [->|Hi]; [by left|by right].
Qed.

Lemma closeDevices_all cenv order p :
  any_order order -> owned p -> p_devices (closeDevices cenv order p) = ∅ /\ owned (closeDevices cenv order p).
Proof.
  intros Ho HO. unfold closeDevices, Devices.
  assert (H : forall (l : list (bytes * device (T := T))) (q : process (T := T)), owned q -> (forall lun d, p_devices q !! lun = Some d -> lun ∈ l.*1) ->
    p_devices (fold_left (fun p '(name, _) => (Remove cenv p name).1) l q) = ∅ /\ owned (fold_left (fun p '(name, _) => (Remove cenv p name).1) l q)).
  { induction l as [|[name d0] l IH]; intros q Hq Hin; cbn [fold_left].
    - split; [|done]. apply map_eq. intros lun. rewrite lookup_empty. destruct (p_devices q !! lun) as [d|] eqn:E; [|done]. apply Hin in E. by apply not_elem_of_nil in E.
    - destruct (Remove cenv q name) as [q' err] eqn:Er. destruct (owned_remove _ _ _ _ _ Hq Er) as [Hq' Ed]. apply IH; [done|]. cbn. intros lun d. rewrite Ed.
      intros [Hne E]%lookup_delete_Some. apply Hin, elem_of_cons in E as [->|E]; [done|exact E]. }
  apply H; [done|]. intros lun d E. apply (list_elem_of_fmap_2 fst _ (lun, d)). by apply order_elem.
Qed.

Lemma serveDevice_used addr d serve : serveDevice addr d serve <> Usage.
Proof. unfold serveDevice. by destruct (StartRSocketServer _ _ _ _). Qed.

Lemma serveDevice_served addr d serve es addr' :
  serveDevice addr d serve = Served es addr' -> es = mkErasureServer d /\ addr' = addr /\ addr <> [] /\ serve addr (mkErasureServer d) = None.
Proof.
  unfold serveDevice, StartRSocketServer. cbn [negb]. case_decide; [done|]. destruct (serve _ _) eqn:E; [done|]. by intros [= <- <-].
Qed.

(** C35: Which device a program works on.  Whatever fails and in whatever order
    Go iterates over the devices: the resources that are open are those of the
    registered devices.  If [main] serves, it serves a registered device at a
    non-empty address; for a mount point given by name that is the only device
    and the only batch processor, so the order of the iteration does not
    matter.  The benchmark's [openDevice] gives a registered device and
    does not panic, and [closeDevices] closes everything. *)
Theorem startup_device env cenv order :
  any_order order ->
  (forall args serve p st, main args env cenv order serve startProcess = Some (p, st) ->
     owned p /\ (st = Usage <-> (length args < 2)%nat) /\
     forall es addr, st = Served es addr -> addr <> [] /\ serve addr es = None /\
       exists prog mountDir rest lun, args = prog :: mountDir :: rest /\ p_devices p !! lun = Some (es_device es) /\
         (mountDir <> [] -> p_devices p = {[Base mountDir := es_device es]} /\ dom (p_batchMap p) = {[Base mountDir]} /\
            forall order', any_order order' -> main args env cenv order' serve startProcess = Some (p, st))) /\
  (forall mountDir lun p r, openDevice mountDir lun env cenv order startProcess = Some (p, r) ->
     owned p /\ (forall d, r = inr d -> exists l, p_devices p !! l = Some d /\ (lun <> [] -> l = lun)) /\
     owned (closeDevices cenv order p) /\ p_devices (closeDevices cenv order p) = ∅) /\
  (forall mountDir lun, Init env cenv startProcess mountDir <> None -> openDevice mountDir lun env cenv order startProcess <> None).
Proof.
  intros Ho. split; [|split].
  - intros [|prog [|mountDir rest]] serve p st; cbn [main length].
    1,2: by intros [= <- <-]; split; [apply startProcess_owned|]; split; [split; [lia|done]|discriminate].
    destruct (Init env cenv startProcess mountDir) as [[p1 errs]|] eqn:Ei; go_step; [|done].
    assert (HO : owned p1) by (eapply (life_owned startProcess); [by eapply rtc_once, life_init|apply startProcess_owned]).
    destruct errs as [|e errs]; [|intros [= <- <-]; split; [done|]; split; [split; [done|lia]|discriminate]].
    destruct (order (Devices p1)) as [|[lun device] l] eqn:Eord; [intros [= <- <-]; split; [done|]; split; [split; [done|lia]|discriminate]|].
    set (addr := match rest with [] => defaultAddr | a :: _ => a end). intros [= <- Est]. split; [done|]. split; [rewrite <- Est; split; [by intros ?%serveDevice_used|lia]|].
    intros es addr' ->. destruct (serveDevice_served _ _ _ _ _ Est) as (-> & -> & Ha & Es). split; [done|]. split; [done|].
    assert (Hlun : p_devices p1 !! lun = Some device) by (apply (order_elem order); [done|]; change (p_devices p1) with (Devices p1); rewrite Eord; by left).
    exists prog, mountDir, rest, lun. split; [done|]. split; [done|]. intros Hm. destruct (Init_one _ _ _ _ _ Hm Ei) as [_ Hone].
    assert (Hdev : p_devices p1 = {[Base mountDir := device]}).
    { destruct (one_key _ _ Hone) as [E0|[d' E0]]; [by rewrite E0 in Hlun|]. rewrite E0 in Hlun |- *. apply lookup_singleton_Some in Hlun as [_ ->]. done. }
    split; [done|]. split; [rewrite (ow_batch _ HO), Hdev; apply dom_singleton_L|]. intros order' Ho'.
    unfold Devices. rewrite Hdev, (order_singleton order' _ _ Ho'). fold addr.
    by rewrite Est.
  - intros mountDir lun p r. unfold openDevice. destruct (Init env cenv startProcess mountDir) as [[p1 errs]|] eqn:Ei; go_step; [|done].
    assert (HO : owned p1) by (eapply (life_owned startProcess); [by eapply rtc_once, life_init|apply startProcess_owned]).
    destruct (closeDevices_all cenv order p1 Ho HO) as [Hc1 Hc2].
    assert (Hall : forall r', (forall d, r' = inr d -> exists l, p_devices p1 !! l = Some d /\ (lun <> [] -> l = lun)) -> Some (p1, r') = Some (p, r) ->
      owned p /\ (forall d, r = inr d -> exists l, p_devices p !! l = Some d /\ (lun <> [] -> l = lun)) /\
      owned (closeDevices cenv order p) /\ p_devices (closeDevices cenv order p) = ∅) by (intros r' Hr [= <- <-]; done).
    destruct errs; [|by apply Hall]. case_decide; [by apply Hall|]. case_decide as Hl.
    + unfold Get. destruct (p_devices p1 !! lun) as [d|] eqn:Ed; apply Hall; [|done]. intros d' [= <-]. by exists lun.
    + destruct (minName _) as [name|]; go_step; [|done]. unfold Devices. destruct (p_devices p1 !! name) as [d|] eqn:Ed; go_step; [|done].
      apply Hall. intros d' [= <-]. by exists name.
  - intros mountDir lun Hi. unfold openDevice. destruct (Init env cenv startProcess mountDir) as [[p1 errs]|]; go_step; [|done].
    destruct errs; [|done]. case_decide as Hz; [done|]. case_decide; [by destruct (Get p1 lun)|]. unfold Devices in *.
    assert (Hne : exists name, minName (order (p_devices p1)).*1 = Some name).
    { destruct (order (p_devices p1)) as [|[n0 d0] l] eqn:E; [|by eexists]. exfalso. apply Hz. apply map_size_empty_iff. apply map_to_list_empty_iff.
      apply Permutation_nil_r. by rewrite <- (Ho (p_devices p1)), E. }
    destruct Hne as [name En]. rewrite En. go_step. apply minName_in, list_elem_of_fmap in En as ([n0 d0] & -> & Hin). cbn.
    by rewrite (proj1 (order_elem order _ _ _ Ho) Hin).
Qed.
End startup.

(** ** Witness: serving the first demo device *)

#[local] Existing Instances MemStore.ops MemStore.laws.
#[local] Existing Instance demoDecoder.
#[local] Instance demoSmall' : OS := demoMachine (bs "80").

Definition demoArgs : list bytes := [bs "corgi"; bs "/fs-SP0-0"].
Definition demoMain : option (process (T := AllocatorV3) * exit) := main demoArgs demoEnv demoClose map_to_list (fun _ _ => None) startProcess.

Definition served (x : option (process (T := AllocatorV3) * exit (T := AllocatorV3))) : option (nat * bytes) :=
  match x with Some (p, Served es addr) => Some (size (p_devices p), addr) | _ => None end.

Lemma startup_device_witness :
  exists p es, demoMain = Some (p, Served es (bs ":11115")) /\ owned p /\ p_devices p = {[bs "fs-SP0-0" := es_device es]}.
Proof.
  assert (E : served demoMain = Some (1%nat, bs ":11115")) by (vm_compute; reflexivity).
  destruct demoMain as [[p [|errs|es addr]]|] eqn:Em; try discriminate E. injection E as _ ->. exists p, es. split; [reflexivity|].
  destruct (startup_device demoEnv demoClose (map_to_list (A := device (T := AllocatorV3))) (fun m => Permutation_refl _)) as [Hm _].
  destruct (Hm demoArgs (fun _ _ => None) p (Served es (bs ":11115")) Em) as (HO & _ & Hs). split; [exact HO|].
  destruct (Hs es (bs ":11115") eq_refl) as (_ & _ & prog & mountDir & rest & lun & Ea & _ & Hone). injection Ea as <- <- <-.
  exact (proj1 (Hone ltac:(discriminate))).
Defined.
