(* ===== verification/Stats.v ===== *)
(** * Write statistics

    The counters of [aio_upload_server_handler.go] ([writeMetrics],
    [recordWriteStats], [SnapshotWriteStats]) and the goroutine of [main.go]
    that prints them.  Every flush goroutine adds to the five counters one
    atomic addition at a time and the reporter loads them one at a time, so a
    snapshot may hold part of a call.  The theorem is the account the printed
    intervals keep in spite of that: nothing is counted twice, and a report of
    a quiet server leaves nothing out.  The two floating-point rates of the
    printed line are not modelled. *)

From stdpp Require Import base decidable list numbers option relations.
From Stdlib Require Import ZArith Lia.
From S2P Require Import Prelude Words.

(** ** Counters *)

Inductive counter := COps | CBytes | CNanos | CAlloc | CCommit.

#[global] Instance counter_eq_dec : EqDecision counter.
Proof. solve_decision. Defined.

Record writeMetrics := mkMetrics { m_ops : Z; m_bytes : Z; m_nanos : Z; m_allocLatency : Z; m_batchCommitLatency : Z }.

Record WriteStatsSnapshot := mkSnapshot { Ops : Z; Bytes_ : Z; Nanos : Z; AllocLatency : Z; BatchCommitLatency : Z }.

Definition loadCounter (c : counter) (m : writeMetrics) : Z :=
  match c with COps => m_ops m | CBytes => m_bytes m | CNanos => m_nanos m | CAlloc => m_allocLatency m | CCommit => m_batchCommitLatency m end.

(** [Add] of [atomic.Int64]. *)
Definition addCounter (c : counter) (n : Z) (m : writeMetrics) : writeMetrics :=
  let v := i64 (loadCounter c m + n) in
  match c with
  | COps => mkMetrics v (m_bytes m) (m_nanos m) (m_allocLatency m) (m_batchCommitLatency m)
  | CBytes => mkMetrics (m_ops m) v (m_nanos m) (m_allocLatency m) (m_batchCommitLatency m)
  | CNanos => mkMetrics (m_ops m) (m_bytes m) v (m_allocLatency m) (m_batchCommitLatency m)
  | CAlloc => mkMetrics (m_ops m) (m_bytes m) (m_nanos m) v (m_batchCommitLatency m)
  | CCommit => mkMetrics (m_ops m) (m_bytes m) (m_nanos m) (m_allocLatency m) v
  end.

Definition globalWriteMetrics : writeMetrics := mkMetrics 0 0 0 0 0.

(** The additions of one call, in the order in which they are made. *)
Definition recordWriteStats (n d allocLatency batchCommitLatency : Z) : list (counter * Z) :=
  [(COps, 1); (CBytes, n); (CNanos, d); (CAlloc, allocLatency); (CCommit, batchCommitLatency)].

Definition RecordWriteStats (batchCommitLatency : Z) : list (counter * Z) := recordWriteStats 0 0 0 batchCommitLatency.

(** The call [runFlush] makes after a successful write. *)
Definition flushStats (n writeElapsed allocElapsed : Z) : list (counter * Z) := recordWriteStats n writeElapsed allocElapsed 0.

Definition field (c : counter) (s : WriteStatsSnapshot) : Z :=
  match c with COps => Ops s | CBytes => Bytes_ s | CNanos => Nanos s | CAlloc => AllocLatency s | CCommit => BatchCommitLatency s end.

Definition setField (c : counter) (v : Z) (s : WriteStatsSnapshot) : WriteStatsSnapshot :=
  match c with
  | COps => mkSnapshot v (Bytes_ s) (Nanos s) (AllocLatency s) (BatchCommitLatency s)
  | CBytes => mkSnapshot (Ops s) v (Nanos s) (AllocLatency s) (BatchCommitLatency s)
  | CNanos => mkSnapshot (Ops s) (Bytes_ s) v (AllocLatency s) (BatchCommitLatency s)
  | CAlloc => mkSnapshot (Ops s) (Bytes_ s) (Nanos s) v (BatchCommitLatency s)
  | CCommit => mkSnapshot (Ops s) (Bytes_ s) (Nanos s) (AllocLatency s) v
  end.

Definition zeroSnapshot : WriteStatsSnapshot := mkSnapshot 0 0 0 0 0.

(** The loads of [SnapshotWriteStats], in the order in which they are made. *)
Definition SnapshotWriteStats : list counter := [COps; CBytes; CNanos; CAlloc; CCommit].

(** ** The reporter *)

(** What is printed of an interval. *)
Record report := mkReport { interval_ops : Z; interval_bytes : Z; avgLatency : Z; avgAllocLatency : Z; avgBatchCommitLatency : Z }.

Definition average (d dOps : Z) : Z := if decide (0 < dOps) then i64 (Z.quot d dOps) else 0.

Definition reportOf (prev cur : WriteStatsSnapshot) : report :=
  let dOps := i64 (Ops cur - Ops prev) in
  let dBytes := i64 (Bytes_ cur - Bytes_ prev) in
  let dNanos := i64 (Nanos cur - Nanos prev) in
  let dAllocLatency := i64 (AllocLatency cur - AllocLatency prev) in
  mkReport dOps dBytes (average dNanos dOps) (average dAllocLatency dOps)
    (average (i64 (BatchCommitLatency cur - BatchCommitLatency prev)) dOps).

(** The goroutine waits for the ticker with its previous snapshot, or has
    loaded part of the next one; [None] until the first snapshot is taken. *)
Inductive reporter := Waiting (prev : WriteStatsSnapshot) | Snapping (prev : option WriteStatsSnapshot) (todo : list counter) (cur : WriteStatsSnapshot).

(** [ss_log] are the calls made so far, [ss_adds] the additions each of them
    has left, [ss_first] the first snapshot: the log and the first snapshot
    only serve the statements. *)
Record statsys := mkStats {
  ss_metrics : writeMetrics; ss_log : list (list (counter * Z)); ss_adds : list (list (counter * Z));
  ss_reporter : reporter; ss_first : WriteStatsSnapshot; ss_reports : list report }.

Definition statStart : statsys := mkStats globalWriteMetrics [] [] (Snapping None SnapshotWriteStats zeroSnapshot) zeroSnapshot [].

Definition set_reporter (s : statsys) (r : reporter) : statsys :=
  mkStats (ss_metrics s) (ss_log s) (ss_adds s) r (ss_first s) (ss_reports s).

Inductive stat_step : statsys -> statsys -> Prop :=
  | stat_call s n d a : 0 <= n -> 0 <= d -> 0 <= a ->
      stat_step s (mkStats (ss_metrics s) (flushStats n d a :: ss_log s) (ss_adds s ++ [flushStats n d a]) (ss_reporter s) (ss_first s) (ss_reports s))
  | stat_add s k c n l : ss_adds s !! k = Some ((c, n) :: l) ->
      stat_step s (mkStats (addCounter c n (ss_metrics s)) (ss_log s) (<[k := l]> (ss_adds s)) (ss_reporter s) (ss_first s) (ss_reports s))
  | stat_load s prev c todo cur : ss_reporter s = Snapping prev (c :: todo) cur ->
      stat_step s (set_reporter s (Snapping prev todo (setField c (loadCounter c (ss_metrics s)) cur)))
  | stat_first s cur : ss_reporter s = Snapping None [] cur ->
      stat_step s (mkStats (ss_metrics s) (ss_log s) (ss_adds s) (Waiting cur) cur (ss_reports s))
  | stat_tick s prev : ss_reporter s = Waiting prev ->
      stat_step s (set_reporter s (Snapping (Some prev) SnapshotWriteStats zeroSnapshot))
  | stat_report s prev cur : ss_reporter s = Snapping (Some prev) [] cur ->
      stat_step s (mkStats (ss_metrics s) (ss_log s) (ss_adds s) (Waiting cur) (ss_first s) (ss_reports s ++ [reportOf prev cur])).

(** ** Sums *)

Definition sumZ (l : list Z) : Z := foldr Z.add 0 l.

(** What a list of additions adds to a counter. *)
Definition share (c : counter) (l : list (counter * Z)) : Z := sumZ (map (fun x => if decide (x.1 = c) then x.2 else 0) l).

Definition total (c : counter) (ls : list (list (counter * Z))) : Z := sumZ (map (share c) ls).

Arguments share : simpl never.
Arguments total : simpl never.

(** No counter has overflowed. *)
Definition unwrapped (s : statsys) : Prop := forall c, total c (ss_log s) < 2 ^ 63.

Lemma sumZ_app l1 l2 : sumZ (l1 ++ l2) = sumZ l1 + sumZ l2.
Proof. unfold sumZ. induction l1 as [|a l IH]; cbn; [lia|rewrite IH; lia]. Qed.

Lemma adds_app c l1 l2 : total c (l1 ++ l2) = total c l1 + total c l2.
Proof. unfold total. by rewrite map_app, sumZ_app. Qed.

Lemma total_insert c ls k l l' : ls !! k = Some l -> total c (<[k := l']> ls) = total c ls - share c l + share c l'.
Proof.
  intros H. rewrite <- (take_drop_middle ls k l H) at 2. rewrite (insert_take_drop ls k l') by by eapply lookup_lt_Some.
  rewrite !adds_app. unfold total. cbn. lia.
Qed.

Lemma total_single c l : total c [l] = share c l.
Proof. unfold total. cbn. lia. Qed.

Lemma field_setField c c' v s : field c (setField c' v s) = if decide (c = c') then v else field c s.
Proof. by destruct c, c'. Qed.

Lemma loadCounter_add c c' n m : loadCounter c (addCounter c' n m) = if decide (c' = c) then i64 (loadCounter c m + n) else loadCounter c m.
Proof. by destruct c, c'. Qed.

Lemma average_bound d dOps : 0 <= d < 2 ^ 63 -> 0 <= average d dOps /\ (0 <= dOps -> average d dOps * dOps <= d).
Proof.
  intros Hd. unfold average. case_decide; [|lia]. pose proof (Z.quot_pos d dOps ltac:(lia) ltac:(lia)).
  assert (Z.quot d dOps <= d) by (apply Z.quot_le_upper_bound; nia). rewrite i64_small by (unfold is_i64; lia). pose proof (Z.mul_quot_le d dOps ltac:(lia) ltac:(lia)). lia.
Qed.

(** ** The account *)

(** The intervals [rs] printed between two snapshots: the operations and bytes
    add up exactly, the averages never account for more time than was
    measured, and no number is negative.  The average commit latency is 0
    because no call records one. *)
Record account (first prev : WriteStatsSnapshot) (rs : list report) : Prop := mkAccount {
  acc_first : forall c, 0 <= field c first <= field c prev;
  acc_ops : Ops first + sumZ (map interval_ops rs) = Ops prev;
  acc_bytes : Bytes_ first + sumZ (map interval_bytes rs) = Bytes_ prev;
  acc_nanos : Nanos first + sumZ (map (fun r => avgLatency r * interval_ops r) rs) <= Nanos prev;
  acc_alloc : AllocLatency first + sumZ (map (fun r => avgAllocLatency r * interval_ops r) rs) <= AllocLatency prev;
  acc_reports : Forall (fun r => 0 <= interval_ops r /\ 0 <= interval_bytes r /\ 0 <= avgLatency r /\ 0 <= avgAllocLatency r /\ avgBatchCommitLatency r = 0) rs }.

(** The snapshot the next interval starts from. *)
Definition lastSnapshot (s : statsys) : WriteStatsSnapshot :=
  match ss_reporter s with Waiting prev => prev | Snapping prev _ _ => default zeroSnapshot prev end.

Lemma account_start first : (forall c, 0 <= field c first) -> account first first [].
Proof. intros H. split; cbn; try lia; [|done]. intros c. specialize (H c). lia. Qed.

Lemma account_report first prev cur rs :
  account first prev rs -> (forall c, field c prev <= field c cur < 2 ^ 63) -> field CCommit cur = 0 ->
  account first cur (rs ++ [reportOf prev cur]).
Proof.
  intros [H1 H2 H3 H4 H5 H6] Hc H0.
  assert (Hd : forall c, i64 (field c cur - field c prev) = field c cur - field c prev).
  { intros c. apply i64_small. unfold is_i64. specialize (Hc c). specialize (H1 c). lia. }
  pose proof (Hd COps) as Eo. pose proof (Hd CBytes) as Eb. pose proof (Hd CNanos) as En. pose proof (Hd CAlloc) as Ea. pose proof (Hd CCommit) as Ec. cbn in *.
  pose proof (H1 COps) as F1. pose proof (H1 CBytes) as F2. pose proof (H1 CNanos) as F3. pose proof (H1 CAlloc) as F4. pose proof (H1 CCommit) as F5.
  pose proof (Hc COps) as G1. pose proof (Hc CBytes) as G2. pose proof (Hc CNanos) as G3. pose proof (Hc CAlloc) as G4. pose proof (Hc CCommit) as G5. cbn in *.
  set (dOps := i64 (Ops cur - Ops prev)) in *.
  destruct (average_bound (i64 (Nanos cur - Nanos prev)) dOps ltac:(lia)) as [A1 A2].
  destruct (average_bound (i64 (AllocLatency cur - AllocLatency prev)) dOps ltac:(lia)) as [A3 A4].
  assert (A5 : average (i64 (BatchCommitLatency cur - BatchCommitLatency prev)) dOps = 0).
  { rewrite Ec, H0. replace (0 - BatchCommitLatency prev) with 0 by lia. unfold average. case_decide; [|done]. by rewrite Z.quot_0_l by lia. }
  split; rewrite ?map_app, ?sumZ_app; unfold reportOf; fold dOps; cbn; try lia.
  - intros c. specialize (H1 c). specialize (Hc c). lia.
  - apply Forall_app. split; [done|]. apply Forall_singleton. cbn. lia.
Qed.

(** ** The invariant *)

(** Additions of non-negative numbers that leave the commit latency alone. *)
Definition plainAdds (l : list (counter * Z)) : Prop := Forall (fun x => 0 <= x.2 /\ (x.1 = CCommit -> x.2 = 0)) l.

Record stat_inv (s : statsys) : Prop := mkStatInv {
  si_plain : Forall plainAdds (ss_adds s);
  si_log : forall c, 0 <= total c (ss_log s);
  si_commit : total CCommit (ss_log s) = 0;
  si_todo : forall prev todo cur, ss_reporter s = Snapping prev todo cur -> prev = None -> ss_reports s = [] /\ ss_first s = zeroSnapshot;
  si_load : unwrapped s -> forall c, loadCounter c (ss_metrics s) = total c (ss_log s) - total c (ss_adds s);
  si_last : unwrapped s -> forall c, field c (lastSnapshot s) <= loadCounter c (ss_metrics s);
  si_cur : unwrapped s -> forall prev todo cur c, ss_reporter s = Snapping prev todo cur -> c ∉ todo ->
    field c (lastSnapshot s) <= field c cur <= loadCounter c (ss_metrics s);
  si_account : unwrapped s -> account (ss_first s) (lastSnapshot s) (ss_reports s) }.

Lemma plain_share c l : plainAdds l -> 0 <= share c l.
Proof.
  unfold plainAdds, share, sumZ. induction 1 as [|[c' n] l [Hn _] _ IH]; cbn in *; [lia|]. case_decide; lia.
Qed.

Lemma plain_total c ls : Forall plainAdds ls -> 0 <= total c ls.
Proof.
  unfold total, sumZ. induction 1 as [|l ls Hl _ IH]; cbn; [lia|]. pose proof (plain_share c l Hl). lia.
Qed.

Lemma flushStats_plain n d a : 0 <= n -> 0 <= d -> 0 <= a -> plainAdds (flushStats n d a).
Proof. intros. repeat constructor; cbn; lia || done. Qed.

Lemma statStart_inv : stat_inv statStart.
Proof.
  split; [done|done|done|by intros ??? [= <- <- <-] _|by intros _ []|by intros _ []|..].
  - intros _ prev todo cur c [= <- <- <-] []. destruct c; set_solver.
  - intros _. apply account_start. by intros [].
Qed.

Lemma share_cons c c' n l : share c ((c', n) :: l) = (if decide (c' = c) then n else 0) + share c l.
Proof. done. Qed.

(** A call or an addition: the reporter does not move, the counters grow. *)
Lemma inv_counters s m log adds :
  stat_inv s -> Forall plainAdds adds -> (forall c, total c (ss_log s) <= total c log) -> total CCommit log = 0 ->
  (unwrapped s -> (forall c, total c log < 2 ^ 63) -> forall c, loadCounter c (ss_metrics s) <= loadCounter c m /\ loadCounter c m = total c log - total c adds) ->
  stat_inv (mkStats m log adds (ss_reporter s) (ss_first s) (ss_reports s)).
Proof.
  intros [I1 I2 I3 I4 I5 I6 I7 I8] Hp Hg Hc Hm.
  assert (Hu : unwrapped (mkStats m log adds (ss_reporter s) (ss_first s) (ss_reports s)) -> unwrapped s).
  { intros H c. specialize (H c). specialize (Hg c). cbn in H. lia. }
  split; cbn; try done.
  - intros c. specialize (Hg c). specialize (I2 c). lia.
  - intros H c. by destruct (Hm (Hu H) H c).
  - intros H c. destruct (Hm (Hu H) H c). specialize (I6 (Hu H) c). unfold lastSnapshot in *. cbn. lia.
  - intros H prev todo cur c Hr Hin. destruct (Hm (Hu H) H c). specialize (I7 (Hu H) _ _ _ _ Hr Hin). unfold lastSnapshot in *. cbn. lia.
  - intros H. apply (I8 (Hu H)).
Qed.

Lemma stat_add_inv s k c n l : stat_inv s -> ss_adds s !! k = Some ((c, n) :: l) ->
  stat_inv (mkStats (addCounter c n (ss_metrics s)) (ss_log s) (<[k := l]> (ss_adds s)) (ss_reporter s) (ss_first s) (ss_reports s)).
Proof.
  intros HI Hk. pose proof (si_plain s HI) as Hp. pose proof (Forall_lookup_1 _ _ _ _ Hp Hk) as [[Hn _] Hl]%Forall_cons. cbn in Hn.
  assert (Hp' : Forall plainAdds (<[k := l]> (ss_adds s))) by by apply Forall_insert.
  apply inv_counters; [done|done|done|by apply si_commit|]. intros Hu _ c'.
  pose proof (si_load s HI Hu c') as E. pose proof (plain_total c' _ Hp') as Ht. rewrite (total_insert _ _ _ _ l Hk), share_cons in *.
  pose proof (si_log s HI c'). pose proof (Hu c'). pose proof (plain_total c' _ Hp).
  rewrite loadCounter_add. case_decide; [|lia]. assert (0 <= share c' l) by by apply plain_share.
  assert (total c' (ss_adds s) <= total c' (ss_log s)).
  { pose proof (si_account s HI Hu) as A. pose proof (acc_first _ _ _ A c'). pose proof (si_last s HI Hu c'). lia. }
  rewrite i64_small by (unfold is_i64; lia). lia.
Qed.

Lemma stat_step_inv s s' : stat_step s s' -> stat_inv s -> stat_inv s'.
Proof.
  intros Hs HI. destruct Hs as [s n d a Hn Hd Ha|s k c n l Hk|s prev c todo cur Hr|s cur Hr|s prev Hr|s prev cur Hr].
  - pose proof (flushStats_plain n d a Hn Hd Ha) as Hp.
    assert (E : forall c, total c (flushStats n d a :: ss_log s) = share c (flushStats n d a) + total c (ss_log s)) by done.
    apply inv_counters; [done|apply Forall_app; split; [apply HI|by apply Forall_singleton]|..].
    + intros c. rewrite E. pose proof (plain_share c _ Hp). lia.
    + rewrite E, (si_commit s HI). done.
    + intros Hu _ c. rewrite (si_load s HI Hu c), E, adds_app, total_single. lia.
  - by apply stat_add_inv.
  - destruct HI as [I1 I2 I3 I4 I5 I6 I7 I8]. unfold lastSnapshot in *. rewrite Hr in *.
    split; cbn; unfold lastSnapshot; cbn; try done.
    + intros prev' todo' cur' [= <- <- <-] ->. by eapply I4.
    + intros H prev' todo' cur' c' [= <- <- <-] Hc'. rewrite field_setField. specialize (I6 H c'). case_decide as Ec; [subst; lia|].
      apply (I7 H _ _ _ c' eq_refl). rewrite not_elem_of_cons. done.
  - destruct HI as [I1 I2 I3 I4 I5 I6 I7 I8]. unfold lastSnapshot in *. rewrite Hr in *. destruct (I4 _ _ _ eq_refl eq_refl) as [-> _].
    split; cbn; unfold lastSnapshot; cbn; try done.
    + intros H c. by destruct (I7 H _ _ _ c eq_refl ltac:(set_solver)).
    + intros H. apply account_start. intros c. destruct (I7 H _ _ _ c eq_refl ltac:(set_solver)) as [Hc _]. by destruct c.
  - destruct HI as [I1 I2 I3 I4 I5 I6 I7 I8]. unfold lastSnapshot in *. rewrite Hr in *.
    split; cbn; unfold lastSnapshot; cbn; try done.
    + congruence.
    + intros H prev' todo' cur' c [= <- <- <-] []. destruct c; set_solver.
  - destruct HI as [I1 I2 I3 I4 I5 I6 I7 I8]. unfold lastSnapshot in *. rewrite Hr in *. cbn in *.
    assert (Hc : unwrapped s -> forall c, field c prev <= field c cur <= loadCounter c (ss_metrics s)) by (intros H c; apply (I7 H _ _ _ c eq_refl); set_solver).
    split; cbn; unfold lastSnapshot; cbn; try done.
    + intros H c. by destruct (Hc H c).
    + intros H. specialize (Hc H). specialize (I8 H). specialize (I5 H).
      assert (Hl : forall c, loadCounter c (ss_metrics s) <= total c (ss_log s)) by (intros c; rewrite I5; pose proof (plain_total c _ I1); lia).
      apply account_report; [done| |].
      * intros c. specialize (Hc c). specialize (Hl c). specialize (H c). cbn in H. lia.
      * pose proof (Hc CCommit). specialize (Hl CCommit). pose proof (acc_first _ _ _ I8 CCommit). lia.
Qed.

(** A reporter that finds no call under way sees every call. *)
Lemma quiet_report s prev :
  stat_inv s -> unwrapped s -> Forall (eq []) (ss_adds s) -> ss_reporter s = Waiting prev ->
  exists s', rtc stat_step s s' /\ ss_log s' = ss_log s /\ ss_first s' = ss_first s /\
    ss_reports s' = ss_reports s ++ [reportOf prev (lastSnapshot s')] /\ forall c, field c (lastSnapshot s') = total c (ss_log s).
Proof.
  intros HI Hu Hq Hr. eexists. split; [|split; [|split; [|split]]].
  - eapply rtc_l; [by apply stat_tick|]. do 5 (eapply rtc_l; [by eapply stat_load|]). eapply rtc_once. by eapply stat_report.
  - done.
  - done.
  - done.
  - assert (H0 : forall c, total c (ss_adds s) = 0).
    { intros c. induction Hq as [|? ls <- _ IH]; [done|]. rewrite (adds_app c [[]] ls : total c ([] :: ls) = _), total_single, IH. done. }
    intros c. rewrite <- (Z.sub_0_r (total c _)), <- (H0 c), <- (si_load s HI Hu c). by destruct c.
Qed.

(** C29: While no counter has overflowed, whatever the interleaving of the
    flush goroutines' additions with the reporter's loads, the printed
    intervals keep the account: from the first snapshot to the last one the
    printed operations and bytes add up exactly, the printed averages times
    the printed operations never exceed the measured time, no printed number is
    negative and the printed commit latency is always 0; the last snapshot
    never exceeds what was recorded; and when no call is under way the next
    report brings it level with everything recorded. *)
Theorem stats_account s :
  rtc stat_step statStart s -> unwrapped s ->
  account (ss_first s) (lastSnapshot s) (ss_reports s) /\
  (forall c, field c (lastSnapshot s) <= total c (ss_log s)) /\
  forall prev, Forall (eq []) (ss_adds s) -> ss_reporter s = Waiting prev ->
    exists s', rtc stat_step s s' /\ ss_log s' = ss_log s /\ ss_first s' = ss_first s /\
      ss_reports s' = ss_reports s ++ [reportOf prev (lastSnapshot s')] /\ forall c, field c (lastSnapshot s') = total c (ss_log s).
Proof.
  intros Hs Hu. assert (HI : stat_inv s) by (revert Hs; apply rtc_ind_r; [apply statStart_inv|intros; by eapply stat_step_inv]).
  split; [by apply HI|split; [|by intros; apply quiet_report]]. intros c.
  pose proof (si_last s HI Hu c). rewrite (si_load s HI Hu c) in *. pose proof (plain_total c _ (si_plain s HI)). lia.
Qed.

(** ** Witness: a snapshot in the middle of a call

    The first report has one operation and none of its bytes; the second has
    the bytes of both. *)

Definition tornMetrics : writeMetrics := mkMetrics 2 4100 60 30 0.
Definition tornReports : list report := [mkReport 1 0 0 0 0; mkReport 1 4100 60 30 0].
Definition tornState : statsys :=
  mkStats tornMetrics [flushStats 4 10 20; flushStats 4096 50 10] [[]; []] (Waiting (mkSnapshot 2 4100 60 30 0)) zeroSnapshot tornReports.

(** One step of a concrete run, the state it leads to evaluated. *)
Ltac stat_run tac :=
  eapply rtc_l; [tac; (reflexivity || lia)|];
  match goal with |- rtc _ ?x _ => let y := eval vm_compute in x in change x with y end.

Lemma tornState_reached : rtc stat_step statStart tornState.
Proof.
  do 5 stat_run ltac:(eapply stat_load). stat_run ltac:(eapply stat_first).
  stat_run ltac:(apply (stat_call _ 4096 50 10)). stat_run ltac:(eapply (stat_add _ 0)).
  stat_run ltac:(eapply stat_tick). do 5 stat_run ltac:(eapply stat_load). stat_run ltac:(eapply stat_report).
  do 4 stat_run ltac:(eapply (stat_add _ 0)). stat_run ltac:(apply (stat_call _ 4 10 20)). do 5 stat_run ltac:(eapply (stat_add _ 1)).
  stat_run ltac:(eapply stat_tick). do 5 stat_run ltac:(eapply stat_load). stat_run ltac:(eapply stat_report). apply rtc_refl.
Qed.

Lemma stats_account_witness :
  unwrapped tornState /\ account zeroSnapshot (mkSnapshot 2 4100 60 30 0) tornReports /\
  exists s', rtc stat_step tornState s' /\ forall c, field c (lastSnapshot s') = total c (ss_log tornState).
Proof.
  assert (Hu : unwrapped tornState) by (intros []; vm_compute; reflexivity).
  destruct (stats_account tornState tornState_reached Hu) as (HA & _ & Hq). split; [exact Hu|]. split; [exact HA|].
  destruct (Hq _ ltac:(repeat constructor) eq_refl) as (s' & H1 & _ & _ & _ & H2). exists s'. split; assumption.
Defined.
