(* ===== verification/CommandText.v ===== *)
(** * Sizes and process times of the commands

    [parseSize] of [cmd/aio_upload_client] and [cmd/aio_channel_bench], which
    have the same text, and [processCPUNanos] of the latter.  Numbers are
    IEEE 754 doubles as the standard library specifies them ([SpecFloat]);
    [strconv.ParseFloat] is a class with the law that plain digits give the
    nearest double.  [parseSize] ranges over a Go map, in any order. *)

From stdpp Require Import base decidable list numbers option strings.
From Stdlib Require Import ZArith Lia SpecFloat.
From S2P Require Import Prelude Words Bytes Moss SpaceBitmap Pebble GoStrings DeviceScan DeviceScanThms GoText BlockDevice BlockDeviceSpec IoBench.

(** ** Doubles *)

Definition float64 : Type := spec_float.

(** [float64(n)]. *)
Definition f64Of (n : Z) : float64 := binary_normalize 53 1024 n 0 false.
Definition f64mul : float64 -> float64 -> float64 := SFmul 53 1024.

(** [int64(f)] truncates; out of range the result depends on the machine. *)
Class Conversions := outOfRange : float64 -> Z.

Definition truncate (f : float64) : option Z :=
  match f with
  | S754_zero _ => Some 0
  | S754_finite sg m e =>
      let t := if 0 <=? e then Zpos m * 2 ^ e else Zpos m / 2 ^ (- e) in
      Some (if sg then - t else t)
  | _ => None
  end.

Definition toInt64 `{CV : Conversions} (f : float64) : Z :=
  match truncate f with
  | Some t => if (- 2 ^ 63 <=? t) && (t <? 2 ^ 63) then t else outOfRange f
  | None => outOfRange f
  end.

Class FloatParser := ParseFloat : bytes -> error + float64.

Class FloatParserLaws (FP : FloatParser) :=
  parse_digits : forall s n, digitsValue 10 s = Some n -> n < 2 ^ 53 -> ParseFloat s = inr (f64Of n).

(** ** [parseSize] *)

Definition sizeUnits : list (bytes * Z) :=
  [(bs "kb", 1000); (bs "mb", 1000 * 1000); (bs "gb", 1000 * 1000 * 1000); (bs "k", 1024); (bs "m", 1024 * 1024); (bs "g", 1024 * 1024 * 1024)].

Definition hasSuffix (s suf : bytes) : bool := hasPrefix (rev s) (rev suf).

(** The loop over the map, whose iteration order is [order]. *)
Fixpoint stripUnit (order : list (bytes * Z)) (s : bytes) : bytes * Z :=
  match order with
  | [] => (s, 1)
  | (suffix, mul) :: order =>
      if hasSuffix s suffix then (TrimSpace (take (length s - length suffix) s), mul) else stripUnit order s
  end.

Definition isNaNOrInf (f : float64) : bool := match f with S754_nan | S754_infinity _ => true | _ => false end.

(** The input is ASCII text, as for [asciiLower]. *)
Definition parseSize `{CV : Conversions} `{FP : FloatParser} (order : list (bytes * Z)) (input : bytes) : error + Z :=
  let s := TrimSpace (asciiLower input) in
  match s with
  | [] => inl "empty size"%string
  | _ =>
      let '(s, multiplier) := stripUnit order s in
      match ParseFloat s with
      | inl e => inl e
      | inr value =>
          if SFleb value (S754_zero false) || isNaNOrInf value then inl "invalid size"%string
          else inr (toInt64 (f64mul value (f64Of multiplier)))
      end
  end.

(** The benchmark has a copy of the function. *)
Definition bench_parseSize `{CV : Conversions} `{FP : FloatParser} : list (bytes * Z) -> bytes -> error + Z := parseSize.

(** ** [processCPUNanos] *)

(** [strings.LastIndex(s, ")")], counted from the end. *)
Fixpoint afterLast (c : Z) (s : bytes) : option bytes :=
  match s with
  | [] => None
  | x :: s => match afterLast c s with Some t => Some t | None => if x =? c then Some s else None end
  end.

(** [ParseUint(s, 10, 64)]. *)
Definition ParseUint (s : bytes) : option Z := n ← digitsValue 10 s; if n <? 2 ^ 64 then Some n else None.

(** [raw] is what reading [/proc/self/stat] gave; a zero [clockTicks] would
    panic. *)
Definition processCPUNanos (raw : option bytes) (clockTicks : Z) : option (Z * bool) :=
  match raw with
  | None => Some (0, false)
  | Some text =>
      match afterLast 41 text with
      | Some (_ :: x :: rest) =>
          let fields := Fields (x :: rest) in
          if (length fields <? 13)%nat then Some (0, false)
          else
            match ParseUint (nth 11 fields []), ParseUint (nth 12 fields []) with
            | Some utime, Some stime =>
                if u64 clockTicks =? 0 then None
                else Some (u64 (u64 (utime + stime) * 1000000000) / u64 clockTicks, true)
            | _, _ => Some (0, false)
            end
      | _ => Some (0, false)
      end
  end.

(** ** Exact arithmetic on small integers *)

Lemma digits2_log2 p : Zpos (digits2_pos p) = Z.log2 (Zpos p) + 1.
Proof.
  induction p as [p IH|p IH|]; cbn [digits2_pos]; [| |done]; rewrite Pos2Z.inj_succ, IH.
  - rewrite (Pos2Z.inj_xI p), Z.log2_succ_double by lia. lia.
  - rewrite (Pos2Z.inj_xO p), Z.log2_double by lia. lia.
Qed.

Lemma pow_xO p : 2 ^ Zpos p~0 = 2 ^ Zpos p * 2 ^ Zpos p.
Proof. rewrite <- Z.pow_add_r by lia. f_equal. lia. Qed.

Lemma pow_xI p : 2 ^ Zpos p~1 = 2 * (2 ^ Zpos p * 2 ^ Zpos p).
Proof. rewrite <- Z.pow_add_r, <- Z.pow_succ_r by lia. f_equal. lia. Qed.

(** Shifting out zeros is exact. *)
Lemma iter_shr p : forall a, 0 < a -> iter_pos shr_1 p (Build_shr_record (a * 2 ^ Zpos p) false false) = Build_shr_record a false false.
Proof.
  induction p as [p IH|p IH|]; intros a Ha; cbn [iter_pos].
  - rewrite pow_xI. replace (a * (2 * (2 ^ Zpos p * 2 ^ Zpos p))) with (2 * (a * 2 ^ Zpos p * 2 ^ Zpos p)) by ring.
    pose proof (Z.pow_pos_nonneg 2 (Zpos p) ltac:(lia) ltac:(lia)).
    assert (E : shr_1 (Build_shr_record (2 * (a * 2 ^ Zpos p * 2 ^ Zpos p)) false false) = Build_shr_record (a * 2 ^ Zpos p * 2 ^ Zpos p) false false)
      by (destruct (a * 2 ^ Zpos p * 2 ^ Zpos p) eqn:E; [nia|done|nia]).
    rewrite E, !IH by nia. done.
  - pose proof (Z.pow_pos_nonneg 2 (Zpos p) ltac:(lia) ltac:(lia)). rewrite pow_xO, Z.mul_assoc, !IH by nia. done.
  - rewrite Z.pow_1_r, Z.mul_comm. destruct a; [lia|done|lia].
Qed.

(** The exponent range of the numbers below. *)
Lemma fexp_normal x : -1021 <= x -> fexp 53 1024 x = x - 53.
Proof. unfold fexp, SpecFloat.emin. lia. Qed.

Lemma Zdigits2_log2 m : 0 < m -> Zdigits2 m = Z.log2 m + 1.
Proof. destruct m as [|p|p]; [lia| |lia]. intros _. apply digits2_log2. Qed.

Lemma shift_exact a s e : 0 < a -> 0 <= s -> shr (Build_shr_record (a * 2 ^ s) false false) e s = (Build_shr_record a false false, e + s).
Proof. intros Ha Hs. destruct s as [|p|p]; [by rewrite Z.mul_1_r, Z.add_0_r| |lia]. unfold shr. by rewrite iter_shr. Qed.

(** A number of at most 53 significant bits, with its zeros shifted out. *)
Lemma shr_fexp_exact a s e :
  0 < a < 2 ^ 53 -> 0 <= s -> (s = 0 \/ Z.log2 a = 52) -> -900 <= e ->
  shr_fexp 53 1024 (a * 2 ^ s) e loc_Exact = (Build_shr_record a false false, e + s).
Proof.
  intros Ha Hs Hl He. pose proof (Z.log2_nonneg a). assert (Z.log2 a < 53) by (apply Z.log2_lt_pow2; lia).
  assert (Hlm : Z.log2 (a * 2 ^ s) = Z.log2 a + s) by (rewrite Z.log2_mul_pow2; lia).
  assert (Hpos : 0 < a * 2 ^ s) by (apply Z.mul_pos_pos; [lia|apply Z.pow_pos_nonneg; lia]).
  unfold shr_fexp. rewrite Zdigits2_log2, fexp_normal, Hlm by (rewrite ?Hlm; lia). cbn [shr_record_of_loc].
  replace (Z.log2 a + s + 1 + e - 53 - e) with (Z.log2 a + s - 52) by lia.
  destruct Hl as [->|Hl]; [|rewrite Hl; replace (52 + s - 52) with s by lia; apply shift_exact; lia].
  rewrite Z.mul_1_r, !Z.add_0_r. destruct (Z.log2 a - 52) eqn:Ed; [done|lia|done].
Qed.

Lemma round_exact a s e :
  0 < a < 2 ^ 53 -> 0 <= s -> (s = 0 \/ Z.log2 a = 52) -> -900 <= e -> e + s <= 900 ->
  binary_round_aux 53 1024 false (a * 2 ^ s) e loc_Exact = S754_finite false (Z.to_pos a) (e + s).
Proof.
  intros Ha Hs Hl He1 He2. unfold binary_round_aux. rewrite shr_fexp_exact by done. cbn [shr_m loc_of_shr_record round_nearest_even].
  pose proof (shr_fexp_exact a 0 (e + s) Ha) as E. rewrite Z.mul_1_r, Z.add_0_r in E. rewrite E by (lia || by left). cbn [shr_m].
  destruct a as [|p|p]; [lia| |lia]. by rewrite (proj2 (Z.leb_le (e + s) _)) by lia.
Qed.

(** The 53-bit mantissa of an integer. *)
Definition mantissa (n : Z) : Z := n * 2 ^ (52 - Z.log2 n).

Lemma mantissa_bits n : 0 < n < 2 ^ 53 -> 0 <= Z.log2 n <= 52 /\ 0 < mantissa n < 2 ^ 53 /\ Z.log2 (mantissa n) = 52.
Proof.
  intros Hn. assert (Hl : 0 <= Z.log2 n <= 52) by (split; [apply Z.log2_nonneg|]; assert (Z.log2 n < 53) by (apply Z.log2_lt_pow2; lia); lia).
  assert (Hm : Z.log2 (mantissa n) = 52) by (unfold mantissa; rewrite Z.log2_mul_pow2; lia).
  assert (0 < mantissa n) by (apply Z.mul_pos_pos; [lia|apply Z.pow_pos_nonneg; lia]). split; [done|]. split; [split; [done|]|done].
  apply Z.log2_lt_pow2; [done|]. lia.
Qed.

Lemma f64Of_exact n : 0 < n < 2 ^ 53 -> f64Of n = S754_finite false (Z.to_pos (mantissa n)) (Z.log2 n - 52).
Proof.
  intros Hn. destruct (mantissa_bits n Hn) as (Hl & Hm & Hlm). destruct n as [|p|p]; [lia| |lia]. unfold f64Of. cbn [binary_normalize].
  unfold binary_round. rewrite digits2_log2, fexp_normal by lia.
  assert (E : shl_align p 0 (Z.log2 (Zpos p) + 1 + 0 - 53) = (Z.to_pos (mantissa (Zpos p)), Z.log2 (Zpos p) - 52)).
  { unfold shl_align, mantissa. replace (Z.log2 (Zpos p) + 1 + 0 - 53 - 0) with (Z.log2 (Zpos p) - 52) by lia.
    destruct (Z.log2 (Zpos p) - 52) as [|q|q] eqn:Ed; [|lia|].
    - replace (52 - Z.log2 (Zpos p)) with 0 by lia. by rewrite Z.mul_1_r.
    - replace (52 - Z.log2 (Zpos p)) with (Zpos q) by lia. f_equal; [|lia]. rewrite <- Pos2Z.inj_pow, <- Pos2Z.inj_mul. cbn [Z.to_pos].
      clear. induction q as [|q IH] using Pos.peano_ind; [cbn; lia|]. rewrite Pos.iter_succ, IH, Pos.pow_succ_r. lia. }
  rewrite E. rewrite Z2Pos.id by lia. rewrite <- (Z.mul_1_r (mantissa (Zpos p))). change 1 with (2 ^ 0) at 1.
  rewrite round_exact by (lia || by left). change (2 ^ 0) with 1. rewrite Z.mul_1_r. f_equal. lia.
Qed.

Lemma f64mul_exact a b : 0 < a -> 0 < b -> a * b < 2 ^ 53 -> f64mul (f64Of a) (f64Of b) = f64Of (a * b).
Proof.
  intros Ha Hb Hab. assert (Ha' : 0 < a < 2 ^ 53) by nia. assert (Hb' : 0 < b < 2 ^ 53) by nia. assert (Hab' : 0 < a * b < 2 ^ 53) by nia.
  rewrite !f64Of_exact by done. destruct (mantissa_bits a Ha') as (La & Ma & _). destruct (mantissa_bits b Hb') as (Lb & Mb & _).
  destruct (mantissa_bits (a * b) Hab') as (Lab & Mab & Hlm). pose proof (Z.log2_mul_below a b Ha Hb).
  unfold f64mul, SFmul. rewrite Pos2Z.inj_mul, !Z2Pos.id by lia. cbn [xorb].
  set (s := Z.log2 (a * b) + 52 - Z.log2 a - Z.log2 b).
  assert (E : mantissa a * mantissa b = mantissa (a * b) * 2 ^ s).
  { unfold mantissa. replace (a * 2 ^ (52 - Z.log2 a) * (b * 2 ^ (52 - Z.log2 b))) with (a * b * (2 ^ (52 - Z.log2 a) * 2 ^ (52 - Z.log2 b))) by ring.
    rewrite <- (Z.mul_assoc (a * b) (2 ^ (52 - Z.log2 (a * b)))), <- !Z.pow_add_r by (unfold s; lia). f_equal. f_equal. unfold s. lia. }
  rewrite E, round_exact by (unfold s; lia || by right). f_equal. unfold s. lia.
Qed.

Lemma truncate_exact n : 0 < n < 2 ^ 53 -> truncate (f64Of n) = Some n.
Proof.
  intros Hn. rewrite f64Of_exact by done. destruct (mantissa_bits n Hn) as (Hl & Hm & _). unfold truncate. rewrite Z2Pos.id by lia. f_equal.
  destruct (0 <=? Z.log2 n - 52) eqn:E; bool_norm.
  - replace (Z.log2 n - 52) with 0 by lia. unfold mantissa. replace (52 - Z.log2 n) with 0 by lia. by rewrite !Z.mul_1_r.
  - unfold mantissa. replace (- (Z.log2 n - 52)) with (52 - Z.log2 n) by lia. apply Z.div_mul. apply Z.pow_nonzero; lia.
Qed.

(** ** Units *)

(** A text ends in at most one of the units. *)
Lemma units_unique s u1 m1 u2 m2 :
  (u1, m1) ∈ sizeUnits -> (u2, m2) ∈ sizeUnits -> hasSuffix s u1 = true -> hasSuffix s u2 = true -> (u1, m1) = (u2, m2).
Proof.
  unfold sizeUnits, hasSuffix. rewrite !elem_of_cons, !elem_of_nil.
  intros H1 H2. destruct_or!; simplify_eq; try done; destruct (rev s) as [|c1 [|c2 r]]; cbn; try done; intros; bool_norm; lia.
Qed.

Lemma stripUnit_none order s : (forall u m, (u, m) ∈ order -> hasSuffix s u = false) -> stripUnit order s = (s, 1).
Proof.
  induction order as [|[u m] order IH]; intros H; cbn [stripUnit]; [done|]. rewrite (H u m) by (by left). apply IH. intros u' m' Hin. apply (H u' m'). by right.
Qed.

Lemma stripUnit_one order s u m :
  (u, m) ∈ order -> hasSuffix s u = true -> (forall u' m', (u', m') ∈ order -> hasSuffix s u' = true -> (u', m') = (u, m)) ->
  stripUnit order s = (TrimSpace (take (length s - length u) s), m).
Proof.
  induction order as [|[u' m'] order IH]; intros Hin Hs Hu; [by apply not_elem_of_nil in Hin|]. cbn [stripUnit]. destruct (hasSuffix s u') eqn:E.
  - assert (H : (u', m') = (u, m)) by (apply Hu; [by left|done]). by injection H as -> ->.
  - apply elem_of_cons in Hin as [[= -> ->]|Hin]; [by rewrite Hs in E|]. apply IH; [done..|]. intros. apply Hu; [by right|done].
Qed.

(** The order of the map does not matter. *)
Lemma stripUnit_order order s : order ≡ₚ sizeUnits -> stripUnit order s = stripUnit sizeUnits s.
Proof.
  intros P. assert (Hin : forall x, x ∈ order <-> x ∈ sizeUnits) by (intros x; by rewrite P).
  destruct (existsb (fun x => hasSuffix s x.1) sizeUnits) eqn:E.
  - apply existsb_exists in E as ([u m] & Hu%list_elem_of_In & Hs).
    rewrite !(stripUnit_one _ s u m); try done; [by intros; eapply units_unique|by apply Hin|intros u' m' H%Hin Hs'; by eapply units_unique].
  - assert (Hno : forall u m, (u, m) ∈ sizeUnits -> hasSuffix s u = false).
    { intros u m Hu. destruct (hasSuffix s u) eqn:Es; [|done]. rewrite <- E. symmetry. apply existsb_exists. exists (u, m). by rewrite <- list_elem_of_In. }
    rewrite !stripUnit_none; [done|done|]. intros u m H%Hin. by apply (Hno u m).
Qed.

(** ** Spaces around a text *)

(** An ASCII character that is no space. *)
Definition plain (c : Z) : bool := (c <? 128) && negb (asciiSpace c).

Lemma plain_width c s : plain c = true -> spaceWidth (c :: s) = 0%nat /\ spaceWidthRev (c :: s) = 0%nat.
Proof.
  unfold plain. intros [Hc Hs]%andb_true_iff. apply Z.ltb_lt in Hc. apply negb_true_iff in Hs. unfold spaceWidth, spaceWidthRev. rewrite Hs.
  assert (H2 : forall x y, space2 x c = false /\ space2 c x = false /\ space3 c x y = false /\ space3 x y c = false).
  { intros x y. unfold space2, space3. repeat split; apply not_true_is_false; intros H; bool_norm; lia. }
  destruct s as [|x [|y s]]; try done; destruct (H2 x 0) as (-> & -> & _); try done. destruct (H2 x y) as (_ & _ & -> & _). destruct (H2 y x) as (_ & _ & _ & ->). done.
Qed.

Lemma drop_spaces width pre s :
  (forall c t, asciiSpace c = true -> width (c :: t) = 1%nat) -> forallb asciiSpace pre = true -> width s = 0%nat -> dropSpaces width 0 (pre ++ s) = s.
Proof.
  intros Hw Hp H0. induction pre as [|c pre IH]; cbn [app].
  - destruct s as [|c s]; [done|]. cbn [dropSpaces]. by rewrite H0.
  - apply andb_true_iff in Hp as [Hc Hp]. cbn [dropSpaces]. rewrite Hw by done. by apply IH.
Qed.

Lemma forallb_rev {A} (f : A -> bool) l : forallb f (rev l) = forallb f l.
Proof. induction l as [|x l IH]; [done|]. cbn [rev forallb]. rewrite forallb_app, IH. cbn. by rewrite andb_true_r, andb_comm. Qed.

Lemma trim_plain pre a s b post :
  forallb asciiSpace pre = true -> forallb asciiSpace post = true -> plain a = true -> plain b = true ->
  last (a :: s) = Some b -> TrimSpace (pre ++ (a :: s) ++ post) = a :: s.
Proof.
  intros Hpre Hpost Ha Hb Hl. unfold TrimSpace. rewrite drop_spaces; [|by intros c t Hc; unfold spaceWidth; rewrite Hc|done|by apply plain_width].
  rewrite rev_app_distr, drop_spaces; [by rewrite rev_involutive|by intros c t Hc; unfold spaceWidthRev; rewrite Hc|by rewrite forallb_rev|].
  apply last_Some in Hl as [l ->]. rewrite rev_app_distr. cbn. by apply plain_width.
Qed.

(** ** Sizes *)

Lemma hasPrefix_app p s : hasPrefix (p ++ s) p = true.
Proof. induction p as [|c p IH]; [by destruct s|]. cbn. by rewrite Z.eqb_refl. Qed.

Lemma hasSuffix_app s suf : hasSuffix (s ++ suf) suf = true.
Proof. unfold hasSuffix. rewrite rev_app_distr. apply hasPrefix_app. Qed.

(** Digits are neither letters nor spaces. *)
Lemma digits_plain ds n : digitsValue 10 ds = Some n ->
  asciiLower ds = ds /\ exists a s b, ds = a :: s /\ last ds = Some b /\ plain a = true /\ plain b = true /\ (48 <= b <= 57).
Proof.
  unfold digitsValue. destruct ds as [|a s]; [done|]. destruct (forallb (digitIn 10) (a :: s)) eqn:E; [|done]. intros _. rewrite forallb_forall in E.
  assert (Hd : forall c, c ∈ a :: s -> 48 <= c <= 57) by (intros c Hc%list_elem_of_In%E; unfold digitIn in Hc; bool_norm; lia).
  assert (Hp : forall c, c ∈ a :: s -> plain c = true).
  { intros c Hc%Hd. unfold plain, asciiSpace. apply andb_true_iff. split; [by apply Z.ltb_lt; lia|]. apply negb_true_iff, not_true_is_false. intros H. bool_norm. lia. }
  split.
  - unfold asciiLower. rewrite <- (map_id (a :: s)) at 2. apply map_ext_in. intros c Hc%list_elem_of_In%Hd. case_bool; [lia|done].
  - destruct (last (a :: s)) as [b|] eqn:El; [|by apply last_None in El]. assert (b ∈ a :: s) by (apply last_Some in El as [l ->]; apply elem_of_app; right; by left).
    exists a, s, b. split_and!; try done; try (by apply Hp); [by apply Hp; left|by apply Hd|by apply Hd].
Qed.

Lemma spaces_lower s : forallb asciiSpace s = true -> asciiLower s = s.
Proof.
  intros H. rewrite forallb_forall in H. unfold asciiLower. rewrite <- (map_id s) at 2. apply map_ext_in. intros c Hc%H. unfold asciiSpace in Hc. case_bool; [|done]. bool_norm. lia.
Qed.

Lemma unit_last u m : (u, m) ∈ sizeUnits -> exists b, last u = Some b /\ plain b = true.
Proof. unfold sizeUnits. rewrite !elem_of_cons, elem_of_nil. intros H. destruct_or!; simplify_eq; try done; by eexists. Qed.

Lemma digit_no_unit s b : last s = Some b -> 48 <= b <= 57 -> forall u m, (u, m) ∈ sizeUnits -> hasSuffix s u = false.
Proof.
  intros [l ->]%last_Some Hb u m Hu. unfold hasSuffix. rewrite rev_app_distr. unfold sizeUnits in Hu. rewrite !elem_of_cons, elem_of_nil in Hu.
  destruct_or!; simplify_eq; try done; cbn; by rewrite (proj2 (Z.eqb_neq b _)) by lia.
Qed.

Section sizes.
Context `{CV : Conversions} {FP : FloatParser} `{FL : !FloatParserLaws FP}.

Lemma parse_value n mul : 0 < n -> 0 < mul -> n * mul < 2 ^ 53 ->
  (if SFleb (f64Of n) (S754_zero false) || isNaNOrInf (f64Of n) then inl "invalid size"%string else inr (toInt64 (f64mul (f64Of n) (f64Of mul)))) = inr (A := error) (n * mul).
Proof.
  intros Hn Hm Hb. rewrite f64mul_exact by done. assert (n < 2 ^ 53) by nia. rewrite (f64Of_exact n) by lia. cbn.
  unfold toInt64. rewrite truncate_exact by nia. by rewrite (proj2 (Z.leb_le _ (n * mul))), (proj2 (Z.ltb_lt (n * mul) _)) by nia.
Qed.

(** A size with a unit.  Whatever the order in which Go iterates over the map
    of units, [parseSize] gives the same result; and a number of digits, with
    a unit in upper or lower case or none, and spaces around both, is taken as
    the exact product while that is below 2^53. *)
Theorem parseSize_exact order :
  order ≡ₚ sizeUnits ->
  (forall input, parseSize order input = parseSize sizeUnits input) /\
  forall pre ds mid unit post n mul,
    forallb asciiSpace (pre ++ mid ++ post) = true -> digitsValue 10 ds = Some n -> (asciiLower unit, mul) ∈ ([], 1) :: sizeUnits ->
    0 < n -> n * mul < 2 ^ 53 -> parseSize order (pre ++ ds ++ mid ++ unit ++ post) = inr (n * mul).
Proof.
  intros P. split; [intros input; unfold parseSize; by rewrite (stripUnit_order _ _ P)|].
  intros pre ds mid unit post n mul Hsp Hd Hu Hn Hb. rewrite !forallb_app in Hsp. apply andb_true_iff in Hsp as [Hpre [Hmid Hpost]%andb_true_iff].
  destruct (digits_plain ds n Hd) as (Hlow & a & s & b & Ed & Hl & Ha & Hpb & Hbd).
  unfold parseSize, asciiLower. cbv zeta. rewrite !map_app. fold (asciiLower pre) (asciiLower ds) (asciiLower mid) (asciiLower unit) (asciiLower post).
  rewrite Hlow, (spaces_lower pre), (spaces_lower mid), (spaces_lower post) by done. apply elem_of_cons in Hu as [[= Eu Em]|Hu].
  - rewrite Eu, app_nil_l. subst mul. replace (TrimSpace (pre ++ ds ++ mid ++ post)) with ds
      by (rewrite Ed; symmetry; eapply trim_plain; [done|by rewrite forallb_app, Hmid|done|exact Hpb|by rewrite <- Ed]).
    rewrite (stripUnit_order _ _ P), (stripUnit_none sizeUnits ds) by by eapply digit_no_unit. rewrite (parse_digits ds n Hd) by lia.
    rewrite Ed at 1. apply parse_value; lia.
  - set (u := asciiLower unit) in *. destruct (unit_last u mul Hu) as (c & Hc & Hpc).
    assert (Hm0 : 0 < mul) by (clear -Hu; unfold sizeUnits in Hu; rewrite !elem_of_cons, elem_of_nil in Hu; destruct_or!; simplify_eq; lia).
    replace (TrimSpace (pre ++ ds ++ mid ++ u ++ post)) with ((ds ++ mid) ++ u).
    2:{ symmetry. rewrite Ed, <- !app_assoc. rewrite (app_assoc mid u post), (app_assoc (a :: s)). cbn [app]. eapply trim_plain; [done..|exact Hpc|].
        rewrite app_comm_cons, app_assoc, last_app, Hc. done. }
    rewrite (stripUnit_order _ _ P), (stripUnit_one sizeUnits _ u mul); [|done|apply hasSuffix_app|intros; eapply units_unique; [done..|apply hasSuffix_app]].
    replace (take _ _) with (ds ++ mid) by (rewrite length_app, take_app_length' by lia; done).
    replace (TrimSpace (ds ++ mid)) with ds by (rewrite Ed; symmetry; apply (trim_plain [] a s b mid); try done; by rewrite <- Ed).
    rewrite (parse_digits ds n Hd) by nia. rewrite Ed at 1. cbn [app]. by apply parse_value.
Qed.
End sizes.

(** ** Process times *)

Lemma afterLast_app c s rest : c ∉ rest -> afterLast c (s ++ c :: rest) = Some rest.
Proof.
  intros Hn. assert (H0 : afterLast c rest = None).
  { induction rest as [|x rest IH]; [done|]. apply not_elem_of_cons in Hn as [Hx Hn]. cbn [afterLast]. rewrite IH by done. by rewrite (proj2 (Z.eqb_neq x c)). }
  induction s as [|x s IH]; cbn [app afterLast]; [by rewrite H0, Z.eqb_refl|by rewrite IH].
Qed.

Lemma noSpace_newline t cur : noSpace t = true -> fieldsFrom 0 (t ++ [10]) cur = match cur ++ t with [] => [] | tok => [tok] end.
Proof.
  revert cur. induction t as [|c t IH]; intros cur Ht; [rewrite app_nil_r; by destruct cur|].
  apply noSpace_cons in Ht as H. destruct H as [H1 H2]. cbn [app fieldsFrom]. replace (spaceWidth (c :: t ++ [10])) with 0%nat; [by rewrite IH, <- app_assoc by done|].
  symmetry. clear IH H2. destruct t as [|x [|y t]]; cbn in *; repeat case_bool; try done; exfalso; unfold space2, space3 in *; bool_norm;
    repeat match goal with H : _ \/ _ |- _ => destruct H end; bool_norm; lia.
Qed.

(** The fields of a line. *)
Lemma Fields_line toks : toks <> [] -> Forall token toks -> Fields (joinWith [32] toks ++ [10]) = toks.
Proof.
  unfold Fields. intros Hne. induction 1 as [|t toks [Ht Hs] HF IH]; [done|]. destruct toks as [|t2 toks].
  - cbn [joinWith]. rewrite noSpace_newline by done. cbn. by destruct t.
  - rewrite joinWith_cons, <- app_assoc. cbn [app]. rewrite fields_token by done. cbn [app]. rewrite IH by done. by destruct t.
Qed.

Lemma digitsValue_decimal fuel n : 0 <= n < 10 ^ Z.of_nat (S fuel) -> digitsValue 10 (decimal (S fuel) n) = Some n.
Proof.
  intros Hn. assert (Hd : forall f m, 0 <= m -> forallb (digitIn 10) (decimal f m) = true).
  { induction f as [|f IH]; intros m Hm; [done|]. cbn [decimal]. rewrite forallb_app. apply andb_true_iff. split.
    - case_bool; [done|]. apply IH. dlia.
    - cbn. unfold digitIn. rewrite andb_true_r. apply andb_true_iff. rewrite Z.leb_le, Z.ltb_lt. dlia. }
  unfold digitsValue. rewrite Hd by lia. pose proof (undecimal_decimal (S fuel) n Hn) as E. unfold undecimal in E. rewrite E.
  destruct (decimal (S fuel) n) eqn:Ed; [|done]. cbn [decimal] in Ed. by apply app_nil in Ed as [_ Ed].
Qed.

Lemma ParseUint_Format n : 0 <= n < 2 ^ 64 -> ParseUint (FormatUint n) = Some n.
Proof.
  intros Hn. unfold ParseUint, FormatUint. rewrite digitsValue_decimal by (change (10 ^ Z.of_nat 20) with 100000000000000000000; lia). cbn.
  by rewrite (proj2 (Z.ltb_lt n _)) by lia.
Qed.

Lemma join_in c toks : c ∈ joinWith [32] toks -> c = 32 \/ exists t, t ∈ toks /\ c ∈ t.
Proof.
  induction toks as [|t toks IH]; [by intros ?%not_elem_of_nil|]. destruct toks as [|t2 toks].
  - cbn [joinWith]. intros H. right. exists t. split; [by left|done].
  - rewrite joinWith_cons, elem_of_app, elem_of_cons. intros [H|[->|H]]; [right; exists t; split; [by left|done]|by left|].
    destruct (IH H) as [->|(x & Hx & Hc)]; [by left|right]. exists x. split; [by right|done].
Qed.

(** The process times in a line of [/proc/self/stat] are found whatever the
    name of the program is, spaces and parentheses included: the fields after
    the last parenthesis are counted. *)
Theorem processCPUNanos_exact pid comm fields utime stime clockTicks :
  Forall token fields -> Forall (fun t => 41 ∉ t) fields -> (13 <= length fields)%nat ->
  nth 11 fields [] = FormatUint utime -> nth 12 fields [] = FormatUint stime -> 0 <= utime < 2 ^ 64 -> 0 <= stime < 2 ^ 64 -> 0 < clockTicks < 2 ^ 63 ->
  processCPUNanos (Some (pid ++ bs " (" ++ comm ++ bs ") " ++ joinWith [32] fields ++ [10])) clockTicks =
    Some (u64 (u64 (utime + stime) * 1000000000) / clockTicks, true).
Proof.
  intros Ht Hp Hlen Eu Es Hu Hs Hc. unfold processCPUNanos.
  replace (pid ++ bs " (" ++ comm ++ bs ") " ++ joinWith [32] fields ++ [10]) with ((pid ++ bs " (" ++ comm) ++ 41 :: 32 :: joinWith [32] fields ++ [10]) by (by rewrite <- !app_assoc).
  rewrite afterLast_app.
  2:{ rewrite not_elem_of_cons, not_elem_of_app, list_elem_of_singleton. split; [done|]. split; [|done]. intros [H|(t & Hin & H)]%join_in; [done|].
      rewrite Forall_forall in Hp. by apply (Hp t Hin). }
  assert (Hne : fields <> []) by (intros ->; cbn in Hlen; lia).
  destruct (joinWith [32] fields ++ [10]) as [|x rest] eqn:Ej; [by apply app_nil in Ej as [_ Ej]|]. rewrite <- Ej, Fields_line by done.
  rewrite (proj2 (Nat.ltb_ge _ _)), Eu, Es, !ParseUint_Format by done. unfold u64 at 1. rewrite Z.mod_small by lia.
  rewrite (proj2 (Z.eqb_neq clockTicks 0)) by lia. unfold u64 at 3. by rewrite (Z.mod_small clockTicks) by lia.
Qed.

(** ** Witnesses *)

#[local] Instance amd64 : Conversions := fun _ => - 2 ^ 63.

(** A parser of digits only. *)
#[local] Instance digitParser : FloatParser := fun s => match digitsValue 10 s with Some n => inr (f64Of n) | None => inl "invalid syntax"%string end.

#[local] Instance digitParser_laws : FloatParserLaws digitParser.
Proof. intros s n H _. unfold ParseFloat, digitParser. by rewrite H. Qed.

Example parse_64K : parseSize (rev sizeUnits) (bs " 64 KB ") = inr 64000 /\ parseSize sizeUnits (bs "4k") = inr 4096 /\ parseSize sizeUnits (bs "0") = inl "invalid size"%string.
Proof. vm_compute. done. Qed.

Lemma parseSize_exact_witness : parseSize (rev sizeUnits) (bs " 64 MB ") = inr 64000000.
Proof.
  destruct (parseSize_exact (rev sizeUnits) (Permutation_sym (Permutation_rev sizeUnits))) as [_ H].
  exact (H (bs " ") (bs "64") (bs " ") (bs "MB") (bs " ") 64 1000000 eq_refl eq_refl ltac:(right; right; left) eq_refl eq_refl).
Defined.

Definition statFields : list bytes := [bs "S"; bs "1"; bs "1"; bs "0"; bs "-1"; bs "4"; bs "9"; bs "0"; bs "0"; bs "0"; bs "2"; bs "250"; bs "50"; bs "0"].

Lemma processCPUNanos_exact_witness :
  processCPUNanos (Some (bs "7 (" ++ bs "a) (b" ++ bs ") " ++ joinWith [32] statFields ++ [10])) 100 = Some (3000000000, true).
Proof.
  apply (processCPUNanos_exact (bs "7") (bs "a) (b") statFields 250 50 100); try reflexivity; try lia.
  - repeat constructor; done.
  - exact (bool_decide_unpack (Forall (fun t => 41 ∉ t) statFields) I).
  - cbn. lia.
Defined.
